(* ===== verification/_CoqProject ===== *)
-Q . S2P
Prelude.v
GoString.v
GoInt.v
GoFloat.v
GoJson.v
GoSort.v
GoTime.v
GoNet.v
Domain.v
Agent.v
Traffic.v
ProxyProtocol.v
GoRegexp.v
ValidatorBase.v
TlsSni.v
TargetSelection.v
Metrics.v
Listener.v
Forwarding.v
TrafficSpool.v
RuleValidator.v
NodeValidator.v
RequestValidator.v
DataplanePlan.v
ServiceErrors.v
ConfigCompiler.v
Records.v
NodeCoverage.v
RuleInput.v
TrafficLedger.v
Transaction.v
Authorizer.v
Database.v
RuleStore.v
AgentStore.v
DnsStore.v
DnsMarking.v
DnsEvaluation.v
MonitorStore.v
PresenceStore.v
NodePayload.v
Layout.v
Delimited.v
StoreLayout.v
DnsWalk.v
DnsFreshness.v
NodeLayout.v
RulePayload.v
ControlService.v
DnsInputs.v
GoUtf8.v
RuleDeployment.v
NodeConfig.v
AgentPresence.v
EnrollmentRelease.v
NodeService.v
RuleService.v
TargetService.v
RuleInvariant.v
NodeInvariant.v
ExampleDatabase.v
ConfigDelivery.v
ConfigSettlement.v
ConfigLayout.v
RuleChecks.v
Upstreams.v
AgentInvariant.v
TargetInvariant.v
DnsOperations.v
ControlPlane.v
DnsHistory.v
