(* ===== verification/Prelude.v ===== *)
(** * Prism: a verification library for the forwarding platform

    Prism is a control plane and its node agents.  The control plane validates
    what an operator enters (pkg/core/validator, pkg/core/service), stores it
    (pkg/core/repo) and compiles for every node the rules it must serve
    (service/config_compiler.go).  The agent plans which backend serves which
    rule (pkg/core/dataplane), opens the listeners, forwards TCP and UDP
    traffic to the chosen targets (pkg/core/forward), counts it and reports
    the counts until they are acknowledged (agent/traffic_spool.go).  The
    library follows a rule along this way: from the request over the stored
    record and the compiled configuration to the listener, the connection and
    the reported traffic.

    ** Foundations

    - Prelude.v: the [result] type of functions that return an error, the loop
      combinators ([fold_result], [reject_if]), lemmas on lists and the
      development's tactics.
    - GoString.v, GoInt.v, GoFloat.v, GoSort.v, GoTime.v, GoNet.v: the parts of
      Go and of its standard library the program calls: strings as byte strings
      (TrimSpace, Contains, Itoa, ...), 64-bit wrap-around, the binary64 facts
      behind the load comparison, stable sorting, RFC 3339 times, [net.ParseIP]
      and host/port strings.  Case mapping and white space beyond ASCII are a parameter (class
      [UnicodeTables]); [ascii_tables] is an instance.
    - GoRegexp.v: regular expressions as languages, for the host name pattern.
      GoJson.v: what [json.Unmarshal] makes of a text.

    ** Control plane

    - Domain.v: pkg/core/domain: binding conflicts, target groups, quotas.
    - ValidatorBase.v, RuleValidator.v, NodeValidator.v, RequestValidator.v:
      pkg/core/validator.  A request is accepted exactly under a stated
      condition and is then in stored form.
    - ServiceErrors.v, Records.v: the errors of the services with their chains,
      and the records of pkg/core/repo.
    - NodeCoverage.v, RuleInput.v: service/control_rule_helpers.go: whether the
      nodes of a group carry a rule, which addresses they share, and the second
      validation of a rule, which agrees with the first.
    - ConfigCompiler.v: service/config_compiler.go.  The configuration of a
      node contains exactly the rules placed on it that its agent understands,
      whatever the order of the inputs.

    ** Services over the database

    - Transaction.v: transactions that read, write, fail and roll back.
    - Database.v, RuleStore.v, AgentStore.v, DnsStore.v, MonitorStore.v,
      PresenceStore.v: the tables and the statements of pkg/core/repo on them:
      nodes, targets and rules; tokens, credentials and enrollment profiles;
      DNS records and instances; monitors and health checks; what agents report
      of themselves.
    - Authorizer.v: permissions and guards (service/control_authorizer.go); the
      authorizer is an interface, that of the open-source edition an instance.
    - ControlService.v, RuleDeployment.v, RulePayload.v, RuleService.v: the
      operations on rules (service/control_rules.go), each the transaction of
      the Go function from the checks on the input to the audit entry.
    - NodePayload.v, NodeService.v, TargetService.v: likewise the operations on
      nodes, targets and their groups (service/control_nodes.go,
      control_targets.go).  DnsMarking.v: the DNS records that a change of
      nodes affects; the operations answer which ones are to be evaluated after
      the commit.  EnrollmentRelease.v: what is given up with a node that never
      connected.
    - Layout.v: the abstract state of the services.  A layout is what the nodes
      offer (capacities) and where the enabled rules listen (placements); it
      is deployable when every placement is carried by the nodes of its group
      and no two placements want the same traffic of a node.
    - Delimited.v, StoreLayout.v: the layout that the tables denote, and what
      every statement does to it.  Bindings are shared between rules under a
      hash of their content; the texts that are hashed are assumed not to
      collide ([NoCollision]).
    - RuleInvariant.v, NodeLayout.v, NodeInvariant.v, ControlPlane.v: whatever
      is served keeps the layouts deployable.  RuleChecks.v: the checks accept
      exactly what fits, the limit on rules, the names of copies.
    - Upstreams.v, TargetInvariant.v, ControlPlane.v: whatever is served leaves
      every live rule an upstream that it can use.  AgentInvariant.v: so do the
      calls of agents, to which ControlPlane.v extends both invariants.
    - DnsEvaluation.v: what a managed DNS record evaluates to
      (service/control_dns_policy_evaluation.go): the conditions on the nodes,
      the instance that applies, its values, which may be those of another
      instance.  A chain of references has at most nine instances, as in the
      code.  DnsWalk.v: marking reaches every record that uses the output of an
      instance over such a chain.  DnsFreshness.v: what evaluations see of the
      nodes, and that marking the groups of a node finds every record whose
      evaluation can have changed.  DnsInputs.v, DnsOperations.v, DnsHistory.v:
      therefore no call leaves a record outdated and unmarked
      ([dns_policies_follow_nodes]).
    - GoUtf8.v, ExampleDatabase.v: runes of a string; an organization to
      evaluate the services on.

    ** Between control plane and agent

    - NodeConfig.v (service/control_agent_config.go,
      control_rule_deployment.go): the configuration of a node is compiled from
      the tables, and what the node answers is recorded: its own status with
      the time of the next attempt, the deployment of each rule, and the rules
      disabled because no node can run them.  AgentPresence.v: connections,
      hellos and updates of agents.  The digest of a configuration
      ([ConfigDigest]) and the release of the control plane ([AgentRelease])
      are parameters.
    - ConfigDelivery.v: the configuration that a node is given is the current
      one, and a failed one is offered again after 15 seconds to 5 minutes, by
      the number of failures.  The column that keeps the time of the next
      attempt ([TimestampColumn]) answers an instant within half a microsecond
      of the one written ([TimestampPrecision]).
    - ConfigSettlement.v: a configuration that was compiled, delivered and
      applied leaves the node up to date and its rules APPLIED; an example of a
      failure that is not recorded.
    - ConfigLayout.v: what the layout admits the agent can plan, up to the
      backends that rules on one listener prefer; an example of two rules whose
      preferences differ.

    A statement either has its effect or is refused by the database
    ([env_refuse]: constraints, triggers and failures), and a refusal aborts
    the transaction; a read that fails is taken as a refusal.  Rows are listed
    by text in bytewise order and time stamps are text, but no theorem depends
    on either.  Transactions are serial, and JSON columns hold the lists that
    they denote.

    ** Node agent

    - Agent.v, Traffic.v, TrafficSpool.v: the configuration records, the
      merging of traffic deltas, and the spool that holds them until they are
      acknowledged (pkg/core/agent); [spool_conservation] is its ledger over
      attempts, failed writes and restarts.
    - TrafficLedger.v: the other end of the spool.  The tables that record
      reports and counters (repo/targets_rules.go, migrations/core), the call
      that fills them (service/control_rule_traffic.go) and the messages that
      carry reports and acknowledgements (handler/agent_ws.go), joined with the
      spool in one step relation over an unreliable connection:
      [traffic_counted_once].  Transactions are taken as serial.
    - DataplanePlan.v: [Manager.plan] of pkg/core/dataplane, which refines
      "every rule has a backend that supports it and no two backends want the
      same listener".
    - ProxyProtocol.v, TlsSni.v: the wire formats a listener reads (pkg/core/forward):
      PROXY headers and the server name of a ClientHello.
    - TargetSelection.v, Metrics.v: the choice of a target and the counters.
    - Listener.v: the supervisor's configuration changes as a state machine on
      open sockets, with rollback.
    - Forwarding.v: one TCP connection and the UDP session table as sequences
      of counter calls and bytes moved.

    ** How code is rendered

    A Go function is a Gallina function of the same name; a method that changes
    its receiver takes and returns the state; [(T, error)] is [result]; a loop
    is a fold or a recursive function over the same list, with fuel only where
    the bound is stated (eight groups of an IPv6 address, the bytes of a
    ClientHello), and theorems state that this fuel is enough.  Integers are [Z]
    with wrap-around written out where the program adds.  A record has the
    fields of the struct.

    What the program takes from its surroundings is an argument: the order in
    which a map is ranged over, identifiers and time stamps that are generated,
    whether a write or an open succeeds, what a peer sends, the bytes already
    buffered, the digest of a configuration.  Theorems hold for every such
    argument.

    ** Not modelled

    Sockets, the file system, HTTP and WebSocket sessions, the SQL statements
    that no file above names and command execution are the environment, and so
    is the interleaving of goroutines below the granularity of a lock.  Of the
    DNS policies, the calls of providers, what is written back after them and
    the operations on records and instances are left out.  The manifest lists
    every component with its status. *)

From Stdlib Require Export ZArith Lia Strings.Byte Strings.Ascii Strings.String.
From stdpp Require Export base tactics numbers list gmap strings fin_maps sorting.


#[export] Set Warnings "-clear-no-such-hyp".

(** ** Results

    Go functions that return [(value, error)] return a [result] here.  The
    monad instances give the [x ← m; k] notation of stdpp the meaning of the
    usual [if err != nil { return ..., err }]. *)

Inductive result (E A : Type) : Type :=
| Ok (a : A)
| Err (e : E).
Arguments Ok {E A} a.
Arguments Err {E A} e.

#[export] Instance result_ret {E} : MRet (result E) := λ A a, Ok a.
#[export] Instance result_bind {E} : MBind (result E) := λ A B f m,
  match m with Ok a => f a | Err e => Err e end.
#[export] Instance result_fmap {E} : FMap (result E) := λ A B f m,
  match m with Ok a => Ok (f a) | Err e => Err e end.

#[export] Instance result_eq_dec {E A} `{EqDecision E, EqDecision A} :
  EqDecision (result E A).
Proof. solve_decision. Defined.

Definition is_ok {E A} (r : result E A) : bool :=
  match r with Ok _ => true | Err _ => false end.

(** Rewrite the error of a result, as [annotateBackendErrors] does. *)
Definition map_err {E F A} (f : E → F) (r : result E A) : result F A :=
  match r with Ok a => Ok a | Err e => Err (f e) end.

Lemma result_bind_ok {E A B} (m : result E A) (f : A → result E B) b :
  (m ≫= f) = Ok b ↔ ∃ a, m = Ok a ∧ f a = Ok b.
Proof.
  destruct m as [a|e]; simpl; split; [eauto| |done|].
  - by intros (? & [= ->] & ?).
  - by intros (? & ? & _).
Qed.

Lemma result_bind_err {E A B} (m : result E A) (f : A → result E B) e :
  (m ≫= f) = Err e ↔ m = Err e ∨ ∃ a, m = Ok a ∧ f a = Err e.
Proof.
  destruct m as [a|e']; simpl; split; [eauto| | |].
  - by intros [?|(? & [= ->] & ?)].
  - intros [= ->]. by left.
  - by intros [[= ->]|(? & ? & _)].
Qed.

(** Run [f] over a list, stopping at the first error: the Go loop
    [for _, x := range xs { if err := ...; err != nil { return err } ... }]
    threading an accumulator. *)
Fixpoint fold_result {E A S} (f : S → A → result E S) (s : S) (l : list A)
    : result E S :=
  match l with
  | [] => Ok s
  | x :: l' => match f s x with Ok s' => fold_result f s' l' | Err e => Err e end
  end.

Lemma fold_result_app {E A S} (f : S → A → result E S) s l1 l2 :
  fold_result f s (l1 ++ l2) =
  match fold_result f s l1 with Ok s' => fold_result f s' l2 | Err e => Err e end.
Proof.
  revert s. induction l1 as [|x l1 IH]; intros s; simpl; [done|].
  destruct (f s x); [apply IH|done].
Qed.

(** Invariant rule for an accumulator loop. *)
Lemma fold_result_ind {E A S} (f : S → A → result E S) (P : list A → S → Prop) s0 :
  P [] s0 →
  (∀ l x s s', P l s → f s x = Ok s' → P (l ++ [x]) s') →
  ∀ l s, fold_result f s0 l = Ok s → P l s.
Proof.
  intros H0 Hstep l. induction l as [|x l IH] using rev_ind; intros s; simpl.
  - by intros [= <-].
  - rewrite fold_result_app. destruct (fold_result f s0 l) as [s1|e] eqn:E1; [|done].
    simpl. destruct (f s1 x) as [s2|e] eqn:E2; [|done]. intros [= <-]. eauto.
Qed.

(** Invariant rule for a [foldl]. *)
Lemma foldl_ind {A S} (f : S → A → S) (P : list A → S → Prop) s0 :
  P [] s0 → (∀ l x s, P l s → P (l ++ [x]) (f s x)) → ∀ l, P l (foldl f s0 l).
Proof.
  intros H0 Hstep l. induction l as [|x l IH] using rev_ind; simpl; [done|].
  rewrite foldl_app. simpl. by apply Hstep.
Qed.

(** ** Booleans and lists *)

Lemma existsb_elem_of {A} (f : A → bool) l :
  existsb f l = true ↔ ∃ x, x ∈ l ∧ f x = true.
Proof.
  rewrite existsb_exists. by setoid_rewrite list_elem_of_In.
Qed.

Lemma existsb_false {A} (f : A → bool) l :
  existsb f l = false ↔ ∀ x, x ∈ l → f x = false.
Proof.
  rewrite <-not_true_iff_false, existsb_elem_of. split.
  - intros H x Hx. destruct (f x) eqn:E; [|done]. exfalso; eauto.
  - intros H (x & Hx & E). rewrite (H x Hx) in E. done.
Qed.

Lemma existsb_perm {A} (f : A → bool) l k : l ≡ₚ k → existsb f l = existsb f k.
Proof.
  intros E. apply eq_true_iff_eq. rewrite !existsb_elem_of. by setoid_rewrite E.
Qed.

Lemma forallb_elem_of {A} (f : A → bool) l :
  forallb f l = true ↔ ∀ x, x ∈ l → f x = true.
Proof. rewrite forallb_forall. by setoid_rewrite list_elem_of_In. Qed.

Lemma filterb_split {A} (f : A → bool) (l : list A) :
  Permutation l (List.filter f l ++ List.filter (λ x, negb (f x)) l).
Proof.
  induction l as [|x l IH]; simpl; [done|].
  destruct (f x); simpl; [by constructor|].
  by rewrite <-Permutation_middle, <-IH.
Qed.

Lemma elem_of_filterb {A} (f : A → bool) (l : list A) x :
  x ∈ List.filter f l ↔ x ∈ l ∧ f x = true.
Proof. by rewrite !list_elem_of_In, filter_In. Qed.

Lemma filterb_all {A} (f : A → bool) l : (∀ x, x ∈ l → f x = true) → List.filter f l = l.
Proof.
  induction l as [|x l IH]; intros Hf; cbn; [done|]. rewrite Hf by left. f_equal. apply IH. intros y Hy. apply Hf. by right.
Qed.
Lemma filterb_none {A} (f : A → bool) l : (∀ x, x ∈ l → f x = false) → List.filter f l = [].
Proof.
  induction l as [|x l IH]; intros Hf; cbn; [done|]. rewrite Hf by left. apply IH. intros y Hy. apply Hf. by right.
Qed.
Lemma foldl_step_ext {A S} (f g : S → A → S) s l :
  (∀ s x, f s x = g s x) → foldl f s l = foldl g s l.
Proof. intros E. revert s. induction l as [|x l IH]; intros s; simpl; [done|]. by rewrite E. Qed.

(** A loop that skips some elements and appends the image of the others. *)
Lemma foldl_skip {A B} (skip : A → bool) (g : A → B) l acc :
  foldl (λ r x, if skip x then r else r ++ [g x]) acc l
  = acc ++ map g (List.filter (λ x, negb (skip x)) l).
Proof.
  revert acc. induction l as [|x l IH]; intros acc; simpl; [by rewrite app_nil_r|].
  rewrite IH. destruct (skip x); simpl; [done|]. by rewrite <-app_assoc.
Qed.

Lemma StronglySorted_filterb {A} (R : A → A → Prop) (f : A → bool) l :
  StronglySorted R l → StronglySorted R (List.filter f l).
Proof.
  induction 1 as [|x l _ IH Hx]; simpl; [constructor|]. destruct (f x); [|done].
  constructor; [done|]. rewrite Forall_forall in *. intros y [Hy _]%elem_of_filterb. auto.
Qed.

Lemma elem_of_flat_map {A B} (f : A → list B) l y :
  y ∈ flat_map f l ↔ ∃ x, x ∈ l ∧ y ∈ f x.
Proof. rewrite list_elem_of_In, in_flat_map. by setoid_rewrite list_elem_of_In. Qed.

Lemma elem_of_map {A B} (f : A → B) l y : y ∈ map f l ↔ ∃ x, y = f x ∧ x ∈ l.
Proof. apply (list_elem_of_fmap f l y). Qed.

Lemma flat_map_perm {A B} (f : A → list B) l k : l ≡ₚ k → flat_map f l ≡ₚ flat_map f k.
Proof.
  induction 1 as [|x l k _ IH|x y l|l1 l2 l3 _ IH1 _ IH2]; simpl.
  - done.
  - by rewrite IH.
  - rewrite !app_assoc. apply Permutation_app_tail, Permutation_app_comm.
  - by rewrite IH1.
Qed.

(** Elements with the same key are the same, when keys are distinct. *)
Lemma NoDup_key_inj {A B} (f : A → B) l x y :
  NoDup (map f l) → x ∈ l → y ∈ l → f x = f y → x = y.
Proof.
  induction l as [|z l IH]; [by intros _ ?%not_elem_of_nil|]. cbn. intros [Hz Hl]%NoDup_cons Hx Hy Hf.
  assert (∀ w, w ∈ l → f w ≠ f z) as Hne.
  { intros w Hw E. apply Hz. apply elem_of_map. by exists w. }
  apply elem_of_cons in Hx as [->|Hx], Hy as [->|Hy]; [done|..].
  - by destruct (Hne y Hy).
  - by destruct (Hne x Hx).
  - by apply IH.
Qed.

Lemma filterb_perm {A} (f : A → bool) (l k : list A) :
  l ≡ₚ k → List.filter f l ≡ₚ List.filter f k.
Proof.
  induction 1 as [|x l k _ IH|x y l|l1 l2 l3 _ IH1 _ IH2]; simpl.
  - done.
  - destruct (f x); [by constructor|done].
  - destruct (f x), (f y); try done. constructor.
  - by rewrite IH1.
Qed.

(** ** Sums *)

Definition Zsum (l : list Z) : Z := foldr Z.add 0%Z l.

Lemma Zsum_app l k : Zsum (l ++ k) = (Zsum l + Zsum k)%Z.
Proof. unfold Zsum. induction l as [|x l IH]; simpl; [done|lia]. Qed.

#[export] Instance Zsum_perm : Proper ((≡ₚ) ==> (=)) Zsum.
Proof. induction 1; unfold Zsum in *; simpl in *; lia. Qed.

Lemma Zsum_nonneg l : Forall (λ x, 0 ≤ x)%Z l → (0 ≤ Zsum l)%Z.
Proof. induction 1; unfold Zsum in *; simpl; lia. Qed.

(** The sum of a weight over a finite map. *)
Definition msum {K V} `{Countable K} (g : K → V → Z) (m : gmap K V) : Z :=
  map_fold (λ k v a, g k v + a)%Z 0%Z m.

Section msum.
Context {K V : Type} `{Countable K}.
Implicit Types (g : K → V → Z) (m : gmap K V).

Lemma msum_empty g : msum g ∅ = 0%Z.
Proof. apply map_fold_empty. Qed.

Lemma msum_insert g m k v : m !! k = None → msum g (<[k:=v]> m) = (g k v + msum g m)%Z.
Proof.
  intros Hk. unfold msum. rewrite map_fold_insert_L; [done| |done].
  intros. lia.
Qed.

Lemma msum_delete g m k v : m !! k = Some v → msum g m = (g k v + msum g (delete k m))%Z.
Proof.
  intros Hk. rewrite <-(insert_delete_id m k v Hk) at 1. apply msum_insert, lookup_delete_eq.
Qed.

Lemma msum_lookup g m k :
  msum g m = (match m !! k with Some v => g k v | None => 0 end + msum g (delete k m))%Z.
Proof.
  destruct (m !! k) as [v|] eqn:E; [by apply msum_delete|]. by rewrite delete_id.
Qed.

Lemma msum_overwrite g m k v : msum g (<[k:=v]> m) = (g k v + msum g (delete k m))%Z.
Proof. rewrite (msum_lookup g _ k), lookup_insert_eq. by rewrite delete_insert_eq. Qed.

Lemma msum_ext g g' m : (∀ k v, m !! k = Some v → g k v = g' k v) → msum g m = msum g' m.
Proof.
  revert g g'. induction m as [|k v m Hk IH] using map_ind; intros g g' Hg; [by rewrite !msum_empty|].
  rewrite !msum_insert by done. rewrite (Hg k v), (IH g g'); [done| |by rewrite lookup_insert_eq].
  intros k' v' Hk'. apply Hg. rewrite lookup_insert_ne; [done|]. by intros ->; rewrite Hk in Hk'.
Qed.

Lemma msum_zero g m : (∀ k v, m !! k = Some v → g k v = 0%Z) → msum g m = 0%Z.
Proof.
  intros Hg. rewrite (msum_ext g (λ _ _, 0%Z)) by done.
  induction m as [|k v m Hk IH] using map_ind; [done|].
  rewrite msum_insert by done. rewrite IH; [done|].
  intros k' v' Hk'. apply Hg. rewrite lookup_insert_ne; [done|]. by intros ->; rewrite Hk in Hk'.
Qed.
End msum.

(** ** Automation *)

Create HintDb prism discriminated.

(** Split the boolean connectives in the context and simplify. *)
Ltac bool_hyps :=
  repeat match goal with
  | H : (_ && _)%bool = true |- _ => apply andb_true_iff in H as [? ?]
  | H : (_ || _)%bool = false |- _ => apply orb_false_iff in H as [? ?]
  | H : negb _ = true |- _ => apply negb_true_iff in H
  | H : negb _ = false |- _ => apply negb_false_iff in H
  | H : bool_decide _ = true |- _ => apply bool_decide_eq_true in H
  | H : bool_decide _ = false |- _ => apply bool_decide_eq_false in H
  | H : String.eqb _ _ = true |- _ => apply String.eqb_eq in H
  | H : String.eqb _ _ = false |- _ => apply String.eqb_neq in H
  | H : Z.eqb _ _ = true |- _ => apply Z.eqb_eq in H
  | H : Z.eqb _ _ = false |- _ => apply Z.eqb_neq in H
  | H : Z.leb _ _ = true |- _ => apply Z.leb_le in H
  | H : Z.leb _ _ = false |- _ => apply Z.leb_gt in H
  | H : Z.ltb _ _ = true |- _ => apply Z.ltb_lt in H
  | H : Z.ltb _ _ = false |- _ => apply Z.ltb_ge in H
  end.

(** Follow the early returns of a translated function: split every
    [if]/[match] of an equation [f x = Ok y] (or of the goal), and close the
    branches that end in the wrong constructor. *)
Ltac early_returns H :=
  repeat (match type of H with
          | context [match ?b with _ => _ end] =>
              lazymatch b with
              | context [match _ with _ => _ end] => fail
              | _ => let E := fresh "E" in destruct b eqn:E; simpl in H; try discriminate H
              end
          end).

Ltac inv_ok :=
  repeat match goal with
  | H : Ok _ = Ok _ |- _ => injection H as H; subst
  | H : Err _ = Err _ |- _ => injection H as H; subst
  | H : Ok _ = Err _ |- _ => discriminate H
  | H : Err _ = Ok _ |- _ => discriminate H
  | H : Some _ = Some _ |- _ => injection H as H; subst
  end.

Definition is_nil {A} (l : list A) : bool := match l with [] => true | _ => false end.
