(* ===== verification/GoString.v ===== *)
(** * Go strings and byte slices

    The part of Go's [strings], [bytes], [strconv] and [encoding/binary] that
    the modelled code uses.  A Go string is an immutable byte sequence: it is a
    [string] (a list of 8-bit [ascii]); a [[]byte] is a [list byte].

    Case mapping of non-ASCII text depends on Go's Unicode tables: it is the
    class [UnicodeTables].  On ASCII text (Go's own fast path) the functions
    are defined here. White space is Go's [unicode.IsSpace], in full: the
    functions that trim it compare against the UTF-8 encodings of the 25 space
    runes, which is what decoding rune by rune gives, since an invalid
    sequence decodes to U+FFFD, which is not a space. *)

From S2P Require Import Prelude.
#[local] Open Scope Z_scope.

Abbreviation bytes := (list byte).

(** ** Bytes as numbers *)

Definition b2z (b : byte) : Z := Z.of_N (Byte.to_N b).
Definition z2b (z : Z) : byte := default x00 (Byte.of_N (Z.to_N (z `mod` 256))).

Lemma b2z_range b : 0 ≤ b2z b < 256.
Proof. unfold b2z. pose proof (Byte.to_N_bounded b). lia. Qed.

Lemma b2z_z2b z : b2z (z2b z) = z `mod` 256.
Proof.
  unfold b2z, z2b. pose proof (Z.mod_pos_bound z 256 ltac:(lia)).
  destruct (Byte.of_N _) as [b|] eqn:E; simpl.
  - apply Byte.to_of_N in E. rewrite E. lia.
  - apply Byte.of_N_None_iff in E. lia.
Qed.

Lemma z2b_b2z b : z2b (b2z b) = b.
Proof.
  unfold z2b, b2z. pose proof (Byte.to_N_bounded b).
  rewrite Z.mod_small by lia. rewrite N2Z.id, Byte.of_to_N. done.
Qed.

#[export] Instance b2z_inj : Inj (=) (=) b2z.
Proof. intros b c E. rewrite <-(z2b_b2z b), <-(z2b_b2z c). by rewrite E. Qed.

#[export] Instance byte_eq_decision : EqDecision byte := Byte.byte_eq_dec.

Lemma byte_eqb_eq b c : Byte.eqb b c = true ↔ b = c.
Proof.
  split; [apply Byte.byte_dec_bl|apply Byte.byte_dec_lb].
Qed.

(** [binary.BigEndian.Uint16] and [PutUint16] on two bytes. *)
Definition be_uint16 (hi lo : byte) : Z := Z.lor (Z.shiftl (b2z hi) 8) (b2z lo).
Definition put_uint16 (z : Z) : bytes := [z2b (Z.shiftr z 8); z2b z].

Lemma lor_shift_add a b n : 0 ≤ n → 0 ≤ b < 2 ^ n → Z.lor (Z.shiftl a n) b = a * 2 ^ n + b.
Proof.
  intros Hn Hb. rewrite <-Z.shiftl_mul_pow2 by done.
  pose proof (Z.add_lor_land (Z.shiftl a n) b) as Hadd.
  enough (Z.land (Z.shiftl a n) b = 0) by lia.
  apply Z.bits_inj'. intros i Hi. rewrite Z.land_spec, Z.bits_0.
  destruct (decide (i < n)).
  - rewrite Z.shiftl_spec_low by lia. done.
  - enough (Z.testbit b i = false) as -> by apply andb_false_r.
    destruct (decide (b = 0)) as [->|]; [apply Z.bits_0|].
    apply Z.bits_above_log2; [lia|]. apply Z.log2_lt_pow2; [lia|].
    apply Z.lt_le_trans with (2 ^ n); [lia|apply Z.pow_le_mono_r; lia].
Qed.

Lemma be_uint16_eq hi lo : be_uint16 hi lo = b2z hi * 256 + b2z lo.
Proof.
  unfold be_uint16. rewrite lor_shift_add; [done|lia|].
  pose proof (b2z_range lo). lia.
Qed.

Lemma be_uint16_range hi lo : 0 ≤ be_uint16 hi lo < 65536.
Proof.
  rewrite be_uint16_eq. pose proof (b2z_range hi). pose proof (b2z_range lo). lia.
Qed.

Lemma put_uint16_roundtrip z :
  0 ≤ z < 65536 →
  be_uint16 (z2b (Z.shiftr z 8)) (z2b z) = z.
Proof.
  intros Hz. rewrite be_uint16_eq, !b2z_z2b, Z.shiftr_div_pow2 by lia.
  change (2 ^ 8) with 256. rewrite (Z.mod_small (z `div` 256)).
  - pose proof (Z.div_mod z 256). lia.
  - split; [apply Z.div_pos; lia|apply Z.div_lt_upper_bound; lia].
Qed.

Lemma be_uint16_put_inv hi lo :
  put_uint16 (be_uint16 hi lo) = [hi; lo].
Proof.
  unfold put_uint16. rewrite be_uint16_eq, Z.shiftr_div_pow2 by lia. change (2 ^ 8) with 256.
  pose proof (b2z_range hi) as Hh. pose proof (b2z_range lo) as Hl.
  rewrite Z.add_comm, Z.div_add by lia. rewrite (Z.div_small (b2z lo)) by lia.
  rewrite Z.add_0_l, z2b_b2z. f_equal. f_equal.
  unfold z2b. rewrite Z.mod_add by lia. apply (z2b_b2z lo).
Qed.

(** ** Conversions between strings and byte slices *)

Definition bytes_of (s : string) : bytes := list_byte_of_string s.
Definition string_of (l : bytes) : string := string_of_list_byte l.

Lemma string_of_bytes_of s : string_of (bytes_of s) = s.
Proof. apply string_of_list_byte_of_string. Qed.
Lemma bytes_of_string_of l : bytes_of (string_of l) = l.
Proof. apply list_byte_of_string_of_list_byte. Qed.

#[export] Instance bytes_of_inj : Inj (=) (=) bytes_of.
Proof. intros s t E. rewrite <-(string_of_bytes_of s), <-(string_of_bytes_of t). by rewrite E. Qed.
#[export] Instance string_of_inj : Inj (=) (=) string_of.
Proof. intros s t E. rewrite <-(bytes_of_string_of s), <-(bytes_of_string_of t). by rewrite E. Qed.

Lemma bytes_of_app s t : bytes_of (s ++ t)%string = bytes_of s ++ bytes_of t.
Proof.
  unfold bytes_of, list_byte_of_string. induction s as [|a s IH]; simpl; [done|].
  f_equal. apply IH.
Qed.

Lemma string_of_app l k : string_of (l ++ k) = (string_of l ++ string_of k)%string.
Proof. apply (inj bytes_of). by rewrite bytes_of_app, !bytes_of_string_of. Qed.

Lemma bytes_of_length s : length (bytes_of s) = String.length s.
Proof.
  unfold bytes_of, list_byte_of_string. induction s as [|a s IH]; simpl; [done|]. f_equal. apply IH.
Qed.

(** Go's [len(s)]. *)
Definition len (s : string) : Z := Z.of_nat (String.length s).

(** ** Byte-wise order on strings ([<] of Go) *)

Lemma ascii_ltb_lt a b : Ascii.ltb a b = true ↔ (N_of_ascii a < N_of_ascii b)%N.
Proof.
  unfold Ascii.ltb, Ascii.compare. destruct (N.compare_spec (N_of_ascii a) (N_of_ascii b));
    split; try done; lia.
Qed.

Lemma str_compare_lt_cons a s b t :
  String.ltb (String a s) (String b t) = true ↔
  (N_of_ascii a < N_of_ascii b)%N ∨ (a = b ∧ String.ltb s t = true).
Proof.
  unfold String.ltb; simpl. unfold Ascii.compare.
  destruct (N.compare_spec (N_of_ascii a) (N_of_ascii b)) as [E|E|E].
  - assert (a = b) as -> by (rewrite <-(ascii_N_embedding a), <-(ascii_N_embedding b); by rewrite E).
    split; [naive_solver|]. intros [?|[_ H]]; [lia|done].
  - split; [naive_solver|done].
  - split; [done|]. intros [?|[-> _]]; lia.
Qed.

Lemma str_ltb_irrefl s : String.ltb s s = false.
Proof.
  induction s as [|a s IH]; [done|].
  destruct (String.ltb (String a s) _) eqn:E; [|done].
  apply str_compare_lt_cons in E as [?|[_ ?]]; [lia|congruence].
Qed.

Lemma str_ltb_trans s t u :
  String.ltb s t = true → String.ltb t u = true → String.ltb s u = true.
Proof.
  revert t u. induction s as [|a s IH]; intros [|b t] [|c u]; try done.
  rewrite !str_compare_lt_cons. intros [?|[-> ?]] [?|[-> ?]]; [left; lia|by left|by left|].
  right; eauto.
Qed.

Lemma str_ltb_total s t : String.ltb s t = false → String.ltb t s = false → s = t.
Proof.
  revert t. induction s as [|a s IH]; intros [|b t]; try done.
  rewrite <-!not_true_iff_false, !str_compare_lt_cons. intros H1 H2.
  assert (a = b) as ->.
  { rewrite <-(ascii_N_embedding a), <-(ascii_N_embedding b). f_equal. naive_solver lia. }
  f_equal. apply IH; apply not_true_iff_false; naive_solver.
Qed.

(** ** Prefixes, suffixes, search *)

Fixpoint is_prefix (p l : bytes) : bool :=
  match p, l with
  | [], _ => true
  | b :: p', c :: l' => Byte.eqb b c && is_prefix p' l'
  | _ :: _, [] => false
  end.

Lemma is_prefix_spec p l : is_prefix p l = true ↔ ∃ r, l = p ++ r.
Proof.
  revert l. induction p as [|b p IH]; intros [|c l]; simpl.
  - split; eauto.
  - split; eauto.
  - split; [done|]. intros (r & ?); done.
  - rewrite andb_true_iff, byte_eqb_eq, IH. split.
    + intros (-> & r & ->). eauto.
    + intros (r & [= <- ->]). eauto.
Qed.

(** [bytes.Index(l, sep)]: the first position where [sep] occurs. *)
Fixpoint index_bytes (sep l : bytes) : option nat :=
  if is_prefix sep l then Some 0%nat
  else match l with [] => None | _ :: l' => S <$> index_bytes sep l' end.

Lemma index_bytes_app sep pre rest n :
  index_bytes sep (pre ++ sep ++ rest) = Some n → (n ≤ length pre)%nat.
Proof.
  revert n. induction pre as [|b pre IH]; intros n.
  - simpl. destruct sep as [|c sep]; simpl.
    + destruct rest; intros [= <-]; done.
    + rewrite (proj2 (byte_eqb_eq c c) eq_refl); simpl.
      rewrite (proj2 (is_prefix_spec sep (sep ++ rest))) by eauto. by intros [= <-].
  - simpl. destruct (is_prefix _ _); [intros [= <-]; lia|].
    destruct (index_bytes sep (pre ++ sep ++ rest)) eqn:E; [|done].
    intros [= <-]. specialize (IH _ eq_refl). lia.
Qed.

Lemma index_bytes_some sep l n :
  index_bytes sep l = Some n → ∃ r, l = take n l ++ sep ++ r.
Proof.
  revert n. induction l as [|b l IH]; intros n; simpl.
  - destruct (is_prefix sep []) eqn:E; [|done]. intros [= <-].
    apply is_prefix_spec in E as (r & E). exists r. by simpl.
  - destruct (is_prefix sep (b :: l)) eqn:E.
    + intros [= <-]. apply is_prefix_spec in E as (r & E). exists r. by simpl.
    + destruct (index_bytes sep l) as [m|] eqn:E2; [|done]. intros [= <-].
      destruct (IH m eq_refl) as (r & Hr). exists r. simpl. by f_equal.
Qed.

Definition HasPrefix (s p : string) : bool := is_prefix (bytes_of p) (bytes_of s).
Definition HasSuffix (s p : string) : bool :=
  is_prefix (rev (bytes_of p)) (rev (bytes_of s)).
Definition TrimPrefix (s p : string) : string :=
  if HasPrefix s p then string_of (drop (length (bytes_of p)) (bytes_of s)) else s.
Definition Contains (s p : string) : bool :=
  match index_bytes (bytes_of p) (bytes_of s) with Some _ => true | None => false end.
(** [strings.ContainsAny(s, chars)] for ASCII [chars]. *)
Definition ContainsAny (s chars : string) : bool :=
  existsb (λ b, existsb (Byte.eqb b) (bytes_of chars)) (bytes_of s).

(** [strings.Split(s, sep)] for a one-byte separator. *)
Fixpoint split_byte (sep : byte) (l cur : bytes) : list bytes :=
  match l with
  | [] => [cur]
  | b :: l' => if Byte.eqb b sep then cur :: split_byte sep l' []
               else split_byte sep l' (cur ++ [b])
  end.
Definition SplitByte (s : string) (sep : byte) : list string :=
  map string_of (split_byte sep (bytes_of s) []).

(** [strings.Join]. *)
Definition Join (l : list string) (sep : string) : string := String.concat sep l.

(** [strings.Cut(s, sep)] for a one-byte separator: text before, text after. *)
Fixpoint cut_byte (sep : byte) (l : bytes) : option (bytes * bytes) :=
  match l with
  | [] => None
  | b :: l' => if Byte.eqb b sep then Some ([], l')
               else match cut_byte sep l' with
                    | Some (x, y) => Some (b :: x, y) | None => None end
  end.

(** [strings.ReplaceAll(s, c, q)] for a one-byte [c] and empty [q]. *)
Definition remove_byte (c : byte) (s : string) : string :=
  string_of (List.filter (λ b, negb (Byte.eqb b c)) (bytes_of s)).

(** ** Trimming

    [strip ws] removes, as long as possible, a leading word of [ws]. *)

Fixpoint strip (ws : list bytes) (fuel : nat) (l : bytes) : bytes :=
  match fuel with
  | O => l
  | S f => match List.find (λ w, is_prefix w l) ws with
           | Some w => strip ws f (drop (length w) l)
           | None => l
           end
  end.
Definition trim_left (ws : list bytes) (l : bytes) : bytes := strip ws (length l) l.
Definition trim_right (ws : list bytes) (l : bytes) : bytes :=
  rev (strip (map (@rev byte) ws) (length l) (rev l)).
Definition trim (ws : list bytes) (l : bytes) : bytes := trim_right ws (trim_left ws l).

(** The UTF-8 encodings of the runes that satisfy [unicode.IsSpace]. *)
Definition space_runes : list bytes :=
  [ [x09]; [x0a]; [x0b]; [x0c]; [x0d]; [x20]; [xc2; x85]; [xc2; xa0]; [xe1; x9a; x80];
    [xe2; x80; x80]; [xe2; x80; x81]; [xe2; x80; x82]; [xe2; x80; x83]; [xe2; x80; x84];
    [xe2; x80; x85]; [xe2; x80; x86]; [xe2; x80; x87]; [xe2; x80; x88]; [xe2; x80; x89];
    [xe2; x80; x8a]; [xe2; x80; xa8]; [xe2; x80; xa9]; [xe2; x80; xaf]; [xe2; x81; x9f];
    [xe3; x80; x80] ].

Definition TrimSpace (s : string) : string := string_of (trim space_runes (bytes_of s)).
(** [strings.Trim(s, cutset)] for an ASCII cutset: it works byte by byte. *)
Definition Trim (s cutset : string) : string :=
  string_of (trim (map (λ b, [b]) (bytes_of cutset)) (bytes_of s)).
Definition TrimRight (s cutset : string) : string :=
  string_of (trim_right (map (λ b, [b]) (bytes_of cutset)) (bytes_of s)).

(** [strings.Fields]: the maximal runs of non-space text.  No space rune
    starts at a continuation byte, so scanning byte by byte meets the same
    space runes as decoding rune by rune. *)
Definition flush (cur : bytes) : list bytes := match cur with [] => [] | _ => [cur] end.
Fixpoint fields (fuel : nat) (l cur : bytes) : list bytes :=
  match fuel, l with
  | S f, b :: l' =>
      match List.find (λ w, is_prefix w l) space_runes with
      | Some w => flush cur ++ fields f (drop (length w) l) []
      | None => fields f l' (cur ++ [b])
      end
  | _, _ => flush cur
  end.
Definition Fields (s : string) : list string :=
  map string_of (fields (String.length s) (bytes_of s) []).

Section trim.
Context (ws : list bytes) (Hws : Forall (λ w, w ≠ []) ws).

Definition no_prefix (l : bytes) : Prop := ∀ w, w ∈ ws → is_prefix w l = false.

Lemma find_no_prefix l : List.find (λ w, is_prefix w l) ws = None ↔ no_prefix l.
Proof.
  unfold no_prefix. split.
  - intros H w Hw. eapply (List.find_none (λ w, is_prefix w l) ws); [done|by apply list_elem_of_In].
  - intros H. destruct (List.find _ ws) as [w|] eqn:E; [|done].
    apply List.find_some in E as [Hin E]. rewrite H in E; [done|by apply list_elem_of_In].
Qed.

Lemma strip_suffix fuel l : ∃ p, l = p ++ strip ws fuel l.
Proof.
  revert l. induction fuel as [|f IH]; intros l; simpl; [by exists []|].
  destruct (List.find _ ws) as [w|] eqn:E; [|by exists []].
  apply List.find_some in E as [_ E]. apply is_prefix_spec in E as (r & ->).
  rewrite drop_app_length. destruct (IH r) as (p & Hp). exists (w ++ p).
  by rewrite <-app_assoc, <-Hp.
Qed.

Lemma strip_stop fuel l : (length l ≤ fuel)%nat → no_prefix (strip ws fuel l).
Proof using Hws.
  revert l. induction fuel as [|f IH]; intros l Hl; simpl.
  - assert (l = []) as -> by (destruct l; simpl in *; [done|lia]).
    intros w Hw. rewrite Forall_forall in Hws. specialize (Hws w Hw). by destruct w.
  - destruct (List.find _ ws) as [w|] eqn:E; [|by apply find_no_prefix].
    apply List.find_some in E as [Hin E]. apply IH.
    rewrite Forall_forall in Hws. specialize (Hws w ltac:(by apply list_elem_of_In)).
    rewrite length_drop. destruct w; [done|]. simpl.
    apply is_prefix_spec in E as (r & ->). simpl in *. lia.
Qed.

Lemma strip_id fuel l : no_prefix l → strip ws fuel l = l.
Proof.
  intros H. destruct fuel; simpl; [done|]. by rewrite (proj2 (find_no_prefix l) H).
Qed.

Lemma no_prefix_app l x : no_prefix (l ++ x) → no_prefix l.
Proof.
  intros H w Hw. specialize (H w Hw). destruct (is_prefix w l) eqn:E; [|done].
  apply is_prefix_spec in E as (r & ->).
  rewrite <-H. symmetry. apply is_prefix_spec. exists (r ++ x). by rewrite <-app_assoc.
Qed.
End trim.

Lemma map_rev_nonempty ws : Forall (λ w : bytes, w ≠ []) ws → Forall (λ w, w ≠ []) (map (@rev byte) ws).
Proof.
  intros H. apply Forall_forall. intros w Hw. apply list_elem_of_In, in_map_iff in Hw.
  destruct Hw as (v & <- & Hv). rewrite Forall_forall in H.
  specialize (H v ltac:(by apply list_elem_of_In)). intros E. apply H.
  apply (f_equal (@rev byte)) in E. by rewrite rev_involutive in E.
Qed.

(** What trimming leaves starts and ends with no trimmed word, and trimming is
    idempotent. *)
Definition trimmed (ws : list bytes) (l : bytes) : Prop :=
  no_prefix ws l ∧ no_prefix (map (@rev byte) ws) (rev l).

Lemma trim_trimmed ws l : Forall (λ w, w ≠ []) ws → trimmed ws (trim ws l).
Proof.
  intros H. unfold trim, trim_right. split.
  - destruct (strip_suffix (map (@rev byte) ws) (length (trim_left ws l)) (rev (trim_left ws l)))
      as (p & Hp).
    set (k := strip _ _ _) in *.
    apply no_prefix_app with (rev p). rewrite <-rev_app_distr, <-Hp, rev_involutive.
    by apply strip_stop.
  - rewrite rev_involutive. apply strip_stop; [by apply map_rev_nonempty|].
    by rewrite length_rev.
Qed.

Lemma trimmed_trim ws l : trimmed ws l → trim ws l = l.
Proof.
  intros [H1 H2]. unfold trim, trim_right, trim_left.
  rewrite (strip_id ws (length l) l H1). rewrite strip_id by done. apply rev_involutive.
Qed.

Lemma space_runes_nonempty : Forall (λ w, w ≠ []) space_runes.
Proof. by repeat constructor. Qed.

Lemma TrimSpace_idemp s : TrimSpace (TrimSpace s) = TrimSpace s.
Proof.
  unfold TrimSpace. rewrite bytes_of_string_of. f_equal.
  apply trimmed_trim, trim_trimmed, space_runes_nonempty.
Qed.

(** ASCII printing characters other than the blank. *)
Definition graphic (b : byte) : bool := (33 <=? b2z b) && (b2z b <=? 126).

Lemma graphic_no_prefix ws l :
  forallb (λ w, match w with b :: _ => negb (graphic b) | [] => false end) ws = true →
  match l with b :: _ => graphic b = true | [] => True end → no_prefix ws l.
Proof.
  intros Hws Hl w Hw. rewrite forallb_elem_of in Hws. specialize (Hws w Hw).
  destruct w as [|b w]; [done|]. destruct l as [|c l]; [done|]. simpl.
  destruct (Byte.eqb b c) eqn:E; [|done]. apply byte_eqb_eq in E as ->.
  rewrite Hl in Hws. done.
Qed.

Lemma trim_space_graphic l : Forall (λ b, graphic b = true) l → trim space_runes l = l.
Proof.
  intros H. apply trimmed_trim. split.
  - apply graphic_no_prefix; [by vm_compute|]. destruct l; [done|]. by inversion H.
  - apply graphic_no_prefix; [by vm_compute|].
    apply Forall_rev in H. destruct (rev l); [done|]. by inversion H.
Qed.

(** ** Letter case *)

Class UnicodeTables := {
  unicode_to_upper : string → string;
  unicode_to_lower : string → string;
  unicode_equal_fold : string → string → bool
}.

(** Go's tables restricted to ASCII text: an instance to compute with. *)
Definition ascii_tables : UnicodeTables := {|
  unicode_to_upper := λ s, s; unicode_to_lower := λ s, s;
  unicode_equal_fold := String.eqb |}.

Definition is_ascii (s : string) : bool := forallb (λ b, b2z b <? 128) (bytes_of s).
Definition upper_byte (b : byte) : byte :=
  if (97 <=? b2z b) && (b2z b <=? 122) then z2b (b2z b - 32) else b.
Definition lower_byte (b : byte) : byte :=
  if (65 <=? b2z b) && (b2z b <=? 90) then z2b (b2z b + 32) else b.

Definition ascii_upper (s : string) : string := string_of (map upper_byte (bytes_of s)).
Definition ascii_lower (s : string) : string := string_of (map lower_byte (bytes_of s)).

Section case.
Context `{UnicodeTables}.
Definition ToUpper (s : string) : string :=
  if is_ascii s then ascii_upper s else unicode_to_upper s.
Definition ToLower (s : string) : string :=
  if is_ascii s then ascii_lower s else unicode_to_lower s.
Definition EqualFold (s t : string) : bool :=
  if is_ascii s && is_ascii t then String.eqb (ascii_lower s) (ascii_lower t)
  else unicode_equal_fold s t.
End case.

(** ** Decimal numbers: [strconv.Itoa] and [strconv.Atoi] *)

Definition digit (n : N) : byte := z2b (48 + Z.of_N n).
Definition is_digit (b : byte) : bool := (48 <=? b2z b) && (b2z b <=? 57).

Fixpoint digits (fuel : nat) (n : N) (acc : bytes) : bytes :=
  match fuel with
  | O => acc
  | S f => let acc' := digit (n mod 10) :: acc in
           if (n <? 10)%N then acc' else digits f (n / 10) acc'
  end.
Definition itoa_bytes (z : Z) : bytes :=
  let n := Z.abs_N z in
  let ds := digits (S (N.to_nat (N.size n))) n [] in
  if z <? 0 then x2d :: ds else ds.
Definition Itoa (z : Z) : string := string_of (itoa_bytes z).

Definition min_int64 : Z := - 2 ^ 63.
Definition max_int64 : Z := 2 ^ 63 - 1.

Fixpoint digits_value (l : bytes) (acc : Z) : option Z :=
  match l with
  | [] => Some acc
  | b :: l' => if is_digit b then digits_value l' (acc * 10 + (b2z b - 48)) else None
  end.
(** [None] stands for both syntax and range errors. *)
Definition atoi_bytes (l : bytes) : option Z :=
  let '(neg, ds) := match l with
                    | b :: l' => if Byte.eqb b x2d then (true, l')
                                 else if Byte.eqb b x2b then (false, l') else (false, l)
                    | [] => (false, l) end in
  match ds with
  | [] => None
  | _ => v ← digits_value ds 0;
         let z := if neg : bool then - v else v in
         if (min_int64 <=? z) && (z <=? max_int64) then Some z else None
  end.
Definition Atoi (s : string) : option Z := atoi_bytes (bytes_of s).

Lemma b2z_digit n : (n < 10)%N → b2z (digit n) = 48 + Z.of_N n.
Proof. intros H. unfold digit. rewrite b2z_z2b, Z.mod_small by lia. done. Qed.

Lemma digit_is_digit n : (n < 10)%N → is_digit (digit n) = true.
Proof. intros H. unfold is_digit. rewrite b2z_digit by done. lia. Qed.

Lemma digits_value_app l1 l2 acc :
  digits_value (l1 ++ l2) acc = digits_value l1 acc ≫= digits_value l2.
Proof.
  revert acc. induction l1 as [|b l1 IH]; intros acc; simpl; [done|].
  destruct (is_digit b); [apply IH|done].
Qed.

Lemma digits_acc fuel n acc : digits fuel n acc = digits fuel n [] ++ acc.
Proof.
  revert n acc. induction fuel as [|f IH]; intros n acc; simpl; [done|].
  destruct (n <? 10)%N; [done|].
  rewrite IH. symmetry. rewrite IH. rewrite <-app_assoc. done.
Qed.

Lemma digits_all fuel n : Forall (λ b, is_digit b = true) (digits fuel n []).
Proof.
  revert n. induction fuel as [|f IH]; intros n; simpl; [done|].
  assert (is_digit (digit (n mod 10)) = true) by (apply digit_is_digit, N.mod_lt; lia).
  destruct (n <? 10)%N; [by repeat constructor|].
  rewrite digits_acc. apply Forall_app. by repeat constructor.
Qed.

Lemma digits_value_digits fuel n :
  (n < 10 ^ N.of_nat fuel)%N → digits_value (digits fuel n []) 0 = Some (Z.of_N n).
Proof.
  revert n. induction fuel as [|f IH]; intros n Hn.
  - simpl in *. by assert (n = 0)%N as -> by lia.
  - simpl digits. pose proof (N.mod_lt n 10 ltac:(lia)).
    destruct (N.ltb_spec n 10).
    + simpl. rewrite digit_is_digit, b2z_digit by done.
      rewrite N.mod_small by done. f_equal. lia.
    + rewrite digits_acc, digits_value_app, IH.
      * simpl. rewrite digit_is_digit, b2z_digit by done. f_equal.
        pose proof (N.div_mod n 10). lia.
      * apply N.Div0.div_lt_upper_bound. rewrite <-N.pow_succ_r'. by rewrite <-Nat2N.inj_succ.
Qed.

Lemma itoa_fuel n : (n < 10 ^ N.of_nat (S (N.to_nat (N.size n))))%N.
Proof.
  rewrite Nat2N.inj_succ, N2Nat.id, N.pow_succ_r'.
  pose proof (N.size_gt n). pose proof (N.pow_le_mono_l 2 10 (N.size n) ltac:(lia)). lia.
Qed.

Lemma digits_cons fuel n : ∃ b l, digits (S fuel) n [] = b :: l ∧ is_digit b = true.
Proof.
  pose proof (digits_all (S fuel) n) as H.
  destruct (digits (S fuel) n []) as [|b l] eqn:E; [|inversion H; eauto].
  simpl in E. destruct (n <? 10)%N; [done|]. rewrite digits_acc in E.
  by destruct (digits fuel (n / 10) []).
Qed.

Lemma Atoi_Itoa z : min_int64 ≤ z ≤ max_int64 → Atoi (Itoa z) = Some z.
Proof.
  intros Hz. unfold Atoi, Itoa. rewrite bytes_of_string_of. unfold itoa_bytes.
  set (n := Z.abs_N z). pose proof (digits_value_digits _ n (itoa_fuel n)) as Hv.
  destruct (digits_cons (N.to_nat (N.size n)) n) as (b & l & Hbl & Hb).
  rewrite Hbl in *. unfold atoi_bytes.
  assert ((min_int64 <=? z) && (z <=? max_int64) = true) as Hrng by lia.
  destruct (Z.ltb_spec z 0).
  - change (Byte.eqb x2d x2d) with true. cbv beta iota.
    rewrite Hv. simpl. replace (- Z.of_N n) with z by lia. by rewrite Hrng.
  - assert (Byte.eqb b x2d = false ∧ Byte.eqb b x2b = false) as [-> ->].
    { split; (destruct (Byte.eqb b _) eqn:E; [apply byte_eqb_eq in E as ->; done|done]). }
    cbv beta iota. rewrite Hv. simpl. replace (Z.of_N n) with z by lia. by rewrite Hrng.
Qed.

Lemma digit_graphic b : is_digit b = true → graphic b = true.
Proof. unfold is_digit, graphic. lia. Qed.

Lemma itoa_graphic z : Forall (λ b, graphic b = true) (itoa_bytes z).
Proof.
  unfold itoa_bytes. assert (∀ k n, Forall (λ b, graphic b = true) (digits k n [])) as H.
  { intros. eapply Forall_impl; [apply digits_all|]. apply digit_graphic. }
  destruct (z <? 0); [by constructor|done].
Qed.

Lemma itoa_digits z : 0 ≤ z → Forall (λ b, is_digit b = true) (itoa_bytes z).
Proof.
  intros Hz. unfold itoa_bytes. destruct (Z.ltb_spec z 0); [lia|]. apply digits_all.
Qed.

Lemma itoa_nonempty z : itoa_bytes z ≠ [].
Proof.
  unfold itoa_bytes. destruct (digits_cons (N.to_nat (N.size (Z.abs_N z))) (Z.abs_N z))
    as (b & l & -> & _). by destruct (z <? 0).
Qed.

#[export] Hint Resolve digit_graphic itoa_graphic space_runes_nonempty b2z_range : prism.

(** ** Slices that can panic

    An index or slice expression out of range panics; [fault E] tells a
    returned error from a panic.  (Go lets a slice expression reach up to the
    capacity; the model stops at the length, so it panics at least as often.) *)

Inductive fault (E : Type) : Type :=
| Error (e : E)
| Panic.
Arguments Error {E} e.
Arguments Panic {E}.

Section slices.
Context {E : Type}.

Definition index_at (l : bytes) (i : Z) : result (fault E) byte :=
  if (0 <=? i) && (i <? Z.of_nat (length l)) then Ok (nth (Z.to_nat i) l x00) else Err Panic.
Definition slice (l : bytes) (lo hi : Z) : result (fault E) bytes :=
  if (0 <=? lo) && (lo <=? hi) && (hi <=? Z.of_nat (length l))
  then Ok (take (Z.to_nat (hi - lo)) (drop (Z.to_nat lo) l)) else Err Panic.
(** [binary.BigEndian.Uint16(b)] panics on fewer than two bytes. *)
Definition Uint16 (l : bytes) : result (fault E) Z :=
  match l with b0 :: b1 :: _ => Ok (be_uint16 b0 b1) | _ => Err Panic end.

Lemma index_at_ok l i : 0 ≤ i < Z.of_nat (length l) → index_at l i = Ok (nth (Z.to_nat i) l x00).
Proof. intros H. unfold index_at. by replace (_ && _) with true by lia. Qed.
Lemma slice_ok l lo hi : 0 ≤ lo ≤ hi → hi ≤ Z.of_nat (length l) →
  slice l lo hi = Ok (take (Z.to_nat (hi - lo)) (drop (Z.to_nat lo) l)).
Proof. intros H1 H2. unfold slice. by replace (_ && _) with true by lia. Qed.
Lemma slice_length l lo hi k : slice l lo hi = Ok k → Z.of_nat (length k) = hi - lo.
Proof.
  unfold slice. destruct (_ && _) eqn:E'; [|done]. intros [= <-].
  rewrite length_take, length_drop. lia.
Qed.
Lemma Uint16_ok l : (2 ≤ length l)%nat → ∃ z, Uint16 l = Ok z ∧ 0 ≤ z < 65536.
Proof.
  destruct l as [|b0 [|b1 l]]; simpl; try lia. intros _. eexists; split; [done|].
  apply be_uint16_range.
Qed.
(** The two-byte big-endian number at an offset in range. *)
Lemma slice_uint16 l c : 0 ≤ c → c + 2 ≤ Z.of_nat (length l) →
  ∃ z, (k ← slice l c (c + 2); Uint16 k) = Ok z ∧ 0 ≤ z < 65536.
Proof.
  intros H1 H2. rewrite slice_ok by lia. simpl. apply Uint16_ok.
  rewrite length_take, length_drop. lia.
Qed.

Lemma slice_app_mid (p l s : bytes) lo hi :
  lo = Z.of_nat (length p) → hi = lo + Z.of_nat (length l) →
  slice (p ++ l ++ s) lo hi = Ok l.
Proof.
  intros -> ->. rewrite slice_ok by (rewrite ?length_app; lia).
  rewrite Nat2Z.id, drop_app_length.
  replace (Z.to_nat _) with (length l) by lia. by rewrite take_app_length.
Qed.
Lemma index_at_app (p : bytes) b s i :
  i = Z.of_nat (length p) → index_at (p ++ b :: s) i = Ok b.
Proof.
  intros ->. rewrite index_at_ok by (rewrite length_app; simpl; lia).
  rewrite Nat2Z.id. f_equal. rewrite app_nth2 by lia. by rewrite Nat.sub_diag.
Qed.
End slices.

(** ** Words separated by blanks *)

Lemma find_space_graphic b l :
  graphic b = true → List.find (λ w, is_prefix w (b :: l)) space_runes = None.
Proof.
  intros Hb. apply find_no_prefix, graphic_no_prefix; [by vm_compute|done].
Qed.

Lemma fields_graphic w f rest cur :
  Forall (λ b, graphic b = true) w →
  fields (length w + f) (w ++ rest) cur = fields f rest (cur ++ w).
Proof.
  intros H. revert cur. induction H as [|b w Hb _ IH]; intros cur; [by rewrite app_nil_r|].
  cbn [length Nat.add fields app]. rewrite find_space_graphic by done.
  rewrite IH, <-app_assoc. done.
Qed.

Lemma fields_blank f rest cur : fields (S f) (x20 :: rest) cur = flush cur ++ fields f rest [].
Proof. reflexivity. Qed.

(** The fields of words joined by single blanks are the words. *)
Fixpoint join_blank (ws : list bytes) : bytes :=
  match ws with [] => [] | [w] => w | w :: ws' => w ++ x20 :: join_blank ws' end.

Lemma fields_join_blank ws :
  Forall (λ w, w ≠ [] ∧ Forall (λ b, graphic b = true) w) ws →
  fields (length (join_blank ws)) (join_blank ws) [] = ws.
Proof.
  induction 1 as [|w ws [Hne Hw] Hws IH]; [done|].
  assert (flush w = [w]) as Hf by (by destruct w).
  destruct ws as [|v ws].
  - simpl. rewrite <-(app_nil_r w) at 2. rewrite <-(Nat.add_0_r (length w)).
    rewrite fields_graphic by done. simpl. done.
  - change (join_blank (w :: v :: ws)) with (w ++ x20 :: join_blank (v :: ws)).
    rewrite length_app. cbn [length]. rewrite fields_graphic by done.
    rewrite fields_blank, IH. simpl. by rewrite Hf.
Qed.

Lemma index_crlf_app body rest :
  x0d ∉ body → index_bytes [x0d; x0a] (body ++ [x0d; x0a] ++ rest) = Some (length body).
Proof.
  induction body as [|b body IH]; intros H; [done|].
  apply not_elem_of_cons in H as [Hb H]. simpl app. cbn [index_bytes is_prefix].
  destruct (Byte.eqb x0d b) eqn:E; [by apply byte_eqb_eq in E|]. simpl.
  simpl in IH. by rewrite (IH H).
Qed.

Lemma graphic_not_elem l b : graphic b = false → Forall (λ b, graphic b = true) l → b ∉ l.
Proof. intros Hb Hl Hin. rewrite Forall_forall in Hl. rewrite Hl in Hb; done. Qed.

(** ** Absence of panics

    [safe_m P r]: [r] does not panic, and a returned value satisfies [P]. *)

Definition safe_m {E A} (P : A → Prop) (r : result (fault E) A) : Prop :=
  match r with Ok a => P a | Err (Error _) => True | Err Panic => False end.

Section safe.
Context {E : Type}.

Lemma safe_ok {A} (P : A → Prop) a : P a → safe_m (E:=E) P (Ok a).
Proof. done. Qed.
Lemma safe_error {A} (P : A → Prop) (e : E) : safe_m P (Err (Error e)).
Proof. done. Qed.
Lemma safe_bind {A B} (P : A → Prop) (Q : B → Prop) m (f : A → result (fault E) B) :
  safe_m P m → (∀ a, P a → safe_m Q (f a)) → safe_m Q (m ≫= f).
Proof. destruct m as [a|[e|]]; simpl; auto. Qed.
Lemma safe_mono {A} (P Q : A → Prop) (m : result (fault E) A) :
  safe_m P m → (∀ a, P a → Q a) → safe_m Q m.
Proof. destruct m as [a|[e|]]; simpl; auto. Qed.
Lemma safe_not_panic {A} (P : A → Prop) (m : result (fault E) A) : safe_m P m → m ≠ Err Panic.
Proof. by intros H ->. Qed.
Lemma safe_use {A} (P : A → Prop) (m : result (fault E) A) a : safe_m P m → m = Ok a → P a.
Proof. by intros H ->. Qed.

Lemma safe_index_at l i : 0 ≤ i < Z.of_nat (length l) →
  safe_m (E:=E) (λ _, True) (index_at l i).
Proof. intros H. by rewrite index_at_ok. Qed.
Lemma safe_slice l lo hi : 0 ≤ lo ≤ hi → hi ≤ Z.of_nat (length l) →
  safe_m (E:=E) (λ k, Z.of_nat (length k) = hi - lo) (slice l lo hi).
Proof.
  intros H1 H2. rewrite slice_ok by done. simpl. rewrite length_take, length_drop. lia.
Qed.
Lemma safe_Uint16 l : 2 ≤ Z.of_nat (length l) → safe_m (E:=E) (λ z, 0 ≤ z < 65536) (Uint16 l).
Proof. intros H. destruct (Uint16_ok (E:=E) l) as (z & -> & Hz); [lia|done]. Qed.
End safe.

(** Walk through a function in the fault monad, proving each access in range. *)
Ltac safe_step :=
  match goal with
  | |- safe_m _ (Ok _) => apply safe_ok
  | |- safe_m _ (Err (Error _)) => apply safe_error
  | |- safe_m _ (index_at _ _ ≫= _) =>
      eapply safe_bind; [apply safe_index_at; lia|intros ? _; cbv beta]
  | |- safe_m _ (slice _ _ _ ≫= _) =>
      eapply safe_bind; [apply safe_slice; lia|intros ? ?; cbv beta in *]
  | |- safe_m _ (Uint16 _ ≫= _) =>
      eapply safe_bind; [apply safe_Uint16; lia|intros ? ?; cbv beta in *]
  | |- safe_m _ (if ?b then _ else _) => destruct b eqn:?; bool_hyps
  end.
