(* ===== verification/GoInt.v ===== *)
(** * Machine integers

    Go's [int64] (and [int], which is 64 bits wide on the platforms the project
    is released for) wraps around on overflow; [uint32] and [uint16] keep the
    low bits. *)

From S2P Require Import Prelude GoString.
#[local] Open Scope Z_scope.

Definition wrap64 (z : Z) : Z := (z + 2 ^ 63) `mod` 2 ^ 64 - 2 ^ 63.
Definition wrapu32 (z : Z) : Z := z `mod` 2 ^ 32.
Definition wrapu16 (z : Z) : Z := z `mod` 2 ^ 16.

Definition add64 (a b : Z) : Z := wrap64 (a + b).
Definition sub64 (a b : Z) : Z := wrap64 (a - b).
Definition mul64 (a b : Z) : Z := wrap64 (a * b).

Definition in64 (z : Z) : Prop := - 2 ^ 63 ≤ z < 2 ^ 63.

Lemma wrap64_id z : in64 z → wrap64 z = z.
Proof. unfold in64, wrap64. intros. rewrite Z.mod_small by lia. lia. Qed.

Lemma wrap64_range z : in64 (wrap64 z).
Proof.
  unfold in64, wrap64. pose proof (Z.mod_pos_bound (z + 2 ^ 63) (2 ^ 64) ltac:(lia)). lia.
Qed.

Lemma wrap64_mod z : wrap64 z `mod` 2 ^ 64 = z `mod` 2 ^ 64.
Proof.
  unfold wrap64. rewrite Zminus_mod_idemp_l. f_equal. lia.
Qed.

(** Addition modulo 2^64 does not depend on where it wraps. *)
Lemma wrap64_ext a b : a `mod` 2 ^ 64 = b `mod` 2 ^ 64 → wrap64 a = wrap64 b.
Proof.
  intros E. unfold wrap64. f_equal.
  by rewrite (Zplus_mod a), (Zplus_mod b), E.
Qed.

Lemma add64_l a b : add64 (wrap64 a) b = add64 a b.
Proof.
  apply wrap64_ext. by rewrite (Zplus_mod (wrap64 a)), wrap64_mod, <-Zplus_mod.
Qed.
Lemma add64_r a b : add64 a (wrap64 b) = add64 a b.
Proof. unfold add64 at 1. rewrite Z.add_comm. fold (add64 (wrap64 b) a). rewrite add64_l.
  unfold add64. f_equal. lia. Qed.

Lemma add64_comm a b : add64 a b = add64 b a.
Proof. unfold add64. f_equal. lia. Qed.
Lemma add64_assoc a b c : add64 a (add64 b c) = add64 (add64 a b) c.
Proof.
  change (add64 b c) with (wrap64 (b + c)). rewrite add64_r.
  change (add64 a b) with (wrap64 (a + b)). rewrite add64_l.
  unfold add64. f_equal. lia.
Qed.
Lemma add64_0_r a : in64 a → add64 a 0 = a.
Proof. intros. unfold add64. rewrite Z.add_0_r. by apply wrap64_id. Qed.

#[export] Hint Resolve wrap64_range : prism.

(** [hash/fnv]'s 32-bit FNV-1a. *)
Definition fnv32a_offset : Z := 2166136261.
Definition fnv32a_prime : Z := 16777619.
Definition fnv32a_write (h : Z) (l : bytes) : Z :=
  foldl (λ h b, wrapu32 (Z.lxor h (b2z b) * fnv32a_prime)) h l.
Definition fnv32a (l : bytes) : Z := fnv32a_write fnv32a_offset l.

Lemma fnv32a_write_app h l k : fnv32a_write h (l ++ k) = fnv32a_write (fnv32a_write h l) k.
Proof. unfold fnv32a_write. apply foldl_app. Qed.

Lemma fnv32a_nonneg l : 0 ≤ fnv32a l.
Proof.
  unfold fnv32a, fnv32a_write. apply (foldl_ind _ (λ _ h, 0 ≤ h)).
  - unfold fnv32a_offset. lia.
  - intros. unfold wrapu32. apply Z.mod_pos_bound. lia.
Qed.
