(* ===== verification/GoFloat.v ===== *)
(** * float64 arithmetic

    Go's [float64] is IEEE 754 binary64; the operations are those of the
    Standard Library's [SpecFloat], rounding to nearest even.  Converting a
    float that does not fit an [int64] is implementation-defined in Go; the
    model returns what amd64 does, the smallest [int64]. *)

From Stdlib Require Import Floats.SpecFloat.
From S2P Require Import Prelude GoInt.
#[local] Open Scope Z_scope.

Definition f64_of_Z (z : Z) : spec_float := binary_normalize 53 1024 z 0 false.
Definition f64_add : spec_float → spec_float → spec_float := SFadd 53 1024.
Definition f64_mul : spec_float → spec_float → spec_float := SFmul 53 1024.
Definition f64_div : spec_float → spec_float → spec_float := SFdiv 53 1024.
Definition f64_lt : spec_float → spec_float → bool := SFltb.

(** [int64(f)]. *)
Definition int64_of_f64 (f : spec_float) : Z :=
  match f with
  | S754_zero _ => 0
  | S754_finite s m e =>
      let a := if 0 <=? e then Z.pos m * 2 ^ e else Z.pos m / 2 ^ (- e) in
      let z := if s : bool then - a else a in
      if (- 2 ^ 63 <=? z) && (z <? 2 ^ 63) then z else - 2 ^ 63
  | _ => - 2 ^ 63
  end.

(** [time.Duration]: nanoseconds; [t.Sub(u)] saturates. *)
Definition time_sub (t u : Z) : Z :=
  let d := t - u in
  if d <? - 2 ^ 63 then - 2 ^ 63 else if 2 ^ 63 - 1 <? d then 2 ^ 63 - 1 else d.

(** [d.Seconds()]. *)
Definition Seconds (d : Z) : spec_float :=
  f64_add (f64_of_Z (Z.quot d 1000000000)) (f64_div (f64_of_Z (Z.rem d 1000000000)) (f64_of_Z 1000000000)).
(** [d.Milliseconds()]. *)
Definition Milliseconds (d : Z) : Z := Z.quot d 1000000.
