(* ===== verification/GoJson.v ===== *)
(** * Decoded JSON (encoding/json)

    What [json.Unmarshal] makes of a text when it decodes into [any]: the
    fields of an object are those of a [map[string]any], so that no name
    occurs twice, and a number is the [float64] nearest to it. *)

From Stdlib Require Import Floats.SpecFloat.
From S2P Require Import Prelude GoString GoFloat.

#[local] Set Warnings "-register-all".
Inductive jsonValue :=
| JNull
| JBool (b : bool)
| JNumber (f : spec_float)
| JString (s : string)
| JArray (l : list jsonValue)
| JObject (fields : list (string * jsonValue)).

(** [m[key]]; a missing key gives [nil]. *)
Fixpoint field (key : string) (fields : list (string * jsonValue)) : jsonValue :=
  match fields with
  | [] => JNull
  | (k, v) :: fields => if String.eqb k key then v else field key fields
  end.
