(* ===== verification/GoSort.v ===== *)
(** * Sorting

    Go's [sort.SliceStable] and [sort.Strings] under a strict order [less] are
    the stable insertion sort below.  [sort.Slice] promises only a sorted
    permutation; where the modelled code calls it, the order is either total
    on the elements (and then [sort_unique] shows there is one possible
    result) or the statement says what it needs. *)

From S2P Require Import Prelude GoString.

Section sort.
Context {A : Type} (less : A → A → bool).

(** Insert after every element that is not greater. *)
Fixpoint sort_insert (x : A) (l : list A) : list A :=
  match l with
  | [] => [x]
  | y :: l' => if less x y then x :: l else y :: sort_insert x l'
  end.
Definition sort_stable (l : list A) : list A := foldl (λ acc x, sort_insert x acc) [] l.

(** [x] may stand before [y]. *)
Definition not_after (x y : A) : Prop := less y x = false.

Lemma sort_insert_perm x l : sort_insert x l ≡ₚ x :: l.
Proof.
  induction l as [|y l IH]; simpl; [done|]. destruct (less x y); [done|].
  rewrite IH. constructor.
Qed.

Lemma sort_perm l : sort_stable l ≡ₚ l.
Proof.
  unfold sort_stable. apply (foldl_ind _ (λ l acc, acc ≡ₚ l)); [done|].
  intros k x acc H. rewrite sort_insert_perm, H. by rewrite Permutation_cons_append.
Qed.

Lemma sort_length l : length (sort_stable l) = length l.
Proof. by rewrite sort_perm. Qed.

Lemma elem_of_sort x l : x ∈ sort_stable l ↔ x ∈ l.
Proof. by rewrite sort_perm. Qed.

(** The order is a strict weak order. *)
Class StrictWeak : Prop := {
  less_asym x y : less x y = true → less y x = false;
  not_after_trans x y z : not_after x y → not_after y z → not_after x z
}.
Context `{!StrictWeak}.

Lemma sort_insert_sorted x l : StronglySorted not_after l → StronglySorted not_after (sort_insert x l).
Proof using Type*.
  induction 1 as [|y l Hs IH Hy]; simpl; [by repeat constructor|].
  destruct (less x y) eqn:E.
  - constructor; [by constructor|]. constructor; [by apply less_asym|].
    eapply Forall_impl; [done|]. intros z Hz. eapply not_after_trans; [by apply less_asym|done].
  - constructor; [done|]. rewrite sort_insert_perm. constructor; done.
Qed.

Lemma sort_sorted l : StronglySorted not_after (sort_stable l).
Proof using Type*.
  unfold sort_stable. apply (foldl_ind _ (λ _ acc, StronglySorted not_after acc)); [constructor|].
  intros; by apply sort_insert_sorted.
Qed.

Lemma sort_insert_end x l : Forall (λ y, not_after y x) l → sort_insert x l = l ++ [x].
Proof using Type.
  induction 1 as [|y l Hy _ IH]; simpl; [done|].
  unfold not_after in Hy. by rewrite Hy, IH.
Qed.

(** Sorting a sorted list does nothing. *)
Lemma sort_id l : StronglySorted not_after l → sort_stable l = l.
Proof using Type.
  unfold sort_stable. intros Hl.
  assert (∀ acc, StronglySorted not_after (acc ++ l) →
    foldl (λ acc x, sort_insert x acc) acc l = acc ++ l) as Hgen.
  { clear Hl. induction l as [|x l IH]; intros acc Hacc; simpl; [by rewrite app_nil_r|].
    rewrite sort_insert_end.
    - rewrite IH; rewrite <-app_assoc; done.
    - apply Forall_forall. intros y Hy.
      eapply StronglySorted_app_1_elem_of; [done|done|]. by constructor. }
  by apply (Hgen []).
Qed.

Lemma sort_idemp l : sort_stable (sort_stable l) = sort_stable l.
Proof using Type*. apply sort_id, sort_sorted. Qed.

(** With a total order the result does not depend on the input's order. *)
Lemma sort_unique l k :
  (∀ x y, x ∈ l → y ∈ l → less x y = false → less y x = false → x = y) →
  l ≡ₚ k → sort_stable l = sort_stable k.
Proof using Type*.
  intros Htot Hp.
  apply (StronglySorted_unique_strong not_after); [|apply sort_sorted..|by rewrite !sort_perm].
  intros x y Hx Hy. rewrite !elem_of_sort in *. unfold not_after. intros.
  apply Htot; try done. by rewrite Hp.
Qed.

(** The output of any sorting procedure is the stable sort's, if the order
    is total on the elements. *)
Lemma sorted_perm_unique l k :
  (∀ x y, x ∈ l → y ∈ l → less x y = false → less y x = false → x = y) →
  k ≡ₚ l → StronglySorted not_after k → k = sort_stable l.
Proof using Type*.
  intros Htot Hp Hs.
  apply (StronglySorted_unique_strong not_after); [|done|apply sort_sorted|by rewrite sort_perm].
  intros x y Hx Hy. rewrite elem_of_sort in Hy. unfold not_after. intros.
  apply Htot; try done. by rewrite <-Hp.
Qed.
End sort.

#[export] Hint Resolve sort_sorted sort_perm : prism.

(** Sorting commutes with an order embedding. *)
Lemma sort_map {A B} (f : A → B) (lessA : A → A → bool) (lessB : B → B → bool) l :
  (∀ x y, lessB (f x) (f y) = lessA x y) → sort_stable lessB (map f l) = map f (sort_stable lessA l).
Proof.
  intros Hf. unfold sort_stable. change (@nil B) with (map f []). generalize (@nil A) as acc.
  assert (∀ x k, sort_insert lessB (f x) (map f k) = map f (sort_insert lessA x k)) as Hins.
  { intros x k. induction k as [|y k IH]; cbn; [done|]. rewrite Hf. destruct (lessA x y); cbn; [done|]. by rewrite IH. }
  induction l as [|x l IH]; intros acc; cbn; [done|]. by rewrite Hins, IH.
Qed.

(** Lexicographic comparison, the shape [if a != b { return a < b }; ...]. *)
Definition lex_less {A B} (f : A → B) (eqb ltb : B → B → bool) (next : A → A → bool)
    (x y : A) : bool :=
  if eqb (f x) (f y) then next x y else ltb (f x) (f y).

(** A key order: irreflexive, transitive and total. *)
Class KeyOrder {B} (eqb ltb : B → B → bool) : Prop := {
  key_eqb x y : eqb x y = true ↔ x = y;
  key_irrefl x : ltb x x = false;
  key_trans x y z : ltb x y = true → ltb y z = true → ltb x z = true;
  key_total x y : ltb x y = false → ltb y x = false → x = y
}.

#[export] Instance string_key_order : KeyOrder String.eqb String.ltb.
Proof.
  constructor; [apply String.eqb_eq|apply str_ltb_irrefl|apply str_ltb_trans|apply str_ltb_total].
Qed.
#[export] Instance Z_key_order : KeyOrder Z.eqb Z.ltb.
Proof. constructor; intros; lia. Qed.

Section key.
Context {B} {eqb ltb : B → B → bool} `{!KeyOrder eqb ltb}.

Lemma key_eqb_refl x : eqb x x = true.
Proof. by apply key_eqb. Qed.

Lemma key_asym x y : ltb x y = true → ltb y x = false.
Proof.
  intros H. destruct (ltb y x) eqn:E; [|done].
  rewrite <-(key_irrefl x). symmetry. by apply (key_trans x y x).
Qed.

#[export] Instance key_strict_weak : StrictWeak ltb.
Proof.
  constructor; [apply key_asym|]. unfold not_after. intros x y z H1 H2.
  destruct (ltb z x) eqn:E; [|done].
  destruct (ltb x y) eqn:E2.
  - rewrite <-H2. symmetry. by apply (key_trans z x y).
  - rewrite (key_total x y) in E by done. congruence.
Qed.

#[export] Instance key_fun_strict_weak {A} (f : A → B) : StrictWeak (λ x y, ltb (f x) (f y)).
Proof.
  constructor; unfold not_after.
  - intros x y. apply key_asym.
  - intros x y z. apply (not_after_trans ltb (f x) (f y) (f z)).
Qed.

#[export] Instance lex_strict_weak {A} (f : A → B) next `{!StrictWeak next} :
  StrictWeak (lex_less (A:=A) f eqb ltb next).
Proof.
  constructor; unfold lex_less, not_after.
  - intros x y. destruct (eqb (f x) (f y)) eqn:E.
    + apply key_eqb in E. rewrite E, key_eqb_refl. apply less_asym; apply _.
    + intros H. destruct (eqb (f y) (f x)) eqn:E2; [|by apply key_asym].
      apply key_eqb in E2. rewrite E2, key_eqb_refl in E. done.
  - intros x y z H1 H2.
    destruct (eqb (f z) (f y)) eqn:Ezy; destruct (eqb (f y) (f x)) eqn:Eyx;
      rewrite ?key_eqb in *.
    + rewrite Ezy, Eyx, key_eqb_refl. exact (not_after_trans next x y z H1 H2).
    + rewrite Ezy, Eyx. done.
    + rewrite <-Eyx, Ezy. done.
    + assert (ltb (f z) (f x) = false) as Hzx
        by (apply (not_after_trans ltb (f x) (f y) (f z)); done).
      destruct (eqb (f z) (f x)) eqn:Ezx; [|done].
      apply key_eqb in Ezx. rewrite Ezx in *.
      rewrite (key_total (f y) (f x)), key_eqb_refl in Eyx; done.
Qed.
End key.
