(* ===== verification/GoTime.v ===== *)
(** * Times (package time)

    An instant is the number of nanoseconds since 1970-01-01T00:00:00Z.  The
    calendar is the proleptic Gregorian one; [FormatRFC3339Nano] and [Parse]
    are what [Time.Format] and [time.Parse] do with the layouts that the
    services use.  [time.Parse] reads RFC 3339 texts on a path of its own
    first, which accepts some of the texts that the general one accepts, with
    the same results. *)

From S2P Require Import Prelude GoString.
#[local] Open Scope Z_scope.

Definition Second : Z := 1000000000.
Definition Minute : Z := 60 * Second.
Definition secondsPerDay : Z := 86400.
Definition nanosPerDay : Z := secondsPerDay * Second.

(** ** The calendar

    Years begin in March, so that the leap day is their last one; [era]s are
    the cycles of 400 years. *)

Definition daysPerEra : Z := 146097.
(** Days from 0000-03-01 to 1970-01-01. *)
Definition epochDays : Z := 719468.

Definition dayOfEra (yoe doy : Z) : Z := 365 * yoe + yoe / 4 - yoe / 100 + doy.
Definition dayOfYear (mp d : Z) : Z := (153 * mp + 2) / 5 + (d - 1).

Definition daysOfDate (y m d : Z) : Z :=
  let y := if m <=? 2 then y - 1 else y in
  let mp := if m <=? 2 then m + 9 else m - 3 in
  y / 400 * daysPerEra + dayOfEra (y mod 400) (dayOfYear mp d) - epochDays.

(** Of the months since March. *)
Definition monthOf (mp : Z) : Z := if mp <? 10 then mp + 3 else mp - 9.
Definition dateOfDays (days : Z) : Z * Z * Z :=
  let z := days + epochDays in
  let doe := z mod daysPerEra in
  let yoe := (doe - doe / 1460 + doe / 36524 - doe / 146096) / 365 in
  let doy := doe - (365 * yoe + yoe / 4 - yoe / 100) in
  let mp := (5 * doy + 2) / 153 in
  let d := doy - (153 * mp + 2) / 5 + 1 in
  let m := monthOf mp in
  let y := z / daysPerEra * 400 + yoe in
  (if m <=? 2 then y + 1 else y, m, d).

Definition isLeap (year : Z) : bool := (year mod 4 =? 0) && (negb (year mod 100 =? 0) || (year mod 400 =? 0)).
Definition daysIn (month year : Z) : Z :=
  if month =? 2 then (if isLeap year then 29 else 28)
  else if bool_decide (month ∈ [4; 6; 9; 11]) then 30 else 31.

(** ** Text of an instant *)

(** [width] digits. *)
Fixpoint pad (width : nat) (n : Z) : bytes :=
  match width with O => [] | S w => pad w (n / 10) ++ [digit (Z.to_N (n mod 10))] end.
Definition appendInt (n : Z) (width : nat) : bytes :=
  (if n <? 0 then [x2d] else []) ++
  (if Z.abs n <? 10 ^ Z.of_nat width then pad width (Z.abs n) else itoa_bytes (Z.abs n)).

Fixpoint dropZeros (l : bytes) : bytes := match l with x30 :: l => dropZeros l | _ => l end.
(** The fraction, without the zeros at its end, and without its point when
    nothing is left. *)
Definition appendNano (nanosecond : Z) : bytes :=
  match rev (dropZeros (rev (pad 9 nanosecond))) with [] => [] | l => x2e :: l end.

Definition clockText (seconds : Z) : bytes :=
  appendInt (seconds / 3600) 2 ++ [x3a] ++ appendInt (seconds / 60 mod 60) 2 ++ [x3a] ++ appendInt (seconds mod 60) 2.
Definition dateText (days : Z) : bytes :=
  let '(y, m, d) := dateOfDays days in appendInt y 4 ++ [x2d] ++ appendInt m 2 ++ [x2d] ++ appendInt d 2.

(** [t.UTC().Format(time.RFC3339Nano)] *)
Definition FormatRFC3339Nano (t : Z) : string :=
  string_of (dateText (t / nanosPerDay) ++ [x54] ++ clockText (t / Second mod secondsPerDay)
             ++ appendNano (t mod Second) ++ [x5a]).

(** ** Reading a text *)

Inductive chunk :=
  | Literal (b : byte)
  | LongYear | ZeroMonth | ZeroDay | Hour | ZeroMinute | ZeroSecond | FracSecond9
  | ISO8601ColonTZ | NumColonTZ | NumShortTZ.

Definition RFC3339Nano : list chunk :=
  [LongYear; Literal x2d; ZeroMonth; Literal x2d; ZeroDay; Literal x54; Hour; Literal x3a; ZeroMinute; Literal x3a;
   ZeroSecond; FracSecond9; ISO8601ColonTZ].
(** ["2006-01-02 15:04:05"] and what follows *)
Definition spaced (zone : list chunk) : list chunk :=
  [LongYear; Literal x2d; ZeroMonth; Literal x2d; ZeroDay; Literal x20; Hour; Literal x3a; ZeroMinute; Literal x3a;
   ZeroSecond] ++ zone.

Record timeFields := {
  tf_year : Z; tf_month : Z; tf_day : Z; tf_hour : Z; tf_min : Z; tf_sec : Z; tf_nsec : Z; tf_offset : Z }.

Definition digitValue (b : byte) : Z := b2z b - 48.
(** One digit or two; two when [fixed]. *)
Definition getnum (fixed : bool) (value : bytes) : option (Z * bytes) :=
  match value with
  | a :: value =>
      if negb (is_digit a) then None
      else match value with
           | b :: rest => if is_digit b then Some (digitValue a * 10 + digitValue b, rest)
                          else if fixed then None else Some (digitValue a, value)
           | [] => if fixed then None else Some (digitValue a, value)
           end
  | [] => None
  end.
Definition inRange (lo hi : Z) (r : option (Z * bytes)) : option (Z * bytes) :=
  '(n, rest) ← r; if (lo <=? n) && (n <=? hi) then Some (n, rest) else None.

Definition getyear (value : bytes) : option (Z * bytes) :=
  match value with
  | a :: b :: c :: d :: rest => if is_digit a then year ← digits_value [a; b; c; d] 0; Some (year, rest) else None
  | _ => None
  end.

Fixpoint cutspace (value : bytes) : bytes := match value with x20 :: value => cutspace value | _ => value end.
(** A blank of the layout stands for any number of blanks, also for none at
    the end of the text. *)
Definition skip (b : byte) (value : bytes) : option bytes :=
  if Byte.eqb b x20 then
    match value with
    | c :: _ => if Byte.eqb c x20 then Some (cutspace value) else None
    | [] => Some []
    end
  else match value with c :: rest => if Byte.eqb c b then Some rest else None | [] => None end.

Fixpoint takeDigits (value : bytes) : bytes * bytes :=
  match value with
  | b :: rest => if is_digit b then let '(ds, r) := takeDigits rest in (b :: ds, r) else ([], value)
  | [] => ([], [])
  end.
(** A point or a comma with digits after it; those after the ninth are
    ignored.  Without it the fraction is 0. *)
Definition fraction (value : bytes) : option (Z * bytes) :=
  match value with
  | p :: (d :: _) as rest =>
      if (Byte.eqb p x2e || Byte.eqb p x2c) && is_digit d then
        let '(ds, r) := takeDigits rest in
        let ds := take 9 ds in
        n ← digits_value ds 0;
        Some (n * 10 ^ (9 - Z.of_nat (length ds)), r)
      else Some (0, value)
  | _ => Some (0, value)
  end.

Definition signed (sign : byte) (offset : Z) : option Z :=
  if Byte.eqb sign x2b then Some offset else if Byte.eqb sign x2d then Some (- offset) else None.
(** [±hh:mm], or [±hh]; 24 and 60 are accepted. *)
Definition zone (minutes : bool) (value : bytes) : option (Z * bytes) :=
  match value with
  | sign :: h1 :: h2 :: rest =>
      '(hr, _) ← inRange 0 24 (getnum true [h1; h2]);
      if minutes then
        match rest with
        | c :: m1 :: m2 :: rest =>
            if Byte.eqb c x3a then
              '(mm, _) ← inRange 0 60 (getnum true [m1; m2]);
              offset ← signed sign ((hr * 60 + mm) * 60); Some (offset, rest)
            else None
        | _ => None
        end
      else offset ← signed sign (hr * 60 * 60); Some (offset, rest)
  | _ => None
  end.

Definition zeroFields : timeFields := {|
  tf_year := 0; tf_month := 1; tf_day := 1; tf_hour := 0; tf_min := 0; tf_sec := 0; tf_nsec := 0; tf_offset := 0 |}.

Definition set_year f n := {| tf_year := n; tf_month := tf_month f; tf_day := tf_day f; tf_hour := tf_hour f;
  tf_min := tf_min f; tf_sec := tf_sec f; tf_nsec := tf_nsec f; tf_offset := tf_offset f |}.
Definition set_month f n := {| tf_year := tf_year f; tf_month := n; tf_day := tf_day f; tf_hour := tf_hour f;
  tf_min := tf_min f; tf_sec := tf_sec f; tf_nsec := tf_nsec f; tf_offset := tf_offset f |}.
Definition set_day f n := {| tf_year := tf_year f; tf_month := tf_month f; tf_day := n; tf_hour := tf_hour f;
  tf_min := tf_min f; tf_sec := tf_sec f; tf_nsec := tf_nsec f; tf_offset := tf_offset f |}.
Definition set_hour f n := {| tf_year := tf_year f; tf_month := tf_month f; tf_day := tf_day f; tf_hour := n;
  tf_min := tf_min f; tf_sec := tf_sec f; tf_nsec := tf_nsec f; tf_offset := tf_offset f |}.
Definition set_min f n := {| tf_year := tf_year f; tf_month := tf_month f; tf_day := tf_day f; tf_hour := tf_hour f;
  tf_min := n; tf_sec := tf_sec f; tf_nsec := tf_nsec f; tf_offset := tf_offset f |}.
Definition set_sec f n := {| tf_year := tf_year f; tf_month := tf_month f; tf_day := tf_day f; tf_hour := tf_hour f;
  tf_min := tf_min f; tf_sec := n; tf_nsec := tf_nsec f; tf_offset := tf_offset f |}.
Definition set_nsec f n := {| tf_year := tf_year f; tf_month := tf_month f; tf_day := tf_day f; tf_hour := tf_hour f;
  tf_min := tf_min f; tf_sec := tf_sec f; tf_nsec := n; tf_offset := tf_offset f |}.
Definition set_offset f n := {| tf_year := tf_year f; tf_month := tf_month f; tf_day := tf_day f; tf_hour := tf_hour f;
  tf_min := tf_min f; tf_sec := tf_sec f; tf_nsec := tf_nsec f; tf_offset := n |}.

Definition into (set : Z → timeFields) (r : option (Z * bytes)) : option (timeFields * bytes) :=
  '(n, rest) ← r; Some (set n, rest).

Fixpoint parseChunks (layout : list chunk) (f : timeFields) (value : bytes) : option timeFields :=
  match layout with
  | [] => match value with [] => Some f | _ => None end
  | c :: layout =>
      '(f, value) ← match c with
        | Literal b => rest ← skip b value; Some (f, rest)
        | LongYear => into (set_year f) (getyear value)
        | ZeroMonth => into (set_month f) (inRange 1 12 (getnum true value))
        | ZeroDay => into (set_day f) (getnum true value)
        | Hour => into (set_hour f) (inRange 0 23 (getnum false value))
        | ZeroMinute => into (set_min f) (inRange 0 59 (getnum true value))
        | ZeroSecond =>
            '(f, value) ← into (set_sec f) (inRange 0 59 (getnum true value));
            match layout with
            | FracSecond9 :: _ => Some (f, value)
            | _ => into (set_nsec f) (fraction value)
            end
        | FracSecond9 => into (set_nsec f) (fraction value)
        | ISO8601ColonTZ =>
            match value with
            | x5a :: rest => Some (set_offset f 0, rest)
            | _ => into (set_offset f) (zone true value)
            end
        | NumColonTZ => into (set_offset f) (zone true value)
        | NumShortTZ => into (set_offset f) (zone false value)
        end;
      parseChunks layout f value
  end.

Definition instantOf (f : timeFields) : Z :=
  ((daysOfDate (tf_year f) (tf_month f) (tf_day f) * 24 + tf_hour f) * 60 + tf_min f) * Minute
  + (tf_sec f - tf_offset f) * Second + tf_nsec f.

(** [time.Parse] *)
Definition Parse (layout : list chunk) (value : string) : option Z :=
  f ← parseChunks layout zeroFields (bytes_of value);
  if (tf_day f <? 1) || (daysIn (tf_month f) (tf_year f) <? tf_day f) then None else Some (instantOf f).

Example format_epoch : FormatRFC3339Nano 0 = "1970-01-01T00:00:00Z".
Proof. reflexivity. Qed.
Example format_leap : FormatRFC3339Nano 1709210096120000000 = "2024-02-29T12:34:56.12Z".
Proof. vm_compute. reflexivity. Qed.
Example parse_leap : Parse RFC3339Nano "2024-02-29T12:34:56.12Z" = Some 1709210096120000000.
Proof. vm_compute. reflexivity. Qed.
Example parse_zone : Parse (spaced [FracSecond9; NumShortTZ]) "2024-02-29 14:34:56.12+02" = Some 1709210096120000000.
Proof. vm_compute. reflexivity. Qed.
Example parse_no_leap : Parse RFC3339Nano "2023-02-29T12:34:56Z" = None.
Proof. vm_compute. reflexivity. Qed.

(** ** The calendar is one *)

Lemma yoe_spec doe : 0 ≤ doe < daysPerEra →
  let yoe := (doe - doe / 1460 + doe / 36524 - doe / 146096) / 365 in
  0 ≤ yoe < 400 ∧ 365 * yoe + yoe / 4 - yoe / 100 ≤ doe ∧
  (yoe < 399 → doe < 365 * (yoe + 1) + (yoe + 1) / 4 - (yoe + 1) / 100).
Proof. intros H. cbv zeta. unfold daysPerEra in H. Z.to_euclidean_division_equations. lia. Qed.

Lemma leap_cycle era n : isLeap (era * 400 + n) = isLeap n.
Proof.
  unfold isLeap. assert (∀ k, k ∈ [4; 100; 400] → Z.modulo (era * 400 + n) k = Z.modulo n k) as E.
  { intros k Hk. replace (era * 400 + n) with (n + (era * (400 / k)) * k); [apply Z_mod_plus_full|].
    repeat (apply elem_of_cons in Hk as [->|Hk]; [change (400 / 4) with 100; change (400 / 100) with 4; change (400/400) with 1; lia|]). by apply elem_of_nil in Hk. }
  by rewrite !E by set_solver.
Qed.
Lemma february yoe : 0 ≤ yoe < 400 → (yoe < 399 → 365 < 365 + (yoe + 1) / 4 - yoe / 4 - ((yoe + 1) / 100 - yoe / 100)) →
  isLeap (yoe + 1) = true.
Proof.
  intros Hy Hf. unfold isLeap.
  destruct (Z.eqb_spec ((yoe + 1) mod 4) 0), (Z.eqb_spec ((yoe + 1) mod 100) 0), (Z.eqb_spec ((yoe + 1) mod 400) 0);
    cbn; try done; exfalso; Z.to_euclidean_division_equations; lia.
Qed.

Lemma month_length mp doy y : 0 ≤ mp ≤ 10 → (153 * mp + 2) / 5 ≤ doy < (153 * (mp + 1) + 2) / 5 →
  1 ≤ doy - (153 * mp + 2) / 5 + 1 ≤ daysIn (monthOf mp) y.
Proof.
  intros Hmp Hd. assert (mp ∈ [0; 1; 2; 3; 4; 5; 6; 7; 8; 9; 10]) as Hin by (rewrite !elem_of_cons; lia).
  clear Hmp. repeat (apply elem_of_cons in Hin as [->|Hin]; [revert Hd; vm_compute (Z.div _ _); vm_compute (monthOf _); vm_compute (daysIn _ _); lia|]).
  by apply elem_of_nil in Hin.
Qed.
Lemma month_bounds doy : 0 ≤ doy ≤ 365 → let mp := (5 * doy + 2) / 153 in
  0 ≤ mp ≤ 11 ∧ (153 * mp + 2) / 5 ≤ doy < (153 * (mp + 1) + 2) / 5.
Proof. intros H. cbv zeta. Z.to_euclidean_division_equations. lia. Qed.
Lemma era_split era yoe : 0 ≤ yoe < 400 → (era * 400 + yoe) / 400 = era ∧ (era * 400 + yoe) mod 400 = yoe.
Proof. intros H. Z.to_euclidean_division_equations. lia. Qed.
Lemma daysOfDate_march era yoe mp d : 0 ≤ yoe < 400 → 0 ≤ mp ≤ 11 →
  daysOfDate (if monthOf mp <=? 2 then era * 400 + yoe + 1 else era * 400 + yoe) (monthOf mp) d
  = era * daysPerEra + dayOfEra yoe (dayOfYear mp d) - epochDays.
Proof.
  intros Hy Hmp. unfold daysOfDate. destruct (era_split era yoe Hy) as [E1 E2].
  destruct (Z.leb_spec (monthOf mp) 2); unfold monthOf in *; destruct (Z.ltb_spec mp 10); try lia.
  - rewrite Z.add_simpl_r, E1, E2. by replace (mp - 9 + 9) with mp by lia.
  - rewrite E1, E2. by replace (mp + 3 - 3) with mp by lia.
Qed.

Lemma doy_bounds doe yoe : 0 ≤ yoe < 400 → 365 * yoe + yoe / 4 - yoe / 100 ≤ doe →
  (yoe < 399 → doe < 365 * (yoe + 1) + (yoe + 1) / 4 - (yoe + 1) / 100) → doe < daysPerEra →
  0 ≤ doe - (365 * yoe + yoe / 4 - yoe / 100) ≤ 365.
Proof. unfold daysPerEra. intros. Z.to_euclidean_division_equations. lia. Qed.

Lemma year_bounds era yoe doy mp : 0 ≤ yoe < 400 → 0 ≤ doy ≤ 365 → 0 ≤ mp ≤ 11 →
  (153 * mp + 2) / 5 ≤ doy < (153 * (mp + 1) + 2) / 5 →
  -719528 ≤ era * daysPerEra + dayOfEra yoe doy - epochDays < 2932897 →
  0 ≤ (if monthOf mp <=? 2 then era * 400 + yoe + 1 else era * 400 + yoe) ≤ 9999.
Proof.
  intros Hy Hdoy Hmp Hd Hr.
  assert (365 * yoe ≤ dayOfEra yoe doy - doy ≤ 365 * yoe + 96) as Hb by (unfold dayOfEra; Z.to_euclidean_division_equations; lia).
  unfold epochDays, daysPerEra in Hr.
  assert (-1 ≤ era ≤ 24) as He by lia.
  destruct (Z.leb_spec (monthOf mp) 2); unfold monthOf in *; destruct (Z.ltb_spec mp 10); try lia.
  - assert (306 ≤ doy) by (Z.to_euclidean_division_equations; lia). destruct (decide (era = 24)); [|lia].
    destruct (decide (yoe = 399)); [|lia]. subst. change (dayOfEra 399 doy) with (145731 + doy) in Hr. lia.
  - assert (doy < 306) by (Z.to_euclidean_division_equations; lia). destruct (decide (era = -1)); [|lia].
    destruct (decide (yoe = 399)) as [->|]; [change (dayOfEra 399 doy) with (145731 + doy) in Hr; lia|lia].
Qed.

Lemma date_spec days :
  let '(y, m, d) := dateOfDays days in
  daysOfDate y m d = days ∧ 1 ≤ m ≤ 12 ∧ 1 ≤ d ≤ daysIn m y ∧
  (-719528 ≤ days < 2932897 → 0 ≤ y ≤ 9999).
Proof.
  unfold dateOfDays. set (z := days + epochDays). set (doe := z mod daysPerEra).
  assert (0 ≤ doe < daysPerEra) as Hdoe by (apply Z.mod_pos_bound; done).
  destruct (yoe_spec doe Hdoe) as (Hy & Hlo & Hhi).
  set (yoe := (doe - doe / 1460 + doe / 36524 - doe / 146096) / 365) in *.
  pose proof (doy_bounds doe yoe Hy Hlo Hhi (proj2 Hdoe)) as Hdoy.
  set (doy := doe - (365 * yoe + yoe / 4 - yoe / 100)) in *.
  destruct (month_bounds doy Hdoy) as [Hmp Hd]. set (mp := (5 * doy + 2) / 153) in *.
  assert (z = z / daysPerEra * daysPerEra + doe) as Hz by (unfold doe, daysPerEra; pose proof (Z.div_mod z 146097); lia).
  set (era := z / daysPerEra) in *.
  assert (doe = dayOfEra yoe doy) as Hde by (unfold dayOfEra, doy; lia).
  rewrite daysOfDate_march by done.
  assert (1 ≤ monthOf mp ≤ 12) as Hm by (unfold monthOf; destruct (Z.ltb_spec mp 10); lia). split_and!; try lia.
  - unfold dayOfYear. replace ((153 * mp + 2) / 5 + (doy - (153 * mp + 2) / 5 + 1 - 1)) with doy by lia.
    rewrite <-Hde. unfold z in Hz. lia.
  - destruct (decide (mp = 11)) as [E|]; [|apply month_length; lia]. rewrite E in *.
    change (monthOf 11) with 2. unfold daysIn. rewrite Z.eqb_refl. change (2 <=? 2) with true. cbv iota.
    change ((153 * 11 + 2) / 5) with 337 in *. destruct (decide (doy = 365)) as [E'|]; [|destruct (isLeap _); lia].
    rewrite <-Z.add_assoc, leap_cycle, february; [lia|done|]. unfold doy in E'. lia.
  - intros Hr. apply (year_bounds era yoe doy mp); try done. unfold z in Hz. lia.
Qed.

(** ** Reading back what was written *)

Lemma pad_length w : ∀ n, length (pad w n) = w.
Proof. induction w as [|w IH]; intros n; cbn; [done|]. rewrite length_app, IH. cbn. lia. Qed.
Lemma pad_digits w : ∀ n, Forall (λ b, is_digit b = true) (pad w n).
Proof.
  induction w as [|w IH]; intros n; cbn; [done|]. apply Forall_app. split; [apply IH|]. constructor; [|done].
  apply digit_is_digit. pose proof (Z.mod_pos_bound n 10). lia.
Qed.
Lemma digitValue_digit n : digitValue (digit (Z.to_N (n mod 10))) = n mod 10.
Proof. unfold digitValue. pose proof (Z.mod_pos_bound n 10). rewrite b2z_digit by lia. lia. Qed.
Lemma pad_value w : ∀ n acc, 0 ≤ n → digits_value (pad w n) acc = Some (acc * 10 ^ Z.of_nat w + n mod 10 ^ Z.of_nat w).
Proof.
  induction w as [|w IH]; intros n acc Hn.
  { change (Z.of_nat 0) with 0. rewrite Z.pow_0_r, Z.mod_1_r. cbn. f_equal. lia. }
  cbn [pad]. rewrite digits_value_app, IH by (apply Z.div_pos; lia). cbn [mbind option_bind digits_value].
  rewrite digit_is_digit by (pose proof (Z.mod_pos_bound n 10); lia). fold (digitValue (digit (Z.to_N (n mod 10)))).
  rewrite digitValue_digit, Nat2Z.inj_succ, Z.pow_succ_r by lia. f_equal.
  rewrite (Z.rem_mul_r n 10) by lia. lia.
Qed.
Lemma pad_all w n : 0 ≤ n < 10 ^ Z.of_nat w → digits_value (pad w n) 0 = Some n.
Proof. intros H. rewrite pad_value, Z.mod_small by lia. f_equal; lia. Qed.
Lemma appendInt_pad w n : 0 ≤ n < 10 ^ Z.of_nat w → appendInt n w = pad w n.
Proof.
  intros H. unfold appendInt. rewrite (proj2 (Z.ltb_ge _ _)), Z.abs_eq by lia. by rewrite (proj2 (Z.ltb_lt _ _)) by lia.
Qed.

Lemma getnum_written fixed n r : 0 ≤ n < 100 → getnum fixed (appendInt n 2 ++ r) = Some (n, r).
Proof.
  intros H. rewrite appendInt_pad by (change (10 ^ Z.of_nat 2) with 100; lia). cbn [pad app getnum].
  pose proof (Z.mod_pos_bound (n / 10) 10). pose proof (Z.mod_pos_bound n 10).
  rewrite !digit_is_digit by lia. cbn [negb]. rewrite !digitValue_digit. f_equal. f_equal.
  Z.to_euclidean_division_equations. lia.
Qed.
Lemma getyear_written n r : 0 ≤ n < 10000 → getyear (appendInt n 4 ++ r) = Some (n, r).
Proof.
  intros H. rewrite appendInt_pad by (change (10 ^ Z.of_nat 4) with 10000; lia).
  pose proof (pad_all 4 n H) as Hv. pose proof (pad_length 4 n) as Hl. pose proof (pad_digits 4 n) as Hd.
  destruct (pad 4 n) as [|a [|b [|c [|d [|]]]]]; try done. cbn [app getyear]. rewrite (Forall_inv Hd), Hv. done.
Qed.

Lemma dropZeros_spec l : ∃ k, l = replicate k x30 ++ dropZeros l.
Proof.
  induction l as [|b l [k IH]]; [by exists O|]. destruct (decide (b = x30)) as [->|Hb].
  - exists (S k). cbn. by rewrite <-IH.
  - exists O. destruct b; done.
Qed.
Lemma zeros_value k : ∀ acc, digits_value (replicate k x30) acc = Some (acc * 10 ^ Z.of_nat k).
Proof.
  induction k as [|k IH]; intros acc; cbn [replicate digits_value].
  - f_equal. change (Z.of_nat 0) with 0. lia.
  - change (is_digit x30) with true. cbv iota. rewrite IH, Nat2Z.inj_succ, Z.pow_succ_r by lia. change (b2z x30 - 48) with 0. f_equal. lia.
Qed.
Lemma takeDigits_app l r : Forall (λ b, is_digit b = true) l → head r = Some x5a → takeDigits (l ++ r) = (l, r).
Proof.
  intros Hl Hr. induction Hl as [|b l Hb _ IH]; cbn.
  - destruct r as [|c r]; [done|]. by injection Hr as ->.
  - by rewrite Hb, IH.
Qed.
Lemma fraction_written n r : 0 ≤ n < Second → head r = Some x5a → fraction (appendNano n ++ r) = Some (n, r).
Proof.
  intros Hn Hr. unfold appendNano. destruct (dropZeros_spec (rev (pad 9 n))) as [k Hk].
  apply (f_equal (@rev byte)) in Hk. rewrite rev_involutive, rev_app_distr in Hk.
  assert (rev (replicate k x30) = replicate k x30) as E by (rewrite rev_alt; apply reverse_replicate). rewrite E in Hk. clear E.
  set (l := rev (dropZeros (rev (pad 9 n)))) in *.
  pose proof (pad_all 9 n Hn) as Hv. pose proof (pad_digits 9 n) as Hd. pose proof (pad_length 9 n) as Hlen.
  rewrite Hk, digits_value_app in Hv. rewrite Hk in Hd, Hlen. rewrite length_app, length_replicate in Hlen.
  apply Forall_app in Hd as [Hd _].
  destruct l as [|d l'] eqn:El.
  - cbn [mbind option_bind digits_value] in Hv. rewrite zeros_value in Hv. injection Hv as <-.
    destruct r as [|c r]; [done|]. injection Hr as ->. by destruct r.
  - cbn [app]. unfold fraction. change (Byte.eqb x2e x2e) with true. rewrite (Forall_inv Hd). cbn [orb andb].
    change (d :: l' ++ r) with ((d :: l') ++ r). rewrite takeDigits_app by done.
    rewrite take_ge by lia. destruct (digits_value (d :: l') 0) as [v|]; [|done].
    cbn [mbind option_bind] in Hv |- *. rewrite zeros_value in Hv. injection Hv as <-.
    by replace (9 - Z.of_nat (length (d :: l'))) with (Z.of_nat k) by lia.
Qed.

(** *** The chunks of a written text *)

Section chunks.
Context (f : timeFields) (layout : list chunk) (r : bytes).
Lemma parse_literal b : b ≠ x20 → parseChunks (Literal b :: layout) f (b :: r) = parseChunks layout f r.
Proof.
  intros Hb. cbn. unfold skip. destruct (Byte.eqb b x20) eqn:E; [by apply byte_eqb_eq in E|].
  by rewrite (proj2 (byte_eqb_eq b b) eq_refl).
Qed.
Lemma parse_year n : 0 ≤ n < 10000 → parseChunks (LongYear :: layout) f (appendInt n 4 ++ r) = parseChunks layout (set_year f n) r.
Proof. intros H. cbn -[appendInt getyear]. by rewrite getyear_written. Qed.
Lemma parse_month n : 1 ≤ n ≤ 12 → parseChunks (ZeroMonth :: layout) f (appendInt n 2 ++ r) = parseChunks layout (set_month f n) r.
Proof.
  intros H. cbn -[appendInt getnum]. rewrite getnum_written by lia. cbn -[Z.leb].
  by rewrite (proj2 (Z.leb_le 1 n)), (proj2 (Z.leb_le n 12)) by lia.
Qed.
Lemma parse_day n : 0 ≤ n < 100 → parseChunks (ZeroDay :: layout) f (appendInt n 2 ++ r) = parseChunks layout (set_day f n) r.
Proof. intros H. cbn -[appendInt getnum]. by rewrite getnum_written. Qed.
Lemma parse_hour n : 0 ≤ n < 24 → parseChunks (Hour :: layout) f (appendInt n 2 ++ r) = parseChunks layout (set_hour f n) r.
Proof.
  intros H. cbn -[appendInt getnum]. rewrite getnum_written by lia. cbn -[Z.leb].
  by rewrite (proj2 (Z.leb_le 0 n)), (proj2 (Z.leb_le n 23)) by lia.
Qed.
Lemma parse_minute n : 0 ≤ n < 60 → parseChunks (ZeroMinute :: layout) f (appendInt n 2 ++ r) = parseChunks layout (set_min f n) r.
Proof.
  intros H. cbn -[appendInt getnum]. rewrite getnum_written by lia. cbn -[Z.leb].
  by rewrite (proj2 (Z.leb_le 0 n)), (proj2 (Z.leb_le n 59)) by lia.
Qed.
Lemma parse_second n ns : 0 ≤ n < 60 → 0 ≤ ns < Second → head r = Some x5a →
  parseChunks (ZeroSecond :: FracSecond9 :: layout) f (appendInt n 2 ++ appendNano ns ++ r)
  = parseChunks layout (set_nsec (set_sec f n) ns) r.
Proof.
  intros H Hns Hr. cbn -[appendInt getnum fraction appendNano]. rewrite getnum_written by lia. cbn -[Z.leb fraction appendNano].
  rewrite (proj2 (Z.leb_le 0 n)), (proj2 (Z.leb_le n 59)) by lia. cbn -[fraction appendNano]. by rewrite fraction_written.
Qed.
End chunks.

(** The years 0000 to 9999. *)
Definition minInstant : Z := -719528 * nanosPerDay.
Definition maxInstant : Z := 2932897 * nanosPerDay.
Definition formattable (t : Z) : Prop := minInstant ≤ t < maxInstant.

Theorem Parse_FormatRFC3339Nano t : formattable t → Parse RFC3339Nano (FormatRFC3339Nano t) = Some t.
Proof.
  intros Ht. unfold Parse, FormatRFC3339Nano. rewrite bytes_of_string_of. unfold dateText, clockText.
  pose proof (date_spec (t / nanosPerDay)) as Hdate. destruct (dateOfDays (t / nanosPerDay)) as [[y m] d].
  destruct Hdate as (Hinst & Hm & Hd & Hy). unfold formattable, minInstant, maxInstant in Ht.
  specialize (Hy ltac:(unfold nanosPerDay, secondsPerDay, Second in *; Z.to_euclidean_division_equations; lia)).
  assert (daysIn m y ≤ 31) as Hdays by (unfold daysIn; repeat destruct (_ : bool); lia).
  set (s := t / Second mod secondsPerDay).
  assert (0 ≤ s < 86400) as Hs by (apply Z.mod_pos_bound; done).
  set (ns := t mod Second). assert (0 ≤ ns < Second) as Hns by (apply Z.mod_pos_bound; done).
  assert (0 ≤ s / 3600 < 24 ∧ 0 ≤ s / 60 mod 60 < 60 ∧ 0 ≤ s mod 60 < 60) as (Hh & Hmin & Hsec)
    by (Z.to_euclidean_division_equations; lia).
  rewrite <-!app_assoc. unfold RFC3339Nano. set (f0 := zeroFields).
  rewrite parse_year by lia. cbn [app]. rewrite parse_literal, parse_month, parse_literal, parse_day by (done || lia).
  rewrite parse_literal, parse_hour, parse_literal, parse_minute, parse_literal, parse_second by (done || lia).
  cbn -[instantOf daysIn]. rewrite (proj2 (Z.ltb_ge _ _)), (proj2 (Z.ltb_ge _ _)) by lia. cbn [orb]. f_equal.
  unfold instantOf. cbn -[daysOfDate]. rewrite Hinst. subst s ns. clear - t.
  unfold Minute, nanosPerDay, secondsPerDay, Second. Z.to_euclidean_division_equations. lia.
Qed.

Lemma appendInt_graphic n w : Forall (λ b, graphic b = true) (appendInt n w).
Proof.
  unfold appendInt. apply Forall_app. split; [by destruct (_ <? _); repeat constructor|].
  destruct (_ <? _); [|apply itoa_graphic]. eapply Forall_impl; [apply pad_digits|]. apply digit_graphic.
Qed.
Lemma appendNano_graphic n : Forall (λ b, graphic b = true) (appendNano n).
Proof.
  unfold appendNano. destruct (dropZeros_spec (rev (pad 9 n))) as [k Hk].
  assert (Forall (λ b, graphic b = true) (rev (dropZeros (rev (pad 9 n))))) as Hl.
  { apply Forall_rev. assert (Forall (λ b, graphic b = true) (rev (pad 9 n))) as Hr.
    { apply Forall_rev. eapply Forall_impl; [apply pad_digits|]. apply digit_graphic. }
    rewrite Hk in Hr. by apply Forall_app in Hr as [_ Hr]. }
  destruct (rev (dropZeros _)); [done|]. by constructor.
Qed.
Lemma TrimSpace_FormatRFC3339Nano t : TrimSpace (FormatRFC3339Nano t) = FormatRFC3339Nano t.
Proof.
  unfold TrimSpace, FormatRFC3339Nano. rewrite bytes_of_string_of, trim_space_graphic; [done|].
  unfold dateText, clockText. destruct (dateOfDays _) as [[y m] d].
  rewrite !Forall_app. split_and!; try apply appendInt_graphic; try apply appendNano_graphic; by repeat constructor.
Qed.
