(* ===== verification/GoNet.v ===== *)
(** * Go's [net.IP] and host/port strings

    A [net.IP] is a byte slice: 4 or 16 bytes, or the nil slice [[]].
    [ParseIP] follows [net/netip]'s parser (the one [net.ParseIP] calls):
    dotted decimal without leading zeros, IPv6 with at most one ellipsis and
    an optional trailing IPv4 part, and no zone. *)

From S2P Require Import Prelude GoString.
#[local] Open Scope Z_scope.

(** ** Parsing *)

(** [parseIPv4Fields]: [fs] holds the finished octets, [digLen] the number of
    digits of the current one. *)
Fixpoint ipv4_loop (l : bytes) (val digLen : Z) (fs : bytes) : option bytes :=
  match l with
  | [] => if (length fs <? 3)%nat then None else Some (fs ++ [z2b val])
  | b :: l' =>
      if is_digit b then
        if (digLen =? 1) && (val =? 0) then None
        else let val' := val * 10 + (b2z b - 48) in
             if 255 <? val' then None else ipv4_loop l' val' (digLen + 1) fs
      else if Byte.eqb b x2e then
        if (digLen =? 0) || match l' with [] => true | _ => false end then None
        else if (length fs =? 3)%nat then None
        else ipv4_loop l' 0 0 (fs ++ [z2b val])
      else None
  end.
Definition parse_ipv4 (l : bytes) : option bytes := ipv4_loop l 0 0 [].

Definition hex_digit (b : byte) : option Z :=
  let c := b2z b in
  if (48 <=? c) && (c <=? 57) then Some (c - 48)
  else if (97 <=? c) && (c <=? 102) then Some (c - 97 + 10)
  else if (65 <=? c) && (c <=? 70) then Some (c - 65 + 10)
  else None.

(** One hexadecimal group: its value, its number of digits and the rest;
    [None] when it has more than four digits. *)
Fixpoint hex_group (l : bytes) (off acc : Z) : option (Z * Z * bytes) :=
  match l with
  | [] => Some (acc, off, [])
  | b :: l' => match hex_digit b with
               | None => Some (acc, off, l)
               | Some d => let acc' := acc * 16 + d in
                           if 3 <? off then None
                           else if 65535 <? acc' then None
                           else hex_group l' (off + 1) acc'
               end
  end.

Definition starts_with (b : byte) (l : bytes) : bool :=
  match l with c :: _ => Byte.eqb c b | [] => false end.

(** The main loop of [parseIPv6]: [ip] is what is written so far, [ell] the
    position of the ellipsis.  Eight groups fill the address, so fuel 8 is the
    loop's own bound [i < 16]. *)
Fixpoint ipv6_loop (fuel : nat) (s ip : bytes) (ell : option nat)
    : option (bytes * bytes * option nat) :=
  match fuel with
  | O => Some (s, ip, ell)
  | S f =>
      '(acc, off, rest) ← hex_group s 0 0;
      if off =? 0 then None
      else if starts_with x2e rest then
        if match ell with None => negb (length ip =? 12)%nat | Some _ => false end then None
        else if (16 <? length ip + 4)%nat then None
        else v4 ← parse_ipv4 s; Some ([], ip ++ v4, ell)
      else
        let ip' := ip ++ [z2b (acc / 256); z2b acc] in
        match rest with
        | [] => Some ([], ip', ell)
        | c :: s1 =>
            if negb (Byte.eqb c x3a) then None
            else match s1 with
            | [] => None
            | d :: s2 =>
                if Byte.eqb d x3a then
                  match ell with
                  | Some _ => None
                  | None => match s2 with
                            | [] => Some ([], ip', Some (length ip'))
                            | _ => ipv6_loop f s2 ip' (Some (length ip'))
                            end
                  end
                else ipv6_loop f s1 ip' ell
            end
        end
  end.

Definition expand_ellipsis (ip : bytes) (ell : option nat) : option bytes :=
  if (length ip <? 16)%nat then
    match ell with
    | None => None
    | Some e => Some (take e ip ++ repeat x00 (16 - length ip) ++ drop e ip)
    end
  else match ell with Some _ => None | None => Some ip end.

Definition parse_ipv6 (l : bytes) : option bytes :=
  let run s ell :=
    '(s', ip, ell') ← ipv6_loop 8 s [] ell;
    match s' with [] => expand_ellipsis ip ell' | _ => None end in
  if is_prefix [x3a; x3a] l then
    match drop 2 l with
    | [] => Some (repeat x00 16)
    | s => run s (Some 0%nat)
    end
  else run l None.

Definition v4_in_v6 (v4 : bytes) : bytes := repeat x00 10 ++ [xff; xff] ++ v4.

(** The first of ['.'], [':'] and ['%'] decides the family; a zone is not an
    IP for [net.ParseIP]. *)
Definition parse_ip (l : bytes) : option bytes :=
  if existsb (Byte.eqb x25) l then None
  else match List.find (λ b, Byte.eqb b x2e || Byte.eqb b x3a) l with
       | Some b => if Byte.eqb b x2e then v4_in_v6 <$> parse_ipv4 l else parse_ipv6 l
       | None => None
       end.
Definition ParseIP (s : string) : option bytes := parse_ip (bytes_of s).

(** [netip.ParseAddr], as far as the family of the address: [Is4] answers
    [true] for the first, [Is6] for the second.  An IPv6 address may carry a
    zone, which is not empty. *)
Inductive addrFamily := Is4 | Is6.
Definition parse_addr (l : bytes) : option addrFamily :=
  match List.find (λ b, Byte.eqb b x2e || Byte.eqb b x3a || Byte.eqb b x25) l with
  | Some b =>
      if Byte.eqb b x2e then (λ _, Is4) <$> parse_ipv4 l
      else if Byte.eqb b x3a then
        match cut_byte x25 l with
        | Some (_, []) => None
        | Some (address, _) => (λ _, Is6) <$> parse_ipv6 address
        | None => (λ _, Is6) <$> parse_ipv6 l
        end
      else None
  | None => None
  end.
Definition ParseAddr (s : string) : option addrFamily := parse_addr (bytes_of s).

(** ** Predicates of [net.IP] *)

Definition bytes_eqb (l k : bytes) : bool := bool_decide (l = k).

Definition To4 (ip : bytes) : option bytes :=
  if (length ip =? 4)%nat then Some ip
  else if (length ip =? 16)%nat && bytes_eqb (take 12 ip) (repeat x00 10 ++ [xff; xff])
  then Some (drop 12 ip) else None.
(** [ip.To16() != nil]. *)
Definition has_To16 (ip : bytes) : bool := (length ip =? 4)%nat || (length ip =? 16)%nat.

Definition ip_is_v4 (ip : bytes) : bool := match To4 ip with Some _ => true | None => false end.
Definition octet (ip : bytes) (i : nat) : Z := b2z (nth i ip x00).

Definition IsUnspecified (ip : bytes) : bool :=
  match To4 ip with
  | Some v4 => bytes_eqb v4 (repeat x00 4)
  | None => bytes_eqb ip (repeat x00 16)
  end.
Definition IsLoopback (ip : bytes) : bool :=
  match To4 ip with
  | Some v4 => octet v4 0 =? 127
  | None => bytes_eqb ip (repeat x00 15 ++ [x01])
  end.
Definition IsMulticast (ip : bytes) : bool :=
  match To4 ip with
  | Some v4 => Z.land (octet v4 0) 0xf0 =? 0xe0
  | None => (length ip =? 16)%nat && (octet ip 0 =? 0xff)
  end.
Definition IsLinkLocalMulticast (ip : bytes) : bool :=
  match To4 ip with
  | Some v4 => (octet v4 0 =? 224) && (octet v4 1 =? 0) && (octet v4 2 =? 0)
  | None => (length ip =? 16)%nat && (octet ip 0 =? 0xff) && (Z.land (octet ip 1) 0x0f =? 0x02)
  end.
Definition IsLinkLocalUnicast (ip : bytes) : bool :=
  match To4 ip with
  | Some v4 => (octet v4 0 =? 169) && (octet v4 1 =? 254)
  | None => (length ip =? 16)%nat && (octet ip 0 =? 0xfe) && (Z.land (octet ip 1) 0xc0 =? 0x80)
  end.
Definition IsPrivate (ip : bytes) : bool :=
  match To4 ip with
  | Some v4 => (octet v4 0 =? 10)
      || ((octet v4 0 =? 172) && (Z.land (octet v4 1) 0xf0 =? 16))
      || ((octet v4 0 =? 192) && (octet v4 1 =? 168))
  | None => (length ip =? 16)%nat && (Z.land (octet ip 0) 0xfe =? 0xfc)
  end.
Definition IsGlobalUnicast (ip : bytes) : bool :=
  has_To16 ip
  && negb (match To4 ip with Some v4 => bytes_eqb v4 (repeat xff 4) | None => false end)
  && negb (IsUnspecified ip) && negb (IsLoopback ip) && negb (IsMulticast ip)
  && negb (IsLinkLocalUnicast ip).

(** [ip.String()] of an IPv4 address. *)
Definition v4_string_bytes (v4 : bytes) : bytes :=
  itoa_bytes (octet v4 0) ++ [x2e] ++ itoa_bytes (octet v4 1) ++ [x2e]
    ++ itoa_bytes (octet v4 2) ++ [x2e] ++ itoa_bytes (octet v4 3).
Definition v4_string (v4 : bytes) : string := string_of (v4_string_bytes v4).

(** [ip.String()] of a 16-byte address that is not IPv4 ([netip.appendTo6]):
    the first longest run of at least two zero groups becomes "::". *)
Fixpoint groups (l : bytes) : list Z :=
  match l with hi :: lo :: l' => be_uint16 hi lo :: groups l' | _ => [] end.
Fixpoint zero_run (gs : list Z) : nat :=
  match gs with g :: gs' => if g =? 0 then S (zero_run gs') else O | [] => O end.
Definition longest_zero_run (gs : list Z) : nat * nat :=
  foldl (λ '(s, e) i, let l := zero_run (drop i gs) in
           if (2 <=? l)%nat && (e - s <? l)%nat then (i, (i + l)%nat) else (s, e))
        (255%nat, 255%nat) (seq 0 (length gs)).
Definition hex_char (d : Z) : byte := if d <? 10 then z2b (48 + d) else z2b (87 + d).
Definition append_hex (x : Z) : bytes :=
  (if 0x1000 <=? x then [hex_char (Z.shiftr x 12)] else [])
  ++ (if 0x100 <=? x then [hex_char (Z.land (Z.shiftr x 8) 0xf)] else [])
  ++ (if 0x10 <=? x then [hex_char (Z.land (Z.shiftr x 4) 0xf)] else [])
  ++ [hex_char (Z.land x 0xf)].
Fixpoint v6_groups (fuel i : nat) (run : nat * nat) (gs : list Z) : bytes :=
  match fuel with
  | O => []
  | S f =>
      if (8 <=? i)%nat then []
      else if (i =? run.1)%nat then
        [x3a; x3a] ++ (if (8 <=? run.2)%nat then []
                       else append_hex (nth run.2 gs 0) ++ v6_groups f (S run.2) run gs)
      else (if (0 <? i)%nat then [x3a] else []) ++ append_hex (nth i gs 0) ++ v6_groups f (S i) run gs
  end.
Definition v6_string_bytes (ip : bytes) : bytes :=
  let gs := groups ip in v6_groups 9 0 (longest_zero_run gs) gs.

(** [ip.String()]; a slice of another length prints as "?" and its bytes. *)
Definition ip_string (ip : bytes) : string :=
  match ip with
  | [] => "<nil>"
  | _ => match To4 ip with
         | Some v4 => v4_string v4
         | None => if (length ip =? 16)%nat then string_of (v6_string_bytes ip)
                   else string_of (x3f :: concat (map (λ b, [hex_char (Z.shiftr (b2z b) 4);
                                                              hex_char (Z.land (b2z b) 0xf)]) ip))
         end
  end.

(** ** Host/port strings *)

Definition JoinHostPort (host port : string) : string :=
  if existsb (Byte.eqb x3a) (bytes_of host)
  then ("[" ++ host ++ "]:" ++ port)%string
  else (host ++ ":" ++ port)%string.

(** [(&net.TCPAddr{IP: ip, Port: port}).String()]. *)
Definition TCPAddr_String (ip : bytes) (port : Z) : string :=
  JoinHostPort (match ip with [] => "" | _ => ip_string ip end) (Itoa port).

(** The last position of a byte. *)
Fixpoint last_index (b : byte) (l : bytes) : option nat :=
  match l with
  | [] => None
  | c :: l' => match last_index b l' with
               | Some n => Some (S n)
               | None => if Byte.eqb c b then Some O else None
               end
  end.
Fixpoint first_index (b : byte) (l : bytes) : option nat :=
  match l with
  | [] => None
  | c :: l' => if Byte.eqb c b then Some O else S <$> first_index b l'
  end.

(** [net.SplitHostPort]; every error is [None]. *)
Definition SplitHostPort (hostport : string) : option (string * string) :=
  let l := bytes_of hostport in
  i ← last_index x3a l;
  '(host, j, k) ←
    (if Byte.eqb (nth 0 l x00) x5b then
       e ← first_index x5d l;
       if (S e =? i)%nat then Some (take (e - 1) (drop 1 l), 1%nat, S e) else None
     else
       if existsb (Byte.eqb x3a) (take i l) then None else Some (take i l, 0%nat, 0%nat));
  if existsb (Byte.eqb x5b) (drop j l) || existsb (Byte.eqb x5d) (drop k l) then None
  else Some (string_of host, string_of (drop (S i) l)).

(** ** Facts *)

Lemma ipv4_loop_octet b rest fs :
  ipv4_loop (itoa_bytes (b2z b) ++ rest) 0 0 fs =
  ipv4_loop rest (b2z b) (Z.of_nat (length (itoa_bytes (b2z b)))) fs.
Proof. destruct b; reflexivity. Qed.

Lemma ipv4_loop_dot b rest fs :
  rest ≠ [] → (length fs < 3)%nat →
  ipv4_loop (itoa_bytes (b2z b) ++ x2e :: rest) 0 0 fs = ipv4_loop rest 0 0 (fs ++ [b]).
Proof.
  intros Hr Hfs. rewrite ipv4_loop_octet.
  assert (∃ n, length (itoa_bytes (b2z b)) = S n) as (n & ->).
  { pose proof (itoa_nonempty (b2z b)). destruct (itoa_bytes (b2z b)); [done|by eexists]. }
  remember (Z.of_nat (S n)) as dl eqn:Hdl. simpl.
  destruct (Z.eqb_spec dl 0); [lia|]. destruct rest as [|c rest]; [done|].
  destruct (Nat.eqb_spec (length fs) 3); [lia|]. simpl. by rewrite z2b_b2z.
Qed.

Lemma parse_ipv4_string a b c d :
  parse_ipv4 (v4_string_bytes [a; b; c; d]) = Some [a; b; c; d].
Proof.
  unfold parse_ipv4, v4_string_bytes, octet. simpl nth. rewrite !app_assoc, <-!app_assoc. simpl.
  assert (∀ x l, itoa_bytes x ++ l ≠ []) as Hne.
  { intros x l. pose proof (itoa_nonempty x). by destruct (itoa_bytes x). }
  rewrite !ipv4_loop_dot by first [apply Hne | apply itoa_nonempty | simpl; lia].
  rewrite <-(app_nil_r (itoa_bytes (b2z d))), ipv4_loop_octet. simpl. by rewrite z2b_b2z.
Qed.

Lemma length_parse_ipv4 l v : parse_ipv4 l = Some v → length v = 4%nat.
Proof.
  unfold parse_ipv4.
  assert (∀ val dl fs, (length fs ≤ 3)%nat → ipv4_loop l val dl fs = Some v → length v = 4%nat) as H.
  { induction l as [|b l IH]; intros val dl fs Hfs; simpl.
    - destruct (Nat.ltb_spec (length fs) 3); [done|]. intros [= <-].
      rewrite length_app; simpl; lia.
    - destruct (is_digit b).
      + destruct (_ && _); [done|]. destruct (255 <? _); [done|]. by apply IH.
      + destruct (Byte.eqb b x2e); [|done]. destruct (_ || _); [done|].
        destruct (Nat.eqb_spec (length fs) 3); [done|]. apply IH. rewrite length_app; simpl; lia. }
  apply H. simpl; lia.
Qed.

Lemma To4_v4_in_v6 v : length v = 4%nat → To4 (v4_in_v6 v) = Some v.
Proof.
  destruct v as [|a [|b [|c [|d [|]]]]]; done.
Qed.

Lemma To4_length ip v : To4 ip = Some v → length v = 4%nat.
Proof.
  unfold To4. destruct (Nat.eqb_spec (length ip) 4); [by intros [= <-]|].
  destruct (Nat.eqb_spec (length ip) 16) as [E|]; [|done].
  destruct (bytes_eqb _ _); [|done]. intros [= <-]. rewrite length_drop. lia.
Qed.

(** An IPv4 address is 127/8 loopback and 0.0.0.0 unspecified in both its
    forms. *)
Lemma is_digit_not_sep b : is_digit b = true → Byte.eqb b x2e = false ∧ Byte.eqb b x3a = false ∧ Byte.eqb b x25 = false.
Proof.
  intros H. repeat split; (destruct (Byte.eqb b _) eqn:E; [apply byte_eqb_eq in E as ->; done|done]).
Qed.

Lemma find_sep_digits l r :
  Forall (λ b, is_digit b = true) l →
  List.find (λ b, Byte.eqb b x2e || Byte.eqb b x3a) (l ++ r)
  = List.find (λ b, Byte.eqb b x2e || Byte.eqb b x3a) r.
Proof.
  induction 1 as [|b l Hb _ IH]; simpl; [done|].
  destruct (is_digit_not_sep b Hb) as (-> & -> & _). done.
Qed.

Lemma no_percent_digits z : 0 ≤ z → existsb (Byte.eqb x25) (itoa_bytes z) = false.
Proof.
  intros Hz. apply existsb_false. intros b Hb.
  pose proof (itoa_digits z Hz) as H. rewrite Forall_forall in H. specialize (H b Hb).
  destruct (Byte.eqb x25 b) eqn:E; [apply byte_eqb_eq in E as <-; done|done].
Qed.

Lemma b2z_nonneg b : 0 ≤ b2z b.
Proof. apply b2z_range. Qed.

Lemma ParseIP_v4_string v : length v = 4%nat → ParseIP (v4_string v) = Some (v4_in_v6 v).
Proof.
  intros H. destruct v as [|a [|b [|c [|d [|]]]]]; try done.
  unfold ParseIP, v4_string. rewrite bytes_of_string_of. unfold parse_ip.
  assert (existsb (Byte.eqb x25) (v4_string_bytes [a; b; c; d]) = false) as ->.
  { unfold v4_string_bytes, octet; simpl nth. rewrite !existsb_app.
    by rewrite !no_percent_digits by apply b2z_nonneg. }
  assert (List.find (λ b, Byte.eqb b x2e || Byte.eqb b x3a) (v4_string_bytes [a; b; c; d]) = Some x2e) as ->.
  { unfold v4_string_bytes. rewrite find_sep_digits by apply itoa_digits, b2z_nonneg. done. }
  simpl. by rewrite parse_ipv4_string.
Qed.

(** Text without ':' keeps its shape in [JoinHostPort]. *)
Lemma v4_string_no_colon v : existsb (Byte.eqb x3a) (v4_string_bytes v) = false.
Proof.
  assert (∀ z, 0 ≤ z → existsb (Byte.eqb x3a) (itoa_bytes z) = false) as H.
  { intros z Hz. apply existsb_false. intros b Hb.
    pose proof (itoa_digits z Hz) as H. rewrite Forall_forall in H. specialize (H b Hb).
    destruct (Byte.eqb x3a b) eqn:E; [apply byte_eqb_eq in E as <-; done|done]. }
  unfold v4_string_bytes. rewrite !existsb_app, !H by apply b2z_nonneg. done.
Qed.

(** ** The characters of an address *)

Definition ip_char (b : byte) : bool :=
  Byte.eqb b x2e || Byte.eqb b x3a || match hex_digit b with Some _ => true | None => false end.

Lemma digit_ip_char b : is_digit b = true → ip_char b = true.
Proof. intros Hd. unfold ip_char, hex_digit. unfold is_digit in Hd. rewrite Hd. by rewrite !orb_true_r. Qed.

Lemma ipv4_loop_chars l : ∀ val digLen fs v, ipv4_loop l val digLen fs = Some v → Forall (λ b, ip_char b = true) l.
Proof.
  induction l as [|b l IH]; intros val digLen fs v; cbn [ipv4_loop]; [constructor|].
  destruct (is_digit b) eqn:Ed.
  - destruct (_ && _); [done|]. destruct (_ <? _); [done|]. intros Hl. constructor; [by apply digit_ip_char|by eapply IH].
  - destruct (Byte.eqb b x2e) eqn:Eb; [|done]. destruct (_ || _); [done|]. destruct (_ =? _)%nat; [done|].
    intros Hl. constructor; [unfold ip_char; by rewrite Eb|by eapply IH].
Qed.

Lemma hex_group_chars l : ∀ off acc acc' off' rest,
  hex_group l off acc = Some (acc', off', rest) → ∃ p, l = p ++ rest ∧ Forall (λ b, ip_char b = true) p.
Proof.
  induction l as [|b l IH]; intros off acc acc' off' rest; cbn [hex_group].
  - intros [= <- <- <-]. by exists [].
  - destruct (hex_digit b) eqn:Eb; [|intros [= <- <- <-]; by exists []].
    destruct (3 <? off); [done|]. destruct (65535 <? _); [done|]. intros (p & -> & Hp)%IH.
    exists (b :: p). split; [done|]. constructor; [|done]. unfold ip_char. by rewrite Eb, !orb_true_r.
Qed.

Lemma ipv6_loop_chars fuel : ∀ s ip ell s' ip' ell',
  ipv6_loop fuel s ip ell = Some (s', ip', ell') → ∃ p, s = p ++ s' ∧ Forall (λ b, ip_char b = true) p.
Proof.
  induction fuel as [|f IH]; intros s ip ell s' ip' ell'; cbn [ipv6_loop]; [intros [= <- <- <-]; by exists []|].
  destruct (hex_group s 0 0) as [[[acc off] rest]|] eqn:Eg; cbn [mbind option_bind]; [|done].
  apply hex_group_chars in Eg as (p & Es & Hp). destruct (off =? 0); [done|].
  destruct (starts_with x2e rest).
  - destruct (match ell with None => _ | Some _ => _ end); [done|]. destruct (_ <? _)%nat; [done|].
    destruct (parse_ipv4 s) as [v4|] eqn:E4; cbn; [|done]. intros [= <- <- <-].
    exists s. split; [by rewrite app_nil_r|]. by eapply ipv4_loop_chars.
  - destruct rest as [|c s1]; [intros [= <- <- <-]; exists p; by rewrite Es, app_nil_r|].
    destruct (Byte.eqb c x3a) eqn:Ec; cbn [negb]; [|done]. destruct s1 as [|d s2]; [done|].
    assert (ip_char c = true) as Hc by (unfold ip_char; by rewrite Ec, orb_true_r).
    destruct (Byte.eqb d x3a) eqn:Ed.
    + assert (ip_char d = true) as Hd by (unfold ip_char; by rewrite Ed, orb_true_r).
      destruct ell; [done|]. destruct s2 as [|e s3].
      * intros [= <- <- <-]. exists s. split; [by rewrite app_nil_r|]. rewrite Es. apply Forall_app. split; [done|].
        by repeat constructor.
      * intros (q & Eq & Hq)%IH. exists (p ++ c :: d :: q). split; [by rewrite Es, Eq, <-app_assoc|].
        apply Forall_app. split; [done|]. by repeat constructor.
    + intros (q & Eq & Hq)%IH. exists (p ++ c :: q). split; [by rewrite Es, Eq, <-app_assoc|].
      apply Forall_app. split; [done|]. by constructor.
Qed.

(** An accepted address consists of hexadecimal digits, dots and colons. *)
Lemma parse_ip_chars l ip : parse_ip l = Some ip → Forall (λ b, ip_char b = true) l.
Proof.
  unfold parse_ip. destruct (existsb _ l); [done|]. destruct (List.find _ l) as [b|]; [|done].
  destruct (Byte.eqb b x2e).
  - destruct (parse_ipv4 l) eqn:E; [|done]. intros _. by eapply ipv4_loop_chars.
  - unfold parse_ipv6.
    assert (∀ s ell, ('(s', ip, ell') ← ipv6_loop 8 s [] ell; match s' with [] => expand_ellipsis ip ell' | _ => None end)
      = Some ip → Forall (λ b, ip_char b = true) s) as Hrun.
    { intros s ell. destruct (ipv6_loop 8 s [] ell) as [[[s' ip'] ell']|] eqn:E; cbn; [|done].
      apply ipv6_loop_chars in E as (p & -> & Hp). destruct s'; [|done]. intros _. by rewrite app_nil_r. }
    destruct (is_prefix [x3a; x3a] l) eqn:Ep; [|apply Hrun].
    apply is_prefix_spec in Ep as (r & ->). change (drop 2 ([x3a; x3a] ++ r)) with r.
    intros Hr. constructor; [done|]. constructor; [done|].
    destruct r as [|c r]; [constructor|]. exact (Hrun (c :: r) (Some 0%nat) Hr).
Qed.

Lemma ParseIP_no_slash s ip : ParseIP s = Some ip → Contains s "/" = false.
Proof.
  intros Hc%parse_ip_chars. unfold Contains.
  destruct (index_bytes (bytes_of "/") (bytes_of s)) as [n|] eqn:E; [|done]. exfalso.
  apply index_bytes_some in E as (r & E). rewrite Forall_forall in Hc.
  assert (ip_char x2f = true) as Hs; [|by vm_compute in Hs].
  apply Hc. rewrite E. apply elem_of_app. right. apply elem_of_app. left. left.
Qed.
