(* ===== verification/Domain.v ===== *)
(** * Domain rules (pkg/core/domain)

    - [Rules]: inbound bindings and the conflict check that every rule passes
      before it is saved ([rules.go]).
    - [TargetGroups]: sticky choice of a target ([target_group.go]).
    - [Quotas]: traffic quotas ([quota.go]).
    Go's string types ([Protocol], [MatchType], [ErrorCode], ...) are strings
    here, since Go does not restrict their values. *)

From S2P Require Import Prelude GoString GoInt GoSort GoNet.
#[local] Open Scope Z_scope.

Module Errors.
Record DomainError := { Code : string; Message : string }.
#[export] Instance DomainError_eq_dec : EqDecision DomainError.
Proof. solve_decision. Defined.

Definition ErrValidationFailed : string := "VALIDATION_FAILED".
Definition ErrRulePortConflict : string := "RULE_PORT_CONFLICT".
Definition ErrRuleDuplicateSNI : string := "RULE_DUPLICATE_SNI".

Definition newDomainError (code message : string) : DomainError :=
  {| Code := code; Message := message |}.
End Errors.

Definition ProtocolTCP : string := "TCP".
Definition ProtocolUDP : string := "UDP".
Definition ProtocolTCPUDP : string := "TCP_UDP".
Definition ForwardingTypeDirect : string := "DIRECT".
Definition MatchTypeAnyInbound : string := "ANY_INBOUND".
Definition MatchTypeTLSSNI : string := "TLS_SNI".
Definition MatchTypeFeature : string := "FEATURE".

Module Rules.
Import Errors.

Record InboundBinding := {
  NodeID : string; ListenIP : string; Protocol : string;
  Port : Z; StartPort : Z; EndPort : Z;
  MatchType : string; SNI : string; ProxyProtocolIn : string; ForwardRule : string }.

Definition isWildcardListenIP (value : string) : bool :=
  if String.eqb value "" then true
  else match ParseIP value with Some ip => IsUnspecified ip | None => false end.

Definition normalizeListenIPValue (value : string) : string := Trim (TrimSpace value) "[]".

Definition listenIPsOverlap (left right : string) : bool :=
  let left := normalizeListenIPValue left in
  let right := normalizeListenIPValue right in
  if String.eqb left right then true
  else isWildcardListenIP left || isWildcardListenIP right.

Definition sameListenIPValue (left right : string) : bool :=
  String.eqb (normalizeListenIPValue left) (normalizeListenIPValue right).

Definition protocolsOverlap (left right : string) : bool :=
  if String.eqb left right then true
  else (String.eqb left ProtocolTCPUDP && (String.eqb right ProtocolTCP || String.eqb right ProtocolUDP))
    || (String.eqb right ProtocolTCPUDP && (String.eqb left ProtocolTCP || String.eqb left ProtocolUDP)).

Definition normalizedBindingPorts (binding : InboundBinding) : Z * Z :=
  let start := StartPort binding in
  let end_ := EndPort binding in
  let start := if start =? 0 then Port binding else start in
  let end_ := if end_ =? 0 then start else end_ in
  (start, end_).

Definition portRangesOverlap (left right : InboundBinding) : bool :=
  let '(leftStart, leftEnd) := normalizedBindingPorts left in
  let '(rightStart, rightEnd) := normalizedBindingPorts right in
  (leftStart <=? rightEnd) && (rightStart <=? leftEnd).

Definition sameEndpoint (left right : InboundBinding) : bool :=
  String.eqb (NodeID left) (NodeID right)
  && listenIPsOverlap (ListenIP left) (ListenIP right)
  && protocolsOverlap (Protocol left) (Protocol right)
  && portRangesOverlap left right.

Section validate.
Context `{UnicodeTables}.

Definition normalizeProxyProtocol (value : string) : string :=
  let value := TrimSpace (ToUpper value) in
  if String.eqb value "" || String.eqb value "NONE" then "" else value.

(** One turn of the loop over the existing bindings: [Some] is the
    function's return, [None] goes on to the next binding. *)
Definition bindingConflict (binding candidate : InboundBinding) : option DomainError :=
  if negb (sameEndpoint binding candidate) then None
  else if String.eqb (MatchType binding) MatchTypeAnyInbound
          || String.eqb (MatchType candidate) MatchTypeAnyInbound then
    Some (newDomainError ErrRulePortConflict "ANY_INBOUND reserves the full inbound endpoint")
  else if negb (String.eqb (MatchType binding) MatchTypeTLSSNI)
          || negb (String.eqb (MatchType candidate) MatchTypeTLSSNI) then
    Some (newDomainError ErrRulePortConflict "unsupported match types reserve the full inbound endpoint")
  else if String.eqb (MatchType binding) MatchTypeTLSSNI
          && String.eqb (MatchType candidate) MatchTypeTLSSNI
          && negb (sameListenIPValue (ListenIP binding) (ListenIP candidate)) then
    Some (newDomainError ErrRulePortConflict "TLS_SNI bindings cannot mix overlapping wildcard and specific listen IPs on the same inbound endpoint")
  else if String.eqb (MatchType binding) MatchTypeTLSSNI
          && String.eqb (MatchType candidate) MatchTypeTLSSNI
          && negb (String.eqb (normalizeProxyProtocol (ProxyProtocolIn binding))
                              (normalizeProxyProtocol (ProxyProtocolIn candidate))) then
    Some (newDomainError ErrRulePortConflict "TLS_SNI bindings on the same inbound endpoint require the same inbound proxy protocol mode")
  else if String.eqb (MatchType binding) MatchTypeTLSSNI
          && String.eqb (MatchType candidate) MatchTypeTLSSNI
          && EqualFold (SNI binding) (SNI candidate) then
    Some (newDomainError ErrRuleDuplicateSNI "TLS_SNI binding already exists on this inbound endpoint")
  else None.

Fixpoint firstConflict (existing : list InboundBinding) (candidate : InboundBinding)
    : option DomainError :=
  match existing with
  | [] => None
  | binding :: rest => match bindingConflict binding candidate with
                       | Some err => Some err
                       | None => firstConflict rest candidate
                       end
  end.

Definition ValidateInboundBindingConflict (existing : list InboundBinding)
    (candidate : InboundBinding) : option DomainError :=
  if String.eqb (MatchType candidate) MatchTypeTLSSNI
     && negb (String.eqb (Protocol candidate) ProtocolTCP) then
    Some (newDomainError ErrValidationFailed "TLS_SNI is only valid for TCP inbound bindings")
  else if String.eqb (Protocol candidate) ProtocolTCPUDP
          && negb (String.eqb (MatchType candidate) MatchTypeAnyInbound) then
    Some (newDomainError ErrValidationFailed "TCP_UDP inbound bindings only support ANY_INBOUND matching")
  else if String.eqb (MatchType candidate) MatchTypeTLSSNI
          && String.eqb (TrimSpace (SNI candidate)) "" then
    Some (newDomainError ErrValidationFailed "TLS_SNI inbound bindings require an SNI hostname")
  else if String.eqb (MatchType candidate) MatchTypeFeature then
    Some (newDomainError ErrValidationFailed "FEATURE matching is reserved for future protocol support")
  else firstConflict existing candidate.
End validate.

(** ** What the check promises

    A binding receives the traffic of the sockets [(node, IP, protocol, port)]
    it claims; a [TCP_UDP] binding claims a TCP and a UDP socket. *)

Definition sockets (protocol : string) : list string :=
  if String.eqb protocol ProtocolTCPUDP then [ProtocolTCP; ProtocolUDP] else [protocol].

Definition claims_port (b : InboundBinding) (port : Z) : Prop :=
  (normalizedBindingPorts b).1 ≤ port ≤ (normalizedBindingPorts b).2.

Definition share_socket (b c : InboundBinding) : Prop :=
  NodeID b = NodeID c ∧ listenIPsOverlap (ListenIP b) (ListenIP c) = true ∧
  (∃ p, p ∈ sockets (Protocol b) ∧ p ∈ sockets (Protocol c)) ∧
  (∃ port, claims_port b port ∧ claims_port c port).

Lemma protocolsOverlap_spec l r :
  protocolsOverlap l r = true ↔ ∃ p, p ∈ sockets l ∧ p ∈ sockets r.
Proof.
  unfold protocolsOverlap, sockets, ProtocolTCPUDP, ProtocolTCP, ProtocolUDP.
  destruct (String.eqb_spec l r) as [->|Hne].
  { split; [intros _|done]. destruct (String.eqb_spec r "TCP_UDP").
    - exists "TCP". split; set_solver.
    - exists r. split; set_solver. }
  destruct (String.eqb_spec l "TCP_UDP") as [->|Hl], (String.eqb_spec r "TCP_UDP") as [->|Hr];
    simpl; rewrite ?orb_false_r, ?orb_true_iff, ?String.eqb_eq; [done|..].
  - split.
    + intros [->| ->]; [exists "TCP"|exists "UDP"]; set_solver.
    + intros (p & Hp & ->%list_elem_of_singleton). set_solver.
  - split.
    + intros [->| ->]; [exists "TCP"|exists "UDP"]; set_solver.
    + intros (p & ->%list_elem_of_singleton & Hp). set_solver.
  - split; [naive_solver|].
    intros (p & ->%list_elem_of_singleton & ->%list_elem_of_singleton). done.
Qed.

Lemma portRangesOverlap_claims b c port :
  claims_port b port → claims_port c port → portRangesOverlap b c = true.
Proof.
  unfold claims_port, portRangesOverlap.
  destruct (normalizedBindingPorts b), (normalizedBindingPorts c); simpl. lia.
Qed.

Lemma portRangesOverlap_spec b c :
  (normalizedBindingPorts b).1 ≤ (normalizedBindingPorts b).2 →
  (normalizedBindingPorts c).1 ≤ (normalizedBindingPorts c).2 →
  portRangesOverlap b c = true ↔ ∃ port, claims_port b port ∧ claims_port c port.
Proof.
  intros Hb Hc. split; [|intros (port & ? & ?); by eapply portRangesOverlap_claims].
  unfold claims_port, portRangesOverlap.
  destruct (normalizedBindingPorts b) as [s1 e1], (normalizedBindingPorts c) as [s2 e2].
  simpl in *. intros. exists (Z.max s1 s2). lia.
Qed.

Lemma share_socket_sameEndpoint b c : share_socket b c → sameEndpoint b c = true.
Proof.
  intros (Hn & Hip & Hp & port & Hb & Hc). unfold sameEndpoint.
  rewrite Hip, (proj2 (protocolsOverlap_spec _ _) Hp), (portRangesOverlap_claims b c port) by done.
  by rewrite (proj2 (String.eqb_eq _ _) Hn).
Qed.

Section conflict.
Context `{UnicodeTables}.

(** Two bindings of one endpoint may coexist only when the TLS server name
    tells them apart. *)
Definition may_share (b c : InboundBinding) : Prop :=
  MatchType b = MatchTypeTLSSNI ∧ MatchType c = MatchTypeTLSSNI ∧
  sameListenIPValue (ListenIP b) (ListenIP c) = true ∧
  normalizeProxyProtocol (ProxyProtocolIn b) = normalizeProxyProtocol (ProxyProtocolIn c) ∧
  EqualFold (SNI b) (SNI c) = false.

Definition well_formed (c : InboundBinding) : Prop :=
  (MatchType c = MatchTypeTLSSNI → Protocol c = ProtocolTCP ∧ TrimSpace (SNI c) ≠ "") ∧
  (Protocol c = ProtocolTCPUDP → MatchType c = MatchTypeAnyInbound) ∧
  MatchType c ≠ MatchTypeFeature.

Lemma bindingConflict_none b c :
  bindingConflict b c = None ↔ (sameEndpoint b c = true → may_share b c).
Proof.
  unfold bindingConflict, may_share. destruct (sameEndpoint b c); [|done]; cbn [negb].
  assert (String.eqb MatchTypeTLSSNI MatchTypeAnyInbound = false) as Hany by reflexivity.
  destruct (String.eqb_spec (MatchType b) MatchTypeTLSSNI) as [Eb|];
    destruct (String.eqb_spec (MatchType c) MatchTypeTLSSNI) as [Ec|];
    rewrite ?Eb, ?Ec, ?Hany; cbn [negb orb andb].
  2-4: split; [by case_match|naive_solver].
  destruct (sameListenIPValue _ _); cbn [negb]; [|by naive_solver].
  destruct (String.eqb_spec (normalizeProxyProtocol (ProxyProtocolIn b))
    (normalizeProxyProtocol (ProxyProtocolIn c))); cbn [negb]; [|by naive_solver].
  destruct (EqualFold _ _); naive_solver.
Qed.

Lemma firstConflict_none l c :
  firstConflict l c = None ↔ ∀ b, b ∈ l → bindingConflict b c = None.
Proof.
  induction l as [|b l IH]; simpl; [by split; [set_solver|]|].
  destruct (bindingConflict b c) eqn:E.
  - split; [done|]. intros Hl. rewrite <-E. apply Hl. by left.
  - rewrite IH. split; [intros Hl b'; rewrite elem_of_cons; naive_solver|set_solver].
Qed.

(** A binding list that was built by checking each binding against the
    ones before it. *)
Inductive admitted : list InboundBinding → Prop :=
| admitted_nil : admitted []
| admitted_snoc l c :
    admitted l → ValidateInboundBindingConflict l c = None → admitted (l ++ [c]).

Lemma ValidateInboundBindingConflict_none existing candidate :
  ValidateInboundBindingConflict existing candidate = None ↔
  well_formed candidate ∧
  ∀ b, b ∈ existing → sameEndpoint b candidate = true → may_share b candidate.
Proof.
  unfold ValidateInboundBindingConflict, well_formed.
  setoid_rewrite <-bindingConflict_none. rewrite <-firstConflict_none.
  destruct (String.eqb_spec (MatchType candidate) MatchTypeTLSSNI) as [E|E]; simpl.
  - destruct (String.eqb_spec (Protocol candidate) ProtocolTCP) as [E2|E2]; simpl; [|naive_solver].
    rewrite E, E2; simpl.
    destruct (String.eqb_spec (TrimSpace (SNI candidate)) "") as [E6|E6]; [naive_solver|].
    by intuition.
  - destruct (String.eqb_spec (Protocol candidate) ProtocolTCPUDP) as [E3|E3];
      destruct (String.eqb_spec (MatchType candidate) MatchTypeAnyInbound) as [E4|E4]; simpl;
      destruct (String.eqb_spec (MatchType candidate) MatchTypeFeature) as [E5|E5]; simpl;
      try (split; [done|tauto]); tauto.
Qed.

(** C1. The conflict check accepts a binding exactly when the binding is well formed
    by itself and every existing binding of the same endpoint is a TLS_SNI
    binding that the server name tells apart from it. *)
Theorem ValidateInboundBindingConflict_spec existing candidate :
  ValidateInboundBindingConflict existing candidate = None ↔
  well_formed candidate ∧
  ∀ b, b ∈ existing → sameEndpoint b candidate = true → may_share b candidate.
Proof. apply ValidateInboundBindingConflict_none. Qed.

Lemma admitted_lookup l i j b c :
  admitted l → (i < j)%nat → l !! i = Some b → l !! j = Some c →
  well_formed c ∧ (sameEndpoint b c = true → may_share b c).
Proof.
  intros Hl Hij Hi Hj. induction Hl as [|l d Hl IH Hd]; [done|].
  apply ValidateInboundBindingConflict_none in Hd as [Hwf Hd].
  apply lookup_app_Some in Hj as [Hj|[Hlen Hj]].
  - rewrite lookup_app_l in Hi by (apply lookup_lt_Some in Hj; lia). eauto.
  - apply list_lookup_singleton_Some in Hj as [? <-].
    rewrite lookup_app_l in Hi by lia. split; [done|].
    intros Hs. apply Hd; [|done]. by eapply list_elem_of_lookup_2.
Qed.
End conflict.

(** Safety of the rule table: when every binding was admitted by the check against
    the bindings before it, two different bindings that can receive traffic
    on the same socket (node, overlapping listen IP, transport protocol and
    port) are both TLS_SNI over TCP on the same listen IP, agree on the
    inbound proxy protocol, and have different server names. *)
Theorem admitted_no_conflict `{UnicodeTables} l i j b c :
  admitted l → (i < j)%nat → l !! i = Some b → l !! j = Some c → share_socket b c →
  may_share b c ∧ Protocol c = ProtocolTCP.
Proof.
  intros Hl Hij Hi Hj Hs. destruct (admitted_lookup l i j b c Hl Hij Hi Hj) as [Hwf Hm].
  specialize (Hm (share_socket_sameEndpoint b c Hs)). split; [done|].
  apply Hwf, Hm.
Qed.

Definition sni_binding (sni : string) : InboundBinding :=
  {| NodeID := "node_1"; ListenIP := "0.0.0.0"; Protocol := ProtocolTCP; Port := 443;
     StartPort := 0; EndPort := 0; MatchType := MatchTypeTLSSNI; SNI := sni;
     ProxyProtocolIn := "NONE"; ForwardRule := sni |}.

Lemma admitted_no_conflict_witness :
  let _ := ascii_tables in
  let b := sni_binding "a.example.com" in let c := sni_binding "b.example.com" in
  admitted [b; c] ∧ share_socket b c ∧ may_share b c ∧ Protocol c = ProtocolTCP.
Proof.
  intros U b c.
  assert (admitted [b; c]) as Ha.
  { apply (admitted_snoc [b] c); [apply (admitted_snoc [] b); [constructor|]|]; reflexivity. }
  assert (share_socket b c) as Hs.
  { split; [done|]. split; [reflexivity|]. split.
    - exists ProtocolTCP. split; apply list_elem_of_singleton; reflexivity.
    - exists 443. split; split; cbv; discriminate. }
  split; [done|]. split; [done|].
  apply (@admitted_no_conflict U [b; c] 0 1 b c Ha); [lia|reflexivity..|done].
Defined.
End Rules.

Module TargetGroups.
Record TargetGroupMember := { TargetID : string; Priority : Z; Enabled : bool; Healthy : bool }.
Record TargetGroup := { ID : string; Members : list TargetGroupMember }.

(** The first loop of [availableMembersAtBestPriority]: [found] and
    [bestPriority] as one option. *)
Definition bestPriorityStep (best : option Z) (member : TargetGroupMember) : option Z :=
  if negb (Enabled member) || negb (Healthy member) then best
  else match best with
       | None => Some (Priority member)
       | Some p => if Priority member <? p then Some (Priority member) else Some p
       end.

Definition availableMembersAtBestPriority (group : TargetGroup) : list TargetGroupMember :=
  match foldl bestPriorityStep None (Members group) with
  | None => []
  | Some bestPriority =>
      List.filter (λ m, Enabled m && Healthy m && (Priority m =? bestPriority)) (Members group)
  end.

Definition stableIndex (input : bytes) (size : Z) : Z := fnv32a input `mod` wrapu32 size.

Definition member_less (a b : TargetGroupMember) : bool := String.ltb (TargetID a) (TargetID b).

(** The error value of the Go function, [(TargetGroupMember{}, false)], is
    [None]. *)
Definition Select (group : TargetGroup) (sourceIP ruleID protocol : string)
    : option TargetGroupMember :=
  match availableMembersAtBestPriority group with
  | [] => None
  | priorityMembers =>
      let sorted := sort_stable member_less priorityMembers in
      let index := stableIndex (bytes_of (sourceIP ++ "|" ++ ruleID ++ "|" ++ protocol)%string)
                     (Z.of_nat (length sorted)) in
      sorted !! Z.to_nat index
  end.

Definition available (m : TargetGroupMember) : bool := Enabled m && Healthy m.

Lemma bestPriority_spec ms :
  match foldl bestPriorityStep None ms with
  | None => ∀ m, m ∈ ms → available m = false
  | Some p => (∃ m, m ∈ ms ∧ available m = true ∧ Priority m = p) ∧
              ∀ m, m ∈ ms → available m = true → p ≤ Priority m
  end.
Proof.
  apply (foldl_ind bestPriorityStep (λ ms best, match best with
    | None => ∀ m, m ∈ ms → available m = false
    | Some p => (∃ m, m ∈ ms ∧ available m = true ∧ Priority m = p) ∧
                ∀ m, m ∈ ms → available m = true → p ≤ Priority m end)); [set_solver|].
  intros l x best IH. unfold bestPriorityStep, available in *.
  assert (∀ m, m ∈ l ++ [x] ↔ m ∈ l ∨ m = x) as Hin by set_solver.
  destruct (Enabled x) eqn:Ee; simpl; [destruct (Healthy x) eqn:Eh; simpl|].
  - destruct best as [p|].
    + destruct IH as [(m & Hm & Ha & Hp) Hmin]. destruct (Z.ltb_spec (Priority x) p).
      * split; [exists x; rewrite Hin, Ee, Eh; naive_solver|].
        intros m' [Hm'| ->]%Hin Ha'; [specialize (Hmin m' Hm' Ha')|]; lia.
      * split; [exists m; rewrite Hin; naive_solver|].
        intros m' [Hm'| ->]%Hin Ha'; [by apply Hmin|lia].
    + split; [exists x; rewrite Hin, Ee, Eh; naive_solver|].
      intros m' [Hm'| ->]%Hin Ha'; [|lia]. rewrite IH in Ha'; done.
  - destruct best as [p|].
    + destruct IH as [(m & Hm & Ha & Hp) Hmin].
      split; [exists m; rewrite Hin; naive_solver|].
      intros m' [Hm'| ->]%Hin Ha'; [by apply Hmin|]. by rewrite Ee, Eh in Ha'.
    + intros m' [Hm'| ->]%Hin; [by apply IH|]. by rewrite Ee, Eh.
  - destruct best as [p|].
    + destruct IH as [(m & Hm & Ha & Hp) Hmin].
      split; [exists m; rewrite Hin; naive_solver|].
      intros m' [Hm'| ->]%Hin Ha'; [by apply Hmin|]. by rewrite Ee in Ha'.
    + intros m' [Hm'| ->]%Hin; [by apply IH|]. by rewrite Ee.
Qed.

Definition best_member (group : TargetGroup) (m : TargetGroupMember) : Prop :=
  m ∈ Members group ∧ available m = true ∧
  ∀ m', m' ∈ Members group → available m' = true → Priority m ≤ Priority m'.

Lemma elem_of_available g m : m ∈ availableMembersAtBestPriority g ↔ best_member g m.
Proof.
  unfold availableMembersAtBestPriority, best_member. pose proof (bestPriority_spec (Members g)) as Hb.
  destruct (foldl _ _ _) as [p|].
  - destruct Hb as [(m0 & Hm0 & Ha0 & <-) Hmin]. rewrite elem_of_filterb, andb_true_iff, Z.eqb_eq.
    split.
    + intros (Hm & Ha & Hp). split; [done|]. split; [done|]. intros. rewrite Hp. by apply Hmin.
    + intros (Hm & Ha & Hall). split; [done|]. split; [done|].
      specialize (Hall m0 Hm0 Ha0). specialize (Hmin m Hm Ha). lia.
  - split; [set_solver|]. intros (Hm & Ha & _). rewrite Hb in Ha; done.
Qed.

Lemma stableIndex_bound input n :
  (0 < n)%nat → Z.of_nat n < 2 ^ 32 → 0 ≤ stableIndex input (Z.of_nat n) < Z.of_nat n.
Proof.
  intros Hn Hlt. unfold stableIndex, wrapu32. rewrite (Z.mod_small (Z.of_nat n)) by lia.
  apply Z.mod_pos_bound. lia.
Qed.

(** The sorting key separates the members. *)
Lemma member_less_total ms :
  NoDup (TargetID <$> ms) → ∀ x y, x ∈ ms → y ∈ ms →
  member_less x y = false → member_less y x = false → x = y.
Proof.
  intros Hnd x y Hx Hy H1 H2. assert (TargetID x = TargetID y) as E by by apply str_ltb_total.
  apply list_elem_of_lookup in Hx as (i & Hi), Hy as (j & Hj).
  assert (i = j) as ->; [|congruence].
  eapply NoDup_lookup; [done|by rewrite list_lookup_fmap, Hi|].
  rewrite list_lookup_fmap, Hj. simpl. by rewrite E.
Qed.

#[export] Instance member_less_strict_weak : StrictWeak member_less.
Proof. apply (key_fun_strict_weak (ltb:=String.ltb) TargetID). Qed.

(** [Select] finds a target exactly when some member is enabled and healthy, and
    what it finds is an enabled and healthy member of the numerically lowest
    priority among those: it never indexes out of range. *)
Theorem Select_spec g sourceIP ruleID protocol :
  Z.of_nat (length (Members g)) < 2 ^ 32 →
  match Select g sourceIP ruleID protocol with
  | Some m => best_member g m
  | None => ∀ m, m ∈ Members g → available m = false
  end.
Proof.
  intros Hlen. unfold Select.
  destruct (availableMembersAtBestPriority g) as [|m0 ms] eqn:E.
  - intros m Hm. destruct (available m) eqn:Ha; [|done]. exfalso.
    pose proof (bestPriority_spec (Members g)) as Hb.
    unfold availableMembersAtBestPriority in E. destruct (foldl _ _ _) as [p|]; [|by rewrite Hb in Ha].
    destruct Hb as [(m1 & Hm1 & Ha1 & Hp) _].
    assert (m1 ∈ @nil TargetGroupMember) as Hin; [|set_solver].
    rewrite <-E, elem_of_filterb. unfold available in Ha1. by rewrite Ha1, Hp, Z.eqb_refl.
  - rewrite <-E. set (av := availableMembersAtBestPriority g) in *.
    assert (0 < length av ≤ length (Members g))%nat as Hav.
    { split; [rewrite E; simpl; lia|]. unfold av, availableMembersAtBestPriority.
      destruct (foldl _ _ _); [|simpl; lia]. apply filter_length_le. }
    rewrite sort_length.
    pose proof (stableIndex_bound (bytes_of (sourceIP ++ "|" ++ ruleID ++ "|" ++ protocol)%string)
      (length av) ltac:(lia) ltac:(lia)) as Hi.
    destruct (sort_stable member_less av !! _) as [m|] eqn:El.
    + apply elem_of_available. apply list_elem_of_lookup_2 in El. by rewrite elem_of_sort in El.
    + apply lookup_ge_None in El. rewrite sort_length in El. lia.
Qed.

Lemma available_perm g g' :
  Members g ≡ₚ Members g' →
  availableMembersAtBestPriority g ≡ₚ availableMembersAtBestPriority g'.
Proof.
  intros Hp. unfold availableMembersAtBestPriority.
  pose proof (bestPriority_spec (Members g)) as H1.
  pose proof (bestPriority_spec (Members g')) as H2.
  assert (foldl bestPriorityStep None (Members g) = foldl bestPriorityStep None (Members g')) as ->.
  { destruct (foldl _ _ (Members g)) as [p|], (foldl _ _ (Members g')) as [q|]; try done.
    - destruct H1 as [(m & Hm & Ha & <-) Hmin], H2 as [(m' & Hm' & Ha' & <-) Hmin'].
      f_equal. rewrite Hp in Hm. specialize (Hmin' m Hm Ha).
      rewrite <-Hp in Hm'. specialize (Hmin m' Hm' Ha'). lia.
    - destruct H1 as [(m & Hm & Ha & _) _]. rewrite Hp in Hm. by rewrite H2 in Ha.
    - destruct H2 as [(m & Hm & Ha & _) _]. rewrite <-Hp in Hm. by rewrite H1 in Ha. }
  destruct (foldl bestPriorityStep None (Members g')); [|done]. by apply filterb_perm.
Qed.

(** The choice is sticky: it depends on the client, the rule, the protocol and the
    set of members, not on the order in which the members are listed (their
    ids being distinct). *)
Theorem Select_permutation g g' sourceIP ruleID protocol :
  NoDup (TargetID <$> Members g) → Members g ≡ₚ Members g' →
  Select g sourceIP ruleID protocol = Select g' sourceIP ruleID protocol.
Proof.
  intros Hnd Hp. unfold Select. pose proof (available_perm g g' Hp) as Hav.
  assert (sort_stable member_less (availableMembersAtBestPriority g)
          = sort_stable member_less (availableMembersAtBestPriority g')) as Hs.
  { apply sort_unique; [apply _| |done]. intros x y Hx Hy.
    apply elem_of_available in Hx as [Hx _], Hy as [Hy _].
    by apply (member_less_total (Members g)). }
  destruct (availableMembersAtBestPriority g) as [|x l], (availableMembersAtBestPriority g') as [|y k].
  - done.
  - by apply Permutation_nil_cons in Hav.
  - symmetry in Hav. by apply Permutation_nil_cons in Hav.
  - by rewrite Hs.
Qed.

Definition member (id : string) (p : Z) : TargetGroupMember :=
  {| TargetID := id; Priority := p; Enabled := true; Healthy := true |}.

Lemma Select_spec_witness :
  let g := {| ID := "g"; Members := [member "backup" 20; member "primary" 10] |} in
  Z.of_nat (length (Members g)) < 2 ^ 32 ∧
  Select g "203.0.113.4" "rule_1" "TCP" = Some (member "primary" 10) ∧
  match Select g "203.0.113.4" "rule_1" "TCP" with
  | Some m => best_member g m
  | None => ∀ m, m ∈ Members g → available m = false
  end.
Proof.
  intros g. split; [reflexivity|]. split; [vm_compute; reflexivity|].
  apply (Select_spec g "203.0.113.4" "rule_1" "TCP"). reflexivity.
Defined.

Lemma Select_permutation_witness :
  let g := {| ID := "g"; Members := [member "a" 10; member "b" 10; member "c" 10] |} in
  let g' := {| ID := "g"; Members := [member "b" 10; member "a" 10; member "c" 10] |} in
  NoDup (TargetID <$> Members g) ∧ Members g ≡ₚ Members g' ∧
  Select g "203.0.113.4" "rule_1" "TCP" = Select g' "203.0.113.4" "rule_1" "TCP".
Proof.
  intros g g'.
  assert (NoDup (TargetID <$> Members g)) as Hnd by (apply (bool_decide_unpack _); vm_compute; exact I).
  assert (Members g ≡ₚ Members g') as Hp by constructor.
  split; [done|]. split; [done|].
  apply (Select_permutation g g' "203.0.113.4" "rule_1" "TCP" Hnd Hp).
Defined.
End TargetGroups.

Module Quotas.
Definition TrafficLimitModeUploadOnly : string := "UPLOAD_ONLY".
Definition TrafficLimitModeDownloadOnly : string := "DOWNLOAD_ONLY".
Definition TrafficLimitModeMaxOfUpDown : string := "MAX_OF_UP_DOWN".
Definition OverLimitActionDisableRule : string := "DISABLE_RULE".

Record TrafficUsage := { UploadBytes : Z; DownloadBytes : Z }.

(** The default arm adds two [int64]s, which wraps around. *)
Definition CountedBytes (usage : TrafficUsage) (mode : string) : Z :=
  if String.eqb mode TrafficLimitModeUploadOnly then UploadBytes usage
  else if String.eqb mode TrafficLimitModeDownloadOnly then DownloadBytes usage
  else if String.eqb mode TrafficLimitModeMaxOfUpDown then
    if DownloadBytes usage <? UploadBytes usage then UploadBytes usage else DownloadBytes usage
  else add64 (UploadBytes usage) (DownloadBytes usage).

Record Quota := { TrafficLimitBytes : Z; TrafficLimitMode : string; OverLimitAction : string }.
Record QuotaDecision := { Exceeded : bool; DisableRules : bool; Counted : Z }.

Definition Evaluate (quota : Quota) (usage : TrafficUsage) : QuotaDecision :=
  let counted := CountedBytes usage (TrafficLimitMode quota) in
  let exceeded := (0 <? TrafficLimitBytes quota) && (TrafficLimitBytes quota <? counted) in
  {| Exceeded := exceeded;
     DisableRules := exceeded && String.eqb (OverLimitAction quota) OverLimitActionDisableRule;
     Counted := counted |}.

(** What each mode measures, in unbounded arithmetic. *)
Definition measure (mode : string) (up down : Z) : Z :=
  if String.eqb mode TrafficLimitModeUploadOnly then up
  else if String.eqb mode TrafficLimitModeDownloadOnly then down
  else if String.eqb mode TrafficLimitModeMaxOfUpDown then Z.max up down
  else up + down.

(** C40. While the two counters are non-negative and their sum fits an [int64], the
    quota decision compares the exact measure of its mode with the limit: a
    positive limit is exceeded when the measure is strictly greater, rules
    are disabled only then and only under DISABLE_RULE, and more traffic
    never turns an exceeded quota into one that is not. *)
Theorem Evaluate_spec quota up down up' down' :
  0 ≤ up → 0 ≤ down → up ≤ up' → down ≤ down' → up' + down' < 2 ^ 63 →
  let d := Evaluate quota {| UploadBytes := up; DownloadBytes := down |} in
  let d' := Evaluate quota {| UploadBytes := up'; DownloadBytes := down' |} in
  Counted d = measure (TrafficLimitMode quota) up down ∧
  (Exceeded d = true ↔
     0 < TrafficLimitBytes quota < measure (TrafficLimitMode quota) up down) ∧
  (DisableRules d = true ↔ Exceeded d = true ∧ OverLimitAction quota = OverLimitActionDisableRule) ∧
  (Exceeded d = true → Exceeded d' = true) ∧
  (DisableRules d = true → DisableRules d' = true).
Proof.
  intros Hu Hd Hu' Hd' Hs d d'.
  assert (∀ u w, 0 ≤ u → 0 ≤ w → u + w < 2 ^ 63 →
    CountedBytes {| UploadBytes := u; DownloadBytes := w |} (TrafficLimitMode quota)
    = measure (TrafficLimitMode quota) u w) as Hc.
  { intros u w ???. unfold CountedBytes, measure; simpl.
    destruct (String.eqb _ _); [done|]. destruct (String.eqb _ _); [done|].
    destruct (String.eqb _ _); [destruct (Z.ltb_spec w u); lia|].
    unfold add64. apply wrap64_id. unfold in64. lia. }
  assert (measure (TrafficLimitMode quota) up down ≤ measure (TrafficLimitMode quota) up' down') as Hm.
  { unfold measure. repeat destruct (String.eqb _ _); lia. }
  unfold d, d', Evaluate; simpl. rewrite !Hc by lia. split; [done|].
  rewrite !andb_true_iff, !Z.ltb_lt, String.eqb_eq. repeat split; intros; naive_solver lia.
Qed.

Lemma Evaluate_spec_witness :
  let q := {| TrafficLimitBytes := 300; TrafficLimitMode := "TOTAL"; OverLimitAction := "DISABLE_RULE" |} in
  Exceeded (Evaluate q {| UploadBytes := 100; DownloadBytes := 250 |}) = true ∧
  Exceeded (Evaluate q {| UploadBytes := 100; DownloadBytes := 260 |}) = true.
Proof.
  intros q. split; [reflexivity|].
  destruct (Evaluate_spec q 100 250 100 260) as (_ & _ & _ & H & _); try (vm_compute; discriminate).
  - vm_compute. reflexivity.
  - apply H. reflexivity.
Defined.
End Quotas.
