(* ===== verification/Agent.v ===== *)
(** * Agent configuration data and protocol versions (pkg/core/agent)

    The records that the control plane compiles and the agents apply
    ([config.go]), and the protocol version handshake ([protocol.go]).  A
    field [X] of the Go struct [RuleConfig] is [rule_X], and so on; a Go
    pointer is an [option]. *)

From S2P Require Import Prelude GoString.
#[local] Open Scope Z_scope.

Record TargetEndpoint := {
  target_ID : string; target_Host : string; target_Port : Z; target_Weight : Z;
  target_Enabled : bool }.

Record TargetPriorityBucket := {
  bucket_Priority : Z; bucket_Targets : list TargetEndpoint }.

Record RuleUpstreamConfig := {
  up_Type : string; up_Target : option TargetEndpoint; up_Scheduler : string;
  up_TargetGroup : list TargetPriorityBucket }.

Record PortSegmentConfig := { seg_StartPort : Z; seg_EndPort : Z }.

Record RuleConfig := {
  rule_ID : string; rule_RuntimeID : string; rule_ConfigVersion : Z; rule_Enabled : bool;
  rule_Dataplane : string; rule_ForwardingType : string; rule_Protocol : string;
  rule_NodeIDs : list string; rule_NodeGroupIDs : list string;
  rule_ListenIP : string; rule_Port : Z; rule_PortSegments : list PortSegmentConfig;
  rule_SendIP : string; rule_MatchType : string; rule_SNIHostname : string;
  rule_ProxyProtocolIn : string; rule_ProxyProtocolOut : string;
  rule_Upstream : RuleUpstreamConfig }.

Record RuleTrafficDelta := {
  delta_RuleID : string; delta_UploadBytes : Z; delta_DownloadBytes : Z;
  delta_TCPConnections : Z; delta_UDPPackets : Z }.

Record ConfigApplyErrorDetail := {
  detail_Code : string; detail_RuleIDs : list string; detail_Protocol : string;
  detail_ListenIP : string; detail_Port : Z; detail_Dataplane : string;
  detail_Owner : string; detail_DriftStatus : string; detail_ExternalResource : string;
  detail_Message : string }.

Record ConfigApplyError := {
  apply_Message : string; apply_Errors : list ConfigApplyErrorDetail }.

#[export] Instance TargetEndpoint_eq_dec : EqDecision TargetEndpoint.
Proof. solve_decision. Defined.
#[export] Instance TargetPriorityBucket_eq_dec : EqDecision TargetPriorityBucket.
Proof. solve_decision. Defined.
#[export] Instance RuleUpstreamConfig_eq_dec : EqDecision RuleUpstreamConfig.
Proof. solve_decision. Defined.
#[export] Instance PortSegmentConfig_eq_dec : EqDecision PortSegmentConfig.
Proof. solve_decision. Defined.
#[export] Instance RuleConfig_eq_dec : EqDecision RuleConfig.
Proof. solve_decision. Defined.
#[export] Instance RuleTrafficDelta_eq_dec : EqDecision RuleTrafficDelta.
Proof. solve_decision. Defined.

(** ** Protocol versions *)

Record ProtocolVersion := { Major : Z; Minor : Z }.
#[export] Instance ProtocolVersion_eq_dec : EqDecision ProtocolVersion.
Proof. solve_decision. Defined.

Definition ProtocolMajor : Z := 2.
Definition ProtocolMinor : Z := 3.
Definition CurrentProtocolVersion : ProtocolVersion := {| Major := ProtocolMajor; Minor := ProtocolMinor |}.
Definition ManagedDataplaneProtocolVersion : ProtocolVersion := {| Major := 2; Minor := 1 |}.
Definition SendIPProtocolVersion : ProtocolVersion := {| Major := 2; Minor := 2 |}.
Definition LeastLoadTargetGroupProtocolVersion : ProtocolVersion := {| Major := 2; Minor := 3 |}.

Definition Accepts (server agent : ProtocolVersion) : bool :=
  if negb (Major server =? Major agent) then false
  else if Minor server <? Minor agent then false
  else Minor server - Minor agent <=? 1.

(** The accepted versions are the server's own and the one just before it:
    whatever the server accepts, the next minor release still accepts or has
    moved at most one version away from. *)
Lemma Accepts_spec server agent :
  Accepts server agent = true ↔
  Major agent = Major server ∧ (Minor agent = Minor server ∨ Minor agent = Minor server - 1).
Proof.
  unfold Accepts. destruct (Z.eqb_spec (Major server) (Major agent)); simpl; [|naive_solver].
  destruct (Z.ltb_spec (Minor server) (Minor agent)); [split; [done|lia]|].
  rewrite Z.leb_le. lia.
Qed.

(** The configuration that is sent to an agent. *)
Record ConfigSnapshot := {
  snap_AgentProtocolVersion : ProtocolVersion; snap_NodeID : string; snap_ConfigVersion : Z;
  snap_ConfigHash : string; snap_DataplaneMode : string; snap_DataplaneInstanceID : string;
  snap_ConflictPolicy : string; snap_Rules : list RuleConfig }.
#[export] Instance ConfigSnapshot_eq_dec : EqDecision ConfigSnapshot.
Proof. solve_decision. Defined.

(** [agentSupports...] of the config compiler: version at least [required]. *)
Definition version_at_least (version required : ProtocolVersion) : bool :=
  if negb (Major version =? Major required) then Major required <? Major version
  else Minor required <=? Minor version.

(** A rule with other fields replaced. *)
Definition rule_with_port (r : RuleConfig) (runtimeID : string) (port : Z) : RuleConfig := {|
  rule_ID := rule_ID r; rule_RuntimeID := runtimeID; rule_ConfigVersion := rule_ConfigVersion r;
  rule_Enabled := rule_Enabled r; rule_Dataplane := rule_Dataplane r;
  rule_ForwardingType := rule_ForwardingType r; rule_Protocol := rule_Protocol r;
  rule_NodeIDs := rule_NodeIDs r; rule_NodeGroupIDs := rule_NodeGroupIDs r;
  rule_ListenIP := rule_ListenIP r; rule_Port := port; rule_PortSegments := [];
  rule_SendIP := rule_SendIP r; rule_MatchType := rule_MatchType r;
  rule_SNIHostname := rule_SNIHostname r; rule_ProxyProtocolIn := rule_ProxyProtocolIn r;
  rule_ProxyProtocolOut := rule_ProxyProtocolOut r; rule_Upstream := rule_Upstream r |}.

(** A rule to build examples from. *)
Definition example_target (id host : string) (port weight : Z) : TargetEndpoint :=
  {| target_ID := id; target_Host := host; target_Port := port; target_Weight := weight;
     target_Enabled := true |}.
Definition example_rule (id protocol listenIP : string) (port : Z) (matchType sni : string)
    (upstream : RuleUpstreamConfig) : RuleConfig := {|
  rule_ID := id; rule_RuntimeID := ""; rule_ConfigVersion := 1; rule_Enabled := true;
  rule_Dataplane := ""; rule_ForwardingType := ""; rule_Protocol := protocol;
  rule_NodeIDs := []; rule_NodeGroupIDs := []; rule_ListenIP := listenIP; rule_Port := port;
  rule_PortSegments := []; rule_SendIP := ""; rule_MatchType := matchType;
  rule_SNIHostname := sni; rule_ProxyProtocolIn := "NONE"; rule_ProxyProtocolOut := "NONE";
  rule_Upstream := upstream |}.
Definition single_target (t : TargetEndpoint) : RuleUpstreamConfig :=
  {| up_Type := "TARGET"; up_Target := Some t; up_Scheduler := ""; up_TargetGroup := [] |}.
