(* ===== verification/Traffic.v ===== *)
(** * Merging traffic deltas

    Three packages merge the per-rule deltas of several reports into one delta
    per rule, with the same loop: [mergePayloadTrafficDeltas]
    (pkg/core/forward/metrics.go), [mergeTrafficDeltas]
    (pkg/core/agent/traffic_spool.go) and [mergeDataplaneTrafficDeltas]
    (pkg/core/dataplane/metrics.go).  They differ in which deltas they skip,
    the key they use, and whether negative amounts and empty results count. *)

From S2P Require Import Prelude GoString GoInt Agent.
#[local] Open Scope Z_scope.

(** The four counters of a delta. *)
Inductive traffic_field := FUpload | FDownload | FConnections | FPackets.

#[export] Instance traffic_field_eq_dec : EqDecision traffic_field.
Proof. solve_decision. Defined.

Definition delta_field (f : traffic_field) (d : RuleTrafficDelta) : Z :=
  match f with
  | FUpload => delta_UploadBytes d | FDownload => delta_DownloadBytes d
  | FConnections => delta_TCPConnections d | FPackets => delta_UDPPackets d
  end.

Definition zero_delta (ruleID : string) : RuleTrafficDelta := {|
  delta_RuleID := ruleID; delta_UploadBytes := 0; delta_DownloadBytes := 0;
  delta_TCPConnections := 0; delta_UDPPackets := 0 |}.

Definition delta_is_zero (d : RuleTrafficDelta) : bool :=
  (delta_UploadBytes d =? 0) && (delta_DownloadBytes d =? 0)
  && (delta_TCPConnections d =? 0) && (delta_UDPPackets d =? 0).

Definition maxInt64 (left right : Z) : Z := if right <? left then left else right.

Section merge.
Context (skip : string → bool) (key : string → string) (amount : Z → Z).

Definition merge_add (current delta : RuleTrafficDelta) : RuleTrafficDelta := {|
  delta_RuleID := delta_RuleID current;
  delta_UploadBytes := add64 (delta_UploadBytes current) (amount (delta_UploadBytes delta));
  delta_DownloadBytes := add64 (delta_DownloadBytes current) (amount (delta_DownloadBytes delta));
  delta_TCPConnections := add64 (delta_TCPConnections current) (amount (delta_TCPConnections delta));
  delta_UDPPackets := add64 (delta_UDPPackets current) (amount (delta_UDPPackets delta)) |}.

(** The loop keeps the deltas by rule and the rules in the order they
    first came. *)
Definition merge_step (s : gmap string RuleTrafficDelta * list string) (delta : RuleTrafficDelta)
    : gmap string RuleTrafficDelta * list string :=
  let '(byRule, order) := s in
  if skip (delta_RuleID delta) then s
  else
    let ruleID := key (delta_RuleID delta) in
    match byRule !! ruleID with
    | Some current => (<[ruleID := merge_add current delta]> byRule, order)
    | None => (<[ruleID := merge_add (zero_delta ruleID) delta]> byRule, order ++ [ruleID])
    end.

Definition merge_loop (deltas : list RuleTrafficDelta) : gmap string RuleTrafficDelta * list string :=
  foldl merge_step (∅, []) deltas.

Definition merged_all (deltas : list RuleTrafficDelta) : list RuleTrafficDelta :=
  let '(byRule, order) := merge_loop deltas in
  map (λ ruleID, default (zero_delta "") (byRule !! ruleID)) order.
End merge.

Definition mergePayloadTrafficDeltas (deltas : list RuleTrafficDelta) : list RuleTrafficDelta :=
  List.filter (λ d, negb (delta_is_zero d))
    (merged_all (λ id, String.eqb id "") (λ id, id) (λ z, z) deltas).

Definition mergeTrafficDeltas (deltas : list RuleTrafficDelta) : list RuleTrafficDelta :=
  List.filter (λ d, negb (delta_is_zero d))
    (merged_all (λ id, String.eqb (TrimSpace id) "") TrimSpace (λ z, maxInt64 z 0) deltas).

Definition mergeDataplaneTrafficDeltas (deltas : list RuleTrafficDelta) : list RuleTrafficDelta :=
  merged_all (λ id, String.eqb (TrimSpace id) "") (λ id, id) (λ z, z) deltas.

(** ** Totals *)

Definition rule_amount (f : traffic_field) (ruleID : string) (d : RuleTrafficDelta) : Z :=
  if String.eqb (delta_RuleID d) ruleID then delta_field f d else 0.
(** What a list of deltas says of a rule. *)
Definition rule_total (f : traffic_field) (ruleID : string) (l : list RuleTrafficDelta) : Z :=
  Zsum (map (rule_amount f ruleID) l).

Lemma rule_total_app f R l k : rule_total f R (l ++ k) = rule_total f R l + rule_total f R k.
Proof. unfold rule_total. by rewrite map_app, Zsum_app. Qed.

#[export] Instance rule_total_perm f R : Proper ((≡ₚ) ==> (=)) (rule_total f R).
Proof. intros l k E. unfold rule_total. by rewrite E. Qed.

Lemma rule_total_single f R l d :
  NoDup (map delta_RuleID l) → d ∈ l → delta_RuleID d = R → rule_total f R l = delta_field f d.
Proof.
  unfold rule_total, rule_amount. intros Hnd Hin HR. induction l as [|x l IH]; [by apply elem_of_nil in Hin|].
  cbn [map] in *. apply NoDup_cons in Hnd as [Hx Hnd]. unfold Zsum. cbn [foldr]. fold (Zsum (map (λ d, if String.eqb (delta_RuleID d) R then delta_field f d else 0) l)).
  apply elem_of_cons in Hin as [<-|Hin].
  - rewrite HR, String.eqb_refl. enough (Zsum (map (λ d, if String.eqb (delta_RuleID d) R then delta_field f d else 0) l) = 0) as -> by lia.
    rewrite HR in Hx. clear -Hx. induction l as [|y l IH]; [done|]. cbn [map] in *.
    apply not_elem_of_cons in Hx as [Hy Hx]. unfold Zsum. cbn [foldr].
    destruct (String.eqb_spec (delta_RuleID y) R); [congruence|]. by apply IH.
  - destruct (String.eqb_spec (delta_RuleID x) R) as [E|]; [|by apply IH].
    destruct Hx. rewrite E, <-HR. apply list_elem_of_In, in_map. by apply list_elem_of_In.
Qed.

Lemma rule_total_absent f R l : R ∉ map delta_RuleID l → rule_total f R l = 0.
Proof.
  unfold rule_total, rule_amount. induction l as [|y l IH]; [done|]. cbn [map].
  intros [Hy Hx]%not_elem_of_cons. unfold Zsum. cbn [foldr].
  destruct (String.eqb_spec (delta_RuleID y) R); [congruence|]. by apply IH.
Qed.

Lemma rule_total_filter f R l :
  rule_total f R (List.filter (λ d, negb (delta_is_zero d)) l) = rule_total f R l.
Proof.
  unfold rule_total. induction l as [|d l IH]; [done|]. cbn [List.filter map].
  destruct (delta_is_zero d) eqn:E; cbn [negb map]; unfold Zsum in *; cbn [foldr]; rewrite ?IH; [|done].
  unfold delta_is_zero in E. bool_hyps. unfold rule_amount.
  destruct (String.eqb _ _), f; cbn [delta_field]; lia.
Qed.

(** ** The merge loop *)

Section merge_facts.
Context (skip : string → bool) (key : string → string) (amount : Z → Z).

(** What a delta adds to the merged delta of a rule. *)
Definition contribution (f : traffic_field) (R : string) (d : RuleTrafficDelta) : Z :=
  if negb (skip (delta_RuleID d)) && String.eqb (key (delta_RuleID d)) R
  then amount (delta_field f d) else 0.
Definition contributions f R (l : list RuleTrafficDelta) : Z := Zsum (map (contribution f R) l).

Lemma contributions_snoc f R l d : contributions f R (l ++ [d]) = contributions f R l + contribution f R d.
Proof using Type. unfold contributions. rewrite map_app, Zsum_app. simpl. lia. Qed.

Record merge_inv (l : list RuleTrafficDelta) (s : gmap string RuleTrafficDelta * list string) : Prop := {
  merge_nodup : NoDup s.2;
  merge_dom r : r ∈ s.2 ↔ is_Some (s.1 !! r);
  merge_id r d : s.1 !! r = Some d → delta_RuleID d = r;
  merge_sum r d f : s.1 !! r = Some d → delta_field f d = wrap64 (contributions f r l);
  merge_none r f : s.1 !! r = None → contributions f r l = 0 }.

Lemma merge_add_field f c d :
  delta_field f (merge_add amount c d) = add64 (delta_field f c) (amount (delta_field f d)).
Proof using Type. by destruct f. Qed.

Lemma merge_loop_inv l : merge_inv l (merge_loop skip key amount l).
Proof using Type.
  apply (foldl_ind _ merge_inv).
  - constructor; simpl; try done; [constructor|].
    intros r. rewrite lookup_empty, elem_of_nil. split; [done|]. by intros [? ?].
  - intros k d [byRule order] H; destruct H as [Hnd Hdom Hid Hsum Hnone]; cbn [fst snd] in *. unfold merge_step.
    assert (∀ f r, contribution f r d = if negb (skip (delta_RuleID d)) && String.eqb (key (delta_RuleID d)) r
      then amount (delta_field f d) else 0) as Hc by done.
    destruct (skip (delta_RuleID d)); cbn [negb andb] in Hc.
    { constructor; cbn [fst snd]; try done; intros; rewrite contributions_snoc, Hc, Z.add_0_r; eauto. }
    set (R := key (delta_RuleID d)) in *.
    assert (∀ f c, delta_field f c = wrap64 (contributions f R k) →
      delta_field f (merge_add amount c d) = wrap64 (contributions f R (k ++ [d]))) as Hadd.
    { intros f c Hf. rewrite merge_add_field, contributions_snoc, Hc, String.eqb_refl, Hf. apply add64_l. }
    assert (∀ f r, r ≠ R → contributions f r (k ++ [d]) = contributions f r k) as Hne.
    { intros f r Hr. rewrite contributions_snoc, Hc.
      destruct (String.eqb_spec R r); [congruence|]. by rewrite Z.add_0_r. }
    destruct (byRule !! R) as [c|] eqn:Ec; constructor; cbn [fst snd]; try done.
    + intros r. rewrite Hdom. destruct (decide (R = r)) as [<-|Hr].
      * rewrite Ec, lookup_insert_eq. split; eauto.
      * by rewrite lookup_insert_ne.
    + intros r d'. destruct (decide (R = r)) as [<-|Hr].
      * rewrite lookup_insert_eq. intros [= <-]. exact (Hid _ _ Ec).
      * rewrite lookup_insert_ne by done. apply Hid.
    + intros r d' f. destruct (decide (R = r)) as [<-|Hr].
      * rewrite lookup_insert_eq. intros [= <-]. auto.
      * rewrite lookup_insert_ne, Hne by done. apply Hsum.
    + intros r f. destruct (decide (R = r)) as [<-|Hr]; [by rewrite lookup_insert_eq|].
      rewrite lookup_insert_ne, Hne by done. apply Hnone.
    + apply NoDup_app. split; [done|]. split; [|apply NoDup_singleton].
      intros r Hr ->%list_elem_of_singleton. apply Hdom in Hr as [? Hr]. congruence.
    + intros r. rewrite elem_of_app, list_elem_of_singleton, Hdom. destruct (decide (R = r)) as [<-|Hr].
      * rewrite lookup_insert_eq. split; eauto.
      * rewrite lookup_insert_ne by done. naive_solver.
    + intros r d'. destruct (decide (R = r)) as [<-|Hr].
      * rewrite lookup_insert_eq. by intros [= <-].
      * rewrite lookup_insert_ne by done. apply Hid.
    + intros r d' f. destruct (decide (R = r)) as [<-|Hr].
      * rewrite lookup_insert_eq. intros [= <-]. apply Hadd.
        rewrite (Hnone _ f Ec). by destruct f.
      * rewrite lookup_insert_ne, Hne by done. apply Hsum.
    + intros r f. destruct (decide (R = r)) as [<-|Hr]; [by rewrite lookup_insert_eq|].
      rewrite lookup_insert_ne, Hne by done. apply Hnone.
Qed.

Lemma merged_all_in l d :
  d ∈ merged_all skip key amount l ↔ ∃ r, (merge_loop skip key amount l).1 !! r = Some d.
Proof using Type.
  unfold merged_all. pose proof (merge_loop_inv l) as H.
  destruct (merge_loop skip key amount l) as [byRule order]. destruct H as [_ Hdom _ _ _]; cbn [fst snd] in *.
  rewrite list_elem_of_In, in_map_iff. split.
  - intros (r & Hd & Hr). apply list_elem_of_In, Hdom in Hr as [d' Hr]. rewrite Hr in Hd. simpl in Hd.
    subst. eauto.
  - intros (r & Hr). exists r. rewrite Hr. split; [done|]. apply list_elem_of_In, Hdom. eauto.
Qed.

Lemma merged_ids l : map delta_RuleID (merged_all skip key amount l) = (merge_loop skip key amount l).2.
Proof using Type.
  unfold merged_all. pose proof (merge_loop_inv l) as H.
  destruct (merge_loop skip key amount l) as [byRule order]. destruct H as [_ Hdom Hid _ _]; cbn [fst snd] in *.
  rewrite map_map. rewrite <-(map_id order) at 2. apply map_ext_in. intros r Hr.
  apply list_elem_of_In, Hdom in Hr as [d Hr]. rewrite Hr. simpl. by apply Hid.
Qed.

Lemma merged_nodup l : NoDup (map delta_RuleID (merged_all skip key amount l)).
Proof using Type. rewrite merged_ids. apply merge_nodup with l. apply merge_loop_inv. Qed.

(** Merging keeps every rule's totals (modulo 2^64, as Go adds). *)
Lemma merged_total f R l :
  rule_total f R (merged_all skip key amount l) = wrap64 (contributions f R l).
Proof using Type.
  pose proof (merge_loop_inv l) as H.
  destruct ((merge_loop skip key amount l).1 !! R) as [d|] eqn:E.
  - rewrite (rule_total_single _ _ _ d); [by eapply merge_sum|apply merged_nodup| |by eapply merge_id].
    apply merged_all_in. eauto.
  - rewrite (merge_none _ _ H R f E). apply rule_total_absent. rewrite merged_ids.
    intros Hin. apply (merge_dom _ _ H) in Hin as [? Hin]. congruence.
Qed.

Lemma merged_fields l d f :
  d ∈ merged_all skip key amount l → delta_field f d = wrap64 (contributions f (delta_RuleID d) l).
Proof using Type.
  intros (r & Hr)%merged_all_in. pose proof (merge_loop_inv l) as H.
  rewrite (merge_id _ _ H _ _ Hr). by eapply merge_sum.
Qed.

(** The rules of the result are keys of deltas that are not skipped. *)
Lemma merged_id_key l d :
  d ∈ merged_all skip key amount l →
  ∃ x, x ∈ l ∧ skip (delta_RuleID x) = false ∧ delta_RuleID d = key (delta_RuleID x).
Proof using Type.
  intros Hd. assert (delta_RuleID d ∈ (merge_loop skip key amount l).2) as Hin.
  { rewrite <-merged_ids. apply list_elem_of_In, in_map. by apply list_elem_of_In. }
  revert Hin. clear Hd. generalize (delta_RuleID d). unfold merge_loop.
  apply (foldl_ind _ (λ l s, ∀ r, r ∈ s.2 → ∃ x, x ∈ l ∧ skip (delta_RuleID x) = false ∧ r = key (delta_RuleID x))).
  - by intros r ?%elem_of_nil.
  - intros k x [byRule order] IH r. unfold merge_step.
    assert (r ∈ order → ∃ y, y ∈ k ++ [x] ∧ skip (delta_RuleID y) = false ∧ r = key (delta_RuleID y)) as IH'.
    { intros Hr. destruct (IH r Hr) as (y & ? & ?). exists y. rewrite elem_of_app. eauto. }
    destruct (skip (delta_RuleID x)) eqn:Es; [done|].
    destruct (byRule !! _); [done|]. cbn [snd]. rewrite elem_of_app, list_elem_of_singleton.
    intros [Hr| ->]; [auto|]. exists x. rewrite elem_of_app, list_elem_of_singleton. auto.
Qed.

(** Deltas of distinct rules merge to themselves. *)
Lemma merged_self l :
  NoDup (map delta_RuleID l) →
  (∀ d, d ∈ l → skip (delta_RuleID d) = false ∧ key (delta_RuleID d) = delta_RuleID d) →
  (∀ d f, d ∈ l → amount (delta_field f d) = delta_field f d ∧ in64 (delta_field f d)) →
  merged_all skip key amount l = l.
Proof using Type.
  intros Hnd Hkey Ham. unfold merged_all.
  enough (∀ k, (∀ d, d ∈ k → d ∈ l) → NoDup (map delta_RuleID k) →
    (merge_loop skip key amount k).2 = map delta_RuleID k
    ∧ (∀ d, d ∈ k → (merge_loop skip key amount k).1 !! delta_RuleID d = Some d)
    ∧ (∀ r, r ∉ map delta_RuleID k → (merge_loop skip key amount k).1 !! r = None)) as Hgen.
  { destruct (Hgen l (λ d H, H) Hnd) as (Ho & Hs & _). destruct (merge_loop _ _ _ l) as [byRule order].
    cbn [fst snd] in *. rewrite Ho, map_map. rewrite <-(map_id l) at 2. apply map_ext_in.
    intros d Hd. apply list_elem_of_In in Hd. by rewrite (Hs d Hd). }
  clear Hnd. intros k. unfold merge_loop. induction k as [|d k IH] using rev_ind; intros Hin Hnd.
  { simpl. split; [done|]. split; [by intros d ?%elem_of_nil|]. intros. apply lookup_empty. }
  rewrite foldl_app, map_app in *. cbn [foldl].
  apply NoDup_app in Hnd as (Hnd & Hdj & _).
  destruct IH as (Ho & Hs & Hn); [intros; apply Hin, elem_of_app; auto|done|].
  destruct (foldl (merge_step skip key amount) (∅, []) k) as [byRule order]. cbn [fst snd] in *.
  assert (d ∈ l) as Hd by (apply Hin, elem_of_app; right; by apply list_elem_of_singleton).
  destruct (Hkey d Hd) as [Hsk Hk].
  assert (delta_RuleID d ∉ map delta_RuleID k) as Hnew.
  { intros H. apply (Hdj _ H). by apply list_elem_of_singleton. }
  unfold merge_step. rewrite Hsk, Hk, (Hn _ Hnew). cbn [fst snd]. split; [by rewrite Ho|].
  assert (merge_add amount (zero_delta (delta_RuleID d)) d = d) as ->.
  { pose proof (Ham d FUpload Hd) as [Ha1 Hb1]. pose proof (Ham d FDownload Hd) as [Ha2 Hb2].
    pose proof (Ham d FConnections Hd) as [Ha3 Hb3]. pose proof (Ham d FPackets Hd) as [Ha4 Hb4].
    destruct d; unfold merge_add; cbn in *. rewrite Ha1, Ha2, Ha3, Ha4.
    unfold add64. by rewrite !Z.add_0_l, !wrap64_id. }
  split.
  - intros x [Hx| ->%list_elem_of_singleton]%elem_of_app; [|by rewrite lookup_insert_eq].
    rewrite lookup_insert_ne; [auto|]. intros E. apply Hnew. rewrite E.
    apply list_elem_of_In, in_map. by apply list_elem_of_In.
  - intros r [Hr1 Hr2]%not_elem_of_app. rewrite lookup_insert_ne; [auto|].
    intros E. apply Hr2. rewrite <-E. by apply list_elem_of_singleton.
Qed.
End merge_facts.

(** ** The three merges *)

Lemma contributions_payload f R l :
  R ≠ "" → contributions (λ id, String.eqb id "") (λ id, id) (λ z, z) f R l = rule_total f R l.
Proof.
  intros HR. unfold contributions, rule_total. f_equal. apply map_ext. intros d.
  unfold contribution, rule_amount. destruct (String.eqb_spec (delta_RuleID d) R) as [->|].
  - by destruct (String.eqb_spec R "").
  - by rewrite andb_false_r.
Qed.

Lemma contributions_dataplane f R l :
  TrimSpace R ≠ "" →
  contributions (λ id, String.eqb (TrimSpace id) "") (λ id, id) (λ z, z) f R l = rule_total f R l.
Proof.
  intros HR. unfold contributions, rule_total. f_equal. apply map_ext. intros d.
  unfold contribution, rule_amount. destruct (String.eqb_spec (delta_RuleID d) R) as [->|].
  - by destruct (String.eqb_spec (TrimSpace R) "").
  - by rewrite andb_false_r.
Qed.

Lemma mergePayload_total f R l :
  R ≠ "" → rule_total f R (mergePayloadTrafficDeltas l) = wrap64 (rule_total f R l).
Proof.
  intros HR. unfold mergePayloadTrafficDeltas.
  by rewrite rule_total_filter, merged_total, contributions_payload.
Qed.

Lemma mergeDataplane_total f R l :
  TrimSpace R ≠ "" → rule_total f R (mergeDataplaneTrafficDeltas l) = wrap64 (rule_total f R l).
Proof.
  intros HR. unfold mergeDataplaneTrafficDeltas. by rewrite merged_total, contributions_dataplane.
Qed.

Lemma filterb_nodup {A B} (g : A → B) (f : A → bool) l :
  NoDup (map g l) → NoDup (map g (List.filter f l)).
Proof.
  induction l as [|x l IH]; [done|]. cbn [map List.filter]. intros [Hx Hnd]%NoDup_cons.
  destruct (f x); [|auto]. cbn [map]. apply NoDup_cons. split; [|auto].
  intros Hin. apply Hx. apply list_elem_of_In, in_map_iff in Hin as (y & Hy & Hin).
  apply filter_In in Hin as [Hin _]. apply list_elem_of_In, in_map_iff. eauto.
Qed.

(** What the agent's spool stores: one non-empty, non-negative delta per rule. *)
Record normal_deltas (l : list RuleTrafficDelta) : Prop := {
  normal_nodup : NoDup (map delta_RuleID l);
  normal_id d : d ∈ l → TrimSpace (delta_RuleID d) = delta_RuleID d ∧ delta_RuleID d ≠ "";
  normal_field d f : d ∈ l → 0 ≤ delta_field f d ∧ in64 (delta_field f d);
  normal_nonzero d : d ∈ l → delta_is_zero d = false }.

Lemma maxInt64_max a b : maxInt64 a b = Z.max a b.
Proof. unfold maxInt64. destruct (Z.ltb_spec b a); lia. Qed.

Lemma mergeTrafficDeltas_normal l : normal_deltas l → mergeTrafficDeltas l = l.
Proof.
  intros H. destruct H as [Hnd Hid Hf Hnz]. unfold mergeTrafficDeltas. rewrite merged_self; [|done| |].
  - clear -Hnz. induction l as [|d l IH]; [done|]. cbn [List.filter].
    rewrite (Hnz d) by (by constructor). cbn [negb]. rewrite IH; [done|]. intros; apply Hnz. by constructor.
  - intros d Hd. destruct (Hid d Hd) as [Ht Hne]. rewrite Ht. by destruct (String.eqb_spec (delta_RuleID d) "").
  - intros d f Hd. destruct (Hf d f Hd). rewrite maxInt64_max. split; [lia|done].
Qed.

(** The amount the spool's merge counts for a rule. *)
Definition spool_total (f : traffic_field) (R : string) (l : list RuleTrafficDelta) : Z :=
  contributions (λ id, String.eqb (TrimSpace id) "") TrimSpace (λ z, maxInt64 z 0) f R l.

Lemma spool_total_nonneg f R l : 0 ≤ spool_total f R l.
Proof.
  apply Zsum_nonneg, Forall_forall. intros z Hz. apply list_elem_of_In, in_map_iff in Hz as (d & <- & _).
  unfold contribution. rewrite maxInt64_max. destruct (_ && _); lia.
Qed.

Lemma spool_total_app f R l k : spool_total f R (l ++ k) = spool_total f R l + spool_total f R k.
Proof. unfold spool_total, contributions. by rewrite map_app, Zsum_app. Qed.

Lemma spool_total_normal f R l : normal_deltas l → spool_total f R l = rule_total f R l.
Proof.
  intros H. unfold spool_total, contributions, rule_total. f_equal. apply map_ext_in. intros d Hd.
  apply list_elem_of_In in Hd. unfold contribution, rule_amount.
  destruct (normal_id _ H d Hd) as [Ht Hne]. rewrite Ht.
  destruct (String.eqb_spec (delta_RuleID d) ""); [done|]. cbn [negb andb].
  destruct (normal_field _ H d f Hd). rewrite maxInt64_max. destruct (String.eqb _ R); lia.
Qed.

Lemma mergeTrafficDeltas_total f R l :
  rule_total f R (mergeTrafficDeltas l) = wrap64 (spool_total f R l).
Proof. unfold mergeTrafficDeltas. by rewrite rule_total_filter, merged_total. Qed.

(** Merging normalises, as long as no rule's total overflows. *)
Lemma mergeTrafficDeltas_is_normal l :
  (∀ f R, spool_total f R l < 2 ^ 63) → normal_deltas (mergeTrafficDeltas l).
Proof.
  intros Hsmall. unfold mergeTrafficDeltas.
  set (m := merged_all _ _ _ l). constructor.
  - apply filterb_nodup, merged_nodup.
  - intros d [Hd _]%elem_of_filterb. destruct (merged_id_key _ _ _ _ _ Hd) as (x & _ & Hs & ->).
    bool_hyps. split; [|done]. apply TrimSpace_idemp.
  - intros d f [Hd _]%elem_of_filterb. rewrite (merged_fields _ _ _ _ _ f Hd). split; [|apply wrap64_range].
    pose proof (spool_total_nonneg f (delta_RuleID d) l). pose proof (Hsmall f (delta_RuleID d)).
    unfold spool_total in *. rewrite wrap64_id; [done|]. unfold in64. lia.
  - intros d [_ Hd]%elem_of_filterb. by bool_hyps.
Qed.

(** ** Properties *)

(** C34. Merging the deltas of several reports loses no traffic: the result has
    one non-zero delta per rule, and each rule's bytes, connections and packets
    are the sums of the input's, as 64-bit integers. *)
Theorem mergePayloadTrafficDeltas_spec l :
  NoDup (map delta_RuleID (mergePayloadTrafficDeltas l)) ∧
  (∀ d, d ∈ mergePayloadTrafficDeltas l → delta_is_zero d = false ∧ delta_RuleID d ≠ "") ∧
  ∀ f R, R ≠ "" → rule_total f R (mergePayloadTrafficDeltas l) = wrap64 (rule_total f R l).
Proof.
  split; [apply filterb_nodup, merged_nodup|]. split; [|intros; by apply mergePayload_total].
  intros d [Hd Hz]%elem_of_filterb. bool_hyps. split; [done|].
  destruct (merged_id_key _ _ _ _ _ Hd) as (x & _ & Hs & ->). by bool_hyps.
Qed.

(** The spool's merge is idempotent: normalising stored deltas again, as
    every load of the spool file does, changes nothing, provided no rule's
    total exceeds an int64. *)
Theorem mergeTrafficDeltas_idemp l :
  (∀ f R, spool_total f R l < 2 ^ 63) →
  mergeTrafficDeltas (mergeTrafficDeltas l) = mergeTrafficDeltas l.
Proof. intros H. by apply mergeTrafficDeltas_normal, mergeTrafficDeltas_is_normal. Qed.

Lemma mergeTrafficDeltas_idemp_witness :
  let d id up := {| delta_RuleID := id; delta_UploadBytes := up; delta_DownloadBytes := 0;
                    delta_TCPConnections := 1; delta_UDPPackets := -2 |} in
  let l := [d "a" 5; d " a " 6; d "b" 7] in
  mergeTrafficDeltas (mergeTrafficDeltas l) = mergeTrafficDeltas l.
Proof.
  intros d l. apply (mergeTrafficDeltas_idemp l). intros f R. unfold spool_total, contributions, Zsum, l, d.
  cbn [map foldr]. unfold contribution. cbn [delta_RuleID].
  destruct f; cbn [delta_field delta_UploadBytes delta_DownloadBytes delta_TCPConnections delta_UDPPackets];
    repeat match goal with |- context [if ?b then _ else _] => destruct b end; vm_compute; reflexivity.
Defined.
