(* ===== verification/ProxyProtocol.v ===== *)
(** * PROXY protocol headers (pkg/core/forward/proxy_protocol.go, supervisor.go)

    Parsing of version 1 and 2 headers, the builders, and the bounded readers
    that take a header off a client connection.  A connection is the list of
    bytes it still delivers; reading past its end is the I/O error. *)

From S2P Require Import Prelude GoString GoInt GoNet.
#[local] Open Scope Z_scope.

Inductive ProxyProtocolVersion := ProxyProtocolNone | ProxyProtocolV1 | ProxyProtocolV2.
#[export] Instance ProxyProtocolVersion_eq_dec : EqDecision ProxyProtocolVersion.
Proof. solve_decision. Defined.

(** The errors of the package, by message. *)
Inductive ProxyError :=
| UnsupportedVersion
| V1MissingTerminator
| V1Unsupported
| V1PortSyntax (label : string)
| V1PortRange (label : string)
| V1Address (label protocol : string)
| V1BuilderTCP4Only
| V2TooShort
| V2Unsupported
| V2Truncated
| V2TCP4Truncated
| V2TCP6Truncated
| V2BuilderTCP4Only
| MissingHeader (version : string)
| UnsupportedInbound
| V1HeaderTooLong
| ReadError.

Definition proxyV2Signature : bytes :=
  [x0d; x0a; x0d; x0a; x00; x0d; x0a; x51; x55; x49; x54; x0a].

Record ProxyInfo := {
  Version : ProxyProtocolVersion;
  SourceIP : bytes; DestinationIP : bytes; SourcePort : Z; DestinationPort : Z }.
#[export] Instance ProxyInfo_eq_dec : EqDecision ProxyInfo.
Proof. solve_decision. Defined.

Definition zeroProxyInfo : ProxyInfo := {|
  Version := ProxyProtocolNone; SourceIP := []; DestinationIP := []; SourcePort := 0;
  DestinationPort := 0 |}.

Abbreviation proxy_result A := (result (fault ProxyError) A).

Definition parseProxyV1Port (value label : string) : proxy_result Z :=
  match Atoi value with
  | None => Err (Error (V1PortSyntax label))
  | Some port => if (port <? 0) || (65535 <? port) then Err (Error (V1PortRange label)) else Ok port
  end.

Definition parseProxyV1Address (protocol value label : string) : proxy_result bytes :=
  match ParseIP value with
  | None => Err (Error (V1Address label protocol))
  | Some ip =>
      if String.eqb protocol "TCP4" then
        match To4 ip with None => Err (Error (V1Address label "TCP4")) | Some v4 => Ok v4 end
      else if ip_is_v4 ip || negb (has_To16 ip) then Err (Error (V1Address label "TCP6"))
      else Ok ip
  end.

Definition parseProxyV1 (data : bytes) : proxy_result (ProxyInfo * bytes) :=
  match index_bytes [x0d; x0a] data with
  | None => Err (Error V1MissingTerminator)
  | Some index =>
      head ← slice data 0 (Z.of_nat index);
      match Fields (string_of head) with
      | [f0; f1; f2; f3; f4; f5] =>
          if negb (String.eqb f0 "PROXY") || (negb (String.eqb f1 "TCP4") && negb (String.eqb f1 "TCP6"))
          then Err (Error V1Unsupported)
          else
            sourcePort ← parseProxyV1Port f4 "source";
            destinationPort ← parseProxyV1Port f5 "destination";
            sourceIP ← parseProxyV1Address f1 f2 "source";
            destinationIP ← parseProxyV1Address f1 f3 "destination";
            rest ← slice data (Z.of_nat index + 2) (Z.of_nat (length data));
            Ok ({| Version := ProxyProtocolV1; SourceIP := sourceIP; DestinationIP := destinationIP;
                   SourcePort := sourcePort; DestinationPort := destinationPort |}, rest)
      | _ => Err (Error V1Unsupported)
      end
  end.

Definition parseProxyV2 (data : bytes) : proxy_result (ProxyInfo * bytes) :=
  let n := Z.of_nat (length data) in
  if n <? 16 then Err (Error V2TooShort)
  else
    versionCommand ← index_at data 12;
    familyProtocol ← index_at data 13;
    len2 ← slice data 14 16;
    length_ ← Uint16 len2;
    if negb (Byte.eqb versionCommand x21) then Err (Error V2Unsupported)
    else if n <? 16 + length_ then Err (Error V2Truncated)
    else if Byte.eqb familyProtocol x11 then
      if length_ <? 12 then Err (Error V2TCP4Truncated)
      else
        addresses ← slice data 16 (16 + 12);
        a0 ← index_at addresses 0; a1 ← index_at addresses 1;
        a2 ← index_at addresses 2; a3 ← index_at addresses 3;
        a4 ← index_at addresses 4; a5 ← index_at addresses 5;
        a6 ← index_at addresses 6; a7 ← index_at addresses 7;
        p1 ← slice addresses 8 10; sourcePort ← Uint16 p1;
        p2 ← slice addresses 10 12; destinationPort ← Uint16 p2;
        rest ← slice data (16 + length_) n;
        Ok ({| Version := ProxyProtocolV2;
               SourceIP := v4_in_v6 [a0; a1; a2; a3]; DestinationIP := v4_in_v6 [a4; a5; a6; a7];
               SourcePort := sourcePort; DestinationPort := destinationPort |}, rest)
    else if Byte.eqb familyProtocol x21 then
      if length_ <? 36 then Err (Error V2TCP6Truncated)
      else
        addresses ← slice data 16 (16 + 36);
        sourceIP ← slice addresses 0 16; destinationIP ← slice addresses 16 32;
        p1 ← slice addresses 32 34; sourcePort ← Uint16 p1;
        p2 ← slice addresses 34 36; destinationPort ← Uint16 p2;
        rest ← slice data (16 + length_) n;
        Ok ({| Version := ProxyProtocolV2; SourceIP := sourceIP; DestinationIP := destinationIP;
               SourcePort := sourcePort; DestinationPort := destinationPort |}, rest)
    else Err (Error V2Unsupported).

Definition ParseProxyHeader (data : bytes) : proxy_result (ProxyInfo * bytes) :=
  if is_prefix (bytes_of "PROXY ") data then parseProxyV1 data
  else if is_prefix proxyV2Signature data then parseProxyV2 data
  else Ok (zeroProxyInfo, data).

Definition buildProxyV1 (info : ProxyInfo) : proxy_result bytes :=
  match To4 (SourceIP info), To4 (DestinationIP info) with
  | Some sourceIP, Some destinationIP =>
      Ok (bytes_of "PROXY TCP4 " ++ v4_string_bytes sourceIP ++ [x20]
          ++ v4_string_bytes destinationIP ++ [x20] ++ itoa_bytes (SourcePort info) ++ [x20]
          ++ itoa_bytes (DestinationPort info) ++ [x0d; x0a])
  | _, _ => Err (Error V1BuilderTCP4Only)
  end.

Definition buildProxyV2 (info : ProxyInfo) : proxy_result bytes :=
  match To4 (SourceIP info), To4 (DestinationIP info) with
  | Some sourceIP, Some destinationIP =>
      Ok (proxyV2Signature ++ [x21; x11] ++ put_uint16 12 ++ sourceIP ++ destinationIP
          ++ put_uint16 (wrapu16 (SourcePort info)) ++ put_uint16 (wrapu16 (DestinationPort info)))
  | _, _ => Err (Error V2BuilderTCP4Only)
  end.

Definition BuildProxyHeader (info : ProxyInfo) : proxy_result bytes :=
  match Version info with
  | ProxyProtocolV1 => buildProxyV1 info
  | ProxyProtocolV2 => buildProxyV2 info
  | ProxyProtocolNone => Err (Error UnsupportedVersion)
  end.

(** ** Reading a header off a connection (supervisor.go) *)

Definition maxProxyProtocolV1LineLen : Z := 107.

(** [io.ReadFull] of [n] bytes. *)
Definition read_full (n : Z) (stream : bytes) : proxy_result (bytes * bytes) :=
  if Z.of_nat (length stream) <? n then Err (Error ReadError)
  else Ok (take (Z.to_nat n) stream, drop (Z.to_nat n) stream).

(** The loop reads one byte per turn; it returns at a newline, at the end of
    the stream, or once the line is full. *)
Fixpoint readProxyProtocolV1Line (stream line : bytes) : proxy_result (bytes * bytes) :=
  if maxProxyProtocolV1LineLen <=? Z.of_nat (length line) then Err (Error V1HeaderTooLong)
  else match stream with
  | [] => Err (Error ReadError)
  | next :: stream' =>
      let line' := line ++ [next] in
      if Byte.eqb next x0a then Ok (line', stream') else readProxyProtocolV1Line stream' line'
  end.

Definition consumeInboundProxyHeader (stream : bytes) (version : string)
    : proxy_result (ProxyInfo * bytes) :=
  if String.eqb version "V1" then
    '(line, stream') ← readProxyProtocolV1Line stream [];
    '(info, _) ← ParseProxyHeader line;
    if bool_decide (Version info = ProxyProtocolV1) then Ok (info, stream')
    else Err (Error (MissingHeader "v1"))
  else if String.eqb version "V2" then
    '(header, stream1) ← read_full 16 stream;
    len2 ← slice header 14 16;
    length_ ← Uint16 len2;
    '(body, stream2) ← read_full length_ stream1;
    '(info, _) ← ParseProxyHeader (header ++ body);
    if bool_decide (Version info = ProxyProtocolV2) then Ok (info, stream2)
    else Err (Error (MissingHeader "v2"))
  else Err (Error UnsupportedInbound).

(** ** Safety and bounds *)

Definition valid_ip_length (ip : bytes) : Prop := length ip = 4%nat ∨ length ip = 16%nat.
Definition valid_port (p : Z) : Prop := 0 ≤ p < 65536.

(** A parsed header: addresses of 4 or 16 bytes, ports of 16 bits. *)
Definition valid_info (info : ProxyInfo) : Prop :=
  valid_ip_length (SourceIP info) ∧ valid_ip_length (DestinationIP info) ∧
  valid_port (SourcePort info) ∧ valid_port (DestinationPort info).

(** What parsing leaves: no header at all, or a header taken off the front. *)
Definition header_split (data : bytes) (r : ProxyInfo * bytes) : Prop :=
  ∃ header, data = header ++ r.2 ∧
  ((header = [] ∧ r.1 = zeroProxyInfo) ∨ (header ≠ [] ∧ valid_info r.1)).

Lemma parseProxyV1Port_safe value label :
  safe_m valid_port (parseProxyV1Port value label).
Proof.
  unfold parseProxyV1Port, valid_port. destruct (Atoi value) as [port|]; [|done].
  destruct (_ || _) eqn:E; [done|]. bool_hyps. simpl. lia.
Qed.

Lemma parseProxyV1Address_safe protocol value label :
  safe_m valid_ip_length (parseProxyV1Address protocol value label).
Proof.
  unfold parseProxyV1Address, valid_ip_length. destruct (ParseIP value) as [ip|]; [|done].
  destruct (String.eqb _ _).
  - destruct (To4 ip) as [v4|] eqn:E; [|done]. left. by eapply To4_length.
  - destruct (_ || _) eqn:E; [done|]. bool_hyps. simpl.
    unfold has_To16 in *. rewrite orb_true_iff, !Nat.eqb_eq in *. done.
Qed.

Lemma take_drop_split (data : bytes) k :
  0 ≤ k ≤ Z.of_nat (length data) →
  data = take (Z.to_nat k) data ++ take (Z.to_nat (Z.of_nat (length data) - k)) (drop (Z.to_nat k) data).
Proof.
  intros H. rewrite (take_ge (drop _ _)) by (rewrite length_drop; lia). by rewrite take_drop.
Qed.

Lemma slice_rest_safe (data : bytes) k :
  0 ≤ k ≤ Z.of_nat (length data) →
  safe_m (E:=ProxyError) (λ rest, data = take (Z.to_nat k) data ++ rest) (slice data k (Z.of_nat (length data))).
Proof. intros H. rewrite slice_ok by lia. simpl. by apply take_drop_split. Qed.

Lemma parseProxyV1_safe data : safe_m (header_split data) (parseProxyV1 data).
Proof.
  unfold parseProxyV1. destruct (index_bytes _ data) as [index|] eqn:Ei; [|done].
  apply index_bytes_some in Ei as (r & Hr).
  assert (index + 2 ≤ length data)%nat as Hlen.
  { destruct (decide (index ≤ length data)%nat).
    - apply (f_equal length) in Hr. rewrite !length_app, length_take in Hr. simpl in Hr. lia.
    - rewrite take_ge in Hr by lia. apply (f_equal length) in Hr. rewrite !length_app in Hr.
      simpl in Hr. lia. }
  safe_step. destruct (Fields _) as [|f0 [|f1 [|f2 [|f3 [|f4 [|f5 [|]]]]]]]; try done.
  safe_step; [done|].
  eapply safe_bind; [apply parseProxyV1Port_safe|]. intros sp Hsp.
  eapply safe_bind; [apply parseProxyV1Port_safe|]. intros dp Hdp.
  eapply safe_bind; [apply parseProxyV1Address_safe|]. intros sip Hsip.
  eapply safe_bind; [apply parseProxyV1Address_safe|]. intros dip Hdip.
  eapply safe_bind; [apply slice_rest_safe; lia|]. intros rest Hrest.
  apply safe_ok. eexists. split; [exact Hrest|]. right. split; [|done].
  intros E. apply (f_equal length) in E. rewrite length_take in E. simpl in E. lia.
Qed.

Lemma v4_in_v6_length v : length v = 4%nat → length (v4_in_v6 v) = 16%nat.
Proof. intros H. unfold v4_in_v6. rewrite !length_app, H. done. Qed.

Lemma take_nonempty (data : bytes) k : 0 < k ≤ Z.of_nat (length data) → take (Z.to_nat k) data ≠ [].
Proof. intros H E. apply (f_equal length) in E. rewrite length_take in E. simpl in E. lia. Qed.

Lemma parseProxyV2_safe data : safe_m (header_split data) (parseProxyV2 data).
Proof.
  unfold parseProxyV2. safe_step; [done|]. do 4 safe_step. do 2 (safe_step; [done|]).
  safe_step; [safe_step; [done|]|safe_step; [safe_step; [done|]|done]].
  - do 13 safe_step. eapply safe_bind; [apply slice_rest_safe; lia|]. intros rest Hrest.
    apply safe_ok. eexists. split; [exact Hrest|]. right. split; [apply take_nonempty; lia|].
    repeat split; simpl; try lia; right; by apply v4_in_v6_length.
  - do 7 safe_step. eapply safe_bind; [apply slice_rest_safe; lia|]. intros rest Hrest.
    apply safe_ok. eexists. split; [exact Hrest|]. right. split; [apply take_nonempty; lia|].
    repeat split; simpl; try lia; right; lia.
Qed.

Lemma ParseProxyHeader_safe data : safe_m (header_split data) (ParseProxyHeader data).
Proof.
  unfold ParseProxyHeader. destruct (is_prefix _ _); [apply parseProxyV1_safe|].
  destruct (is_prefix _ _); [apply parseProxyV2_safe|]. simpl. exists []. eauto.
Qed.

(** ** Round trips *)

Definition version_name (v : ProxyProtocolVersion) : string :=
  match v with ProxyProtocolNone => "NONE" | ProxyProtocolV1 => "V1" | ProxyProtocolV2 => "V2" end.

(** How the parsers represent an IPv4 address: version 1 in 4 bytes, version 2
    in the 16 bytes of [net.IPv4]. *)
Definition parsed_ip (v : ProxyProtocolVersion) (ip : bytes) : bytes :=
  match To4 ip with
  | Some v4 => match v with ProxyProtocolV1 => v4 | _ => v4_in_v6 v4 end
  | None => ip
  end.
Definition parsed_info (info : ProxyInfo) : ProxyInfo := {|
  Version := Version info;
  SourceIP := parsed_ip (Version info) (SourceIP info);
  DestinationIP := parsed_ip (Version info) (DestinationIP info);
  SourcePort := SourcePort info; DestinationPort := DestinationPort info |}.

Lemma digits_length fuel n k :
  (n < 10 ^ N.of_nat (S k))%N → (length (digits fuel n []) ≤ S k)%nat.
Proof.
  revert n k. induction fuel as [|f IH]; intros n k Hn; simpl; [lia|].
  destruct (N.ltb_spec n 10); [simpl; lia|].
  rewrite digits_acc, length_app. simpl. destruct k as [|k]; [simpl in Hn; lia|].
  enough (length (digits f (n / 10) []) ≤ S k)%nat by lia. apply IH.
  apply N.Div0.div_lt_upper_bound. rewrite <-N.pow_succ_r', <-Nat2N.inj_succ. done.
Qed.

Lemma itoa_length z k : 0 ≤ z < 10 ^ Z.of_nat (S k) → (length (itoa_bytes z) ≤ S k)%nat.
Proof.
  intros H. unfold itoa_bytes. destruct (Z.ltb_spec z 0); [lia|]. apply digits_length.
  apply N2Z.inj_lt. rewrite N2Z.inj_abs_N, N2Z.inj_pow, nat_N_Z. simpl Z.of_N. lia.
Qed.

Lemma v4_string_length v : (length (v4_string_bytes v) ≤ 15)%nat.
Proof.
  unfold v4_string_bytes. rewrite !length_app. simpl.
  assert (∀ i, (length (itoa_bytes (octet v i)) ≤ 3)%nat) as H.
  { intros i. apply (itoa_length _ 2). unfold octet. pose proof (b2z_range (nth i v x00)). simpl. lia. }
  pose proof (H 0%nat). pose proof (H 1%nat). pose proof (H 2%nat). pose proof (H 3%nat). lia.
Qed.

Lemma v4_string_graphic v : Forall (λ b, graphic b = true) (v4_string_bytes v).
Proof.
  unfold v4_string_bytes. rewrite !Forall_app. repeat split; try apply itoa_graphic; by repeat constructor.
Qed.

Lemma v4_string_nonempty v : v4_string_bytes v ≠ [].
Proof. unfold v4_string_bytes. pose proof (itoa_nonempty (octet v 0)). by destruct (itoa_bytes _). Qed.

Lemma Atoi_itoa_bytes z : valid_port z → Atoi (string_of (itoa_bytes z)) = Some z.
Proof. intros H. apply Atoi_Itoa. unfold valid_port, min_int64, max_int64 in *. lia. Qed.

Lemma parseProxyV1Port_itoa z label :
  valid_port z → parseProxyV1Port (string_of (itoa_bytes z)) label = Ok z.
Proof.
  intros H. unfold parseProxyV1Port. rewrite Atoi_itoa_bytes by done. unfold valid_port in H.
  by replace (_ || _) with false by lia.
Qed.

Lemma parseProxyV1Address_v4 v label :
  length v = 4%nat → parseProxyV1Address "TCP4" (string_of (v4_string_bytes v)) label = Ok v.
Proof.
  intros H. unfold parseProxyV1Address. change (string_of _) with (v4_string v).
  rewrite ParseIP_v4_string, To4_v4_in_v6 by done. done.
Qed.

(** The words of a version 1 header. *)
Definition v1_words (s d : bytes) (sp dp : Z) : list bytes :=
  [bytes_of "PROXY"; bytes_of "TCP4"; v4_string_bytes s; v4_string_bytes d; itoa_bytes sp; itoa_bytes dp].

Lemma v1_words_graphic s d sp dp :
  Forall (λ w, w ≠ [] ∧ Forall (λ b, graphic b = true) w) (v1_words s d sp dp).
Proof.
  unfold v1_words. repeat constructor;
    auto using itoa_nonempty, itoa_graphic, v4_string_nonempty, v4_string_graphic.
Qed.

Lemma join_blank_not_elem ws b :
  b ≠ x20 → graphic b = false → Forall (λ w, w ≠ [] ∧ Forall (λ b, graphic b = true) w) ws →
  b ∉ join_blank ws.
Proof.
  intros Hb Hg. induction 1 as [|w ws [_ Hw] _ IH]; [apply not_elem_of_nil|].
  destruct ws as [|v ws]; simpl in *; [by eapply graphic_not_elem|].
  apply not_elem_of_app. split; [by eapply graphic_not_elem|]. apply not_elem_of_cons. done.
Qed.

Lemma readLine_app l rest line :
  x0a ∉ l → (length line + length l < 107)%nat →
  readProxyProtocolV1Line (l ++ x0a :: rest) line = Ok (line ++ l ++ [x0a], rest).
Proof.
  revert line. induction l as [|b l IH]; intros line Hl Hlen; cbn [app readProxyProtocolV1Line].
  - simpl in Hlen. unfold maxProxyProtocolV1LineLen. destruct (Z.leb_spec 107 (Z.of_nat (length line))); [lia|].
    done.
  - simpl in Hlen. unfold maxProxyProtocolV1LineLen. destruct (Z.leb_spec 107 (Z.of_nat (length line))); [lia|].
    apply not_elem_of_cons in Hl as [Hb Hl].
    destruct (Byte.eqb b x0a) eqn:E; [by apply byte_eqb_eq in E|].
    rewrite IH, <-app_assoc; [done|done|]. rewrite length_app. simpl. lia.
Qed.

Lemma parseProxyV1_build s d sp dp :
  length s = 4%nat → length d = 4%nat → valid_port sp → valid_port dp →
  parseProxyV1 (join_blank (v1_words s d sp dp) ++ [x0d; x0a]) =
  Ok ({| Version := ProxyProtocolV1; SourceIP := s; DestinationIP := d; SourcePort := sp;
         DestinationPort := dp |}, []).
Proof.
  intros Hs Hd Hsp Hdp. set (body := join_blank _). unfold parseProxyV1.
  pose proof (v1_words_graphic s d sp dp) as Hw.
  assert (index_bytes [x0d; x0a] (body ++ [x0d; x0a]) = Some (length body)) as ->.
  { apply (index_crlf_app body []). by apply join_blank_not_elem. }
  assert (slice (E:=ProxyError) (body ++ [x0d; x0a]) 0 (Z.of_nat (length body)) = Ok body) as ->.
  { apply (slice_app_mid [] body); simpl; lia. }
  cbn [mbind result_bind]. unfold Fields.
  rewrite <-bytes_of_length, bytes_of_string_of.
  assert (fields (length body) body [] = v1_words s d sp dp) as ->.
  { by apply fields_join_blank. }
  cbn [map v1_words]. rewrite !string_of_bytes_of. cbn [negb andb orb String.eqb Ascii.eqb Bool.eqb].
  rewrite !parseProxyV1Port_itoa by done. cbn [mbind result_bind].
  rewrite !parseProxyV1Address_v4 by done. cbn [mbind result_bind].
  rewrite slice_ok by (rewrite length_app; simpl; lia).
  rewrite drop_ge by (rewrite length_app; simpl; lia). rewrite take_nil. done.
Qed.

Lemma buildProxyV1_eq info s d :
  To4 (SourceIP info) = Some s → To4 (DestinationIP info) = Some d →
  buildProxyV1 info = Ok (join_blank (v1_words s d (SourcePort info) (DestinationPort info)) ++ [x0d; x0a]).
Proof.
  intros Hs Hd. unfold buildProxyV1. rewrite Hs, Hd. f_equal. cbn [join_blank v1_words].
  generalize (v4_string_bytes s), (v4_string_bytes d), (itoa_bytes (SourcePort info)),
    (itoa_bytes (DestinationPort info)). intros a b c e.
  simpl. rewrite <-!app_assoc. simpl. rewrite <-app_assoc. simpl. by rewrite <-app_assoc.
Qed.

Lemma v1_header_length s d sp dp :
  valid_port sp → valid_port dp → (length (join_blank (v1_words s d sp dp)) ≤ 54)%nat.
Proof.
  unfold valid_port. intros Hsp Hdp. cbn [join_blank v1_words]. rewrite !length_app. simpl.
  rewrite !length_app. simpl. rewrite !length_app. simpl. rewrite length_app. simpl.
  pose proof (v4_string_length s). pose proof (v4_string_length d).
  pose proof (itoa_length sp 4 ltac:(simpl; lia)). pose proof (itoa_length dp 4 ltac:(simpl; lia)).
  lia.
Qed.

Lemma consume_v1 s d sp dp rest :
  length s = 4%nat → length d = 4%nat → valid_port sp → valid_port dp →
  consumeInboundProxyHeader (join_blank (v1_words s d sp dp) ++ [x0d; x0a] ++ rest) "V1" =
  Ok ({| Version := ProxyProtocolV1; SourceIP := s; DestinationIP := d; SourcePort := sp;
         DestinationPort := dp |}, rest).
Proof.
  intros Hs Hd Hsp Hdp. unfold consumeInboundProxyHeader. change (String.eqb "V1" "V1") with true.
  cbv iota. set (body := join_blank _). pose proof (v1_words_graphic s d sp dp) as Hw.
  change (body ++ [x0d; x0a] ++ rest) with (body ++ [x0d] ++ x0a :: rest). rewrite app_assoc.
  rewrite readLine_app.
  - assert (ParseProxyHeader (body ++ [x0d; x0a]) = parseProxyV1 (body ++ [x0d; x0a])) as Hp by done.
    unfold body in Hp at 2. rewrite parseProxyV1_build in Hp by done.
    cbn [mbind result_bind app]. rewrite <-app_assoc. cbn [app]. rewrite Hp. done.
  - apply not_elem_of_app. split; [by apply join_blank_not_elem|].
    apply not_elem_of_cons; split; [done|apply not_elem_of_nil].
  - rewrite length_app. cbn [length]. pose proof (v1_header_length s d sp dp Hsp Hdp) as Hlen.
    fold body in Hlen. lia.
Qed.

Lemma read_full_app n (l rest : bytes) :
  Z.of_nat (length l) = n → read_full n (l ++ rest) = Ok (l, rest).
Proof.
  intros Hn. unfold read_full. destruct (Z.ltb_spec (Z.of_nat (length (l ++ rest))) n) as [H|_].
  - rewrite length_app in H. lia.
  - rewrite <-Hn, Nat2Z.id. by rewrite take_app_length, drop_app_length.
Qed.

(** The address block of a version 2 header, byte by byte. *)
Lemma consume_v2_bytes s0 s1 s2 s3 d0 d1 d2 d3 p0 p1 q0 q1 rest :
  consumeInboundProxyHeader ((proxyV2Signature ++ [x21; x11; x00; x0c]) ++
    [s0; s1; s2; s3; d0; d1; d2; d3; p0; p1; q0; q1] ++ rest) "V2" =
  Ok ({| Version := ProxyProtocolV2; SourceIP := v4_in_v6 [s0; s1; s2; s3];
         DestinationIP := v4_in_v6 [d0; d1; d2; d3];
         SourcePort := be_uint16 p0 p1; DestinationPort := be_uint16 q0 q1 |}, rest).
Proof.
  unfold consumeInboundProxyHeader. change (String.eqb "V2" "V1") with false.
  change (String.eqb "V2" "V2") with true. cbv iota.
  rewrite (read_full_app 16 (proxyV2Signature ++ [x21; x11; x00; x0c])) by done.
  cbn [mbind result_bind].
  change (slice (E:=ProxyError) (proxyV2Signature ++ [x21; x11; x00; x0c]) 14 16)
    with (Ok (E:=fault ProxyError) [x00; x0c]).
  cbn [mbind result_bind].
  change (Uint16 [x00; x0c]) with (Ok (E:=fault ProxyError) 12). cbn [mbind result_bind].
  rewrite (read_full_app 12 [s0; s1; s2; s3; d0; d1; d2; d3; p0; p1; q0; q1]) by done.
  reflexivity.
Qed.

Lemma consume_v2 s d sp dp rest :
  length s = 4%nat → length d = 4%nat → valid_port sp → valid_port dp →
  consumeInboundProxyHeader (proxyV2Signature ++ x21 :: x11 :: put_uint16 12 ++ s ++ d
    ++ put_uint16 sp ++ put_uint16 dp ++ rest) "V2" =
  Ok ({| Version := ProxyProtocolV2; SourceIP := v4_in_v6 s; DestinationIP := v4_in_v6 d;
         SourcePort := sp; DestinationPort := dp |}, rest).
Proof.
  intros Hs Hd Hsp Hdp.
  destruct s as [|s0 [|s1 [|s2 [|s3 [|]]]]]; try done.
  destruct d as [|d0 [|d1 [|d2 [|d3 [|]]]]]; try done.
  rewrite <-(put_uint16_roundtrip sp) at 2 by done. rewrite <-(put_uint16_roundtrip dp) at 2 by done.
  rewrite <-consume_v2_bytes. reflexivity.
Qed.

(** ** The readers are safe *)

Lemma readLine_safe stream line :
  safe_m (λ r, line ++ stream = r.1 ++ r.2 ∧ r.1 ≠ []) (readProxyProtocolV1Line stream line).
Proof.
  revert line. induction stream as [|b stream IH]; intros line; cbn [readProxyProtocolV1Line];
    destruct (_ <=? _); try done.
  destruct (Byte.eqb b x0a).
  - simpl. rewrite <-app_assoc. split; [done|]. by destruct line.
  - eapply safe_mono; [apply IH|]. intros r [Hr Hne]. rewrite <-app_assoc in Hr. done.
Qed.

Lemma read_full_safe n stream :
  0 ≤ n → safe_m (λ r, stream = r.1 ++ r.2 ∧ Z.of_nat (length r.1) = n) (read_full n stream).
Proof.
  intros Hn. unfold read_full. destruct (Z.ltb_spec (Z.of_nat (length stream)) n); [done|].
  simpl. rewrite take_drop, length_take. split; [done|lia].
Qed.

Lemma header_split_info header v (r : ProxyInfo * bytes) :
  v ≠ ProxyProtocolNone → header_split header r → Version r.1 = v → valid_info r.1.
Proof.
  intros Hv (h & _ & [[_ Hr]|[_ Hr]]) Hver; [|done]. rewrite Hr in Hver. simpl in Hver. congruence.
Qed.

Lemma consume_safe stream version :
  safe_m (λ r, valid_info r.1 ∧ ∃ header, stream = header ++ r.2 ∧ header ≠ [])
    (consumeInboundProxyHeader stream version).
Proof.
  unfold consumeInboundProxyHeader. destruct (String.eqb _ "V1").
  - eapply safe_bind; [apply readLine_safe|]. intros [line rest] [Hl Hne]. simpl in *.
    eapply safe_bind; [apply ParseProxyHeader_safe|]. intros [info r] Hsplit.
    destruct (bool_decide _) eqn:E; [|done]. bool_hyps. simpl.
    split; [|eauto]. exact (header_split_info _ ProxyProtocolV1 _ ltac:(done) Hsplit E).
  - destruct (String.eqb _ "V2"); [|done].
    eapply safe_bind; [apply read_full_safe; lia|]. intros [header s1] [Hh Hlen]. simpl in *.
    eapply safe_bind; [apply safe_slice; lia|]. intros len2 Hlen2. cbv beta in Hlen2.
    eapply safe_bind; [apply safe_Uint16; lia|]. intros n Hn. cbv beta in Hn.
    eapply safe_bind; [apply read_full_safe; lia|]. intros [body s2] [Hb _]. simpl in *.
    eapply safe_bind; [apply ParseProxyHeader_safe|]. intros [info r] Hsplit.
    destruct (bool_decide _) eqn:E; [|done]. bool_hyps. simpl.
    split; [exact (header_split_info _ ProxyProtocolV2 _ ltac:(done) Hsplit E)|].
    exists (header ++ body). rewrite <-app_assoc, <-Hb. split; [done|].
    by destruct header.
Qed.

(** ** Properties *)

(** C29. Parsing never indexes a client's bytes out of range, whatever they are: on
    every input the parser returns an error, or it returns the input untouched
    with an empty info, or it splits a non-empty header off the front whose
    addresses have 4 or 16 bytes and whose ports fit 16 bits. *)
Theorem ParseProxyHeader_total data :
  ParseProxyHeader data ≠ Err Panic ∧
  ∀ info rest, ParseProxyHeader data = Ok (info, rest) →
    ∃ header, data = header ++ rest ∧
    ((header = [] ∧ info = zeroProxyInfo) ∨ (header ≠ [] ∧ valid_info info)).
Proof.
  pose proof (ParseProxyHeader_safe data) as H. split; [by eapply safe_not_panic|].
  intros info rest E. apply (safe_use _ _ _ H E).
Qed.

(** C30. A client connection cannot make the header readers panic, and what they
    consume is exactly a prefix of the stream: the bytes left over are a suffix
    of what was sent, so payload bytes are neither lost nor reordered. *)
Theorem consumeInboundProxyHeader_safe stream version :
  consumeInboundProxyHeader stream version ≠ Err Panic ∧
  ∀ info rest, consumeInboundProxyHeader stream version = Ok (info, rest) →
    valid_info info ∧ ∃ header, stream = header ++ rest ∧ header ≠ [].
Proof.
  pose proof (consume_safe stream version) as H. split; [by eapply safe_not_panic|].
  intros info rest E. apply (safe_use _ _ _ H E).
Qed.

(** C17. Any header the builder writes is read back by the inbound reader as the
    same addresses and ports, in both versions, and the reader stops exactly at
    the end of the header, whatever payload follows. *)
Theorem consume_build info header rest :
  valid_port (SourcePort info) → valid_port (DestinationPort info) →
  BuildProxyHeader info = Ok header →
  consumeInboundProxyHeader (header ++ rest) (version_name (Version info)) =
  Ok (parsed_info info, rest).
Proof.
  destruct info as [v sip dip sp dp]. unfold BuildProxyHeader, parsed_info, parsed_ip; simpl.
  intros Hsp Hdp. destruct v; [done|..].
  - intros E. destruct (To4 sip) as [s|] eqn:Es, (To4 dip) as [d|] eqn:Ed;
      [|by unfold buildProxyV1 in E; simpl in E; rewrite Es, ?Ed in E..].
    erewrite buildProxyV1_eq in E by done.
    pose proof (consume_v1 s d sp dp rest (To4_length _ _ Es) (To4_length _ _ Ed) Hsp Hdp) as H.
    rewrite app_assoc in H. cbn [SourcePort DestinationPort] in E. inv_ok. exact H.
  - unfold buildProxyV2; simpl.
    destruct (To4 sip) as [s|] eqn:Es; [|done]. destruct (To4 dip) as [d|] eqn:Ed; [|done].
    assert (∀ p, valid_port p → wrapu16 p = p) as Hw.
    { intros p Hp. unfold wrapu16. apply Z.mod_small. exact Hp. }
    rewrite !Hw by done. intros E. inv_ok.
    pose proof (To4_length _ _ Es). pose proof (To4_length _ _ Ed).
    destruct s as [|s0 [|s1 [|s2 [|s3 [|]]]]]; try done.
    destruct d as [|d0 [|d1 [|d2 [|d3 [|]]]]]; try done.
    by apply (consume_v2 [s0; s1; s2; s3] [d0; d1; d2; d3]).
Qed.

Lemma consume_build_witness :
  let info := {| Version := ProxyProtocolV2; SourceIP := [x01; x02; x03; x04];
                 DestinationIP := [x0a; x00; x00; x01]; SourcePort := 51234; DestinationPort := 443 |} in
  ∃ header, consumeInboundProxyHeader (header ++ bytes_of "GET /") "V2" =
            Ok (parsed_info info, bytes_of "GET /").
Proof.
  eexists. eapply (consume_build
    {| Version := ProxyProtocolV2; SourceIP := [x01; x02; x03; x04];
       DestinationIP := [x0a; x00; x00; x01]; SourcePort := 51234; DestinationPort := 443 |});
    [split; simpl; lia|split; simpl; lia|reflexivity].
Defined.
