(* ===== verification/GoRegexp.v ===== *)
(** * Regular expressions

    The part of Go's [regexp] that the modelled packages use: anchored
    patterns built from character classes, bounded repetitions of a class,
    groups, [?] and [*].  [matches] is the meaning of a pattern; [MatchString]
    decides it with derivatives, and the two agree ([MatchString_matches]).
    All classes used are ASCII, so a pattern reads bytes. *)

From S2P Require Import Prelude GoString.

Inductive regex :=
| REmpty
| REps
| RClass (p : byte → bool)
| RRep (p : byte → bool) (lo hi : nat)
| RSeq (a b : regex)
| RAlt (a b : regex)
| RStar (a : regex).

Definition ROpt (a : regex) : regex := RAlt a REps.

Inductive matches : regex → bytes → Prop :=
| m_eps : matches REps []
| m_class p b : p b = true → matches (RClass p) [b]
| m_rep p lo hi l : Forall (λ b, p b = true) l → lo ≤ length l ≤ hi → matches (RRep p lo hi) l
| m_seq a b l k : matches a l → matches b k → matches (RSeq a b) (l ++ k)
| m_alt_l a b l : matches a l → matches (RAlt a b) l
| m_alt_r a b l : matches b l → matches (RAlt a b) l
| m_star_nil a : matches (RStar a) []
| m_star_app a l k : matches a l → matches (RStar a) k → matches (RStar a) (l ++ k).

#[export] Hint Constructors matches : prism.

(** ** Deciding a match *)

Fixpoint nullable (r : regex) : bool :=
  match r with
  | REmpty | RClass _ => false
  | REps | RStar _ => true
  | RRep _ lo _ => (lo =? 0)%nat
  | RSeq a b => nullable a && nullable b
  | RAlt a b => nullable a || nullable b
  end.

(** [RSeq] and [RAlt] without the empty language. *)
Definition seq (a b : regex) : regex :=
  match a, b with REmpty, _ => REmpty | _, REmpty => REmpty | REps, _ => b | _, _ => RSeq a b end.
Definition alt (a b : regex) : regex :=
  match a, b with REmpty, _ => b | _, REmpty => a | _, _ => RAlt a b end.

Fixpoint deriv (c : byte) (r : regex) : regex :=
  match r with
  | REmpty | REps => REmpty
  | RClass p => if p c then REps else REmpty
  | RRep p lo (S hi) => if p c then RRep p (lo - 1) hi else REmpty
  | RRep p lo O => REmpty
  | RSeq a b => let d := seq (deriv c a) b in if nullable a then alt d (deriv c b) else d
  | RAlt a b => alt (deriv c a) (deriv c b)
  | RStar a => seq (deriv c a) (RStar a)
  end.

Fixpoint match_bytes (r : regex) (l : bytes) : bool :=
  match l with [] => nullable r | c :: l' => match_bytes (deriv c r) l' end.

Definition MatchString (r : regex) (s : string) : bool := match_bytes r (bytes_of s).

(** ** Correctness *)

Lemma matches_empty l : ¬ matches REmpty l.
Proof. inversion 1. Qed.

Lemma matches_seq a b l : matches (RSeq a b) l ↔ ∃ l1 l2, l = l1 ++ l2 ∧ matches a l1 ∧ matches b l2.
Proof. split; [inversion 1; eauto|]. intros (? & ? & -> & ? & ?). by constructor. Qed.

Lemma matches_alt a b l : matches (RAlt a b) l ↔ matches a l ∨ matches b l.
Proof. split; [inversion 1; eauto|]. intros [?|?]; [by constructor|by apply m_alt_r]. Qed.

Lemma matches_opt a l : matches (ROpt a) l ↔ matches a l ∨ l = [].
Proof.
  unfold ROpt. rewrite matches_alt. split; (intros [?|H]; [by left|right]); [by inversion H|subst; constructor].
Qed.

Lemma matches_rep p lo hi l :
  matches (RRep p lo hi) l ↔ Forall (λ b, p b = true) l ∧ (lo ≤ length l ≤ hi)%nat.
Proof. split; [by inversion 1|]. intros [? ?]. by constructor. Qed.

Lemma matches_class p l : matches (RClass p) l ↔ ∃ b, l = [b] ∧ p b = true.
Proof. split; [inversion 1; eauto|]. intros (? & -> & ?). by constructor. Qed.

Lemma seq_correct a b l : matches (seq a b) l ↔ matches (RSeq a b) l.
Proof.
  assert (∀ x, matches x l ↔ matches (RSeq REps x) l) as Heps.
  { intros x. rewrite matches_seq. split; [intros H; exists [], l; eauto with prism|].
    intros (l1 & l2 & -> & H & ?). by inversion H. }
  assert (∀ x, matches REmpty l ↔ matches (RSeq REmpty x) l) as H1.
  { intros x. rewrite matches_seq. split; [by intros ?%matches_empty|]. by intros (? & ? & _ & ?%matches_empty & _). }
  assert (∀ x, matches REmpty l ↔ matches (RSeq x REmpty) l) as H2.
  { intros x. rewrite matches_seq. split; [by intros ?%matches_empty|]. by intros (? & ? & _ & _ & ?%matches_empty). }
  destruct a; [apply H1|destruct b; (apply H2 || apply Heps)|..]; by destruct b; (apply H2 || done).
Qed.

Lemma alt_correct a b l : matches (alt a b) l ↔ matches a l ∨ matches b l.
Proof.
  pose proof (matches_empty l). rewrite <-matches_alt.
  assert (∀ x, matches x l ↔ matches (RAlt REmpty x) l) by (intros x; rewrite matches_alt; tauto).
  assert (∀ x, matches x l ↔ matches (RAlt x REmpty) l) by (intros x; rewrite matches_alt; tauto).
  destruct a; auto; destruct b; auto; done.
Qed.

Lemma nullable_correct r : nullable r = true ↔ matches r [].
Proof.
  induction r as [| |p|p lo hi|a IHa b IHb|a IHa b IHb|a IHa]; cbn [nullable].
  - split; [done|by intros ?%matches_empty].
  - split; [constructor|done].
  - rewrite matches_class. split; [done|by intros (? & ? & _)].
  - rewrite matches_rep. cbn. rewrite Nat.eqb_eq. split; [intros ->; split; [constructor|lia]|lia].
  - rewrite andb_true_iff, matches_seq, IHa, IHb. split; [intros [? ?]; exists [], []; done|].
    intros (l1 & l2 & E & ? & ?). symmetry in E. by apply app_nil in E as [-> ->].
  - by rewrite orb_true_iff, matches_alt, IHa, IHb.
  - split; [constructor|done].
Qed.

Lemma matches_star_cons a c l :
  matches (RStar a) (c :: l) ↔ ∃ l1 l2, l = l1 ++ l2 ∧ matches a (c :: l1) ∧ matches (RStar a) l2.
Proof.
  split.
  - remember (RStar a) as r eqn:Er. remember (c :: l) as k eqn:Ek. intros H. revert Ek Er. revert c l.
    induction H as [| | | | | |?|a' l1 l2 H1 IH1 H2 IH2]; intros y t Ek Er; try done.
    injection Er as ->. destruct l1 as [|x l1]; cbn in Ek; [by apply IH2|]. injection Ek as -> <-. eauto.
  - intros (l1 & l2 & -> & ? & ?). change (c :: l1 ++ l2) with ((c :: l1) ++ l2). by constructor.
Qed.

Lemma deriv_correct c r l : matches (deriv c r) l ↔ matches r (c :: l).
Proof.
  revert l. induction r as [| |p|p lo hi|a IHa b IHb|a IHa b IHb|a IHa]; intros l; cbn [deriv].
  - split; by intros ?%matches_empty.
  - split; [by intros ?%matches_empty|inversion 1].
  - rewrite matches_class. destruct (p c) eqn:E; split.
    + inversion 1. eauto.
    + intros (? & [= -> ->] & _). constructor.
    + by intros ?%matches_empty.
    + intros (? & [= -> ->] & ?). congruence.
  - destruct hi as [|hi]; [split; [by intros ?%matches_empty|]; rewrite matches_rep; cbn; lia|].
    destruct (p c) eqn:E; rewrite !matches_rep, ?Forall_cons; cbn; split.
    + intros [? ?]. split; [done|lia].
    + intros [[? ?] ?]. split; [done|lia].
    + by intros ?%matches_empty.
    + intros [[? ?] ?]. congruence.
  - assert (matches (seq (deriv c a) b) l ↔ ∃ l1 l2, l = l1 ++ l2 ∧ matches a (c :: l1) ∧ matches b l2) as Hs.
    { rewrite seq_correct, matches_seq. by setoid_rewrite IHa. }
    assert (matches (RSeq a b) (c :: l) ↔
      (∃ l1 l2, l = l1 ++ l2 ∧ matches a (c :: l1) ∧ matches b l2) ∨ matches a [] ∧ matches b (c :: l)) as Hc.
    { rewrite matches_seq. split.
      - intros ([|x l1] & l2 & E & ? & ?); cbn in E; [subst; auto|]. injection E as <- ->. left. eauto.
      - intros [(l1 & l2 & -> & ? & ?)|[? ?]]; [exists (c :: l1), l2; done|exists [], (c :: l); done]. }
    rewrite Hc. destruct (nullable a) eqn:E.
    + rewrite alt_correct, Hs, IHb. apply nullable_correct in E. tauto.
    + rewrite Hs. assert (¬ matches a []) by (rewrite <-nullable_correct; congruence). tauto.
  - by rewrite alt_correct, IHa, IHb, matches_alt.
  - rewrite seq_correct, matches_seq, matches_star_cons. by setoid_rewrite IHa.
Qed.

Lemma match_bytes_correct r l : match_bytes r l = true ↔ matches r l.
Proof.
  revert r. induction l as [|c l IH]; intros r; cbn [match_bytes]; [apply nullable_correct|].
  by rewrite IH, deriv_correct.
Qed.

Lemma MatchString_matches r s : MatchString r s = true ↔ matches r (bytes_of s).
Proof. apply match_bytes_correct. Qed.
