(* ===== verification/ValidatorBase.v ===== *)
(** * Request validation: errors and normal forms (pkg/core/validator)

    The errors of the package, the loops that normalise lists of identifiers
    and tags, and the two anchored patterns for slugs and host names. *)

From S2P Require Import Prelude GoString GoSort GoRegexp.
#[local] Open Scope Z_scope.
#[local] Set Warnings "-register-all".

(** ** Errors *)

(** A Go [any]. *)
Inductive anyValue :=
| AnyNil | AnyBool (b : bool) | AnyInt (z : Z) | AnyString (s : string)
| AnyList (l : list anyValue) | AnyMap (m : list (string * anyValue)).

(** The bare sentinel, or a [*ValidationError], which unwraps to it.  A nil
    [Details] reads as an empty map. *)
Inductive validatorError :=
| ErrInvalidRequest
| ValidationError (Message : string) (Details : gmap string anyValue).

Definition invalidRequestError (message : string) (details : gmap string anyValue) : validatorError :=
  ValidationError (if String.eqb message "" then "The request payload is invalid." else message) details.

Definition invalidFieldError (field message : string) (details : gmap string anyValue) : validatorError :=
  invalidRequestError message (<["field" := AnyString field]> details).

(** [Unwrap]: every error of the package is an [ErrInvalidRequest]. *)
Definition Unwrap (err : validatorError) : validatorError :=
  match err with ErrInvalidRequest => ErrInvalidRequest | ValidationError _ _ => ErrInvalidRequest end.

(** [if cond { return ..., err }] *)
Definition reject_if {E} (cond : bool) (err : E) : result E () := if cond then Err err else Ok tt.

Lemma reject_if_bind {E A} cond (err : E) (k : () → result E A) a :
  (reject_if cond err ≫= k) = Ok a ↔ cond = false ∧ k tt = Ok a.
Proof. destruct cond; cbn; split; try done; by intros [? ?]. Qed.

Definition isSome {A} (o : option A) : bool := match o with Some _ => true | None => false end.

(** A chain of checks: ok exactly when each check passes. *)
Lemma reject_if_ok {E A} cond (err : E) (k : () → result E A) :
  is_ok (reject_if cond err ≫= k) = negb cond && is_ok (k tt).
Proof. by destruct cond. Qed.

(** ** Loops that keep first occurrences *)

Section dedup.
Context (key : string → string) (skip : string → bool).

Definition dedupStep (s : gset string * list string) (value : string) : gset string * list string :=
  let '(seen, out) := s in
  let value := key value in
  if skip value || bool_decide (value ∈ seen) then (seen, out)
  else ({[value]} ∪ seen, out ++ [value]).
Definition dedupLoop (values : list string) : list string := (foldl dedupStep (∅, []) values).2.

Lemma dedupLoop_spec values :
  NoDup (dedupLoop values) ∧
  ∀ v, v ∈ dedupLoop values ↔ skip v = false ∧ ∃ x, x ∈ values ∧ v = key x.
Proof.
  assert (∀ s, s = foldl dedupStep (∅, []) values →
    (∀ v, v ∈ s.1 ↔ v ∈ s.2) ∧ NoDup s.2 ∧
    ∀ v, v ∈ s.2 ↔ skip v = false ∧ ∃ x, x ∈ values ∧ v = key x) as H; [|apply (H _ eq_refl)].
  intros s ->. apply (foldl_ind dedupStep (λ l s, (∀ v, v ∈ s.1 ↔ v ∈ s.2) ∧ NoDup s.2 ∧
    ∀ v, v ∈ s.2 ↔ skip v = false ∧ ∃ x, x ∈ l ∧ v = key x)).
  - cbn. split; [set_solver|]. split; [constructor|]. set_solver.
  - intros l x [seen out] (Hs & Hn & He). unfold dedupStep. cbn [fst snd] in *.
    destruct (skip (key x)) eqn:Ek; cbn [orb].
    { cbn [fst snd]. split; [done|]. split; [done|]. intros v. rewrite He. setoid_rewrite elem_of_app.
      setoid_rewrite list_elem_of_singleton. split; [naive_solver|].
      intros (Hv & y & [?| ->] & ->); [eauto|congruence]. }
    destruct (bool_decide_reflect (key x ∈ seen)) as [Hin|Hin]; cbn [fst snd].
    { split; [done|]. split; [done|]. intros v. rewrite He. setoid_rewrite elem_of_app.
      setoid_rewrite list_elem_of_singleton. split; [naive_solver|].
      intros (Hv & y & [?| ->] & ->); [eauto|]. by apply Hs, He in Hin. }
    split; [intros v; rewrite elem_of_union, elem_of_singleton, elem_of_app, list_elem_of_singleton, Hs; tauto|].
    split; [apply NoDup_app; split; [done|]; split; [|repeat constructor; set_solver]|].
    + intros v Hv ->%list_elem_of_singleton. by apply Hin, Hs.
    + intros v. rewrite elem_of_app, list_elem_of_singleton, He. setoid_rewrite elem_of_app.
      setoid_rewrite list_elem_of_singleton. naive_solver.
Qed.

(** What is already normal is kept as it is. *)
Lemma dedupLoop_id values :
  NoDup values → (∀ v, v ∈ values → key v = v ∧ skip v = false) → dedupLoop values = values.
Proof.
  intros Hn Hv. unfold dedupLoop.
  assert (foldl dedupStep (∅, []) values = (list_to_set values, values)) as ->; [|done].
  revert Hn Hv. induction values as [|x l IH] using rev_ind; intros Hn Hv; [done|].
  apply NoDup_app in Hn as (Hn & Hd & _). rewrite foldl_app, IH; [|done|set_solver]. cbn.
  destruct (Hv x) as [-> ->]; [set_solver|]. cbn [orb].
  rewrite bool_decide_false; [f_equal; set_solver|]. rewrite elem_of_list_to_set. intros Hx.
  apply (Hd x Hx). set_solver.
Qed.

Definition dedupSorted (values : list string) : list string := sort_stable String.ltb (dedupLoop values).
End dedup.

#[export] Instance string_strict_weak : StrictWeak String.ltb.
Proof.
  constructor.
  - intros x y H. apply (key_asym (eqb:=String.eqb) (ltb:=String.ltb)). done.
  - unfold not_after. intros x y z Hxy Hyz. destruct (String.ltb z x) eqn:E; [|done].
    destruct (String.ltb x y) eqn:E2.
    + rewrite (str_ltb_trans _ _ _ E E2) in Hyz. done.
    + rewrite (str_ltb_total _ _ E2 Hxy) in E. congruence.
Qed.

Lemma str_order_total x y : String.ltb x y = false → String.ltb y x = false → x = y.
Proof. apply str_ltb_total. Qed.

(** The sorted result depends only on the set of normalised values. *)
Lemma dedupSorted_spec key skip values :
  StronglySorted (not_after String.ltb) (dedupSorted key skip values) ∧ NoDup (dedupSorted key skip values) ∧
  ∀ v, v ∈ dedupSorted key skip values ↔ skip v = false ∧ ∃ x, x ∈ values ∧ v = key x.
Proof.
  destruct (dedupLoop_spec key skip values) as [Hn He]. unfold dedupSorted.
  split; [apply sort_sorted, _|]. split; [by rewrite sort_perm|]. intros v. by rewrite elem_of_sort.
Qed.

Lemma dedupSorted_ext key skip l k :
  (∀ v, (∃ x, x ∈ l ∧ v = key x) ↔ (∃ x, x ∈ k ∧ v = key x)) → dedupSorted key skip l = dedupSorted key skip k.
Proof.
  intros H. unfold dedupSorted. apply sort_unique; [apply _|intros; by apply str_order_total|].
  destruct (dedupLoop_spec key skip l) as [Hn1 He1], (dedupLoop_spec key skip k) as [Hn2 He2].
  apply NoDup_Permutation; [done..|]. intros v. by rewrite He1, He2, H.
Qed.

(** A normalised list that every key leaves alone stays as it is. *)
Lemma dedupSorted_fixed key skip values :
  (∀ v, v ∈ dedupSorted key skip values → key v = v) →
  dedupSorted key skip (dedupSorted key skip values) = dedupSorted key skip values.
Proof.
  intros Hk. destruct (dedupSorted_spec key skip values) as (Hs & Hn & He).
  unfold dedupSorted at 1. rewrite dedupLoop_id; [by apply sort_id|done|].
  intros v Hv. split; [by apply Hk|by apply He in Hv as [? _]].
Qed.

Lemma dedupSorted_idemp key skip values :
  (∀ v, key (key v) = key v) → dedupSorted key skip (dedupSorted key skip values) = dedupSorted key skip values.
Proof.
  intros Hk. apply dedupSorted_fixed. intros v Hv. by apply dedupSorted_spec in Hv as (_ & x & _ & ->).
Qed.

(** ** Identifiers, tags and slugs *)

Definition is_blank (v : string) : bool := String.eqb v "".

Definition normalizeIDs (values : list string) : list string := dedupSorted TrimSpace is_blank values.
Definition uniqueNonEmptyStrings (values : list string) : list string := dedupLoop TrimSpace is_blank values.

Section case.
Context `{UnicodeTables}.

Definition upperTrim (value : string) : string := ToUpper (TrimSpace value).
Definition lowerTrim (value : string) : string := ToLower (TrimSpace value).

Definition normalizeTags (values : list string) : list string :=
  dedupSorted lowerTrim (λ v, is_blank v || (64 <? len v)) values.
Definition normalizeSlug (value : string) : string := lowerTrim value.
End case.

(** ** The two patterns *)

Definition byte_in (lo hi : byte) (b : byte) : bool := (b2z lo <=? b2z b) && (b2z b <=? b2z hi).
(** [[a-z0-9]] and [[a-z0-9-]] *)
Definition lower_alnum (b : byte) : bool := byte_in x61 x7a b || byte_in x30 x39 b.
Definition lower_alnum_dash (b : byte) : bool := lower_alnum b || Byte.eqb b x2d.
Definition is_dot (b : byte) : bool := Byte.eqb b x2e.

Definition slugPattern : regex :=
  RSeq (RClass lower_alnum) (RSeq (RRep lower_alnum_dash 1 61) (RClass lower_alnum)).

(** [[a-z0-9](?:[a-z0-9-]{0,61}[a-z0-9])?] *)
Definition labelPattern : regex :=
  RSeq (RClass lower_alnum) (ROpt (RSeq (RRep lower_alnum_dash 0 61) (RClass lower_alnum))).
Definition hostnamePattern : regex :=
  RSeq labelPattern (RSeq (RStar (RSeq (RClass is_dot) labelPattern)) (ROpt (RClass is_dot))).

Definition validSNIHostname `{UnicodeTables} (value : string) : bool :=
  let value := TrimSpace (ToLower value) in
  if is_blank value || (253 <? len value) then false else MatchString hostnamePattern value.

(** A DNS label: 1 to 63 letters, digits and hyphens, with a letter or digit
    at each end. *)
Definition dns_label (l : bytes) : Prop :=
  (1 ≤ length l ≤ 63)%nat ∧ Forall (λ b, lower_alnum_dash b = true) l ∧
  (∀ b, head l = Some b → lower_alnum b = true) ∧ (∀ b, last l = Some b → lower_alnum b = true).

Lemma lower_alnum_dash_intro b : lower_alnum b = true → lower_alnum_dash b = true.
Proof. intros E. unfold lower_alnum_dash. by rewrite E. Qed.

Lemma label_matches l : matches labelPattern l ↔ dns_label l.
Proof.
  unfold labelPattern. rewrite matches_seq. split.
  - intros (l1 & l2 & -> & (b & -> & Hb)%matches_class & [H| ->]%matches_opt).
    + apply matches_seq in H as (m & k & -> & [Hm Hl]%matches_rep & (c & -> & Hc)%matches_class).
      cbn in Hl. split; [cbn; rewrite length_app; cbn; lia|]. split.
      { apply Forall_cons. split; [by apply lower_alnum_dash_intro|]. apply Forall_app. split; [done|].
        apply Forall_singleton. by apply lower_alnum_dash_intro. }
      split; [by intros ? [= <-]|]. intros d. rewrite app_assoc, last_snoc. by intros [= <-].
    + split; [cbn; lia|]. split; [apply Forall_singleton; by apply lower_alnum_dash_intro|].
      by split; intros ? [= <-].
  - intros (Hlen & Hall & Hhead & Hlast). destruct l as [|b l]; [cbn in Hlen; lia|].
    exists [b], l. split; [done|]. split; [apply matches_class; eauto|]. apply matches_opt.
    destruct l as [|x l'] using rev_ind; [by right|].
    left. apply matches_seq. exists l', [x]. split; [done|].
    apply Forall_cons in Hall as [_ Hall]. apply Forall_app in Hall as [Hall _].
    cbn in Hlen. rewrite length_app in Hlen. cbn in Hlen.
    split; [apply matches_rep; split; [done|lia]|]. apply matches_class. exists x. split; [done|].
    apply Hlast. change (b :: l' ++ [x]) with ((b :: l') ++ [x]). apply last_snoc.
Qed.

(** Labels joined by dots. *)
Fixpoint dotted (labels : list bytes) : bytes :=
  match labels with
  | [] => []
  | [l] => l
  | l :: rest => l ++ x2e :: dotted rest
  end.

Lemma dotted_cons l rest : dotted (l :: rest) = l ++ concat (map (cons x2e) rest).
Proof.
  revert l. induction rest as [|m rest IH]; intros l; [by rewrite app_nil_r|].
  change (dotted (l :: m :: rest)) with (l ++ x2e :: dotted (m :: rest)). by rewrite IH.
Qed.

Lemma is_dot_matches l : matches (RClass is_dot) l ↔ l = [x2e].
Proof.
  rewrite matches_class. split; [|intros ->; by exists x2e].
  intros (b & -> & Hb). unfold is_dot in Hb. apply byte_eqb_eq in Hb. by subst.
Qed.

Lemma star_labels_matches l :
  matches (RStar (RSeq (RClass is_dot) labelPattern)) l ↔
  ∃ rest, Forall dns_label rest ∧ l = concat (map (cons x2e) rest).
Proof.
  split.
  - remember (RStar _) as r eqn:Er. intros H. revert Er.
    induction H as [| | | | | |a|a l1 l2 H1 IH1 H2 IH2]; intros Er; try done.
    + exists []. split; [constructor|done].
    + injection Er as ->. destruct (IH2 eq_refl) as (rest & Hr & ->).
      apply matches_seq in H1 as (d & m & -> & ->%is_dot_matches & Hm%label_matches).
      exists (m :: rest). split; [by constructor|done].
  - intros (rest & Hr & ->). induction Hr as [|m rest Hm _ IH]; cbn; [constructor|].
    change (x2e :: m ++ concat (map (cons x2e) rest)) with ((x2e :: m) ++ concat (map (cons x2e) rest)).
    constructor; [|done]. apply matches_seq. exists [x2e], m.
    split; [done|]. split; [by apply is_dot_matches|by apply label_matches].
Qed.

Lemma hostname_matches l :
  matches hostnamePattern l ↔
  ∃ labels, labels ≠ [] ∧ Forall dns_label labels ∧ (l = dotted labels ∨ l = dotted labels ++ [x2e]).
Proof.
  unfold hostnamePattern. rewrite matches_seq. split.
  - intros (l1 & l2 & -> & H1%label_matches & H2).
    apply matches_seq in H2 as (k1 & k2 & -> & (rest & Hr & ->)%star_labels_matches & Hk).
    exists (l1 :: rest). split; [done|]. split; [by constructor|]. rewrite dotted_cons.
    apply matches_opt in Hk as [->%is_dot_matches| ->]; [right; by rewrite app_assoc|left; by rewrite app_nil_r].
  - intros (labels & Hne & Hall & Hl). destruct labels as [|l1 rest]; [done|].
    apply Forall_cons in Hall as [H1 Hr].
    set (tail := concat (map (cons x2e) rest)).
    assert (∃ k, l = l1 ++ (tail ++ k) ∧ (k = [x2e] ∨ k = [])) as (k & -> & Hk).
    { rewrite dotted_cons in Hl. destruct Hl as [-> | ->]; [exists []; rewrite app_nil_r; auto|].
      exists [x2e]. rewrite <-app_assoc. auto. }
    exists l1, (tail ++ k). split; [done|]. split; [by apply label_matches|]. apply matches_seq.
    exists tail, k. split; [done|]. split; [apply star_labels_matches; eauto|]. apply matches_opt.
    by rewrite is_dot_matches.
Qed.

(** ** Properties *)

(** C39. A TLS SNI host name is accepted exactly when, trimmed and in lower
    case, it has at most 253 bytes and is a dot-separated sequence of DNS labels
    (1 to 63 letters, digits and hyphens, no hyphen at either end), with an
    optional final dot. *)
Theorem validSNIHostname_spec `{UnicodeTables} value :
  validSNIHostname value = true ↔
  let v := TrimSpace (ToLower value) in
  len v ≤ 253 ∧ ∃ labels, labels ≠ [] ∧ Forall dns_label labels ∧
    (bytes_of v = dotted labels ∨ bytes_of v = dotted labels ++ [x2e]).
Proof.
  unfold validSNIHostname. cbv zeta. set (v := TrimSpace (ToLower value)).
  rewrite <-hostname_matches, <-MatchString_matches. unfold is_blank.
  destruct (String.eqb_spec v "") as [->|Hv]; cbn [orb].
  { split; [done|]. intros [_ Hm]. by vm_compute in Hm. }
  destruct (Z.ltb_spec 253 (len v)); split; [done|lia|done|tauto].
Qed.

(** Identifier lists have one normal form: [normalizeIDs] returns the
    non-empty trimmed values, sorted and without duplicates; it is idempotent,
    and the result depends only on the set of trimmed values. *)
Theorem normalizeIDs_spec values :
  StronglySorted (not_after String.ltb) (normalizeIDs values) ∧ NoDup (normalizeIDs values) ∧
  (∀ v, v ∈ normalizeIDs values ↔ v ≠ "" ∧ ∃ x, x ∈ values ∧ v = TrimSpace x) ∧
  normalizeIDs (normalizeIDs values) = normalizeIDs values ∧
  ∀ values', (∀ v, v ∈ map TrimSpace values ↔ v ∈ map TrimSpace values') →
    normalizeIDs values = normalizeIDs values'.
Proof.
  destruct (dedupSorted_spec TrimSpace is_blank values) as (Hs & Hn & He).
  split; [done|]. split; [done|]. split.
  { intros v. unfold normalizeIDs. rewrite He. unfold is_blank. by rewrite String.eqb_neq. }
  split; [apply dedupSorted_idemp, TrimSpace_idemp|]. intros values' Hv.
  apply dedupSorted_ext. intros v. specialize (Hv v). rewrite !list_elem_of_fmap in Hv. naive_solver.
Qed.
