(* ===== verification/TlsSni.v ===== *)
(** * Server name routing (pkg/core/forward/supervisor.go)

    A listener with TLS_SNI rules reads an optional PROXY header and the
    client's ClientHello before it knows which rule serves the connection.
    The bytes read stay available as a preface, which [proxyTCP] sends to the
    target first.  As in ProxyProtocol.v, a connection is the bytes it still
    delivers. *)

From S2P Require Import Prelude GoString GoInt GoNet Agent ProxyProtocol.
#[local] Open Scope Z_scope.

Inductive HelloError :=
| NotTLSHandshake
| HelloTooLarge
| NotClientHello
| HelloTruncated
| MissingRandom
| MissingSessionID
| SessionIDTruncated
| CipherSuitesTruncated
| CompressionTruncated
| ExtensionsTruncated
| ExtensionTruncated
| MissingSNI
| SNIMissingListLength
| SNIListTruncated
| SNINameTruncated
| SNIMissingDNSName
| HelloReadError.

Abbreviation hello_result A := (result (fault HelloError) A).

Definition maxTLSClientHelloBytes : Z := 8192.

(** [int(a)<<16 | int(b)<<8 | int(c)] *)
Definition be_uint24 (a b c : byte) : Z :=
  Z.lor (Z.lor (Z.shiftl (b2z a) 16) (Z.shiftl (b2z b) 8)) (b2z c).

(** The loops take fuel; running out of it is [Panic], so that the absence of
    panics below also says that the fuel is enough.

    The loop over the names of the extension; every turn moves [cursor] by at
    least three bytes. *)
Fixpoint sniNames (fuel : nat) (data : bytes) (cursor end_ : Z) : hello_result string :=
  match fuel with
  | O => Err Panic
  | S f =>
      if cursor + 3 <=? end_ then
        nameType ← index_at data cursor;
        len2 ← slice data (cursor + 1) (cursor + 3);
        nameLength ← Uint16 len2;
        let cursor := cursor + 3 in
        if end_ <? cursor + nameLength then Err (Error SNINameTruncated)
        else if Byte.eqb nameType x00 then
          name ← slice data cursor (cursor + nameLength);
          Ok (string_of name)
        else sniNames f data (cursor + nameLength) end_
      else Err (Error SNIMissingDNSName)
  end.

Definition parseSNIExtension (data : bytes) : hello_result string :=
  if Z.of_nat (length data) <? 2 then Err (Error SNIMissingListLength)
  else
    len2 ← slice data 0 2;
    listLength ← Uint16 len2;
    let cursor := 2 in
    if Z.of_nat (length data) <? cursor + listLength then Err (Error SNIListTruncated)
    else sniNames (S (length data)) data cursor (cursor + listLength).

(** The loop over the extensions; every turn moves [cursor] by at least four. *)
Fixpoint helloExtensions (fuel : nat) (handshake : bytes) (cursor extensionsEnd : Z)
    : hello_result string :=
  match fuel with
  | O => Err Panic
  | S f =>
      if cursor + 4 <=? extensionsEnd then
        type2 ← slice handshake cursor (cursor + 2);
        extensionType ← Uint16 type2;
        len2 ← slice handshake (cursor + 2) (cursor + 4);
        extensionLength ← Uint16 len2;
        let cursor := cursor + 4 in
        if extensionsEnd <? cursor + extensionLength then Err (Error ExtensionTruncated)
        else if extensionType =? 0 then
          data ← slice handshake cursor (cursor + extensionLength);
          parseSNIExtension data
        else helloExtensions f handshake (cursor + extensionLength) extensionsEnd
      else Err (Error MissingSNI)
  end.

Definition parseClientHelloSNI (handshake : bytes) : hello_result string :=
  let n := Z.of_nat (length handshake) in
  if n <? 4 then Err (Error NotClientHello)
  else
    b0 ← index_at handshake 0;
    if negb (Byte.eqb b0 x01) then Err (Error NotClientHello)
    else
      b1 ← index_at handshake 1; b2 ← index_at handshake 2; b3 ← index_at handshake 3;
      let handshakeLength := be_uint24 b1 b2 b3 in
      if n - 4 <? handshakeLength then Err (Error HelloTruncated)
      else
        let cursor := 4 in
        if n <? cursor + 2 + 32 then Err (Error MissingRandom)
        else
          let cursor := cursor + (2 + 32) in
          if n <? cursor + 1 then Err (Error MissingSessionID)
          else
            sid ← index_at handshake cursor;
            let sessionIDLength := b2z sid in
            let cursor := cursor + 1 in
            if n <? cursor + sessionIDLength + 2 then Err (Error SessionIDTruncated)
            else
              let cursor := cursor + sessionIDLength in
              cs2 ← slice handshake cursor (cursor + 2);
              cipherSuiteLength ← Uint16 cs2;
              let cursor := cursor + 2 in
              if n <? cursor + cipherSuiteLength + 1 then Err (Error CipherSuitesTruncated)
              else
                let cursor := cursor + cipherSuiteLength in
                cm ← index_at handshake cursor;
                let compressionMethodsLength := b2z cm in
                let cursor := cursor + 1 in
                if n <? cursor + compressionMethodsLength + 2 then Err (Error CompressionTruncated)
                else
                  let cursor := cursor + compressionMethodsLength in
                  ext2 ← slice handshake cursor (cursor + 2);
                  extensionsLength ← Uint16 ext2;
                  let cursor := cursor + 2 in
                  if n <? cursor + extensionsLength then Err (Error ExtensionsTruncated)
                  else helloExtensions (S (length handshake)) handshake cursor
                         (cursor + extensionsLength).

(** [io.ReadFull] with this file's errors. *)
Definition hello_read (n : Z) (stream : bytes) : hello_result (bytes * bytes) :=
  match read_full n stream with Ok r => Ok r | Err _ => Err (Error HelloReadError) end.

(** The [if len(handshake) >= 4 && expectedHandshakeBytes == 0] block of the
    record loop: the length the handshake header announces. *)
Definition expectedHandshakeBytes (handshake : bytes) (expected : Z) : hello_result Z :=
  if (4 <=? Z.of_nat (length handshake)) && (expected =? 0) then
    h0 ← index_at handshake 0;
    if negb (Byte.eqb h0 x01) then Err (Error NotClientHello)
    else
      h1 ← index_at handshake 1; h2 ← index_at handshake 2; h3 ← index_at handshake 3;
      let e := 4 + be_uint24 h1 h2 h3 in
      if maxTLSClientHelloBytes <? e then Err (Error HelloTooLarge) else Ok e
  else Ok expected.

(** The record loop.  Every turn takes at least the five header bytes off the
    stream, so a turn per byte is enough.  The result is the preface, the
    hostname and what is left of the stream. *)
Fixpoint readRecords (fuel : nat) (stream preface handshake : bytes) (expected : Z)
    : hello_result (bytes * string * bytes) :=
  match fuel with
  | O => Err Panic
  | S f =>
      if negb (Z.of_nat (length preface) <? maxTLSClientHelloBytes) then Err (Error HelloTooLarge)
      else
        '(header, stream) ← hello_read 5 stream;
        let preface := preface ++ header in
        b0 ← index_at header 0;
        if negb (Byte.eqb b0 x16) then Err (Error NotTLSHandshake)
        else
          len2 ← slice header 3 5;
          recordLength ← Uint16 len2;
          if (recordLength <=? 0)
             || (maxTLSClientHelloBytes <? Z.of_nat (length preface) + recordLength)
          then Err (Error HelloTooLarge)
          else
            '(body, stream) ← hello_read recordLength stream;
            let preface := preface ++ body in
            let handshake := handshake ++ body in
            expected ← expectedHandshakeBytes handshake expected;
            if (0 <? expected) && (expected <=? Z.of_nat (length handshake)) then
              hello ← slice handshake 0 expected;
              hostname ← parseClientHelloSNI hello;
              Ok (preface, hostname, stream)
            else readRecords f stream preface handshake expected
  end.

Definition readTLSClientHelloSNI (stream : bytes) : hello_result (bytes * string * bytes) :=
  readRecords (S (length stream)) stream [] [] 0.

(** ** Choosing the rule of a connection *)

Definition selectAnyInboundRule (rules : list RuleConfig) : option RuleConfig :=
  List.find (λ r, String.eqb (rule_MatchType r) "ANY_INBOUND") rules.

Definition hasSNIRules (rules : list RuleConfig) : bool :=
  existsb (λ r, String.eqb (rule_MatchType r) "TLS_SNI") rules.

Definition normalizedProxyProtocol (version : string) : string :=
  if String.eqb version "" || String.eqb version "NONE" then "" else version.

(** The loop over the rules; [version] is [Some] once the first SNI rule set it. *)
Fixpoint sniVersions (rules : list RuleConfig) (version : option string) : option string :=
  match rules with
  | [] => version
  | rule :: rules' =>
      if negb (String.eqb (rule_MatchType rule) "TLS_SNI") then sniVersions rules' version
      else
        let ruleVersion := normalizedProxyProtocol (rule_ProxyProtocolIn rule) in
        match version with
        | None => sniVersions rules' (Some ruleVersion)
        | Some v => if negb (String.eqb ruleVersion v) then None else sniVersions rules' version
        end
  end.
Definition sniInboundProxyProtocol (rules : list RuleConfig) : option string :=
  sniVersions rules None.

(** A matched connection: the rule, the preface, the source address of the
    PROXY header if there was one, and what is left of the stream. *)
Record SNIMatch := {
  match_rule : RuleConfig; match_preface : bytes; match_source : option (bytes * Z);
  match_reader : bytes }.

Section select.
Context `{UnicodeTables}.

Definition selectSNIRule (conn : bytes) (rules : list RuleConfig) : result (fault ()) (option SNIMatch) :=
  if negb (hasSNIRules rules) then Ok None
  else match sniInboundProxyProtocol rules with
  | None => Ok None
  | Some proxyVersion =>
      let after_header :=
        if negb (String.eqb proxyVersion "") then
          match consumeInboundProxyHeader conn proxyVersion with
          | Ok (proxyInfo, reader) =>
              Ok (Some (Some (SourceIP proxyInfo, SourcePort proxyInfo), reader))
          | Err (Error _) => Ok None
          | Err Panic => Err Panic
          end
        else Ok (Some (None, conn)) in
      a ← after_header;
      match a with
      | None => Ok None
      | Some (sourceAddress, reader) =>
          match readTLSClientHelloSNI reader with
          | Err Panic => Err Panic
          | Err (Error _) => Ok None
          | Ok (preface, hostname, reader) =>
              match List.find (λ rule, String.eqb (rule_MatchType rule) "TLS_SNI"
                                       && EqualFold (rule_SNIHostname rule) hostname) rules with
              | Some rule => Ok (Some {| match_rule := rule; match_preface := preface;
                                         match_source := sourceAddress; match_reader := reader |})
              | None => Ok None
              end
          end
      end
  end.
End select.

(** ** Safety *)

Lemma be_uint24_eq a b c : be_uint24 a b c = b2z a * 65536 + b2z b * 256 + b2z c.
Proof.
  unfold be_uint24. pose proof (b2z_range a). pose proof (b2z_range b). pose proof (b2z_range c).
  change 16 with (8 + 8). rewrite <-(Z.shiftl_shiftl (b2z a) 8 8) by lia.
  rewrite <-Z.shiftl_lor. rewrite (lor_shift_add (b2z a) (b2z b) 8) by lia.
  rewrite lor_shift_add by lia. lia.
Qed.

Lemma be_uint24_range a b c : 0 ≤ be_uint24 a b c < 16777216.
Proof.
  rewrite be_uint24_eq. pose proof (b2z_range a). pose proof (b2z_range b). pose proof (b2z_range c). lia.
Qed.

Ltac hello_step :=
  cbv zeta; first
  [ match goal with
    | |- safe_m _ (index_at _ _ ≫= _) =>
        eapply safe_bind; [apply safe_index_at; lia
                          |let b := fresh "b" in intros b _; cbv beta; pose proof (b2z_range b)]
    end
  | safe_step ].

Lemma sniNames_safe fuel data cursor end_ :
  0 ≤ cursor → end_ ≤ Z.of_nat (length data) → end_ - cursor < Z.of_nat fuel → (0 < fuel)%nat →
  safe_m (λ _, True) (sniNames fuel data cursor end_).
Proof.
  revert cursor. induction fuel as [|f IH]; intros cursor Hc He Hf Hpos; [lia|]. cbn [sniNames].
  hello_step; [|hello_step]. do 3 hello_step. hello_step; [hello_step|].
  destruct (Byte.eqb _ _); [do 2 hello_step; done|]. apply IH; lia.
Qed.

Lemma parseSNIExtension_safe data : safe_m (λ _, True) (parseSNIExtension data).
Proof.
  unfold parseSNIExtension. hello_step; [hello_step|]. do 2 hello_step. hello_step; [hello_step|].
  apply sniNames_safe; lia.
Qed.

Lemma helloExtensions_safe fuel data cursor end_ :
  0 ≤ cursor → end_ ≤ Z.of_nat (length data) → end_ - cursor < Z.of_nat fuel → (0 < fuel)%nat →
  safe_m (λ _, True) (helloExtensions fuel data cursor end_).
Proof.
  revert cursor. induction fuel as [|f IH]; intros cursor Hc He Hf Hpos; [lia|].
  cbn [helloExtensions]. hello_step; [|hello_step]. do 4 hello_step. hello_step; [hello_step|].
  hello_step; [hello_step; apply parseSNIExtension_safe|]. apply IH; lia.
Qed.

Lemma parseClientHelloSNI_safe handshake : safe_m (λ _, True) (parseClientHelloSNI handshake).
Proof.
  unfold parseClientHelloSNI. hello_step; [hello_step|]. hello_step. destruct (negb _); [done|].
  do 3 hello_step. hello_step; [hello_step|]. do 2 (hello_step; [hello_step|]). hello_step.
  hello_step; [hello_step|]. do 2 hello_step. hello_step; [hello_step|]. hello_step.
  hello_step; [hello_step|]. do 2 hello_step. hello_step; [hello_step|].
  apply helloExtensions_safe; lia.
Qed.

Lemma hello_read_safe n stream :
  0 ≤ n → safe_m (λ r, stream = r.1 ++ r.2 ∧ Z.of_nat (length r.1) = n) (hello_read n stream).
Proof.
  intros Hn. pose proof (read_full_safe n stream Hn) as H. unfold hello_read.
  destruct (read_full n stream) as [r|[e|]]; done.
Qed.

(** What the record loop returns: everything it read is in the preface. *)
Definition hello_split (stream preface : bytes) (r : bytes * string * bytes) : Prop :=
  preface ++ stream = r.1.1 ++ r.2 ∧ Z.of_nat (length r.1.1) ≤ maxTLSClientHelloBytes.

Lemma readRecords_safe fuel stream preface handshake expected :
  (length stream < fuel)%nat → 0 ≤ expected →
  safe_m (hello_split stream preface) (readRecords fuel stream preface handshake expected).
Proof.
  revert stream preface handshake expected.
  induction fuel as [|f IH]; intros stream preface handshake expected Hf He; [lia|]. cbn [readRecords].
  destruct (negb _); [done|].
  eapply safe_bind; [apply hello_read_safe; lia|]. intros [header s1] [Hs1 Hlen]; simpl in Hs1, Hlen.
  hello_step. destruct (negb _); [done|]. do 2 hello_step. hello_step; [hello_step|].
  eapply safe_bind; [apply hello_read_safe; lia|]. intros [body s2] [Hs2 Hbody]; simpl in Hs2, Hbody.
  cbv zeta. eapply safe_bind with (P := λ e, 0 ≤ e).
  { unfold expectedHandshakeBytes. destruct (_ && _) eqn:E; [|done]. bool_hyps. hello_step. destruct (negb _); [done|].
    do 3 hello_step. hello_step; [hello_step|]. hello_step.
    match goal with |- context [be_uint24 ?x ?y ?z] => pose proof (be_uint24_range x y z) end. lia. }
  intros e2 He2. assert (preface ++ stream = ((preface ++ header) ++ body) ++ s2) as Hsplit.
  { rewrite Hs1, Hs2. by rewrite <-!app_assoc. }
  destruct (_ && _) eqn:E.
  - bool_hyps. hello_step. eapply safe_bind; [apply parseClientHelloSNI_safe|]. intros hostname _.
    hello_step. split; [exact Hsplit|]. cbn [fst]. rewrite !length_app in *. lia.
  - eapply safe_mono; [apply IH; [|done]|].
    + rewrite Hs1, Hs2, !length_app in Hf. lia.
    + intros r [Hr Hr2]. split; [|done]. by rewrite Hsplit.
Qed.

Lemma readTLS_safe stream : safe_m (hello_split stream []) (readTLSClientHelloSNI stream).
Proof. apply readRecords_safe; lia. Qed.

(** ** A reference encoder

    A ClientHello as RFC 8446 lays it out, with a server_name extension
    (RFC 6066): any extensions may stand before it, any bytes after it. *)

Definition put_uint24 (z : Z) : bytes := [z2b (Z.shiftr z 16); z2b (Z.shiftr z 8); z2b z].
Definition vec8 (l : bytes) : bytes := z2b (Z.of_nat (length l)) :: l.
Definition vec16 (l : bytes) : bytes := put_uint16 (Z.of_nat (length l)) ++ l.

Record Hello := {
  hello_head : bytes; (** version and random *)
  hello_session : bytes; hello_ciphers : bytes; hello_compression : bytes;
  hello_before : list (Z * bytes); (** extensions before server_name *)
  hello_names : list (byte * bytes); (** names of other types before the host name *)
  hello_host : bytes; hello_after_name : bytes; hello_after : bytes }.

Definition encode_name (n : byte * bytes) : bytes := n.1 :: vec16 n.2.
Definition encode_extension (e : Z * bytes) : bytes := put_uint16 e.1 ++ vec16 e.2.
Definition encode_names (h : Hello) : bytes :=
  concat (map encode_name (hello_names h)) ++ encode_name (x00, hello_host h) ++ hello_after_name h.
Definition encode_extensions (h : Hello) : bytes :=
  concat (map encode_extension (hello_before h))
  ++ encode_extension (0, vec16 (encode_names h)) ++ hello_after h.
Definition encode_body (h : Hello) : bytes :=
  hello_head h ++ vec8 (hello_session h) ++ vec16 (hello_ciphers h)
  ++ vec8 (hello_compression h) ++ vec16 (encode_extensions h).
Definition encode_hello (h : Hello) : bytes :=
  x01 :: put_uint24 (Z.of_nat (length (encode_body h))) ++ encode_body h.

Definition fits (bits : Z) (l : bytes) : Prop := Z.of_nat (length l) < 2 ^ bits.
Definition wf_hello (h : Hello) : Prop :=
  length (hello_head h) = 34%nat ∧ fits 8 (hello_session h) ∧ fits 16 (hello_ciphers h) ∧
  fits 8 (hello_compression h) ∧ fits 16 (encode_extensions h) ∧
  Forall (λ e, 0 < e.1 < 65536) (hello_before h) ∧ Forall (λ n, n.1 ≠ x00) (hello_names h).

(** TLS handshake records: a version and a body each. *)
Definition encode_record (r : (byte * byte) * bytes) : bytes :=
  x16 :: r.1.1 :: r.1.2 :: vec16 r.2.
Definition records (rs : list ((byte * byte) * bytes)) : bytes := concat (map encode_record rs).

(** ** The parser inverts the encoder *)

Lemma slice_split {E} data p l s lo hi :
  data = p ++ l ++ s → lo = Z.of_nat (length p) → hi = lo + Z.of_nat (length l) →
  slice (E:=E) data lo hi = Ok l.
Proof. intros ->. apply slice_app_mid. Qed.

Lemma index_split {E} (data p : bytes) b s i :
  data = p ++ b :: s → i = Z.of_nat (length p) → index_at (E:=E) data i = Ok b.
Proof. intros ->. apply index_at_app. Qed.

Lemma Uint16_put_uint16 {E} z : 0 ≤ z < 65536 → Uint16 (E:=E) (put_uint16 z) = Ok z.
Proof. intros H. cbn [Uint16 put_uint16]. by rewrite put_uint16_roundtrip. Qed.

Lemma be_uint24_put z : 0 ≤ z < 16777216 →
  be_uint24 (z2b (Z.shiftr z 16)) (z2b (Z.shiftr z 8)) (z2b z) = z.
Proof.
  intros Hz. rewrite be_uint24_eq, !b2z_z2b, !Z.shiftr_div_pow2 by lia.
  change (2 ^ 16) with 65536. change (2 ^ 8) with 256.
  pose proof (Z.div_mod z 256 ltac:(lia)). pose proof (Z.div_mod (z `div` 256) 256 ltac:(lia)).
  rewrite Z.div_div in * by lia. change (256 * 256) with 65536 in *.
  rewrite (Z.mod_small (z `div` 65536)); [lia|].
  split; [apply Z.div_pos; lia|apply Z.div_lt_upper_bound; lia].
Qed.

Lemma length_vec16 l : length (vec16 l) = S (S (length l)).
Proof. done. Qed.
Lemma length_vec8 l : length (vec8 l) = S (length l).
Proof. done. Qed.

Lemma length_put_uint16 z : length (put_uint16 z) = 2%nat.
Proof. done. Qed.

(** Read [l] after [p] and before [s]. *)
Ltac at_pos :=
  repeat first [rewrite length_app | rewrite length_vec16 | rewrite length_vec8
               | rewrite length_put_uint16 | progress cbn [length]]; lia.
Ltac solve_pos Hd := first
  [ at_pos | reflexivity | rewrite <-?app_assoc; reflexivity | rewrite Hd, <-?app_assoc; reflexivity ].
Tactic Notation "read_slice" uconstr(p) uconstr(l) uconstr(s) "from" constr(Hd) :=
  lazymatch goal with
  | |- (slice ?d ?lo ?hi ≫= _) = _ => rewrite (slice_split d p l s lo hi) by (solve_pos Hd)
  end; cbn [mbind result_bind].
Tactic Notation "read_byte" uconstr(p) uconstr(b) uconstr(s) "from" constr(Hd) :=
  lazymatch goal with
  | |- (index_at ?d ?i ≫= _) = _ => rewrite (index_split d p b s i) by (solve_pos Hd)
  end; cbn [mbind result_bind].
Tactic Notation "read_slice" uconstr(p) uconstr(l) uconstr(s) := read_slice p l s from I.
Tactic Notation "read_byte" uconstr(p) uconstr(b) uconstr(s) := read_byte p b s from I.
Ltac in_bounds :=
  lazymatch goal with |- context [Z.ltb ?a ?b] => destruct (Z.ltb_spec a b); [lia|] end.

Lemma sniNames_encoded names p host s end_ fuel :
  Forall (λ n, n.1 ≠ x00 ∧ fits 16 n.2) names → fits 16 host →
  let enc := concat (map encode_name names) ++ encode_name (x00, host) in
  end_ = Z.of_nat (length p) + Z.of_nat (length (enc ++ s)) → (length names < fuel)%nat →
  sniNames fuel (p ++ enc ++ s) (Z.of_nat (length p)) end_ = Ok (string_of host).
Proof.
  intros Hn Hh enc. subst enc. revert p fuel. unfold fits in Hh. set (hl := Z.of_nat (length host)) in *.
  induction Hn as [|[t d] names [Ht Hd] Hn IH];
    intros p fuel Hend Hf; (destruct fuel as [|f]; [lia|]); cbn [sniNames map concat app].
  - cbn [map concat app] in Hend. rewrite length_app in Hend.
    change (encode_name (x00, host)) with (x00 :: vec16 host) in *.
    cbn [length] in Hend. rewrite length_vec16 in Hend.
    destruct (Z.leb_spec (Z.of_nat (length p) + 3) end_); [|lia].
    read_byte p x00 (vec16 host ++ s). read_slice (p ++ [x00]) (put_uint16 hl) (host ++ s).
    rewrite Uint16_put_uint16 by lia. cbn [mbind result_bind]. cbv zeta.
    destruct (Z.ltb_spec end_ (Z.of_nat (length p) + 3 + hl)); [lia|].
    change (Byte.eqb x00 x00) with true. cbv iota.
    read_slice (p ++ x00 :: put_uint16 hl) host s. done.
  - cbn [map concat] in Hend. unfold fits in Hd; cbn [fst snd] in *.
    set (dl := Z.of_nat (length d)) in *. set (enc := concat (map encode_name names)) in *.
    change (encode_name (t, d)) with (t :: vec16 d) in *.
    rewrite <-!app_assoc in Hend. rewrite !(length_app (t :: _)) in Hend. cbn [length] in Hend.
    rewrite length_vec16 in Hend.
    rewrite <-!app_assoc. destruct (Z.leb_spec (Z.of_nat (length p) + 3) end_); [|lia].
    set (s' := enc ++ encode_name (x00, host) ++ s) in *.
    read_byte p t (vec16 d ++ s'). read_slice (p ++ [t]) (put_uint16 dl) (d ++ s').
    rewrite Uint16_put_uint16 by lia. cbn [mbind result_bind]. cbv zeta.
    destruct (Z.ltb_spec end_ (Z.of_nat (length p) + 3 + dl)); [lia|].
    destruct (Byte.eqb t x00) eqn:Et; [by apply byte_eqb_eq in Et|].
    replace (p ++ (t :: vec16 d) ++ s') with ((p ++ t :: vec16 d) ++ s') by (by rewrite <-app_assoc).
    replace (Z.of_nat (length p) + 3 + dl) with (Z.of_nat (length (p ++ t :: vec16 d))) by at_pos.
    unfold s'. rewrite (app_assoc enc). apply IH; [|simpl in Hf; lia].
    rewrite <-(app_assoc enc). fold s'. rewrite Hend. at_pos.
Qed.

(** Sizes: an encoding is at least as long as what it holds. *)
Lemma length_concat_elem {A} (f : A → bytes) l x :
  x ∈ l → (length (f x) ≤ length (concat (map f l)))%nat.
Proof.
  induction 1 as [x l|x y l _ IH]; cbn [map concat]; rewrite length_app; lia.
Qed.

Lemma length_concat_count {A} (f : A → bytes) l :
  (∀ x, 0 < length (f x))%nat → (length l ≤ length (concat (map f l)))%nat.
Proof.
  intros Hf. induction l as [|x l IH]; cbn [map concat length]; [lia|].
  rewrite length_app. pose proof (Hf x). lia.
Qed.

Lemma parseSNIExtension_encoded h :
  fits 16 (encode_names h) → Forall (λ n, n.1 ≠ x00) (hello_names h) →
  parseSNIExtension (vec16 (encode_names h)) = Ok (string_of (hello_host h)).
Proof.
  intros Hl Hn. unfold parseSNIExtension. rewrite length_vec16. unfold fits in Hl.
  set (n := Z.of_nat (length (encode_names h))) in *.
  destruct (Z.ltb_spec (Z.of_nat (S (S (length (encode_names h))))) 2); [lia|].
  read_slice (@nil byte) (put_uint16 n) (encode_names h).
  rewrite Uint16_put_uint16 by lia. cbn [mbind result_bind]. cbv zeta.
  destruct (Z.ltb_spec (Z.of_nat (S (S (length (encode_names h))))) (2 + n)); [lia|].
  change (vec16 (encode_names h)) with (put_uint16 n ++ encode_names h). unfold encode_names in *.
  rewrite app_assoc. change 2 with (Z.of_nat (length (put_uint16 n))).
  assert (∀ x, x ∈ hello_names h → fits 16 x.2) as Hfit.
  { intros x Hx. unfold fits. pose proof (length_concat_elem encode_name _ _ Hx) as Hle.
    unfold n in Hl. rewrite length_app in Hl. change (encode_name x) with (x.1 :: vec16 x.2) in Hle.
    cbn [length] in Hle. rewrite length_vec16 in Hle. lia. }
  apply sniNames_encoded.
  - rewrite Forall_forall in *. auto.
  - unfold fits. unfold n in Hl. rewrite !length_app in Hl. cbn [encode_name fst snd length] in Hl.
    rewrite length_vec16 in Hl. lia.
  - rewrite <-app_assoc. done.
  - pose proof (length_concat_count encode_name (hello_names h) ltac:(intros; simpl; lia)).
    rewrite !length_app. lia.
Qed.

Lemma helloExtensions_encoded exts p data s host fuel :
  Forall (λ e, 0 < e.1 < 65536 ∧ fits 16 e.2) exts → fits 16 data →
  parseSNIExtension data = Ok host →
  let enc := concat (map encode_extension exts) ++ encode_extension (0, data) ++ s in
  (length exts < fuel)%nat →
  helloExtensions fuel (p ++ enc) (Z.of_nat (length p)) (Z.of_nat (length p) + Z.of_nat (length enc))
  = Ok host.
Proof.
  intros He Hd Hhost enc Hf. subst enc. unfold fits in Hd. set (dl := Z.of_nat (length data)) in *.
  assert (∀ e, length (encode_extension e) = (4 + length e.2)%nat) as Hlen by done.
  revert p fuel Hf. induction He as [|[t d] exts [Ht Hde] He IH]; intros p fuel Hf;
    (destruct fuel as [|f]; [lia|]); cbn [helloExtensions map concat app].
  - rewrite length_app, Hlen. cbn [snd].
    destruct (Z.leb_spec (Z.of_nat (length p) + 4)
      (Z.of_nat (length p) + Z.of_nat (4 + length data + length s))); [|lia].
    change (encode_extension (0, data)) with (put_uint16 0 ++ put_uint16 dl ++ data).
    read_slice p (put_uint16 0) (put_uint16 dl ++ data ++ s).
    rewrite Uint16_put_uint16 by lia. cbn [mbind result_bind].
    read_slice (p ++ put_uint16 0) (put_uint16 dl) (data ++ s).
    rewrite Uint16_put_uint16 by lia. cbn [mbind result_bind]. cbv zeta.
    destruct (Z.ltb_spec (Z.of_nat (length p) + Z.of_nat (4 + length data + length s))
      (Z.of_nat (length p) + 4 + dl)); [lia|].
    change (0 =? 0) with true. cbv iota.
    read_slice (p ++ put_uint16 0 ++ put_uint16 dl) data s. done.
  - rewrite <-!app_assoc. set (s' := concat (map encode_extension exts) ++ _) in *.
    rewrite length_app, Hlen. cbn [snd fst] in *. unfold fits in Hde.
    set (el := Z.of_nat (length d)) in *.
    destruct (Z.leb_spec (Z.of_nat (length p) + 4)
      (Z.of_nat (length p) + Z.of_nat (4 + length d + length s'))); [|lia].
    change (encode_extension (t, d)) with (put_uint16 t ++ put_uint16 el ++ d).
    read_slice p (put_uint16 t) (put_uint16 el ++ d ++ s').
    rewrite Uint16_put_uint16 by lia. cbn [mbind result_bind].
    read_slice (p ++ put_uint16 t) (put_uint16 el) (d ++ s').
    rewrite Uint16_put_uint16 by lia. cbn [mbind result_bind]. cbv zeta.
    destruct (Z.ltb_spec (Z.of_nat (length p) + Z.of_nat (4 + length d + length s'))
      (Z.of_nat (length p) + 4 + el)); [lia|].
    destruct (Z.eqb_spec t 0); [lia|].
    specialize (IH (p ++ put_uint16 t ++ put_uint16 el ++ d) f ltac:(simpl in Hf; lia)).
    rewrite <-IH. rewrite <-!app_assoc. f_equal; at_pos.
Qed.

Lemma extensions_found h p :
  fits 16 (encode_extensions h) → Forall (λ e, 0 < e.1 < 65536) (hello_before h) →
  Forall (λ n, n.1 ≠ x00) (hello_names h) →
  helloExtensions (S (length (p ++ encode_extensions h))) (p ++ encode_extensions h)
    (Z.of_nat (length p)) (Z.of_nat (length p) + Z.of_nat (length (encode_extensions h)))
  = Ok (string_of (hello_host h)).
Proof.
  unfold fits. intros He Hb Hn. unfold encode_extensions in *.
  assert (length (encode_extension (0, vec16 (encode_names h))) = (6 + length (encode_names h))%nat) as Hl by done.
  rewrite !length_app, Hl in He.
  apply helloExtensions_encoded.
  - apply Forall_forall. intros e Hin. rewrite Forall_forall in Hb. split; [auto|].
    pose proof (length_concat_elem encode_extension _ _ Hin) as Hle.
    change (encode_extension e) with (put_uint16 e.1 ++ vec16 e.2) in Hle.
    rewrite length_app, length_vec16 in Hle. unfold fits. lia.
  - unfold fits. rewrite length_vec16. lia.
  - apply parseSNIExtension_encoded; [unfold fits; lia|done].
  - pose proof (length_concat_count encode_extension (hello_before h) ltac:(intros; simpl; lia)).
    rewrite !length_app. lia.
Qed.

Lemma parseClientHelloSNI_encoded h :
  wf_hello h → Z.of_nat (length (encode_body h)) < 16777216 →
  parseClientHelloSNI (encode_hello h) = Ok (string_of (hello_host h)).
Proof.
  intros (Hhd & Hs & Hc & Hm & He & Hb & Hn) Hsize. unfold parseClientHelloSNI, encode_hello.
  unfold fits in *. set (L := Z.of_nat (length (encode_body h))) in *.
  set (data := x01 :: put_uint24 L ++ encode_body h).
  assert (Z.of_nat (length data) = 4 + L) as Hdata by (unfold data; cbn [length put_uint24 app]; lia).
  set (exts := encode_extensions h) in *. set (el := Z.of_nat (length exts)) in *.
  set (hd := hello_head h) in *. set (ss := hello_session h) in *. set (cs := hello_ciphers h) in *.
  set (cm := hello_compression h) in *.
  assert (L = 34 + (1 + Z.of_nat (length ss)) + (2 + Z.of_nat (length cs)) + (1 + Z.of_nat (length cm))
              + (2 + el)) as HL.
  { unfold L, encode_body. fold hd ss cs cm exts. rewrite !length_app, !length_vec8, !length_vec16. lia. }
  assert (data = [x01] ++ put_uint24 L ++ hd ++ vec8 ss ++ vec16 cs ++ vec8 cm ++ vec16 exts) as Hd by done.
  clearbody data. rewrite Hdata. destruct (Z.ltb_spec (4 + L) 4); [lia|].
  set (tl := hd ++ _) in Hd. set (z1 := z2b (Z.shiftr L 16)). set (z2 := z2b (Z.shiftr L 8)).
  set (z3 := z2b L). assert (data = x01 :: z1 :: z2 :: z3 :: tl) as Hd' by done.
  read_byte (@nil byte) x01 (z1 :: z2 :: z3 :: tl) from Hd'.
  change (negb (Byte.eqb x01 x01)) with false. cbv iota.
  read_byte [x01] z1 (z2 :: z3 :: tl) from Hd'. read_byte [x01; z1] z2 (z3 :: tl) from Hd'.
  read_byte [x01; z1; z2] z3 tl from Hd'. unfold z1, z2, z3.
  rewrite be_uint24_put by lia. cbv zeta. destruct (Z.ltb_spec (4 + L - 4) L); [lia|].
  destruct (Z.ltb_spec (4 + L) (4 + 2 + 32)); [lia|]. destruct (Z.ltb_spec (4 + L) (4 + (2 + 32) + 1)); [lia|].
  set (p0 := x01 :: put_uint24 L ++ hd).
  assert (length p0 = 38%nat) as Hp0 by (unfold p0; cbn [length put_uint24 app]; lia).
  assert (data = p0 ++ vec8 ss ++ vec16 cs ++ vec8 cm ++ vec16 exts) as Hd0.
  { rewrite Hd'. unfold p0, put_uint24. cbn [app]. unfold tl. done. }
  clearbody p0. clear Hd Hd'.
  read_byte p0 (z2b (Z.of_nat (length ss))) (ss ++ vec16 cs ++ vec8 cm ++ vec16 exts) from Hd0.
  rewrite b2z_z2b, Z.mod_small by lia. in_bounds.
  read_slice (p0 ++ vec8 ss) (put_uint16 (Z.of_nat (length cs))) (cs ++ vec8 cm ++ vec16 exts) from Hd0.
  rewrite Uint16_put_uint16 by lia. cbn [mbind result_bind]. in_bounds.
  read_byte (p0 ++ vec8 ss ++ vec16 cs) (z2b (Z.of_nat (length cm))) (cm ++ vec16 exts) from Hd0.
  rewrite b2z_z2b, Z.mod_small by lia. in_bounds.
  read_slice (p0 ++ vec8 ss ++ vec16 cs ++ vec8 cm) (put_uint16 el) exts from Hd0.
  rewrite Uint16_put_uint16 by lia. cbn [mbind result_bind]. in_bounds.
  set (p1 := p0 ++ vec8 ss ++ vec16 cs ++ vec8 cm ++ put_uint16 el).
  replace data with (p1 ++ exts) by (rewrite Hd0; unfold p1; rewrite <-!app_assoc; done).
  replace (4 + (2 + 32) + 1 + _ + 2 + _ + 1 + _ + 2) with (Z.of_nat (length p1)) by (unfold p1; at_pos).
  by apply extensions_found.
Qed.

(** Any cut of a handshake message into records is put together again. *)
Definition record_ok (r : (byte * byte) * bytes) : Prop := r.2 ≠ [] ∧ fits 16 r.2.

Definition announced (hello handshake : bytes) : Z :=
  if Z.of_nat (length handshake) <? 4 then 0 else Z.of_nat (length hello).

Lemma hello_read_app n (l rest : bytes) :
  Z.of_nat (length l) = n → hello_read n (l ++ rest) = Ok (l, rest).
Proof. intros H. unfold hello_read. by rewrite read_full_app. Qed.

Lemma length_records_cons r rs :
  length (records (r :: rs)) = (5 + length r.2 + length (records rs))%nat.
Proof. unfold records. cbn [map concat]. by rewrite length_app. Qed.

(** One turn of the loop on a well-formed record. *)
Lemma readRecords_step f v0 v1 body rest preface handshake expected :
  record_ok ((v0, v1), body) →
  Z.of_nat (length preface) + 5 + Z.of_nat (length body) ≤ maxTLSClientHelloBytes →
  readRecords (S f) (encode_record ((v0, v1), body) ++ rest) preface handshake expected =
  (e ← expectedHandshakeBytes (handshake ++ body) expected;
   if (0 <? e) && (e <=? Z.of_nat (length (handshake ++ body))) then
     hello ← slice (handshake ++ body) 0 e;
     hostname ← parseClientHelloSNI hello;
     Ok (preface ++ encode_record ((v0, v1), body), hostname, rest)
   else readRecords f rest (preface ++ encode_record ((v0, v1), body)) (handshake ++ body) e).
Proof.
  intros [Hne Hfit] Hlen. unfold fits in Hfit. cbn [fst snd] in *. set (bl := Z.of_nat (length body)) in *.
  assert (0 < bl) as Hpos by (destruct body; [done|unfold bl; simpl; lia]).
  change (encode_record (v0, v1, body)) with ([x16; v0; v1; z2b (Z.shiftr bl 8); z2b bl] ++ body).
  cbn [readRecords]. unfold maxTLSClientHelloBytes in *.
  destruct (Z.ltb_spec (Z.of_nat (length preface)) 8192); [|lia]. cbn [negb].
  rewrite <-app_assoc, hello_read_app by done. cbn [mbind result_bind].
  change (index_at (E:=HelloError) [x16; v0; v1; z2b (Z.shiftr bl 8); z2b bl] 0)
    with (Ok (E:=fault HelloError) x16).
  cbn [mbind result_bind]. change (negb (Byte.eqb x16 x16)) with false. cbv iota.
  change (slice (E:=HelloError) [x16; v0; v1; z2b (Z.shiftr bl 8); z2b bl] 3 5)
    with (Ok (E:=fault HelloError) (put_uint16 bl)).
  cbn [mbind result_bind]. rewrite Uint16_put_uint16 by lia. cbn [mbind result_bind]. cbv zeta.
  rewrite length_app. cbn [length]. destruct (Z.leb_spec bl 0); [lia|]. in_bounds. cbn [orb].
  rewrite hello_read_app by done. cbn [mbind result_bind]. by rewrite <-app_assoc.
Qed.

Lemma encode_hello_length h : length (encode_hello h) = (4 + length (encode_body h))%nat.
Proof. done. Qed.

Lemma hello_nonempty_app (l k hello : bytes) : l ++ k = hello → k ≠ [] → (length l < length hello)%nat.
Proof. intros <- Hk. rewrite length_app. destruct k; [done|]. simpl. lia. Qed.

(** The length the loop reads off the message is the message's own. *)
Lemma announced_length h handshake hs tl :
  hs ++ tl = encode_hello h → (length handshake ≤ length hs)%nat →
  Z.of_nat (length (encode_hello h)) ≤ maxTLSClientHelloBytes →
  expectedHandshakeBytes hs (announced (encode_hello h) handshake) = Ok (announced (encode_hello h) hs).
Proof.
  intros Hhs Hle Hmax. unfold maxTLSClientHelloBytes, expectedHandshakeBytes, announced in *.
  rewrite encode_hello_length in *.
  destruct (Z.leb_spec 4 (Z.of_nat (length hs))) as [H4|H4], (Z.ltb_spec (Z.of_nat (length hs)) 4),
    (Z.ltb_spec (Z.of_nat (length handshake)) 4); try lia; cbn [andb]; try done.
  change (0 =? 0) with true. cbv iota. clear Hle.
  destruct hs as [|b0 [|b1 [|b2 [|b3 hs]]]]; cbn [length] in H4; try lia.
  unfold encode_hello in Hhs. set (L := Z.of_nat (length (encode_body h))) in *.
  unfold put_uint24 in Hhs. cbn [app] in Hhs. injection Hhs as -> -> -> -> _.
  rewrite !index_at_ok by (cbn [length]; lia). cbn [mbind result_bind].
  change (Z.to_nat 0) with 0%nat. change (Z.to_nat 1) with 1%nat. change (Z.to_nat 2) with 2%nat.
  change (Z.to_nat 3) with 3%nat. cbn [nth]. change (negb (Byte.eqb x01 x01)) with false. cbv iota zeta.
  unfold maxTLSClientHelloBytes. rewrite be_uint24_put by lia. in_bounds. f_equal. lia.
Qed.

Lemma readRecords_fragments h rs rest fuel preface handshake :
  wf_hello h → Forall record_ok rs → rs ≠ [] →
  handshake ++ concat (map snd rs) = encode_hello h →
  Z.of_nat (length preface) + Z.of_nat (length (records rs)) ≤ maxTLSClientHelloBytes →
  (length handshake ≤ length preface)%nat → (length rs ≤ fuel)%nat →
  readRecords fuel (records rs ++ rest) preface handshake (announced (encode_hello h) handshake) =
  Ok (preface ++ records rs, string_of (hello_host h), rest).
Proof.
  intros Hwf Hrs Hne. revert fuel preface handshake. unfold maxTLSClientHelloBytes.
  induction Hrs as [|[[v0 v1] body] rs Hr Hrs IH]; [done|]. clear Hne.
  intros fuel preface handshake Hhs Hlen Hpre Hf. destruct fuel as [|f]; [simpl in Hf; lia|].
  rewrite length_records_cons in Hlen. cbn [snd] in Hlen.
  assert (∀ k : list ((byte * byte) * bytes), length (concat (map snd k)) ≤ length (records k))%nat as Hcat.
  { induction k as [|r k IHk]; [done|]. rewrite length_records_cons. cbn [map concat].
    rewrite length_app. lia. }
  assert (Z.of_nat (length (encode_hello h)) ≤ 8192) as Hmax.
  { rewrite <-Hhs. cbn [map concat snd]. rewrite !length_app. pose proof (Hcat rs). lia. }
  change (records ((v0, v1, body) :: rs)) with (encode_record (v0, v1, body) ++ records rs).
  rewrite <-app_assoc, readRecords_step by (done || (unfold maxTLSClientHelloBytes; lia)).
  cbn [map concat snd] in Hhs. rewrite app_assoc in Hhs. set (hs := handshake ++ body) in *.
  rewrite (announced_length h handshake hs _ Hhs) by first [done | unfold hs; rewrite length_app; lia].
  cbn [mbind result_bind]. destruct rs as [|r rs].
  - cbn [map concat] in Hhs. rewrite app_nil_r in Hhs. rewrite Hhs. pose proof (encode_hello_length h).
    assert (announced (encode_hello h) (encode_hello h) = Z.of_nat (length (encode_hello h))) as ->.
    { unfold announced. by replace (Z.of_nat _ <? 4) with false by lia. }
    assert ((0 <? Z.of_nat (length (encode_hello h))) = true) as -> by lia.
    rewrite Z.leb_refl. cbn [andb]. rewrite slice_ok by lia. rewrite Z.sub_0_r, Nat2Z.id. change (Z.to_nat 0) with 0%nat.
    rewrite drop_0, take_ge by lia.
    cbn [mbind result_bind]. rewrite parseClientHelloSNI_encoded by (done || lia).
    cbn [mbind result_bind]. change (records []) with (@nil byte). by rewrite !app_nil_r.
  - assert (length hs < length (encode_hello h))%nat as Hlt.
    { eapply hello_nonempty_app; [exact Hhs|]. cbn [map concat]. inversion Hrs as [|? ? [Hb _]].
      destruct (r.2); done. }
    replace ((0 <? announced (encode_hello h) hs) && _) with false.
    2:{ unfold announced. destruct (Z.ltb_spec (Z.of_nat (length hs)) 4); [done|].
        symmetry. apply andb_false_iff. right. lia. }
    assert (length (encode_record (v0, v1, body)) = (5 + length body)%nat) as Hrl by done.
    rewrite IH; [by rewrite <-app_assoc|done|exact Hhs|rewrite length_app; lia
                |unfold hs; rewrite !length_app; lia|simpl in *; lia].
Qed.

(** ** Properties *)

Section properties.
Context `{UnicodeTables}.

(** Every SNI rule of a listener speaks the version the listener settles on. *)
Lemma sniVersions_some rules v0 v :
  sniVersions rules v0 = Some v →
  (∀ w, v0 = Some w → v = w) ∧
  ∀ r, r ∈ rules → rule_MatchType r = "TLS_SNI" → normalizedProxyProtocol (rule_ProxyProtocolIn r) = v.
Proof.
  revert v0. induction rules as [|r rules IH]; intros v0; cbn [sniVersions].
  - intros ->. split; [by intros w [= ->]|]. by intros r ?%elem_of_nil.
  - destruct (String.eqb_spec (rule_MatchType r) "TLS_SNI") as [Hm|Hm]; cbn [negb].
    + destruct v0 as [w|].
      * destruct (String.eqb_spec (normalizedProxyProtocol (rule_ProxyProtocolIn r)) w) as [Hw|]; [|done].
        intros E. destruct (IH _ E) as [H1 H2]. split; [done|].
        intros r' [->|Hin]%elem_of_cons ?; [|auto]. rewrite Hw. symmetry. by apply H1.
      * intros E. destruct (IH _ E) as [H1 H2]. split; [done|].
        intros r' [->|Hin]%elem_of_cons ?; [|auto]. symmetry. by apply H1.
    + intros E. destruct (IH _ E) as [H1 H2]. split; [done|].
      intros r' [->|Hin]%elem_of_cons ?; [done|auto].
Qed.

Definition match_ok (conn : bytes) (rules : list RuleConfig) (m : SNIMatch) : Prop :=
  match_rule m ∈ rules ∧ rule_MatchType (match_rule m) = "TLS_SNI" ∧
  Z.of_nat (length (match_preface m)) ≤ maxTLSClientHelloBytes ∧
  ∃ header, conn = header ++ match_preface m ++ match_reader m ∧
    (header = [] ↔ match_source m = None) ∧
    (header = [] ↔ normalizedProxyProtocol (rule_ProxyProtocolIn (match_rule m)) = "").

Lemma selectSNIRule_safe conn rules :
  safe_m (λ o, ∀ m, o = Some m → match_ok conn rules m) (selectSNIRule conn rules).
Proof.
  unfold selectSNIRule. destruct (negb (hasSNIRules rules)); [done|].
  destruct (sniInboundProxyProtocol rules) as [version|] eqn:Ev; [|done].
  apply sniVersions_some in Ev as [_ Hv]. cbv zeta.
  eapply safe_bind with (P := λ o, ∀ src reader, o = Some (src, reader) →
    ∃ header, conn = header ++ reader ∧ (header = [] ↔ src = None) ∧ (header = [] ↔ version = "")).
  { destruct (String.eqb_spec version "") as [->|Hne]; cbn [negb].
    - intros src reader [= <- <-]. by exists [].
    - pose proof (consume_safe conn version) as Hc.
      destruct (consumeInboundProxyHeader conn version) as [[info reader]|[e|]]; [|done|done].
      destruct Hc as (_ & header & Hconn & Hh). intros src reader' [= <- <-].
      exists header. naive_solver. }
  intros [[src reader]|] Ha; [|done]. destruct (Ha _ _ eq_refl) as (header & Hconn & Hsrc & Hver).
  pose proof (readTLS_safe reader) as Hr.
  destruct (readTLSClientHelloSNI reader) as [[[preface hostname] rest]|[e|]]; [|done|done].
  destruct Hr as [Hsplit Hlen]; cbn [app fst snd] in *.
  destruct (List.find _ rules) as [rule|] eqn:Ef; [|done]. intros m [= <-].
  apply List.find_some in Ef as [Hin Hf]. apply list_elem_of_In in Hin. bool_hyps.
  split; [done|]. split; [done|]. split; [done|]. exists header.
  cbn [match_preface match_reader match_source match_rule]. rewrite Hconn, Hsplit.
  split; [done|]. split; [done|]. by rewrite (Hv rule).
Qed.

(** C28. Whatever bytes a client sends, choosing the rule by server name neither
    panics nor loops; when it picks a rule, the rule is one of the listener's
    TLS_SNI rules, the preface is at most 8192 bytes, and the PROXY header,
    the preface and the unread stream together are exactly the client's
    bytes, the header being present exactly when the rule asks for one. *)
Theorem selectSNIRule_total conn rules :
  selectSNIRule conn rules ≠ Err Panic ∧
  ∀ m, selectSNIRule conn rules = Ok (Some m) → match_ok conn rules m.
Proof using Type.
  pose proof (selectSNIRule_safe conn rules) as Hs. split; [by eapply safe_not_panic|].
  intros m E. by apply (safe_use _ _ _ Hs E).
Qed.
End properties.

(** C18. The server name of any well-formed ClientHello is found, however the
    message is cut into TLS records, as long as the records fit the 8192 bytes
    allowed: the reader returns the name, keeps every byte it read as the
    preface, and leaves the bytes after the message unread. *)
Theorem readTLSClientHelloSNI_encoded h rs rest :
  wf_hello h → Forall record_ok rs → rs ≠ [] → concat (map snd rs) = encode_hello h →
  Z.of_nat (length (records rs)) ≤ maxTLSClientHelloBytes →
  readTLSClientHelloSNI (records rs ++ rest) = Ok (records rs, string_of (hello_host h), rest).
Proof.
  intros Hwf Hrs Hne Hhs Hlen. unfold readTLSClientHelloSNI.
  apply (readRecords_fragments h rs rest _ [] []); try done.
  assert (length rs ≤ length (records rs))%nat as Hc.
  { clear. induction rs as [|r rs IH]; [done|]. rewrite length_records_cons. cbn [length]. lia. }
  rewrite length_app. lia.
Qed.

Definition example_hello : Hello := {|
  hello_head := repeat x03 34; hello_session := [x01; x02]; hello_ciphers := [x13; x01];
  hello_compression := [x00]; hello_before := [(16, [x00; x03; x02; x68; x32])];
  hello_names := []; hello_host := bytes_of "example.com"; hello_after_name := [];
  hello_after := [x00; x2b; x00; x00] |}.

Lemma readTLSClientHelloSNI_encoded_witness :
  let hello := encode_hello example_hello in
  let rs := [((x03, x01), take 3 hello); ((x03, x01), drop 3 hello)] in
  readTLSClientHelloSNI (records rs ++ [x17; x03]) = Ok (records rs, "example.com", [x17; x03]).
Proof.
  apply (readTLSClientHelloSNI_encoded example_hello).
  - repeat split; try done; repeat constructor; simpl; lia.
  - repeat constructor; done.
  - done.
  - reflexivity.
  - vm_compute. discriminate.
Defined.
