(* ===== verification/TargetSelection.v ===== *)
(** * Choosing a target (pkg/core/forward/target_selection.go)

    The candidates of a rule's upstream, the least-load comparison and the
    hash that pins a client to a candidate.  The functions that also reserve a
    connection are in Metrics.v. *)

From S2P Require Import Prelude GoString GoInt GoNet Agent.
#[local] Open Scope Z_scope.

(** ** Candidates

    [enabledTargetGroupCandidates] and [enabledLeastLoadTargetGroupCandidates]
    are the same loop with different tests of a target. *)

Section candidates.
Context (usable : TargetEndpoint → bool).

(** State of the loop: [Some bestPriority] once it is set, and the candidates. *)
Definition candidateStep (s : option Z * list TargetEndpoint) (bucket : TargetPriorityBucket)
    : option Z * list TargetEndpoint :=
  let enabledTargets := List.filter usable (bucket_Targets bucket) in
  match enabledTargets with
  | [] => s
  | _ =>
      match s.1 with
      | None => (Some (bucket_Priority bucket), enabledTargets)
      | Some bestPriority =>
          if bucket_Priority bucket <? bestPriority
          then (Some (bucket_Priority bucket), enabledTargets) else s
      end
  end.
Definition bestPriorityTargets (buckets : list TargetPriorityBucket) : list TargetEndpoint :=
  (foldl candidateStep (None, []) buckets).2.

Definition usable_bucket (b : TargetPriorityBucket) : bool :=
  match List.filter usable (bucket_Targets b) with [] => false | _ => true end.

(** The chosen bucket: it has a usable target, and it is the first of the
    lowest priority number among the buckets that have one. *)
Definition chosen_bucket (buckets : list TargetPriorityBucket) (b : TargetPriorityBucket) : Prop :=
  ∃ before after, buckets = before ++ b :: after ∧ usable_bucket b = true ∧
    (∀ c, c ∈ before → usable_bucket c = true → bucket_Priority b < bucket_Priority c) ∧
    (∀ c, c ∈ after → usable_bucket c = true → bucket_Priority b ≤ bucket_Priority c).

Lemma candidateStep_spec buckets s :
  foldl candidateStep (None, []) buckets = s →
  match s.1 with
  | None => s.2 = [] ∧ ∀ b, b ∈ buckets → usable_bucket b = false
  | Some p => ∃ b, chosen_bucket buckets b ∧ p = bucket_Priority b ∧
                   s.2 = List.filter usable (bucket_Targets b)
  end.
Proof using Type.
  intros <-. induction buckets as [|b buckets IH] using rev_ind.
  { simpl. split; [done|]. by intros b ?%elem_of_nil. }
  rewrite foldl_app. cbn [foldl].
  destruct (foldl candidateStep (None, []) buckets) as [best cands]. cbn [fst snd] in *.
  unfold candidateStep at 1 2 3. cbn [fst snd].
  assert (usable_bucket b = match List.filter usable (bucket_Targets b) with [] => false | _ => true end) as Hb by done.
  destruct (List.filter usable (bucket_Targets b)) as [|t ts] eqn:Ef; cbn [fst snd].
  - destruct best as [p|].
    + destruct IH as (b0 & (bf & af & Hbk & Hu & H1 & H2) & Hp & Hc). exists b0. split; [|done].
      exists bf, (af ++ [b]). rewrite Hbk, <-app_assoc. split; [done|]. split; [done|]. split; [done|].
      intros c [Hc'| ->%list_elem_of_singleton]%elem_of_app; [auto|congruence].
    + destruct IH as [Hc Hn]. split; [done|].
      intros c [Hc'| ->%list_elem_of_singleton]%elem_of_app; [auto|done].
  - destruct best as [p|].
    + destruct IH as (b0 & (bf & af & Hbk & Hu & H1 & H2) & -> & Hc).
      destruct (Z.ltb_spec (bucket_Priority b) (bucket_Priority b0)); cbn [fst snd].
      * exists b. split; [|by rewrite Ef]. exists buckets, []. split; [done|]. split; [done|].
        split; [|by intros c ?%elem_of_nil]. intros c Hc' Huc. rewrite Hbk in Hc'.
        apply elem_of_app in Hc' as [Hc'|[->|Hc']%elem_of_cons]; [|done|].
        -- pose proof (H1 c Hc' Huc). lia.
        -- pose proof (H2 c Hc' Huc). lia.
      * exists b0. split; [|done]. exists bf, (af ++ [b]). rewrite Hbk, <-app_assoc.
        split; [done|]. split; [done|]. split; [done|].
        intros c [Hc'| ->%list_elem_of_singleton]%elem_of_app; [auto|done].
    + destruct IH as [_ Hn]. exists b. split; [|by rewrite Ef]. exists buckets, [].
      split; [done|]. split; [done|]. split; [|by intros c ?%elem_of_nil].
      intros c Hc Hu. by rewrite (Hn c Hc) in Hu.
Qed.

Lemma bestPriorityTargets_spec buckets :
  (bestPriorityTargets buckets = [] ∧ ∀ b, b ∈ buckets → usable_bucket b = false)
  ∨ ∃ b, chosen_bucket buckets b ∧ bestPriorityTargets buckets = List.filter usable (bucket_Targets b).
Proof using Type.
  unfold bestPriorityTargets. pose proof (candidateStep_spec buckets _ eq_refl) as H.
  destruct (foldl candidateStep (None, []) buckets) as [[p|] cands]; cbn [fst snd] in *; [|by left].
  right. destruct H as (b & Hb & _ & Hc). eauto.
Qed.

Lemma bestPriorityTargets_usable buckets t : t ∈ bestPriorityTargets buckets → usable t = true.
Proof using Type.
  destruct (bestPriorityTargets_spec buckets) as [[-> _]|(b & _ & ->)].
  - by intros ?%elem_of_nil.
  - by intros [_ ?]%elem_of_filterb.
Qed.
End candidates.

Definition enabledTargetGroupCandidates (rule : RuleConfig) : list TargetEndpoint :=
  bestPriorityTargets target_Enabled (up_TargetGroup (rule_Upstream rule)).

Definition enabledLeastLoadTargetGroupCandidates (rule : RuleConfig) : list TargetEndpoint :=
  bestPriorityTargets (λ t, target_Enabled t && (0 <? target_Weight t))
    (up_TargetGroup (rule_Upstream rule)).

(** ** Least load

    The comparison cross-multiplies, to compare connections per weight
    without dividing; [connections] is a target's number of open ones. *)

Section least_load.
Context (connections : TargetEndpoint → Z).

Definition leastLoadStep (best candidate : TargetEndpoint) : TargetEndpoint :=
  if mul64 (connections candidate) (target_Weight best)
     <? mul64 (connections best) (target_Weight candidate)
  then candidate else best.
Definition leastLoad (best : TargetEndpoint) (rest : list TargetEndpoint) : TargetEndpoint :=
  foldl leastLoadStep best rest.

(** [t] carries no more load per weight than [u]. *)
Definition load_le (t u : TargetEndpoint) : Prop :=
  connections t * target_Weight u ≤ connections u * target_Weight t.
Definition load_lt (t u : TargetEndpoint) : Prop :=
  connections t * target_Weight u < connections u * target_Weight t.

(** No product of the comparison overflows. *)
Definition loads_fit (l : list TargetEndpoint) : Prop :=
  ∀ t u, t ∈ l → u ∈ l → 0 < target_Weight t ∧ 0 ≤ connections t ∧
    connections t * target_Weight u < 2 ^ 63.

Lemma leastLoad_spec best rest :
  loads_fit (best :: rest) →
  leastLoad best rest ∈ best :: rest ∧
  ∀ t, t ∈ best :: rest → load_le (leastLoad best rest) t.
Proof using Type.
  revert best. induction rest as [|c rest IH]; intros best Hfit; cbn [leastLoad foldl].
  - split; [by constructor|]. intros t ->%list_elem_of_singleton. unfold load_le. lia.
  - fold (leastLoad (leastLoadStep best c) rest).
    assert (best ∈ best :: c :: rest) as Hb by (by constructor).
    assert (c ∈ best :: c :: rest) as Hc by (by do 2 constructor).
    assert (leastLoadStep best c ∈ [best; c]) as Hs.
    { unfold leastLoadStep. destruct (_ <? _); by repeat constructor. }
    assert (∀ t, t ∈ leastLoadStep best c :: rest → t ∈ best :: c :: rest) as Hsub.
    { intros t [->|Ht]%elem_of_cons; [|by do 2 constructor].
      apply elem_of_cons in Hs as [->| ->%list_elem_of_singleton]; done. }
    destruct (IH (leastLoadStep best c)) as [Hin Hle].
    { intros t u Ht Hu. apply Hfit; auto. }
    split; [by apply Hsub|]. intros t Ht.
    assert (load_le (leastLoad (leastLoadStep best c) rest) (leastLoadStep best c)) as Hle0
      by (apply Hle; by constructor).
    assert (load_le (leastLoadStep best c) best ∧ load_le (leastLoadStep best c) c) as [H1 H2].
    { unfold load_le, leastLoadStep, mul64.
      destruct (Hfit c best Hc Hb) as (? & ? & ?), (Hfit best c Hb Hc) as (? & ? & ?).
      rewrite !wrap64_id by (unfold in64; nia).
      destruct (Z.ltb_spec (connections c * target_Weight best) (connections best * target_Weight c)); lia. }
    pose proof (Hsub _ Hin) as HinL. set (L := leastLoad _ rest) in *.
    set (S := leastLoadStep best c) in *.
    assert (S ∈ best :: c :: rest) as HS by (apply Hsub; by constructor).
    assert (∀ u, u ∈ best :: c :: rest → load_le S u → load_le L u) as Htrans.
    { intros u Hu Hsu. unfold load_le in *. 
      destruct (Hfit L u HinL Hu) as (? & ? & _), (Hfit S u HS Hu) as (? & ? & _), (Hfit u u Hu Hu) as (? & ? & _).
      apply (Zmult_le_reg_r _ _ (target_Weight S)); [lia|]. nia. }
    apply elem_of_cons in Ht as [->|[->|Ht]%elem_of_cons]; [by apply Htrans|by apply Htrans|].
    apply Hle. by constructor.
Qed.
End least_load.

Section selection.
Context `{UnicodeTables}.

Definition isLeastLoad (rule : RuleConfig) : bool :=
  EqualFold (TrimSpace (up_Scheduler (rule_Upstream rule))) "LEAST_LOAD".

Definition activeTargetGroupCandidates (rule : RuleConfig) : list TargetEndpoint :=
  if isLeastLoad rule then enabledLeastLoadTargetGroupCandidates rule
  else enabledTargetGroupCandidates rule.
End selection.

(** ** Source hashing

    A [net.Addr] is its [String()]; [None] is the nil interface. *)

Definition sourceIPKey (address : option string) : string :=
  match address with
  | None => ""
  | Some a => match SplitHostPort a with Some (host, _) => host | None => a end
  end.

Definition stableTargetHash (parts : list string) : Z :=
  foldl (λ h part, fnv32a_write (fnv32a_write h (bytes_of part)) [x00]) fnv32a_offset parts.

Definition hashIndex (rule : RuleConfig) (source : option string) (n : nat) : Z :=
  Z.modulo (stableTargetHash [sourceIPKey source; rule_ID rule; rule_Protocol rule])
    (wrapu32 (Z.of_nat n)).

Lemma stableTargetHash_nonneg parts : 0 ≤ stableTargetHash parts.
Proof.
  unfold stableTargetHash. apply (foldl_ind _ (λ _ h, 0 ≤ h)); [done|].
  intros l x s Hs. assert (∀ k h, 0 ≤ h → 0 ≤ fnv32a_write h k) as Hw.
  { intros k h Hh. unfold fnv32a_write. apply (foldl_ind _ (λ _ h, 0 ≤ h)); [done|].
    intros. unfold wrapu32. apply Z.mod_pos_bound. lia. }
  by apply Hw, Hw.
Qed.

Lemma hashIndex_range rule source n :
  (0 < n)%nat → Z.of_nat n < 2 ^ 32 → 0 ≤ hashIndex rule source n < Z.of_nat n.
Proof.
  intros Hn Hmax. unfold hashIndex, wrapu32. rewrite (Z.mod_small (Z.of_nat n)) by lia.
  apply Z.mod_pos_bound. lia.
Qed.

(** ** Properties *)

(** C37. A target group serves from the best priority that is up: the candidates
    are exactly the usable targets (enabled, and of positive weight under least
    load) of the first bucket with the lowest priority number among the buckets
    that have one, in order; there are none only if no bucket has a usable
    target. *)
Theorem activeTargetGroupCandidates_spec `{UnicodeTables} rule :
  let usable t := target_Enabled t && (negb (isLeastLoad rule) || (0 <? target_Weight t)) in
  let buckets := up_TargetGroup (rule_Upstream rule) in
  (activeTargetGroupCandidates rule = [] ∧ ∀ b t, b ∈ buckets → t ∈ bucket_Targets b → usable t = false)
  ∨ ∃ b, chosen_bucket usable buckets b ∧
         activeTargetGroupCandidates rule = List.filter usable (bucket_Targets b).
Proof.
  intros usable buckets.
  assert (activeTargetGroupCandidates rule = bestPriorityTargets usable buckets) as ->.
  { unfold activeTargetGroupCandidates, usable. destruct (isLeastLoad rule); cbn [negb orb]; [done|].
    unfold enabledTargetGroupCandidates, bestPriorityTargets. fold buckets.
    f_equal. generalize (@None Z, @nil TargetEndpoint).
    induction buckets as [|b buckets IH]; intros s; [done|]. cbn [foldl]. rewrite IH. f_equal.
    unfold candidateStep. rewrite (filter_ext _ (λ t, target_Enabled t && true)); [done|].
    intros. by rewrite andb_true_r. }
  destruct (bestPriorityTargets_spec usable buckets) as [[E Hn]|Hb]; [left|by right].
  split; [done|]. intros b t Hb Ht. specialize (Hn b Hb). unfold usable_bucket in Hn.
  destruct (List.filter usable (bucket_Targets b)) eqn:Ef; [|done].
  destruct (usable t) eqn:Eu; [|done].
  assert (t ∈ List.filter usable (bucket_Targets b)) as Hin by (by apply elem_of_filterb).
  rewrite Ef in Hin. by apply elem_of_nil in Hin.
Qed.
