(* ===== verification/Metrics.v ===== *)
(** * Traffic metrics of the forwarder (pkg/core/forward/metrics.go)

    [metricsCounter] holds the totals of the process, and a counter per rule
    and target: its open connections, its dial and session reservations, and
    the traffic it carried.  Every method runs under the counter's mutex, so a
    method is one atomic step.  A Go map iteration has no fixed order: the
    operations that iterate over [targets] take the order as an argument. *)

From Stdlib Require Import Floats.SpecFloat.
From S2P Require Import Prelude GoString GoInt GoFloat GoSort GoNet Agent Traffic TargetSelection.
#[local] Open Scope Z_scope.

Record Metrics := {
  TCPConnections : Z; TCPConnectionEvents : Z; UDPPackets : Z; UploadBytes : Z; DownloadBytes : Z }.

Abbreviation targetMetricKey := (string * string)%type. (** ruleID, targetID *)

Record targetMetricCounter := {
  tcpConnections : Z; tcpConnectionEvents : Z; tcpDialReservations : Z; udpSessions : Z;
  udpSessionReservations : Z; udpPackets : Z; uploadBytes : Z; downloadBytes : Z; latencyMS : Z }.

Record targetMetricSnapshot := {
  snap_TCPConnections : Z; snap_TCPConnectionEvents : Z; snap_UDPPackets : Z; snap_UploadBytes : Z;
  snap_DownloadBytes : Z; snap_LatencyMS : Z }.

Definition zero_counter : targetMetricCounter := {|
  tcpConnections := 0; tcpConnectionEvents := 0; tcpDialReservations := 0; udpSessions := 0;
  udpSessionReservations := 0; udpPackets := 0; uploadBytes := 0; downloadBytes := 0; latencyMS := 0 |}.
Definition zero_snapshot : targetMetricSnapshot := {|
  snap_TCPConnections := 0; snap_TCPConnectionEvents := 0; snap_UDPPackets := 0; snap_UploadBytes := 0;
  snap_DownloadBytes := 0; snap_LatencyMS := 0 |}.

(** [totals] are the five counters of the process. *)
Record metricsCounter := {
  totals : Metrics; lastSnapshot : Metrics;
  targets : gmap targetMetricKey targetMetricCounter;
  lastTargets : gmap targetMetricKey targetMetricSnapshot;
  pendingDeltas : list RuleTrafficDelta;
  activeTargets : gset targetMetricKey; activeApplied : bool;
  lastSnapshotAt : option Z }.

Definition zero_metrics : Metrics := {|
  TCPConnections := 0; TCPConnectionEvents := 0; UDPPackets := 0; UploadBytes := 0; DownloadBytes := 0 |}.

(** [newMetricsCounter()] at time [now]. *)
Definition newMetricsCounter (now : Z) : metricsCounter := {|
  totals := zero_metrics; lastSnapshot := zero_metrics; targets := ∅; lastTargets := ∅;
  pendingDeltas := []; activeTargets := ∅; activeApplied := false; lastSnapshotAt := Some now |}.

Definition with_totals (t : Metrics) (m : metricsCounter) : metricsCounter := {|
  totals := t; lastSnapshot := lastSnapshot m; targets := targets m; lastTargets := lastTargets m;
  pendingDeltas := pendingDeltas m; activeTargets := activeTargets m;
  activeApplied := activeApplied m; lastSnapshotAt := lastSnapshotAt m |}.
Definition with_targets (ts : gmap targetMetricKey targetMetricCounter)
    (last : gmap targetMetricKey targetMetricSnapshot) (pending : list RuleTrafficDelta)
    (m : metricsCounter) : metricsCounter := {|
  totals := totals m; lastSnapshot := lastSnapshot m; targets := ts; lastTargets := last;
  pendingDeltas := pending; activeTargets := activeTargets m;
  activeApplied := activeApplied m; lastSnapshotAt := lastSnapshotAt m |}.
(** Write a counter through its pointer. *)
Definition set_target (key : targetMetricKey) (c : targetMetricCounter) (m : metricsCounter) : metricsCounter :=
  with_targets (<[key := c]> (targets m)) (lastTargets m) (pendingDeltas m) m.

Definition snapshot_of (c : targetMetricCounter) : targetMetricSnapshot := {|
  snap_TCPConnections := tcpConnections c; snap_TCPConnectionEvents := tcpConnectionEvents c;
  snap_UDPPackets := udpPackets c; snap_UploadBytes := uploadBytes c;
  snap_DownloadBytes := downloadBytes c; snap_LatencyMS := latencyMS c |}.

(** [target.openConnections()]; [None] is the nil receiver. *)
Definition openConnections (target : option targetMetricCounter) : Z :=
  match target with
  | None => 0
  | Some c => add64 (add64 (add64 (tcpConnections c) (tcpDialReservations c)) (udpSessions c))
                    (udpSessionReservations c)
  end.

(** ** Deltas *)

Definition positiveDelta (current last : Z) : Z := if current <=? last then 0 else sub64 current last.

Definition targetTrafficDelta (ruleID : string) (current last : targetMetricSnapshot) : option RuleTrafficDelta :=
  let delta := {|
    delta_RuleID := ruleID;
    delta_UploadBytes := positiveDelta (snap_UploadBytes current) (snap_UploadBytes last);
    delta_DownloadBytes := positiveDelta (snap_DownloadBytes current) (snap_DownloadBytes last);
    delta_TCPConnections := positiveDelta (snap_TCPConnectionEvents current) (snap_TCPConnectionEvents last);
    delta_UDPPackets := positiveDelta (snap_UDPPackets current) (snap_UDPPackets last) |} in
  if delta_is_zero delta then None else Some delta.

(** [metrics.lastTargets[key]]: the zero snapshot when there is none. *)
Definition lastTarget (m : metricsCounter) (key : targetMetricKey) : targetMetricSnapshot :=
  default zero_snapshot (lastTargets m !! key).

Definition option_list {A} (o : option A) : list A := match o with Some a => [a] | None => [] end.

Definition queueFinalInactiveTargetDeltaLocked (key : targetMetricKey) (target : targetMetricCounter)
    (m : metricsCounter) : metricsCounter :=
  with_targets (targets m) (lastTargets m)
    (pendingDeltas m ++ option_list (targetTrafficDelta key.1 (snapshot_of target) (lastTarget m key))) m.

Definition delete_target (key : targetMetricKey) (m : metricsCounter) : metricsCounter :=
  with_targets (delete key (targets m)) (delete key (lastTargets m)) (pendingDeltas m) m.

Definition pruneClosedInactiveTargetLocked (key : targetMetricKey) (target : targetMetricCounter)
    (m : metricsCounter) : metricsCounter :=
  if activeApplied m && negb (bool_decide (key ∈ activeTargets m)) && (openConnections (Some target) <=? 0)
  then delete_target key (queueFinalInactiveTargetDeltaLocked key target m) else m.

(** One turn of the loop of [pruneInactiveTargetsLocked]. *)
Definition pruneTarget (m : metricsCounter) (key : targetMetricKey) : metricsCounter :=
  match targets m !! key with
  | None => m
  | Some target =>
      if bool_decide (key ∈ activeTargets m) then m
      else if openConnections (Some target) <=? 0
      then delete_target key (queueFinalInactiveTargetDeltaLocked key target m)
      else set_target key {|
        tcpConnections := tcpConnections target; tcpConnectionEvents := tcpConnectionEvents target;
        tcpDialReservations := tcpDialReservations target; udpSessions := udpSessions target;
        udpSessionReservations := udpSessionReservations target; udpPackets := udpPackets target;
        uploadBytes := uploadBytes target; downloadBytes := downloadBytes target; latencyMS := 0 |} m
  end.
Definition pruneInactiveTargetsLocked (order : list targetMetricKey) (m : metricsCounter) : metricsCounter :=
  if negb (activeApplied m) then m else foldl pruneTarget m order.

(** ** Active targets *)

Section active.
Context `{UnicodeTables}.

Definition activeKeysOfRule (rule : RuleConfig) : list targetMetricKey :=
  if negb (rule_Enabled rule) || String.eqb (rule_ID rule) "" then []
  else if String.eqb (up_Type (rule_Upstream rule)) "TARGET" then
    match up_Target (rule_Upstream rule) with
    | Some t => if target_Enabled t && negb (String.eqb (target_ID t) "")
                then [(rule_ID rule, target_ID t)] else []
    | None => []
    end
  else if String.eqb (up_Type (rule_Upstream rule)) "TARGET_GROUP" then
    map (λ t, (rule_ID rule, target_ID t))
      (List.filter (λ t, negb (String.eqb (target_ID t) "")) (activeTargetGroupCandidates rule))
  else [].
Definition activeTargetKeys (rules : list RuleConfig) : gset targetMetricKey :=
  list_to_set (concat (map activeKeysOfRule rules)).

Definition setActiveTargets (rules : list RuleConfig) (order : list targetMetricKey)
    (m : metricsCounter) : metricsCounter :=
  pruneInactiveTargetsLocked order {|
    totals := totals m; lastSnapshot := lastSnapshot m; targets := targets m;
    lastTargets := lastTargets m; pendingDeltas := pendingDeltas m;
    activeTargets := activeTargetKeys rules; activeApplied := true;
    lastSnapshotAt := lastSnapshotAt m |}.
End active.

(** ** Counting *)

Definition addTCPConnection (delta : Z) (m : metricsCounter) : metricsCounter :=
  let t := totals m in
  with_totals {|
    TCPConnections := add64 (TCPConnections t) delta;
    TCPConnectionEvents := if 0 <? delta then add64 (TCPConnectionEvents t) delta else TCPConnectionEvents t;
    UDPPackets := UDPPackets t; UploadBytes := UploadBytes t; DownloadBytes := DownloadBytes t |} m.
Definition addUDP (delta : Z) (m : metricsCounter) : metricsCounter :=
  let t := totals m in
  with_totals {| TCPConnections := TCPConnections t; TCPConnectionEvents := TCPConnectionEvents t;
    UDPPackets := add64 (UDPPackets t) delta; UploadBytes := UploadBytes t; DownloadBytes := DownloadBytes t |} m.
Definition addUpload (delta : Z) (m : metricsCounter) : metricsCounter :=
  let t := totals m in
  with_totals {| TCPConnections := TCPConnections t; TCPConnectionEvents := TCPConnectionEvents t;
    UDPPackets := UDPPackets t; UploadBytes := add64 (UploadBytes t) delta; DownloadBytes := DownloadBytes t |} m.
Definition addDownload (delta : Z) (m : metricsCounter) : metricsCounter :=
  let t := totals m in
  with_totals {| TCPConnections := TCPConnections t; TCPConnectionEvents := TCPConnectionEvents t;
    UDPPackets := UDPPackets t; UploadBytes := UploadBytes t; DownloadBytes := add64 (DownloadBytes t) delta |} m.

(** May a counter be created for the key? *)
Definition creatable (m : metricsCounter) (key : targetMetricKey) : bool :=
  negb (activeApplied m && negb (bool_decide (key ∈ activeTargets m))).

(** [targetLocked]: the counter to write, the zero one if it is created. *)
Definition targetLocked (m : metricsCounter) (key : targetMetricKey) : option targetMetricCounter :=
  match targets m !! key with
  | Some target => Some target
  | None => if creatable m key then Some zero_counter else None
  end.

(** Replace the connection gauges of a counter, its session gauges, its traffic. *)
Definition set_tcp (c : targetMetricCounter) (conns events dials : Z) : targetMetricCounter := {|
  tcpConnections := conns; tcpConnectionEvents := events; tcpDialReservations := dials;
  udpSessions := udpSessions c; udpSessionReservations := udpSessionReservations c;
  udpPackets := udpPackets c; uploadBytes := uploadBytes c; downloadBytes := downloadBytes c;
  latencyMS := latencyMS c |}.
Definition set_udp (c : targetMetricCounter) (sessions reservations : Z) : targetMetricCounter := {|
  tcpConnections := tcpConnections c; tcpConnectionEvents := tcpConnectionEvents c;
  tcpDialReservations := tcpDialReservations c; udpSessions := sessions;
  udpSessionReservations := reservations; udpPackets := udpPackets c; uploadBytes := uploadBytes c;
  downloadBytes := downloadBytes c; latencyMS := latencyMS c |}.
Definition set_traffic (c : targetMetricCounter) (packets upload download latency : Z) : targetMetricCounter := {|
  tcpConnections := tcpConnections c; tcpConnectionEvents := tcpConnectionEvents c;
  tcpDialReservations := tcpDialReservations c; udpSessions := udpSessions c;
  udpSessionReservations := udpSessionReservations c; udpPackets := packets; uploadBytes := upload;
  downloadBytes := download; latencyMS := latency |}.

Definition floor0 (z : Z) : Z := if z <? 0 then 0 else z.

Definition addTargetTCPConnection (ruleID targetID : string) (delta : Z) (m : metricsCounter) : metricsCounter :=
  let key := (ruleID, targetID) in
  let update target :=
    let target := set_tcp target (floor0 (add64 (tcpConnections target) delta))
      (if 0 <? delta then add64 (tcpConnectionEvents target) delta else tcpConnectionEvents target)
      (tcpDialReservations target) in
    pruneClosedInactiveTargetLocked key target (set_target key target m) in
  match targets m !! key with
  | Some target => update target
  | None => if (delta <? 0) || negb (creatable m key) then m else update zero_counter
  end.

Definition reserveTargetTCPDial (ruleID targetID : string) (m : metricsCounter) : metricsCounter * bool :=
  match targetLocked m (ruleID, targetID) with
  | None => (m, false)
  | Some target =>
      (set_target (ruleID, targetID) (set_tcp target (tcpConnections target) (tcpConnectionEvents target)
        (add64 (tcpDialReservations target) 1)) m, true)
  end.

Definition targetOpenConnectionsLocked (m : metricsCounter) (ruleID targetID : string) : Z :=
  openConnections (targets m !! (ruleID, targetID)).

(** The result is the target, whether it was reserved, and whether there is one. *)
Definition reserveLeastLoadTargetTCPDial (ruleID : string) (ts : list TargetEndpoint) (m : metricsCounter)
    : metricsCounter * option (TargetEndpoint * bool) :=
  match ts with
  | [] => (m, None)
  | t0 :: rest =>
      let best := leastLoad (λ t, targetOpenConnectionsLocked m ruleID (target_ID t)) t0 rest in
      match targetLocked m (ruleID, target_ID best) with
      | None => (m, Some (best, false))
      | Some target =>
          (set_target (ruleID, target_ID best) (set_tcp target (tcpConnections target)
             (tcpConnectionEvents target) (add64 (tcpDialReservations target) 1)) m, Some (best, true))
      end
  end.

Definition reserveLeastLoadTargetUDPSession (ruleID : string) (ts : list TargetEndpoint) (m : metricsCounter)
    : metricsCounter * option (TargetEndpoint * bool) :=
  match ts with
  | [] => (m, None)
  | t0 :: rest =>
      let best := leastLoad (λ t, targetOpenConnectionsLocked m ruleID (target_ID t)) t0 rest in
      match targetLocked m (ruleID, target_ID best) with
      | None => (m, Some (best, false))
      | Some target =>
          (set_target (ruleID, target_ID best) (set_udp target (udpSessions target)
             (add64 (udpSessionReservations target) 1)) m, Some (best, true))
      end
  end.

Definition releaseTargetTCPDial (ruleID targetID : string) (m : metricsCounter) : metricsCounter :=
  let key := (ruleID, targetID) in
  match targets m !! key with
  | None => m
  | Some target =>
      let target := set_tcp target (tcpConnections target) (tcpConnectionEvents target)
        (floor0 (sub64 (tcpDialReservations target) 1)) in
      pruneClosedInactiveTargetLocked key target (set_target key target m)
  end.

Definition promoteTargetTCPDial (ruleID targetID : string) (m : metricsCounter) : metricsCounter :=
  let key := (ruleID, targetID) in
  let target := default zero_counter (targets m !! key) in
  set_target key (set_tcp target (add64 (tcpConnections target) 1) (add64 (tcpConnectionEvents target) 1)
    (if 0 <? tcpDialReservations target then sub64 (tcpDialReservations target) 1
     else tcpDialReservations target)) m.

Definition releaseTargetUDPSessionReservation (ruleID targetID : string) (m : metricsCounter) : metricsCounter :=
  let key := (ruleID, targetID) in
  match targets m !! key with
  | None => m
  | Some target =>
      let target := set_udp target (udpSessions target)
        (floor0 (sub64 (udpSessionReservations target) 1)) in
      pruneClosedInactiveTargetLocked key target (set_target key target m)
  end.

Definition promoteTargetUDPSessionReservation (ruleID targetID : string) (m : metricsCounter) : metricsCounter :=
  let key := (ruleID, targetID) in
  let target := default zero_counter (targets m !! key) in
  set_target key (set_udp target (add64 (udpSessions target) 1)
    (if 0 <? udpSessionReservations target then sub64 (udpSessionReservations target) 1
     else udpSessionReservations target)) m.

Definition addTargetUDPSession (ruleID targetID : string) (delta : Z) (m : metricsCounter) : metricsCounter :=
  let key := (ruleID, targetID) in
  let update target :=
    let target := set_udp target (floor0 (add64 (udpSessions target) delta)) (udpSessionReservations target) in
    pruneClosedInactiveTargetLocked key target (set_target key target m) in
  match targets m !! key with
  | Some target => update target
  | None => if (delta <? 0) || negb (creatable m key) then m else update zero_counter
  end.

Definition addTargetUDP (ruleID targetID : string) (delta : Z) (m : metricsCounter) : metricsCounter :=
  match targetLocked m (ruleID, targetID) with
  | Some c => set_target (ruleID, targetID) (set_traffic c (add64 (udpPackets c) delta) (uploadBytes c)
                (downloadBytes c) (latencyMS c)) m
  | None => m
  end.
Definition addTargetUpload (ruleID targetID : string) (delta : Z) (m : metricsCounter) : metricsCounter :=
  match targetLocked m (ruleID, targetID) with
  | Some c => set_target (ruleID, targetID) (set_traffic c (udpPackets c) (add64 (uploadBytes c) delta)
                (downloadBytes c) (latencyMS c)) m
  | None => m
  end.
Definition addTargetDownload (ruleID targetID : string) (delta : Z) (m : metricsCounter) : metricsCounter :=
  match targetLocked m (ruleID, targetID) with
  | Some c => set_target (ruleID, targetID) (set_traffic c (udpPackets c) (uploadBytes c)
                (add64 (downloadBytes c) delta) (latencyMS c)) m
  | None => m
  end.
Definition recordTargetLatency (ruleID targetID : string) (latency : Z) (m : metricsCounter) : metricsCounter :=
  let latencyMS := Milliseconds latency in
  let latencyMS := if (0 <? latency) && (latencyMS =? 0) then 1 else latencyMS in
  match targetLocked m (ruleID, targetID) with
  | Some c => set_target (ruleID, targetID) (set_traffic c (udpPackets c) (uploadBytes c)
                (downloadBytes c) latencyMS) m
  | None => m
  end.

(** [openConnectionsForTargets]: a later target overwrites an earlier one of
    the same ID with the same value. *)
Definition openConnectionsForTargets (m : metricsCounter) (ruleID : string) (ts : list TargetEndpoint)
    : gmap string Z :=
  foldl (λ counts t, if String.eqb (target_ID t) "" then counts
                     else <[target_ID t := openConnections (targets m !! (ruleID, target_ID t))]> counts) ∅ ts.

(** ** Reports *)

Record TargetMetricsPayload := {
  tp_RuleID : string; tp_TargetID : string; tp_TCPConnections : Z; tp_UDPPacketsPerSecond : Z;
  tp_BandwidthBps : Z; tp_UploadBytes : Z; tp_DownloadBytes : Z; tp_LatencyMS : Z }.

(** The fields of [agent.MetricsPayload] that the forwarder fills in. *)
Record MetricsPayload := {
  mp_TCPConnections : Z; mp_UDPPacketsPerSecond : Z; mp_BandwidthBps : Z; mp_UploadBytes : Z;
  mp_DownloadBytes : Z; mp_Targets : list TargetMetricsPayload;
  mp_TrafficDeltas : list RuleTrafficDelta }.

Definition copyReportableTargetSnapshotsLocked (m : metricsCounter) : gmap targetMetricKey targetMetricSnapshot :=
  snapshot_of <$> filter (λ '(key, target),
    (activeApplied m && negb (bool_decide (key ∈ activeTargets m))
     && (openConnections (Some target) <=? 0)) = false) (targets m).

Definition keyLess : targetMetricKey → targetMetricKey → bool :=
  lex_less fst String.eqb String.ltb (λ x y, String.ltb x.2 y.2).

(** [int64(float64(amount) / elapsed)] and [int64(float64(amount) * 8 / elapsed)]. *)
Definition rate (amount : Z) (elapsed : spec_float) : Z :=
  int64_of_f64 (f64_div (f64_of_Z amount) elapsed).
Definition bit_rate (amount : Z) (elapsed : spec_float) : Z :=
  int64_of_f64 (f64_div (f64_mul (f64_of_Z amount) (f64_of_Z 8)) elapsed).

(** The seconds since the last report, when there are any. *)
Definition elapsedSince (last : option Z) (now : Z) : option spec_float :=
  match last with
  | None => None
  | Some t => let elapsed := Seconds (time_sub now t) in
              if f64_lt (S754_zero false) elapsed then Some elapsed else None
  end.

Definition targetPayload (elapsed : option spec_float) (key : targetMetricKey)
    (target last : targetMetricSnapshot) : TargetMetricsPayload := {|
  tp_RuleID := key.1; tp_TargetID := key.2; tp_TCPConnections := snap_TCPConnections target;
  tp_UDPPacketsPerSecond := match elapsed with
    | Some e => rate (sub64 (snap_UDPPackets target) (snap_UDPPackets last)) e | None => 0 end;
  tp_BandwidthBps := match elapsed with
    | Some e => bit_rate (sub64 (sub64 (add64 (snap_UploadBytes target) (snap_DownloadBytes target))
                  (snap_UploadBytes last)) (snap_DownloadBytes last)) e
    | None => 0 end;
  tp_UploadBytes := snap_UploadBytes target; tp_DownloadBytes := snap_DownloadBytes target;
  tp_LatencyMS := snap_LatencyMS target |}.

(** The deltas of one report, for the keys in order. *)
Definition reportDeltas (m : metricsCounter) (current : gmap targetMetricKey targetMetricSnapshot)
    (keys : list targetMetricKey) : list RuleTrafficDelta :=
  concat (map (λ key, option_list (targetTrafficDelta key.1 (default zero_snapshot (current !! key))
                                     (lastTarget m key))) keys).

(** [agentPayload] at time [now]; [order] is the order of the map iteration in
    [pruneInactiveTargetsLocked]. *)
Definition agentPayload (order : list targetMetricKey) (now : Z) (m : metricsCounter)
    : metricsCounter * MetricsPayload :=
  let m := pruneInactiveTargetsLocked order m in
  let current := totals m in
  let last := lastSnapshot m in
  let currentTargets := copyReportableTargetSnapshotsLocked m in
  let keys := sort_stable keyLess (map fst (map_to_list currentTargets)) in
  let elapsed := elapsedSince (lastSnapshotAt m) now in
  let deltas := match elapsed with Some _ => reportDeltas m currentTargets keys | None => [] end in
  let payload := {|
    mp_TCPConnections := TCPConnections current;
    mp_UDPPacketsPerSecond := match elapsed with
      | Some e => rate (sub64 (UDPPackets current) (UDPPackets last)) e | None => 0 end;
    mp_BandwidthBps := match elapsed with
      | Some e => bit_rate (sub64 (sub64 (add64 (UploadBytes current) (DownloadBytes current))
                    (UploadBytes last)) (DownloadBytes last)) e
      | None => 0 end;
    mp_UploadBytes := UploadBytes current; mp_DownloadBytes := DownloadBytes current;
    mp_Targets := map (λ key, targetPayload elapsed key (default zero_snapshot (currentTargets !! key))
                                (lastTarget m key)) keys;
    mp_TrafficDeltas := match pendingDeltas m with
      | [] => deltas
      | pending => mergePayloadTrafficDeltas (pending ++ deltas) end |} in
  ({| totals := totals m; lastSnapshot := current; targets := targets m; lastTargets := currentTargets;
      pendingDeltas := []; activeTargets := activeTargets m; activeApplied := activeApplied m;
      lastSnapshotAt := Some now |}, payload).

(** ** Histories

    The methods that change the counter, as steps. *)

Inductive metricsOp :=
| OpTCPConnection (delta : Z)
| OpUDP (delta : Z)
| OpUpload (delta : Z)
| OpDownload (delta : Z)
| OpSetActive (rules : list RuleConfig) (order : list targetMetricKey)
| OpTargetTCP (ruleID targetID : string) (delta : Z)
| OpReserveTCP (ruleID targetID : string)
| OpReserveLeastTCP (ruleID : string) (ts : list TargetEndpoint)
| OpReserveLeastUDP (ruleID : string) (ts : list TargetEndpoint)
| OpReleaseTCP (ruleID targetID : string)
| OpPromoteTCP (ruleID targetID : string)
| OpReleaseUDP (ruleID targetID : string)
| OpPromoteUDP (ruleID targetID : string)
| OpTargetUDPSession (ruleID targetID : string) (delta : Z)
| OpTargetUDP (ruleID targetID : string) (delta : Z)
| OpTargetUpload (ruleID targetID : string) (delta : Z)
| OpTargetDownload (ruleID targetID : string) (delta : Z)
| OpLatency (ruleID targetID : string) (latency : Z)
| OpPayload (order : list targetMetricKey) (now : Z).

Section history.
Context `{UnicodeTables}.

(** A step and the traffic deltas it reports. *)
Definition metricsStep (op : metricsOp) (m : metricsCounter) : metricsCounter * list RuleTrafficDelta :=
  match op with
  | OpTCPConnection d => (addTCPConnection d m, [])
  | OpUDP d => (addUDP d m, [])
  | OpUpload d => (addUpload d m, [])
  | OpDownload d => (addDownload d m, [])
  | OpSetActive rules order => (setActiveTargets rules order m, [])
  | OpTargetTCP r t d => (addTargetTCPConnection r t d m, [])
  | OpReserveTCP r t => ((reserveTargetTCPDial r t m).1, [])
  | OpReserveLeastTCP r ts => ((reserveLeastLoadTargetTCPDial r ts m).1, [])
  | OpReserveLeastUDP r ts => ((reserveLeastLoadTargetUDPSession r ts m).1, [])
  | OpReleaseTCP r t => (releaseTargetTCPDial r t m, [])
  | OpPromoteTCP r t => (promoteTargetTCPDial r t m, [])
  | OpReleaseUDP r t => (releaseTargetUDPSessionReservation r t m, [])
  | OpPromoteUDP r t => (promoteTargetUDPSessionReservation r t m, [])
  | OpTargetUDPSession r t d => (addTargetUDPSession r t d m, [])
  | OpTargetUDP r t d => (addTargetUDP r t d m, [])
  | OpTargetUpload r t d => (addTargetUpload r t d m, [])
  | OpTargetDownload r t d => (addTargetDownload r t d m, [])
  | OpLatency r t d => (recordTargetLatency r t d m, [])
  | OpPayload order now => let '(m', p) := agentPayload order now m in (m', mp_TrafficDeltas p)
  end.

Fixpoint metricsRun (ops : list metricsOp) (m : metricsCounter) : metricsCounter * list RuleTrafficDelta :=
  match ops with
  | [] => (m, [])
  | op :: ops => let '(m1, d1) := metricsStep op m in
                 let '(m2, d2) := metricsRun ops m1 in (m2, d1 ++ d2)
  end.

(** The traffic a step records for a rule: what is counted for a target that
    has a counter or may have one. *)
Definition admits (m : metricsCounter) (key : targetMetricKey) : bool :=
  match targets m !! key with Some _ => true | None => creatable m key end.
Definition recorded (f : traffic_field) (R : string) (op : metricsOp) (m : metricsCounter) : Z :=
  let count g r t d :=
    if bool_decide (f = g) && String.eqb r R && admits m (r, t) then d else 0 in
  match op with
  | OpTargetTCP r t d => count FConnections r t (Z.max d 0)
  | OpPromoteTCP r t => if bool_decide (f = FConnections) && String.eqb r R then 1 else 0
  | OpTargetUDP r t d => count FPackets r t d
  | OpTargetUpload r t d => count FUpload r t d
  | OpTargetDownload r t d => count FDownload r t d
  | _ => 0
  end.
Fixpoint recordedTotal (f : traffic_field) (R : string) (ops : list metricsOp) (m : metricsCounter) : Z :=
  match ops with
  | [] => 0
  | op :: ops => recorded f R op m + recordedTotal f R ops (metricsStep op m).1
  end.

(** A step's weight, to bound the counters: at least one, and its amount. *)
Definition opWeight (op : metricsOp) : Z :=
  match op with
  | OpTargetTCP _ _ d | OpTargetUDPSession _ _ d | OpTargetUDP _ _ d | OpTargetUpload _ _ d
  | OpTargetDownload _ _ d => 1 + Z.abs d
  | _ => 1
  end.
Definition opsWeight (ops : list metricsOp) : Z := Zsum (map opWeight ops).

(** What the callers guarantee of a step: amounts are counts, the iteration
    visits every key once, and time moves between reports. *)
Definition opOk (op : metricsOp) (m : metricsCounter) : Prop :=
  match op with
  | OpSetActive _ order => order ≡ₚ map fst (map_to_list (targets m))
  | OpTargetUDP _ _ d | OpTargetUpload _ _ d | OpTargetDownload _ _ d => 0 ≤ d
  | OpPayload order now => order ≡ₚ map fst (map_to_list (targets m)) ∧
                           is_Some (elapsedSince (lastSnapshotAt m) now)
  | _ => True
  end.
Fixpoint opsOk (ops : list metricsOp) (m : metricsCounter) : Prop :=
  match ops with [] => True | op :: ops => opOk op m ∧ opsOk ops (metricsStep op m).1 end.
End history.

(** ** Books

    For each rule and each of the four counters: what is queued, plus what the
    live counters gained since the last report. *)

Definition cfield (f : traffic_field) (c : targetMetricCounter) : Z :=
  match f with
  | FUpload => uploadBytes c | FDownload => downloadBytes c
  | FConnections => tcpConnectionEvents c | FPackets => udpPackets c
  end.
Definition sfield (f : traffic_field) (s : targetMetricSnapshot) : Z :=
  match f with
  | FUpload => snap_UploadBytes s | FDownload => snap_DownloadBytes s
  | FConnections => snap_TCPConnectionEvents s | FPackets => snap_UDPPackets s
  end.
Definition gauges (c : targetMetricCounter) : list Z :=
  [tcpConnections c; tcpDialReservations c; udpSessions c; udpSessionReservations c].

Definition unreported (f : traffic_field) (R : string) (m : metricsCounter)
    (key : targetMetricKey) (c : targetMetricCounter) : Z :=
  if String.eqb key.1 R then cfield f c - sfield f (lastTarget m key) else 0.
Definition book (f : traffic_field) (R : string) (m : metricsCounter) : Z :=
  rule_total f R (pendingDeltas m) + msum (unreported f R m) (targets m).

(** The invariant: [B] bounds the weight of the steps so far, and no counter is
    kept for a target that is inactive and has nothing open, except at the keys
    [X] (where a method is still at work). *)
Record counterOk (B : Z) (c : targetMetricCounter) : Prop := {
  ok_field f : 0 ≤ cfield f c ≤ B;
  ok_gauge : Forall (λ g, 0 ≤ g ≤ B) (gauges c) }.
Record metricsInv (X : targetMetricKey → Prop) (B : Z) (m : metricsCounter) : Prop := {
  inv_counter k c : targets m !! k = Some c → counterOk B c;
  inv_last k s f : lastTargets m !! k = Some s →
    ∃ c, targets m !! k = Some c ∧ 0 ≤ sfield f s ≤ cfield f c;
  inv_book f R : 0 ≤ rule_total f R (pendingDeltas m) ∧ book f R m ≤ B;
  inv_stale k c : targets m !! k = Some c → activeApplied m = true → k ∉ activeTargets m →
    ¬ X k → 0 < openConnections (Some c) }.
Definition nokey : targetMetricKey → Prop := λ _, False.

Definition small (B : Z) : Prop := 0 ≤ B < 2 ^ 61.

Lemma zero_counter_ok B : 0 ≤ B → counterOk B zero_counter.
Proof. intros. constructor; [intros []; simpl; lia|]. repeat constructor; simpl; lia. Qed.

Lemma counterOk_mono B B' c : B ≤ B' → counterOk B c → counterOk B' c.
Proof.
  intros HB [Hf Hg]. constructor; [intros f; specialize (Hf f); lia|].
  eapply Forall_impl; [exact Hg|]. simpl. lia.
Qed.

Lemma openConnections_sum B c :
  small B → counterOk B c →
  openConnections (Some c) = tcpConnections c + tcpDialReservations c + udpSessions c + udpSessionReservations c
  ∧ 0 ≤ tcpConnections c ≤ B ∧ 0 ≤ tcpDialReservations c ≤ B ∧ 0 ≤ udpSessions c ≤ B
  ∧ 0 ≤ udpSessionReservations c ≤ B.
Proof.
  unfold small. intros HB [_ Hg]. unfold gauges in Hg. rewrite !Forall_cons in Hg.
  destruct Hg as (H1 & H2 & H3 & H4 & _). split; [|done]. unfold openConnections, add64.
  rewrite (wrap64_id (tcpConnections c + _)) by (unfold in64; lia).
  rewrite (wrap64_id (tcpConnections c + _ + _)) by (unfold in64; lia).
  apply wrap64_id. unfold in64. lia.
Qed.

Lemma positiveDelta_eq c s : 0 ≤ s ≤ c → c < 2 ^ 63 → positiveDelta c s = c - s.
Proof.
  intros Hs Hc. unfold positiveDelta, sub64. destruct (Z.leb_spec c s); [lia|].
  rewrite wrap64_id; [done|]. unfold in64. lia.
Qed.

(** A target's delta is exactly what is unreported. *)
Lemma targetTrafficDelta_total f R r c s :
  (∀ f, 0 ≤ sfield f s ≤ sfield f c) → (∀ f, sfield f c < 2 ^ 63) →
  rule_total f R (option_list (targetTrafficDelta r c s)) =
  (if String.eqb r R then sfield f c - sfield f s else 0).
Proof.
  intros Hs Hc. unfold targetTrafficDelta.
  pose proof (λ f, positiveDelta_eq (sfield f c) (sfield f s) (Hs f) (Hc f)) as Hd.
  pose proof (Hd FUpload) as H1. pose proof (Hd FDownload) as H2. pose proof (Hd FConnections) as H3.
  pose proof (Hd FPackets) as H4. cbn [sfield] in H1, H2, H3, H4.
  rewrite H1, H2, H3, H4. clear H1 H2 H3 H4 Hd.
  destruct (delta_is_zero _) eqn:E; cbn [option_list].
  - unfold delta_is_zero in E.
    cbn [delta_UploadBytes delta_DownloadBytes delta_TCPConnections delta_UDPPackets] in E. bool_hyps.
    unfold rule_total, Zsum; simpl. destruct (String.eqb r R), f; cbn [sfield]; lia.
  - unfold rule_total, rule_amount, Zsum; simpl. destruct (String.eqb r R), f; cbn [delta_field sfield]; simpl; lia.
Qed.

Lemma cfield_snapshot f c : sfield f (snapshot_of c) = cfield f c.
Proof. by destruct f. Qed.

Lemma lastTarget_zero m k f : lastTargets m !! k = None → sfield f (lastTarget m k) = 0.
Proof. intros E. unfold lastTarget. rewrite E. by destruct f. Qed.

Lemma inv_last_le X B m k c f :
  metricsInv X B m → targets m !! k = Some c → 0 ≤ sfield f (lastTarget m k) ≤ cfield f c.
Proof.
  intros Hm Hk. destruct (lastTargets m !! k) as [s|] eqn:E.
  - unfold lastTarget. rewrite E. simpl. destruct (inv_last _ _ _ Hm k s f E) as (c' & Hc' & ?).
    rewrite Hk in Hc'. by simplify_eq.
  - rewrite lastTarget_zero by done. pose proof (ok_field _ _ (inv_counter _ _ _ Hm k c Hk) f). lia.
Qed.

Lemma inv_last_none X B m k : metricsInv X B m → targets m !! k = None → lastTargets m !! k = None.
Proof.
  intros Hm Hk. destruct (lastTargets m !! k) as [s|] eqn:E; [|done].
  destruct (inv_last _ _ _ Hm k s FUpload E) as (c & Hc & _). congruence.
Qed.

(** Writing a counter changes the books by what its fields gain. *)
Definition counter_at (m : metricsCounter) (k : targetMetricKey) : targetMetricCounter :=
  default zero_counter (targets m !! k).

Lemma book_set X B m k c f R :
  metricsInv X B m →
  book f R (set_target k c m) =
  book f R m + (if String.eqb k.1 R then cfield f c - cfield f (counter_at m k) else 0).
Proof.
  intros Hm. unfold book, set_target, with_targets; cbn [pendingDeltas targets].
  rewrite msum_overwrite, (msum_lookup (unreported f R m) (targets m) k).
  rewrite (msum_ext _ (unreported f R m) (delete k (targets m))) by done.
  unfold counter_at, unreported at 1 3. cbn [lastTargets].
  change (lastTarget _ k) with (lastTarget m k) at 1.
  destruct (targets m !! k) as [c0|] eqn:E; cbn [from_option id].
  - destruct (String.eqb k.1 R); lia.
  - rewrite (lastTarget_zero m k f) by (by eapply inv_last_none).
    replace (cfield f zero_counter) with 0 by (by destruct f). destruct (String.eqb k.1 R); lia.
Qed.

Definition gained (f : traffic_field) (R : string) (k : targetMetricKey) (c0 c : targetMetricCounter) : Z :=
  if String.eqb k.1 R then cfield f c - cfield f c0 else 0.

Lemma set_inv X B w m k c :
  metricsInv X B m → 0 ≤ w → counterOk (B + w) c →
  (∀ f, cfield f (counter_at m k) ≤ cfield f c ≤ cfield f (counter_at m k) + w) →
  metricsInv (λ j, X j ∨ j = k) (B + w) (set_target k c m) ∧
  ∀ f R, book f R (set_target k c m) = book f R m + gained f R k (counter_at m k) c.
Proof.
  intros Hm Hw Hc Hf. split; [|intros; by eapply book_set].
  constructor.
  - intros j c' Hj. unfold set_target, with_targets in Hj; cbn [targets] in Hj.
    destruct (decide (k = j)) as [<-|Hne]; [rewrite lookup_insert_eq in Hj; by simplify_eq|].
    rewrite lookup_insert_ne in Hj by done. eapply counterOk_mono; [|by eapply inv_counter]. lia.
  - intros j s f Hj. unfold set_target, with_targets in *; cbn [targets lastTargets] in *.
    destruct (inv_last _ _ _ Hm j s f Hj) as (c' & Hc' & Hs).
    destruct (decide (k = j)) as [<-|Hne].
    + rewrite lookup_insert_eq. exists c. split; [done|]. specialize (Hf f).
      unfold counter_at in Hf. rewrite Hc' in Hf. cbn [from_option id] in Hf. lia.
    + rewrite lookup_insert_ne by done. eauto.
  - intros f R. rewrite (book_set _ _ _ _ _ _ _ Hm). destruct (inv_book _ _ _ Hm f R) as [H0 HB].
    split; [done|]. specialize (Hf f). destruct (String.eqb _ _); lia.
  - intros j c' Hj Ha Hna Hx. unfold set_target, with_targets in *; cbn [targets activeApplied activeTargets] in *.
    destruct (decide (k = j)) as [<-|Hne]; [naive_solver|]. rewrite lookup_insert_ne in Hj by done.
    eapply inv_stale; eauto.
Qed.

Lemma inv_settle X B m :
  metricsInv X B m →
  (∀ k c, X k → targets m !! k = Some c → activeApplied m = true → k ∉ activeTargets m →
          0 < openConnections (Some c)) →
  metricsInv nokey B m.
Proof.
  intros [Hc Hl Hb Hs] HX. constructor; try done. intros k c Hk Ha Hna _.
  destruct (decide (0 < openConnections (Some c))) as [|Hn]; [done|].
  apply (Hs k c); try done. intros Hx. by apply Hn, (HX k c).
Qed.

Lemma inv_weaken (X Y : targetMetricKey → Prop) B m :
  (∀ k, X k → Y k) → metricsInv X B m → metricsInv Y B m.
Proof.
  intros HXY [Hc Hl Hb Hs]. constructor; try done. intros k c Hk Ha Hna HY. apply (Hs k c); auto.
Qed.

(** Dropping a counter after queueing its last delta leaves the books alone. *)
Lemma close_inv X B m k c :
  metricsInv X B m → small B → targets m !! k = Some c →
  let m' := delete_target k (queueFinalInactiveTargetDeltaLocked k c m) in
  metricsInv (λ j, X j ∧ j ≠ k) B m' ∧ ∀ f R, book f R m' = book f R m.
Proof.
  intros Hm HB Hk m'.
  assert (∀ f R, rule_total f R (option_list (targetTrafficDelta k.1 (snapshot_of c) (lastTarget m k)))
    = unreported f R m k c) as Hd.
  { intros f R. unfold unreported. rewrite targetTrafficDelta_total; rewrite ?cfield_snapshot; [done|..]; intros g;
      rewrite cfield_snapshot.
    - by eapply inv_last_le.
    - pose proof (ok_field _ _ (inv_counter _ _ _ Hm k c Hk) g). unfold small in HB. lia. }
  assert (∀ f R, 0 ≤ unreported f R m k c) as Hpos.
  { intros f R. unfold unreported. pose proof (inv_last_le _ _ _ _ _ f Hm Hk). destruct (String.eqb _ _); lia. }
  assert (∀ f R, book f R m' = book f R m) as Hbook.
  { intros f R. unfold book, m', delete_target, queueFinalInactiveTargetDeltaLocked, with_targets.
    cbn [pendingDeltas targets]. rewrite rule_total_app, Hd, (msum_delete (unreported f R m) (targets m) k c Hk).
    rewrite (msum_ext _ (unreported f R m) (delete k (targets m))); [lia|].
    intros j cj Hj. unfold unreported, lastTarget; cbn [lastTargets].
    rewrite lookup_delete_ne; [done|]. intros <-. by rewrite lookup_delete_eq in Hj. }
  split; [|done]. unfold m' in *. clear m'. constructor.
  - intros j cj Hj. cbn [delete_target queueFinalInactiveTargetDeltaLocked with_targets targets] in Hj.
    apply lookup_delete_Some in Hj as [_ Hj]. by eapply inv_counter.
  - intros j s f Hj. cbn [delete_target queueFinalInactiveTargetDeltaLocked with_targets targets lastTargets] in *.
    apply lookup_delete_Some in Hj as [Hne Hj]. rewrite lookup_delete_ne by done. by eapply inv_last.
  - intros f R. rewrite Hbook. destruct (inv_book _ _ _ Hm f R). split; [|done].
    cbn [delete_target queueFinalInactiveTargetDeltaLocked with_targets pendingDeltas].
    rewrite rule_total_app, Hd. pose proof (Hpos f R). lia.
  - intros j cj Hj Ha Hna Hx.
    cbn [delete_target queueFinalInactiveTargetDeltaLocked with_targets targets activeApplied activeTargets] in *.
    apply lookup_delete_Some in Hj as [Hne Hj]. eapply inv_stale; eauto.
Qed.

(** A method that writes a counter and then drops it if it is closed and inactive. *)
Lemma prune_step B w m k c :
  metricsInv nokey B m → 0 ≤ w → small (B + w) → counterOk (B + w) c →
  (∀ f, cfield f (counter_at m k) ≤ cfield f c ≤ cfield f (counter_at m k) + w) →
  let m' := pruneClosedInactiveTargetLocked k c (set_target k c m) in
  metricsInv nokey (B + w) m' ∧ ∀ f R, book f R m' = book f R m + gained f R k (counter_at m k) c.
Proof.
  intros Hm Hw HB Hc Hf m'. destruct (set_inv _ _ _ _ _ _ Hm Hw Hc Hf) as [Hi Hb].
  assert (targets (set_target k c m) !! k = Some c) as Hk by (simpl; by rewrite lookup_insert_eq).
  unfold m', pruneClosedInactiveTargetLocked. destruct (_ && _) eqn:E.
  - destruct (close_inv _ _ _ _ _ Hi HB Hk) as [Hi' Hb']. split.
    + eapply inv_settle; [exact Hi'|]. unfold nokey. naive_solver.
    + intros f R. by rewrite Hb', Hb.
  - split; [|done]. eapply inv_settle; [exact Hi|]. unfold nokey. intros j cj [[]| ->] Hj Ha Hna.
    rewrite Hk in Hj. injection Hj as <-. rewrite Ha, bool_decide_eq_false_2 in E by done.
    cbn [andb negb] in E. apply Z.leb_gt in E. exact E.
Qed.

(** A method that adds to the counter of an admitted target. *)
Definition grows (w : Z) (c0 c : targetMetricCounter) : Prop :=
  (∀ f, cfield f c0 ≤ cfield f c ≤ cfield f c0 + w) ∧ Forall2 (λ g0 g, g0 ≤ g ≤ g0 + w) (gauges c0) (gauges c).

Lemma grows_ok B w c0 c : counterOk B c0 → grows w c0 c → counterOk (B + w) c.
Proof.
  intros [Hf Hg] [Hf' Hg']. constructor; [intros f; specialize (Hf f); specialize (Hf' f); lia|].
  unfold gauges in *. rewrite !Forall2_cons in Hg'. rewrite !Forall_cons in *. repeat split; try lia. constructor.
Qed.

Lemma targetLocked_some m k c0 :
  targetLocked m k = Some c0 →
  c0 = counter_at m k ∧ admits m k = true ∧ (targets m !! k = Some c0 ∨ creatable m k = true).
Proof.
  unfold targetLocked, counter_at, admits. destruct (targets m !! k); [intros [= <-]; by auto|].
  destruct (creatable m k); [|done]. intros [= <-]. by auto.
Qed.

Lemma targetLocked_none m k : targetLocked m k = None → admits m k = false.
Proof. unfold targetLocked, admits. destruct (targets m !! k); [done|]. by destruct (creatable m k). Qed.

Lemma creatable_spec m k : creatable m k = true → activeApplied m = true → k ∈ activeTargets m.
Proof.
  unfold creatable. intros H Ha. rewrite Ha in H. cbn [andb] in H. bool_hyps. by bool_hyps.
Qed.

Lemma locked_step B w m k c0 c :
  metricsInv nokey B m → 0 ≤ w → small (B + w) → 0 ≤ B → targetLocked m k = Some c0 → grows w c0 c →
  metricsInv nokey (B + w) (set_target k c m) ∧
  ∀ f R, book f R (set_target k c m) = book f R m + gained f R k c0 c.
Proof.
  intros Hm Hw HB HB0 Hl Hg. apply targetLocked_some in Hl as (-> & _ & Hl).
  assert (counterOk B (counter_at m k)) as Hok.
  { unfold counter_at. destruct (targets m !! k) eqn:E; [by eapply inv_counter|by apply zero_counter_ok]. }
  pose proof (grows_ok _ _ _ _ Hok Hg) as Hc. destruct Hg as [Hf Hg].
  destruct (set_inv _ _ _ _ _ _ Hm Hw Hc Hf) as [Hi Hb]. split; [|done].
  eapply inv_settle; [exact Hi|]. unfold nokey. intros j cj [[]| ->] Hj Ha Hna.
  cbn [set_target with_targets targets activeApplied activeTargets] in *.
  rewrite lookup_insert_eq in Hj. injection Hj as <-.
  destruct Hl as [Hk|Hcr]; [|by apply creatable_spec in Hcr].
  assert (0 < openConnections (Some (counter_at m k))) as Hpos by (eapply inv_stale; [exact Hm|..]; eauto).
  destruct (openConnections_sum (B + w) c HB Hc) as (-> & _).
  destruct (openConnections_sum B (counter_at m k)) as (E & _); [unfold small in *; lia|done|].
  rewrite E in Hpos. unfold gauges in Hg. rewrite !Forall2_cons in Hg. lia.
Qed.

(** ** Pruning and reporting *)

Lemma open_traffic c packets up down l :
  openConnections (Some (set_traffic c packets up down l)) = openConnections (Some c).
Proof.
  unfold openConnections, set_traffic.
  cbn [tcpConnections tcpDialReservations udpSessions udpSessionReservations]. done.
Qed.

Lemma latency_inv X B m k c l :
  metricsInv X B m → targets m !! k = Some c → (activeApplied m = true → k ∉ activeTargets m → 0 < openConnections (Some c)) →
  let c' := set_traffic c (udpPackets c) (uploadBytes c) (downloadBytes c) l in
  metricsInv (λ j, X j ∧ j ≠ k) B (set_target k c' m) ∧ ∀ f R, book f R (set_target k c' m) = book f R m.
Proof.
  intros Hm Hk Hopen c'. assert (∀ f, cfield f c' = cfield f c) as Hf by (by intros []).
  assert (counter_at m k = c) as Hat by (unfold counter_at; by rewrite Hk).
  destruct (set_inv _ _ 0 _ k c' Hm) as [[Hc Hl Hb Hs] Hbook].
  - lia.
  - rewrite Z.add_0_r. destruct (inv_counter _ _ _ Hm k c Hk) as [H1 H2]. constructor; [|done].
    intros f. rewrite Hf. apply H1.
  - intros f. rewrite Hat, Hf. lia.
  - rewrite Z.add_0_r in *. split.
    + constructor; try done. intros j cj Hj Ha Hna HX.
      destruct (decide (j = k)) as [->|Hne].
      * cbn [set_target with_targets targets activeApplied activeTargets] in *.
        rewrite lookup_insert_eq in Hj. injection Hj as <-. unfold c'. rewrite open_traffic. auto.
      * apply (Hs j cj); try done. naive_solver.
    + intros f R. rewrite Hbook. unfold gained. rewrite Hat, Hf. destruct (String.eqb _ _); lia.
Qed.

Lemma pruneTarget_inv X B m k :
  metricsInv X B m → small B →
  metricsInv (λ j, X j ∧ j ≠ k) B (pruneTarget m k) ∧ ∀ f R, book f R (pruneTarget m k) = book f R m.
Proof.
  intros Hm HB. unfold pruneTarget. destruct (targets m !! k) as [c|] eqn:Hk.
  - destruct (bool_decide _) eqn:Ha.
    + bool_hyps. split; [|done]. destruct Hm as [Hc Hl Hb Hs]. constructor; try done.
      intros j cj Hj Hap Hna HX. apply (Hs j cj); try done.
      destruct (decide (j = k)) as [->|]; [done|naive_solver].
    + destruct (Z.leb_spec (openConnections (Some c)) 0); [by apply close_inv|].
      by apply latency_inv.
  - split; [|done]. destruct Hm as [Hc Hl Hb Hs]. constructor; try done.
    intros j cj Hj Hap Hna HX. apply (Hs j cj); try done.
    destruct (decide (j = k)) as [->|]; [congruence|naive_solver].
Qed.

Lemma prune_inv order B m :
  metricsInv (λ j, j ∈ order) B m → small B → activeApplied m = true ∨ metricsInv nokey B m →
  let m' := pruneInactiveTargetsLocked order m in
  metricsInv nokey B m' ∧ ∀ f R, book f R m' = book f R m.
Proof.
  intros Hm HB Ha m'. unfold m', pruneInactiveTargetsLocked.
  destruct (activeApplied m); cbn [negb]; [|naive_solver]. clear Ha m'.
  revert m Hm. induction order as [|k order IH]; intros m Hm; cbn [foldl].
  - split; [|done]. eapply inv_weaken; [|exact Hm]. by intros k ?%elem_of_nil.
  - destruct (pruneTarget_inv _ _ _ k Hm HB) as [Hi Hb]. destruct (IH (pruneTarget m k)) as [Hi' Hb'].
    + eapply inv_weaken; [|exact Hi]. intros j [[->|?]%elem_of_cons ?]; done.
    + split; [done|]. intros f R. by rewrite Hb', Hb.
Qed.

Lemma prune_fields order m :
  let m' := pruneInactiveTargetsLocked order m in
  lastSnapshotAt m' = lastSnapshotAt m ∧ activeApplied m' = activeApplied m ∧ activeTargets m' = activeTargets m.
Proof.
  unfold pruneInactiveTargetsLocked. destruct (negb _); [done|]. revert m.
  induction order as [|k order IH]; intros m; [done|]. cbn [foldl].
  destruct (IH (pruneTarget m k)) as (-> & -> & ->). unfold pruneTarget.
  destruct (targets m !! k); [|done]. destruct (bool_decide _); [done|]. by destruct (_ <=? 0).
Qed.

Lemma reportable_all B m :
  metricsInv nokey B m → copyReportableTargetSnapshotsLocked m = snapshot_of <$> targets m.
Proof.
  intros Hm. unfold copyReportableTargetSnapshotsLocked. f_equal. apply map_filter_id. intros k c Hk.
  destruct (activeApplied m) eqn:Ha; [|done]. cbn [andb].
  destruct (bool_decide _) eqn:Hb; [done|]. bool_hyps. cbn [negb andb].
  pose proof (inv_stale _ _ _ Hm k c Hk Ha Hb ltac:(intros [])). apply Z.leb_gt. lia.
Qed.

Lemma msum_keys {K V} `{Countable K} (g : K → V → Z) (M : gmap K V) (d : V) :
  Zsum (map (λ k, g k (default d (M !! k))) (map fst (map_to_list M))) = msum g M.
Proof.
  unfold msum. rewrite map_fold_foldr, map_map. unfold Zsum.
  assert (∀ kv, kv ∈ map_to_list M → M !! kv.1 = Some kv.2) as HM.
  { intros [k v]. apply elem_of_map_to_list. }
  induction (map_to_list M) as [|[k v] l IH]; [done|]. cbn [map foldr fst uncurry].
  pose proof (HM (k, v) ltac:(by constructor)) as E. cbn [fst snd] in E. rewrite E.
  cbn [from_option id]. f_equal. apply IH.
  intros kv Hkv. apply HM. by constructor.
Qed.

Lemma rule_total_concat {A} f R (h : A → list RuleTrafficDelta) l :
  rule_total f R (concat (map h l)) = Zsum (map (λ x, rule_total f R (h x)) l).
Proof.
  induction l as [|x l IH]; [done|]. cbn [map concat]. rewrite rule_total_app, IH. done.
Qed.

Lemma map_fst_fmap {K V W} (g : V → W) (l : list (K * V)) :
  map fst (prod_map id g <$> l) = map fst l.
Proof. induction l as [|[k v] l IH]; [done|]. cbn. by rewrite <-IH. Qed.

(** A report carries everything in the books, and closes them. *)
Lemma reportDeltas_total B m keys f R :
  metricsInv nokey B m → small B → keys ≡ₚ map fst (map_to_list (snapshot_of <$> targets m)) →
  rule_total f R (reportDeltas m (snapshot_of <$> targets m) keys) = msum (unreported f R m) (targets m).
Proof.
  intros Hm HB Hk. unfold reportDeltas. rewrite rule_total_concat, Hk.
  rewrite map_to_list_fmap. rewrite (map_fst_fmap snapshot_of).
  rewrite <-(msum_keys _ _ zero_counter). f_equal. apply map_ext_in. intros k Hin.
  apply in_map_iff in Hin as ([k' c] & <- & Hin). apply list_elem_of_In, elem_of_map_to_list in Hin.
  cbn [fst]. rewrite lookup_fmap, Hin. cbn [fmap option_fmap option_map from_option id].
  unfold unreported. rewrite targetTrafficDelta_total; rewrite ?cfield_snapshot; [done|..]; intros g;
    rewrite cfield_snapshot.
  - by eapply inv_last_le.
  - pose proof (ok_field _ _ (inv_counter _ _ _ Hm k' c Hin) g). unfold small in HB. lia.
Qed.

Lemma agentPayload_inv B m order now :
  metricsInv nokey B m → small B → is_Some (elapsedSince (lastSnapshotAt m) now) →
  let '(m', p) := agentPayload order now m in
  metricsInv nokey B m' ∧ (∀ f R, book f R m' = 0) ∧
  ∀ f R, R ≠ "" → rule_total f R (mp_TrafficDeltas p) = book f R m.
Proof.
  intros Hm HB [e He]. unfold agentPayload.
  destruct (prune_inv order B m) as [Hi Hb]; [by eapply inv_weaken; [|exact Hm]|done|by right|].
  destruct (prune_fields order m) as (Hlast & _ & _).
  set (m1 := pruneInactiveTargetsLocked order m) in *. rewrite (reportable_all B m1 Hi), Hlast, He.
  set (keys := sort_stable keyLess _). cbn [mp_TrafficDeltas].
  assert (∀ f R, msum (unreported f R m1) (targets m1) = book f R m - rule_total f R (pendingDeltas m1)) as Hs.
  { intros f R. rewrite <-Hb. unfold book. lia. }
  assert (∀ f R, rule_total f R (reportDeltas m1 (snapshot_of <$> targets m1) keys)
                 = book f R m - rule_total f R (pendingDeltas m1)) as Hd.
  { intros f R. rewrite <-Hs. eapply reportDeltas_total; [done|done|]. apply sort_perm. }
  set (m' := Build_metricsCounter _ _ _ _ _ _ _ _).
  assert (∀ f R, book f R m' = 0) as H0.
  { intros f R. unfold book, m'; cbn [pendingDeltas targets]. rewrite msum_zero; [done|].
    intros k c Hk. unfold unreported, lastTarget; cbn [lastTargets]. rewrite lookup_fmap, Hk.
    cbn [fmap option_fmap option_map from_option id]. rewrite cfield_snapshot. destruct (String.eqb _ _); lia. }
  split; [|split; [done|]].
  - destruct Hi as [Hc Hl _ Hst]. constructor; try done.
    + intros k s f Hk. unfold m' in *; cbn [lastTargets targets] in *. rewrite lookup_fmap in Hk.
      destruct (targets m1 !! k) as [c|] eqn:Ek; [|done]. cbn in Hk. injection Hk as <-.
      exists c. split; [done|]. rewrite cfield_snapshot. pose proof (ok_field _ _ (Hc k c Ek) f). lia.
    + intros f R. rewrite H0. unfold small in HB. split; [|lia]. done.
  - intros f R HR. destruct (pendingDeltas m1) as [|p0 ps] eqn:Ep.
    + rewrite Hd. change (rule_total f R []) with 0. lia.
    + rewrite mergePayload_total, rule_total_app, Hd by done. rewrite wrap64_id; [lia|].
      destruct (inv_book _ _ _ Hi f R) as [Hp HB']. rewrite Hb in HB'. rewrite Ep in Hp.
      assert (0 ≤ msum (unreported f R m1) (targets m1)) as Hms.
      { rewrite <-(msum_keys _ _ zero_counter). apply Zsum_nonneg, Forall_forall. intros z Hz.
        apply list_elem_of_In, in_map_iff in Hz as (k & <- & Hk).
        apply in_map_iff in Hk as ([k' c] & <- & Hk). apply list_elem_of_In, elem_of_map_to_list in Hk.
        cbn [fst]. rewrite Hk. cbn [from_option id]. unfold unreported.
        pose proof (inv_last_le _ _ _ _ _ f Hi Hk). destruct (String.eqb _ _); lia. }
      rewrite Hs in Hms. unfold in64, small in *. lia.
Qed.

(** ** Every step keeps the invariant and the books *)

Definition step_ok (B w : Z) (m m' : metricsCounter) (gain : traffic_field → string → Z) : Prop :=
  metricsInv nokey (B + w) m' ∧ ∀ f R, book f R m' = book f R m + gain f R.

Lemma inv_mono X B B' m : B ≤ B' → metricsInv X B m → metricsInv X B' m.
Proof.
  intros HB [Hc Hl Hb Hs]. constructor; try done.
  - intros k c Hk. eapply counterOk_mono; eauto.
  - intros f R. destruct (Hb f R). split; [done|lia].
Qed.

Lemma step_ok_same B w m m' :
  metricsInv nokey B m → 0 ≤ w → targets m' = targets m → lastTargets m' = lastTargets m →
  pendingDeltas m' = pendingDeltas m → activeTargets m' = activeTargets m →
  activeApplied m' = activeApplied m → step_ok B w m m' (λ _ _, 0).
Proof.
  intros Hm Hw Ht Hl Hp Ha Hap.
  assert (∀ f R, book f R m' = book f R m) as Hb.
  { intros f R. unfold book. rewrite Hp, Ht. f_equal. apply msum_ext. intros k c _.
    unfold unreported, lastTarget. by rewrite Hl. }
  split; [|intros f R; rewrite Hb; lia]. eapply inv_mono; [|instantiate (1 := B)]; [lia|].
  destruct Hm as [Hc Hls Hbk Hs]. constructor.
  - intros k c. rewrite Ht. apply Hc.
  - intros k s f. rewrite Hl, Ht. apply Hls.
  - intros f R. rewrite Hb, Hp. apply Hbk.
  - intros k c. rewrite Ht, Ha, Hap. apply Hs.
Qed.

Lemma add64_small B w x d : small (B + w) → 0 ≤ x ≤ B → Z.abs d ≤ w → add64 x d = x + d.
Proof. unfold small, add64. intros. apply wrap64_id. unfold in64. lia. Qed.

Lemma counter_at_ok B m k : metricsInv nokey B m → 0 ≤ B → counterOk B (counter_at m k).
Proof.
  intros Hm HB. unfold counter_at. destruct (targets m !! k) eqn:E; [by eapply inv_counter|by apply zero_counter_ok].
Qed.

Definition field_gain (g : traffic_field) (d : Z) (f : traffic_field) : Z :=
  if bool_decide (f = g) then d else 0.
Definition key_gain (g : traffic_field) (d : Z) (r : string) (f : traffic_field) (R : string) : Z :=
  if bool_decide (f = g) && String.eqb r R then d else 0.

Lemma gained_eq f R k c0 c g d :
  (∀ f, cfield f c = cfield f c0 + field_gain g d f) → gained f R k c0 c = key_gain g d k.1 f R.
Proof.
  intros Hf. unfold gained, key_gain. rewrite Hf. unfold field_gain.
  destruct (bool_decide _), (String.eqb _ _); cbn [andb]; lia.
Qed.

(** Adding traffic or reservations to an admitted counter. *)
Lemma locked_ok B w m k c0 c g d :
  metricsInv nokey B m → 0 ≤ B → 0 ≤ d ≤ w → small (B + w) → targetLocked m k = Some c0 →
  (∀ f, cfield f c = cfield f c0 + field_gain g d f) →
  Forall2 (λ g0 g, g0 ≤ g ≤ g0 + w) (gauges c0) (gauges c) →
  step_ok B w m (set_target k c m) (key_gain g d k.1).
Proof.
  intros Hm HB Hd Hsm Hl Hf Hg. destruct (locked_step B w m k c0 c) as [Hi Hb]; try done; try lia.
  - split; [|done]. intros f. rewrite Hf. unfold field_gain. destruct (bool_decide _); lia.
  - split; [done|]. intros f R. rewrite Hb. by erewrite gained_eq.
Qed.

Lemma gauges_same w c c' : 0 ≤ w → gauges c' = gauges c → Forall2 (λ g0 g, g0 ≤ g ≤ g0 + w) (gauges c) (gauges c').
Proof. intros Hw ->. apply Forall2_same_length_lookup_2; [done|]. intros. simplify_eq. lia. Qed.

(** Writing a counter and dropping it if it closed. *)
Lemma prune_ok B w m k c g d :
  metricsInv nokey B m → 0 ≤ d ≤ w → small (B + w) →
  (∀ f, cfield f c = cfield f (counter_at m k) + field_gain g d f) → 0 ≤ B →
  Forall (λ g, 0 ≤ g ≤ B + w) (gauges c) →
  step_ok B w m (pruneClosedInactiveTargetLocked k c (set_target k c m)) (key_gain g d k.1).
Proof.
  intros Hm Hd Hsm Hf HB Hg. pose proof (counter_at_ok B m k Hm HB) as [H1 H2].
  destruct (prune_step B w m k c) as [Hi Hb]; try done; try lia.
  - constructor; [|done]. intros f. rewrite Hf. specialize (H1 f). unfold field_gain.
    destruct (bool_decide _); lia.
  - intros f. rewrite Hf. unfold field_gain. destruct (bool_decide _); lia.
  - split; [done|]. intros f R. rewrite Hb. by erewrite gained_eq.
Qed.

(** Writing a counter that has something open. *)
Lemma open_ok B w m k c g d :
  metricsInv nokey B m → 0 ≤ d ≤ w → small (B + w) →
  (∀ f, cfield f c = cfield f (counter_at m k) + field_gain g d f) → 0 ≤ B →
  Forall (λ g, 0 ≤ g ≤ B + w) (gauges c) → 0 < Zsum (gauges c) →
  step_ok B w m (set_target k c m) (key_gain g d k.1).
Proof.
  intros Hm Hd Hsm Hf HB Hg Hopen.
  pose proof (counter_at_ok B m k Hm HB) as [H1 H2].
  assert (counterOk (B + w) c) as Hc.
  { constructor; [|done]. intros f. rewrite Hf. specialize (H1 f). unfold field_gain.
    destruct (bool_decide _); lia. }
  destruct (set_inv nokey B w m k c) as [Hi Hb]; try done; try lia.
  - intros f. rewrite Hf. unfold field_gain. destruct (bool_decide _); lia.
  - split; [|intros f R; rewrite Hb; by erewrite gained_eq].
    eapply inv_settle; [exact Hi|]. unfold nokey. intros j cj [[]| ->] Hj _ _.
    cbn [set_target with_targets targets] in Hj. rewrite lookup_insert_eq in Hj. injection Hj as <-.
    destruct (openConnections_sum (B + w) c Hsm Hc) as (-> & _). unfold gauges, Zsum in Hopen. simpl in Hopen. lia.
Qed.

Lemma traffic_step B m k c0 c g d :
  metricsInv nokey B m → 0 ≤ B → 0 ≤ d → small (B + (1 + Z.abs d)) → targetLocked m k = Some c0 →
  (∀ f, cfield f c = (if bool_decide (f = g) then add64 (cfield f c0) d else cfield f c0)) →
  gauges c = gauges c0 →
  step_ok B (1 + Z.abs d) m (set_target k c m) (key_gain g d k.1).
Proof.
  intros Hm HB Hd Hsm Hl Hf Hg.
  pose proof (targetLocked_some _ _ _ Hl) as (Hc0 & _ & _).
  pose proof (counter_at_ok B m k Hm HB) as Hok. rewrite <-Hc0 in Hok.
  eapply locked_ok; try done; [lia| |apply gauges_same; [lia|done]].
  intros f. rewrite Hf. unfold field_gain. destruct (bool_decide _); [|lia].
  eapply add64_small; [exact Hsm|apply (ok_field _ _ Hok)|lia].
Qed.

Lemma floor0_range w B x d : small (B + w) → 0 ≤ x ≤ B → Z.abs d ≤ w → 0 ≤ floor0 (add64 x d) ≤ B + w.
Proof.
  intros Hsm Hx Hd. rewrite (add64_small B w) by done. unfold floor0. destruct (Z.ltb_spec (x + d) 0); [|lia].
  unfold small in Hsm. lia.
Qed.

Lemma gauges_ok B c : counterOk B c →
  0 ≤ tcpConnections c ≤ B ∧ 0 ≤ tcpDialReservations c ≤ B ∧ 0 ≤ udpSessions c ≤ B ∧ 0 ≤ udpSessionReservations c ≤ B.
Proof. intros [_ Hg]. unfold gauges in Hg. rewrite !Forall_cons in Hg. naive_solver. Qed.

Lemma key_gain_0 g r f R : key_gain g 0 r f R = 0.
Proof. unfold key_gain. by destruct (_ && _). Qed.

Lemma step_ok_ext B w m m' gain gain' :
  step_ok B w m m' gain → (∀ f R, gain f R = gain' f R) → step_ok B w m m' gain'.
Proof. intros [Hi Hb] Hg. split; [done|]. intros f R. by rewrite Hb, Hg. Qed.

Lemma field_gain_same g d : field_gain g d g = d.
Proof. unfold field_gain. by rewrite bool_decide_eq_true_2. Qed.
Lemma field_gain_ne g d f : f ≠ g → field_gain g d f = 0.
Proof. intros H. unfold field_gain. by rewrite bool_decide_eq_false_2. Qed.

(** Split on the field a counter was changed at. *)
Ltac fields f :=
  destruct f; rewrite ?field_gain_same, ?field_gain_ne by done;
  cbn [cfield set_tcp set_udp set_traffic uploadBytes downloadBytes udpPackets tcpConnectionEvents].

Lemma step_ok_zero r B w m m' : step_ok B w m m' (key_gain FUpload 0 r) → step_ok B w m m' (λ _ _, 0).
Proof. intros H. eapply step_ok_ext; [exact H|]. intros. apply key_gain_0. Qed.

Section ops.
Context (B : Z) (m : metricsCounter) (Hm : metricsInv nokey B m) (HB : 0 ≤ B).

Lemma step_addTargetTCP r t d :
  small (B + (1 + Z.abs d)) →
  step_ok B (1 + Z.abs d) m (addTargetTCPConnection r t d m)
    (λ f R, if admits m (r, t) then key_gain FConnections (Z.max d 0) r f R else 0).
Proof using Hm HB.
  intros Hsm. unfold addTargetTCPConnection, admits.
  assert (∀ target, target = counter_at m (r, t) →
    let target' := set_tcp target (floor0 (add64 (tcpConnections target) d))
      (if 0 <? d then add64 (tcpConnectionEvents target) d else tcpConnectionEvents target)
      (tcpDialReservations target) in
    step_ok B (1 + Z.abs d) m
      (pruneClosedInactiveTargetLocked (r, t) target' (set_target (r, t) target' m))
      (key_gain FConnections (Z.max d 0) r)) as Hup.
  { intros target ->. pose proof (counter_at_ok B m (r, t) Hm HB) as Hok.
    pose proof (gauges_ok _ _ Hok) as (G1 & G2 & G3 & G4). cbv zeta.
    apply prune_ok; try done; [lia| |].
    - intros f. fields f; try lia. destruct (Z.ltb_spec 0 d); [|lia].
      rewrite (add64_small B (1 + Z.abs d)); [lia|done|apply (ok_field _ _ Hok FConnections)|lia].
    - pose proof (floor0_range (1 + Z.abs d) B (tcpConnections (counter_at m (r, t))) d Hsm G1 ltac:(lia)).
      repeat constructor; cbn; lia. }
  destruct (targets m !! (r, t)) as [c|] eqn:E.
  - apply Hup. unfold counter_at. by rewrite E.
  - destruct (Z.ltb_spec d 0) as [Hd|Hd]; cbn [orb].
    + eapply step_ok_ext; [by apply (step_ok_same B (1 + Z.abs d) m m); try done; lia|].
      intros f R. rewrite Z.max_r, key_gain_0 by lia. by destruct (creatable m (r, t)).
    + destruct (creatable m (r, t)); cbn [negb].
      * apply Hup. unfold counter_at. by rewrite E.
      * by apply (step_ok_same B (1 + Z.abs d) m m); try done; lia.
Qed.

Lemma step_addTargetUDPSession r t d :
  small (B + (1 + Z.abs d)) →
  step_ok B (1 + Z.abs d) m (addTargetUDPSession r t d m) (λ _ _, 0).
Proof using Hm HB.
  intros Hsm. unfold addTargetUDPSession.
  assert (∀ target, target = counter_at m (r, t) →
    let target' := set_udp target (floor0 (add64 (udpSessions target) d)) (udpSessionReservations target) in
    step_ok B (1 + Z.abs d) m
      (pruneClosedInactiveTargetLocked (r, t) target' (set_target (r, t) target' m)) (λ _ _, 0)) as Hup.
  { intros target ->. pose proof (counter_at_ok B m (r, t) Hm HB) as Hok.
    pose proof (gauges_ok _ _ Hok) as (G1 & G2 & G3 & G4). cbv zeta.
    apply (step_ok_zero r).
    apply prune_ok; try done; [lia| |].
    - intros f. fields f; lia.
    - pose proof (floor0_range (1 + Z.abs d) B (udpSessions (counter_at m (r, t))) d Hsm G3 ltac:(lia)).
      repeat constructor; cbn; lia. }
  destruct (targets m !! (r, t)) as [c|] eqn:E.
  - apply Hup. unfold counter_at. by rewrite E.
  - destruct (_ || _); [by apply step_ok_same; try done; lia|].
    apply Hup. unfold counter_at. by rewrite E.
Qed.

(** A reservation is one more open connection of the target. *)
Lemma step_reserve k c0 c :
  small (B + 1) → targetLocked m k = Some c0 →
  c = set_tcp c0 (tcpConnections c0) (tcpConnectionEvents c0) (add64 (tcpDialReservations c0) 1)
  ∨ c = set_udp c0 (udpSessions c0) (add64 (udpSessionReservations c0) 1) →
  step_ok B 1 m (set_target k c m) (λ _ _, 0).
Proof using Hm HB.
  intros Hsm Hl Hc. pose proof (targetLocked_some _ _ _ Hl) as (Hc0 & _ & _).
  pose proof (counter_at_ok B m k Hm HB) as Hok. rewrite <-Hc0 in Hok.
  pose proof (gauges_ok _ _ Hok) as (G1 & G2 & G3 & G4).
  apply (step_ok_zero k.1).
  apply locked_ok with c0; try done.
  - intros f. destruct Hc as [->| ->]; fields f; lia.
  - destruct Hc as [->| ->]; unfold gauges; cbn [set_tcp set_udp tcpConnections tcpDialReservations udpSessions udpSessionReservations];
      rewrite (add64_small B 1) by (done || lia); repeat constructor; lia.
Qed.

Lemma step_reserveTCP r t :
  small (B + 1) → step_ok B 1 m (reserveTargetTCPDial r t m).1 (λ _ _, 0).
Proof using Hm HB.
  intros Hsm. unfold reserveTargetTCPDial. destruct (targetLocked m (r, t)) as [c|] eqn:E; cbn [fst].
  - apply step_reserve with c; auto.
  - by apply step_ok_same; try done; lia.
Qed.

Lemma step_reserveLeastTCP r ts :
  small (B + 1) → step_ok B 1 m (reserveLeastLoadTargetTCPDial r ts m).1 (λ _ _, 0).
Proof using Hm HB.
  intros Hsm. unfold reserveLeastLoadTargetTCPDial. destruct ts; [by apply step_ok_same; try done; lia|].
  destruct (targetLocked m _) as [c|] eqn:E; cbn [fst].
  - apply step_reserve with c; auto.
  - by apply step_ok_same; try done; lia.
Qed.

Lemma step_reserveLeastUDP r ts :
  small (B + 1) → step_ok B 1 m (reserveLeastLoadTargetUDPSession r ts m).1 (λ _ _, 0).
Proof using Hm HB.
  intros Hsm. unfold reserveLeastLoadTargetUDPSession. destruct ts; [by apply step_ok_same; try done; lia|].
  destruct (targetLocked m _) as [c|] eqn:E; cbn [fst].
  - apply step_reserve with c; auto.
  - by apply step_ok_same; try done; lia.
Qed.

Lemma sub1_floor x : small (B + 1) → 0 ≤ x ≤ B → 0 ≤ floor0 (sub64 x 1) ≤ B + 1.
Proof using Type.
  intros Hsm Hx. unfold sub64. change (x - 1) with (x + -1). change (wrap64 (x + -1)) with (add64 x (-1)).
  apply (floor0_range 1); done || lia.
Qed.

Lemma step_releaseTCP r t :
  small (B + 1) → step_ok B 1 m (releaseTargetTCPDial r t m) (λ _ _, 0).
Proof using Hm HB.
  intros Hsm. unfold releaseTargetTCPDial.
  destruct (targets m !! (r, t)) as [c|] eqn:E; [|by apply step_ok_same; try done; lia].
  assert (counter_at m (r, t) = c) as Hat by (unfold counter_at; by rewrite E).
  pose proof (inv_counter _ _ _ Hm _ _ E) as Hok. pose proof (gauges_ok _ _ Hok) as (G1 & G2 & G3 & G4).
  apply (step_ok_zero r). apply prune_ok; try done.
  - intros f. rewrite Hat. fields f; lia.
  - pose proof (sub1_floor (tcpDialReservations c) Hsm G2). repeat constructor; cbn; lia.
Qed.

Lemma step_releaseUDP r t :
  small (B + 1) → step_ok B 1 m (releaseTargetUDPSessionReservation r t m) (λ _ _, 0).
Proof using Hm HB.
  intros Hsm. unfold releaseTargetUDPSessionReservation.
  destruct (targets m !! (r, t)) as [c|] eqn:E; [|by apply step_ok_same; try done; lia].
  assert (counter_at m (r, t) = c) as Hat by (unfold counter_at; by rewrite E).
  pose proof (inv_counter _ _ _ Hm _ _ E) as Hok. pose proof (gauges_ok _ _ Hok) as (G1 & G2 & G3 & G4).
  apply (step_ok_zero r). apply prune_ok; try done.
  - intros f. rewrite Hat. fields f; lia.
  - pose proof (sub1_floor (udpSessionReservations c) Hsm G4). repeat constructor; cbn; lia.
Qed.

Lemma promote_reservation x : small (B + 1) → 0 ≤ x ≤ B → 0 ≤ (if 0 <? x then sub64 x 1 else x) ≤ B + 1.
Proof using Type.
  intros Hsm Hx. destruct (Z.ltb_spec 0 x); [|lia]. unfold sub64. rewrite wrap64_id; [lia|].
  unfold small, in64 in *. lia.
Qed.

Lemma step_promoteTCP r t :
  small (B + 1) → step_ok B 1 m (promoteTargetTCPDial r t m) (key_gain FConnections 1 r).
Proof using Hm HB.
  intros Hsm. unfold promoteTargetTCPDial. change (default zero_counter _) with (counter_at m (r, t)).
  pose proof (counter_at_ok B m (r, t) Hm HB) as Hok. set (c := counter_at m (r, t)) in *.
  pose proof (gauges_ok _ _ Hok) as (G1 & G2 & G3 & G4).
  pose proof (promote_reservation (tcpDialReservations c) Hsm G2).
  pose proof (add64_small B 1 (tcpConnections c) 1 Hsm G1 ltac:(lia)) as E1.
  apply open_ok; try done.
  - intros f. fold c. fields f; try lia.
    apply (add64_small B 1); [done|apply (ok_field _ _ Hok FConnections)|lia].
  - repeat constructor; cbn; lia.
  - unfold gauges, Zsum. cbn. lia.
Qed.

Lemma step_promoteUDP r t :
  small (B + 1) → step_ok B 1 m (promoteTargetUDPSessionReservation r t m) (λ _ _, 0).
Proof using Hm HB.
  intros Hsm. unfold promoteTargetUDPSessionReservation. change (default zero_counter _) with (counter_at m (r, t)).
  pose proof (counter_at_ok B m (r, t) Hm HB) as Hok. set (c := counter_at m (r, t)) in *.
  pose proof (gauges_ok _ _ Hok) as (G1 & G2 & G3 & G4).
  pose proof (promote_reservation (udpSessionReservations c) Hsm G4).
  pose proof (add64_small B 1 (udpSessions c) 1 Hsm G3 ltac:(lia)) as E1.
  apply (step_ok_zero r). apply open_ok; try done.
  - intros f. fold c. fields f; lia.
  - repeat constructor; cbn; lia.
  - unfold gauges, Zsum. cbn. lia.
Qed.
End ops.

Lemma gain_recorded (adm : bool) g d r f R :
  (if adm then key_gain g d r f R else 0) = (if bool_decide (f = g) && String.eqb r R && adm then d else 0).
Proof. unfold key_gain. destruct adm; [by rewrite andb_true_r|by rewrite andb_false_r]. Qed.

Section step.
Context `{UnicodeTables}.

Lemma metricsStep_traffic B m k d g (upd : targetMetricCounter → targetMetricCounter) :
  metricsInv nokey B m → 0 ≤ B → 0 ≤ d → small (B + (1 + Z.abs d)) →
  (∀ c f, cfield f (upd c) = (if bool_decide (f = g) then add64 (cfield f c) d else cfield f c)) →
  (∀ c, gauges (upd c) = gauges c) →
  step_ok B (1 + Z.abs d) m
    (match targetLocked m k with Some c => set_target k (upd c) m | None => m end)
    (λ f R, if bool_decide (f = g) && String.eqb k.1 R && admits m k then d else 0).
Proof using Type.
  intros Hm HB Hd Hsm Hf Hg. destruct (targetLocked m k) as [c|] eqn:E.
  - pose proof (targetLocked_some _ _ _ E) as (_ & Ha & _).
    eapply step_ok_ext; [by eapply (traffic_step B m k c (upd c) g d)|].
    intros f R. rewrite Ha, andb_true_r. done.
  - apply targetLocked_none in E. eapply step_ok_ext; [by apply step_ok_same; try done; lia|].
    intros f R. rewrite E, andb_false_r. done.
Qed.

(** Each step keeps the invariant, and the books move by what is recorded
    minus what is reported. *)
Lemma metricsStep_inv B m op :
  metricsInv nokey B m → 0 ≤ B → small (B + opWeight op) → opOk op m →
  let '(m', d) := metricsStep op m in
  metricsInv nokey (B + opWeight op) m' ∧
  ∀ f R, R ≠ "" → book f R m' + rule_total f R d = book f R m + recorded f R op m.
Proof using Type.
  intros Hm HB Hsm Hop.
  assert (∀ m' w gain, opWeight op = w → step_ok B w m m' gain →
    (∀ f R, gain f R = recorded f R op m) →
    metricsInv nokey (B + opWeight op) m' ∧
    ∀ f R, R ≠ "" → book f R m' + rule_total f R [] = book f R m + recorded f R op m) as Hfin.
  { intros m' w gain -> [Hi Hb] Hg. split; [done|]. intros f R _. rewrite Hb, Hg.
    change (rule_total f R []) with 0. lia. }
  destruct op; cbn [metricsStep opWeight opOk] in *.
  1-4: eapply Hfin; [done|by eapply step_ok_same; try done; lia|done].
  - (* setActiveTargets *)
    unfold setActiveTargets. set (m0 := Build_metricsCounter _ _ _ _ _ _ _ _).
    assert (metricsInv (λ j, j ∈ order) B m0) as H0.
    { destruct Hm as [Hc Hl Hb Hs]. constructor; try done. intros k c Hk _ _ Hx. destruct Hx.
      rewrite Hop. apply list_elem_of_In, in_map_iff. exists (k, c). split; [done|].
      by apply list_elem_of_In, elem_of_map_to_list. }
    destruct (prune_inv order B m0 H0) as [Hi Hb]; [unfold small in *; lia|by left|].
    split; [eapply inv_mono; [|exact Hi]; lia|]. intros f R _. rewrite Hb. done.
  - eapply Hfin; [done|by apply step_addTargetTCP|]. intros. apply gain_recorded.
  - eapply Hfin; [done|by apply step_reserveTCP|done].
  - eapply Hfin; [done|by apply step_reserveLeastTCP|done].
  - eapply Hfin; [done|by apply step_reserveLeastUDP|done].
  - eapply Hfin; [done|by apply step_releaseTCP|done].
  - eapply Hfin; [done|by apply step_promoteTCP|]. done.
  - eapply Hfin; [done|by apply step_releaseUDP|done].
  - eapply Hfin; [done|by apply step_promoteUDP|done].
  - eapply Hfin; [done|by apply step_addTargetUDPSession|done].
  - eapply Hfin; [done|apply (metricsStep_traffic B m _ delta FPackets
      (λ c, set_traffic c (add64 (udpPackets c) delta) (uploadBytes c) (downloadBytes c) (latencyMS c)));
      try done; by intros ? []|done].
  - eapply Hfin; [done|apply (metricsStep_traffic B m _ delta FUpload
      (λ c, set_traffic c (udpPackets c) (add64 (uploadBytes c) delta) (downloadBytes c) (latencyMS c)));
      try done; by intros ? []|done].
  - eapply Hfin; [done|apply (metricsStep_traffic B m _ delta FDownload
      (λ c, set_traffic c (udpPackets c) (uploadBytes c) (add64 (downloadBytes c) delta) (latencyMS c)));
      try done; by intros ? []|done].
  - unfold recordTargetLatency. set (l := if _ : bool then 1 else _).
    destruct (targetLocked m (ruleID, targetID)) as [c|] eqn:E;
      [|eapply Hfin; [done|by apply step_ok_same; try done; lia|done]].
    eapply Hfin; [done| |done]. apply (step_ok_zero ruleID).
    apply (locked_ok B 1 m (ruleID, targetID) c _ FUpload 0); try done.
    + intros f. unfold field_gain. destruct (bool_decide _), f; cbn; lia.
    + by apply gauges_same.
  - destruct Hop as [_ He].
    pose proof (agentPayload_inv B m order now Hm ltac:(unfold small in *; lia) He) as Hp.
    destruct (agentPayload order now m) as [m' p]. destruct Hp as (Hi & H0 & Hd).
    split; [eapply inv_mono; [|exact Hi]; lia|]. intros f R HR. rewrite H0, Hd by done.
    cbn [recorded]. lia.
Qed.

Lemma opWeight_pos op : 0 ≤ opWeight op.
Proof using Type. destruct op; cbn; lia. Qed.

Lemma opsWeight_cons op ops : opsWeight (op :: ops) = opWeight op + opsWeight ops ∧ 0 ≤ opsWeight ops.
Proof using Type.
  split; [done|]. unfold opsWeight. apply Zsum_nonneg, Forall_forall. intros z Hz.
  apply list_elem_of_In, in_map_iff in Hz as (o & <- & _). apply opWeight_pos.
Qed.

Lemma metricsRun_inv ops B m :
  metricsInv nokey B m → 0 ≤ B → small (B + opsWeight ops) → opsOk ops m →
  let '(m', d) := metricsRun ops m in
  metricsInv nokey (B + opsWeight ops) m' ∧
  ∀ f R, R ≠ "" → book f R m' + rule_total f R d = book f R m + recordedTotal f R ops m.
Proof using Type.
  revert B m. induction ops as [|op ops IH]; intros B m Hm HB Hsm Hok; cbn [metricsRun recordedTotal opsOk] in *.
  - split; [eapply inv_mono; [|exact Hm]; unfold opsWeight, Zsum; simpl; lia|].
    intros f R _. change (rule_total f R []) with 0. lia.
  - destruct Hok as [Ho Hok]. destruct (opsWeight_cons op ops) as [Hw Hw0]. rewrite Hw in *.
    pose proof (opWeight_pos op) as Hp.
    pose proof (metricsStep_inv B m op Hm HB ltac:(unfold small in *; lia) Ho) as Hs.
    destruct (metricsStep op m) as [m1 d1]. cbn [fst] in *. destruct Hs as [Hi Hb].
    pose proof (IH (B + opWeight op) m1 Hi ltac:(lia)) as Hr.
    rewrite <-Z.add_assoc in Hr. specialize (Hr Hsm Hok).
    destruct (metricsRun ops m1) as [m2 d2]. destruct Hr as [Hi2 Hb2]. split; [done|].
    intros f R HR. rewrite rule_total_app. specialize (Hb f R HR). specialize (Hb2 f R HR). lia.
Qed.

Lemma newMetrics_inv now : metricsInv nokey 0 (newMetricsCounter now) ∧
  ∀ f R, book f R (newMetricsCounter now) = 0.
Proof using Type.
  assert (∀ f R, book f R (newMetricsCounter now) = 0) as Hb.
  { intros. unfold book, newMetricsCounter; cbn [pendingDeltas targets]. by rewrite msum_empty. }
  split; [|done]. by constructor.
Qed.

Lemma metricsRun_snoc ops op m :
  metricsRun (ops ++ [op]) m =
  let '(m1, d1) := metricsRun ops m in let '(m2, d2) := metricsStep op m1 in (m2, d1 ++ d2).
Proof using Type.
  revert m. induction ops as [|o ops IH]; intros m; cbn [app metricsRun].
  - destruct (metricsStep op m). by rewrite app_nil_r.
  - destruct (metricsStep o m) as [m1 d1]. rewrite IH. destruct (metricsRun ops m1) as [m2 d2].
    destruct (metricsStep op m2). by rewrite app_assoc.
Qed.

Lemma opsOk_snoc ops op m : opsOk (ops ++ [op]) m ↔ opsOk ops m ∧ opOk op (metricsRun ops m).1.
Proof using Type.
  revert m. induction ops as [|o ops IH]; intros m; cbn [app opsOk metricsRun]; [naive_solver|].
  rewrite IH. destruct (metricsStep o m) as [m1 d1]. cbn [fst].
  destruct (metricsRun ops m1) as [m2 d2]. cbn [fst]. naive_solver.
Qed.

(** A report leaves nothing in the books. *)
Lemma metricsRun_report ops order at_ m f R :
  metricsInv nokey 0 m → opsWeight ops < 2 ^ 61 → opsOk (ops ++ [OpPayload order at_]) m →
  book f R (metricsRun (ops ++ [OpPayload order at_]) m).1 = 0.
Proof using Type.
  intros Hm Hw [Hok Hlast]%opsOk_snoc.
  assert (0 ≤ opsWeight ops) as Hw0 by (apply (opsWeight_cons (OpUDP 0))).
  pose proof (metricsRun_inv ops 0 m Hm ltac:(lia) ltac:(unfold small; lia) Hok) as Hr.
  rewrite metricsRun_snoc. destruct (metricsRun ops m) as [m1 d1]. cbn [fst] in *.
  destruct Hr as [Hi _]. destruct Hlast as [_ He].
  pose proof (agentPayload_inv _ m1 order at_ Hi ltac:(unfold small; lia) He) as Hp.
  cbn [metricsStep]. destruct (agentPayload order at_ m1) as [m2 p]. cbn [fst]. by apply Hp.
Qed.
End step.

(** The reservation that least load makes, seen from the open connections. *)
Lemma reserve_open B m k c0 c j :
  metricsInv nokey B m → small (B + 1) → 0 ≤ B → targetLocked m k = Some c0 →
  c = set_tcp c0 (tcpConnections c0) (tcpConnectionEvents c0) (add64 (tcpDialReservations c0) 1)
  ∨ c = set_udp c0 (udpSessions c0) (add64 (udpSessionReservations c0) 1) →
  openConnections (targets (set_target k c m) !! j) =
  openConnections (targets m !! j) + (if decide (j = k) then 1 else 0).
Proof.
  intros Hm Hsm HB Hl Hc. destruct (decide (j = k)) as [->|Hne]; cbn [set_target with_targets targets].
  2:{ rewrite lookup_insert_ne by done. lia. }
  rewrite lookup_insert_eq. pose proof (targetLocked_some _ _ _ Hl) as (Hc0 & _ & _).
  pose proof (counter_at_ok B m k Hm HB) as Hok. rewrite <-Hc0 in Hok.
  assert (openConnections (targets m !! k) = openConnections (Some c0)) as ->.
  { unfold counter_at in Hc0. destruct (targets m !! k) as [c1|]; cbn [from_option id] in Hc0; [by subst|].
    by subst. }
  pose proof (gauges_ok _ _ Hok) as (G1 & G2 & G3 & G4).
  assert (counterOk (B + 1) c) as Hok'.
  { destruct Hok as [H1 _]. constructor.
    - intros f. specialize (H1 f). destruct Hc as [->| ->], f; cbn in *; lia.
    - destruct Hc as [->| ->]; unfold gauges;
        cbn [set_tcp set_udp tcpConnections tcpDialReservations udpSessions udpSessionReservations];
        rewrite (add64_small B 1) by (done || lia); repeat constructor; lia. }
  destruct (openConnections_sum (B + 1) c Hsm Hok') as (-> & _).
  destruct (openConnections_sum B c0) as (-> & _); [unfold small in *; lia|done|].
  destruct Hc as [->| ->]; cbn [set_tcp set_udp tcpConnections tcpDialReservations udpSessions udpSessionReservations];
    rewrite (add64_small B 1) by (done || lia); lia.
Qed.

(** ** Properties *)

Section properties.
Context `{UnicodeTables}.

(** The metrics stay well formed over every history of forwarder events and
    reports (below 2^61 counted): no gauge or counter is negative, no counter
    falls below its last report, and no counter is kept for a target that
    left the configuration and has nothing open, so the table does not
    grow with the targets ever configured. *)
Theorem metricsRun_wellformed ops now :
  opsWeight ops < 2 ^ 61 → opsOk ops (newMetricsCounter now) →
  let m := (metricsRun ops (newMetricsCounter now)).1 in
  (∀ k c, targets m !! k = Some c →
     Forall (λ g, 0 ≤ g) (gauges c) ∧ 0 ≤ openConnections (Some c) ∧
     (∀ f, 0 ≤ sfield f (lastTarget m k) ≤ cfield f c) ∧
     (activeApplied m = true → k ∉ activeTargets m → 0 < openConnections (Some c))) ∧
  ∀ k, is_Some (lastTargets m !! k) → is_Some (targets m !! k).
Proof using Type.
  intros Hw Hok m. destruct (newMetrics_inv now) as [H0 _].
  assert (0 ≤ opsWeight ops) as Hw0.
  { destruct ops as [|op ops]; [done|]. destruct (opsWeight_cons op ops). pose proof (opWeight_pos op). lia. }
  pose proof (metricsRun_inv ops 0 _ H0 ltac:(lia) ltac:(unfold small; lia) Hok) as Hr.
  unfold m. destruct (metricsRun ops (newMetricsCounter now)) as [m' d]. destruct Hr as [Hi _].
  cbn [fst]. split.
  - intros k c Hk. pose proof (inv_counter _ _ _ Hi k c Hk) as Hc.
    destruct (openConnections_sum (0 + opsWeight ops) c ltac:(unfold small; lia) Hc) as (E & ? & ? & ? & ?).
    split; [|split; [lia|split]].
    + eapply Forall_impl; [apply Hc|]. simpl. lia.
    + intros f. by eapply inv_last_le.
    + intros Ha Hna. eapply inv_stale; [exact Hi|done..|]. by intros [].
  - intros k [s Hs]. destruct (inv_last _ _ _ Hi k s FUpload Hs) as (c & Hc & _). eauto.
Qed.

(** C3. Traffic is reported exactly once: after any history of events that ends
    with a report, the sum of all deltas ever reported for a rule equals the
    bytes, connections and packets recorded for it, although targets come and
    go and counters are dropped in between. *)
Theorem traffic_reported_once ops order at_ now f R :
  let history := ops ++ [OpPayload order at_] in
  R ≠ "" → opsWeight history < 2 ^ 61 → opsOk history (newMetricsCounter now) →
  rule_total f R (metricsRun history (newMetricsCounter now)).2 =
  recordedTotal f R history (newMetricsCounter now).
Proof using Type.
  intros history HR Hw Hok. destruct (newMetrics_inv now) as [H0 Hb0].
  assert (∀ l, 0 ≤ opsWeight l) as Hw0 by (intros l; apply (opsWeight_cons (OpUDP 0))).
  pose proof (metricsRun_inv history 0 _ H0 ltac:(lia)
    ltac:(unfold small; specialize (Hw0 history); lia) Hok) as Hr.
  assert (opsWeight ops < 2 ^ 61) as Hops.
  { unfold history, opsWeight in Hw. rewrite map_app, Zsum_app in Hw.
    change (Zsum (map opWeight [OpPayload order at_])) with 1 in Hw. unfold opsWeight. lia. }
  pose proof (metricsRun_report ops order at_ _ f R H0 Hops Hok) as Hz. fold history in Hz.
  destruct (metricsRun history (newMetricsCounter now)) as [m' d]. destruct Hr as [Hi Hb].
  specialize (Hb f R HR). rewrite Hb0 in Hb. cbn [fst snd] in *. lia.
Qed.

(** Least load picks, under one lock, a target whose open connections per
    weight are minimal among the candidates, and a reservation counts at once:
    the chosen target's open connections grow by one and no other's change, so
    concurrent dials spread instead of picking the same target. *)
Theorem reserveLeastLoad_spec B m ruleID ts best reserved m' :
  metricsInv nokey B m → small (B + 1) → 0 ≤ B →
  loads_fit (λ t, targetOpenConnectionsLocked m ruleID (target_ID t)) ts →
  reserveLeastLoadTargetTCPDial ruleID ts m = (m', Some (best, reserved))
  ∨ reserveLeastLoadTargetUDPSession ruleID ts m = (m', Some (best, reserved)) →
  best ∈ ts ∧
  (∀ t, t ∈ ts → load_le (λ t, targetOpenConnectionsLocked m ruleID (target_ID t)) best t) ∧
  reserved = admits m (ruleID, target_ID best) ∧
  ∀ j, openConnections (targets m' !! j) =
       openConnections (targets m !! j)
       + (if reserved && bool_decide (j = (ruleID, target_ID best)) then 1 else 0).
Proof using Type.
  intros Hm Hsm HB Hfit Hr. destruct ts as [|t0 rest]; [by destruct Hr|].
  destruct (leastLoad_spec _ t0 rest Hfit) as [Hin Hle].
  cbn [reserveLeastLoadTargetTCPDial reserveLeastLoadTargetUDPSession] in Hr.
  set (b := leastLoad _ t0 rest) in *.
  destruct (targetLocked m (ruleID, target_ID b)) as [c|] eqn:E.
  - pose proof (targetLocked_some _ _ _ E) as (_ & Ha & _).
    assert (b = best ∧ reserved = true ∧ ∃ c', m' = set_target (ruleID, target_ID b) c' m ∧
      (c' = set_tcp c (tcpConnections c) (tcpConnectionEvents c) (add64 (tcpDialReservations c) 1)
       ∨ c' = set_udp c (udpSessions c) (add64 (udpSessionReservations c) 1))) as (<- & -> & c' & -> & Hc')
      by (destruct Hr as [Hr|Hr]; injection Hr as <- <- <-; eauto 10).
    split; [done|]. split; [done|]. split; [done|]. intros j.
    rewrite (reserve_open B m _ c c' j) by done. cbn [andb].
    by rewrite (bool_decide_decide (j = _)); destruct (decide _).
  - pose proof (targetLocked_none _ _ E) as Ha.
    assert (m' = m ∧ b = best ∧ reserved = false) as (-> & <- & ->)
      by (destruct Hr as [Hr|Hr]; by injection Hr as <- <- <-).
    split; [done|]. split; [done|]. split; [done|]. intros j. cbn [andb]. lia.
Qed.
End properties.

Lemma reserveLeastLoad_spec_witness :
  let t1 := example_target "t1" "10.0.0.1" 80 1 in
  let t2 := example_target "t2" "10.0.0.2" 80 2 in
  let m := promoteTargetTCPDial "r" "t1" (newMetricsCounter 0) in
  reserveLeastLoadTargetTCPDial "r" [t1; t2] m
    = ((reserveLeastLoadTargetTCPDial "r" [t1; t2] m).1, Some (t2, true))
  ∧ t2 ∈ [t1; t2].
Proof.
  set (t1 := example_target "t1" "10.0.0.1" 80 1). set (t2 := example_target "t2" "10.0.0.2" 80 2).
  intros t1' t2' m.
  assert (reserveLeastLoadTargetTCPDial "r" [t1; t2] m
    = ((reserveLeastLoadTargetTCPDial "r" [t1; t2] m).1, Some (t2, true))) as E by (vm_compute; reflexivity).
  split; [exact E|].
  assert (metricsInv nokey (0 + 1) m) as Hm.
  { apply (step_promoteTCP 0 (newMetricsCounter 0)); [apply newMetrics_inv|lia|unfold small; lia]. }
  refine (proj1 (reserveLeastLoad_spec (0 + 1) m "r" [t1; t2] t2 true _ Hm _ _ _ (or_introl E))).
  - unfold small; lia.
  - lia.
  - assert (targetOpenConnectionsLocked m "r" "t1" = 1) as C1 by (vm_compute; reflexivity).
    assert (targetOpenConnectionsLocked m "r" "t2" = 0) as C2 by (vm_compute; reflexivity).
    intros t u Ht Hu.
    apply elem_of_cons in Ht as [->| ->%list_elem_of_singleton];
    apply elem_of_cons in Hu as [->| ->%list_elem_of_singleton];
    cbn [t1 t2 example_target target_ID target_Weight]; rewrite ?C1, ?C2; lia.
Defined.

(** A history with a target that is configured, carries traffic, and is removed. *)
Definition example_history : list metricsOp :=
  let rule := example_rule "r1" "TCP" "0.0.0.0" 80 "ANY_INBOUND" ""
                (single_target (example_target "t1" "10.0.0.1" 8080 1)) in
  let k := ("r1", "t1") in
  [ OpSetActive [rule] []; OpReserveTCP "r1" "t1"; OpPromoteTCP "r1" "t1"; OpTargetUpload "r1" "t1" 100;
    OpTargetDownload "r1" "t1" 2500; OpPayload [k] 1000000000; OpTargetUpload "r1" "t1" 11;
    OpSetActive [] [k]; OpTargetTCP "r1" "t1" (-1); OpTargetUpload "r1" "t1" 7 ].

Lemma example_history_ok :
  @opsOk ascii_tables (example_history ++ [OpPayload [] 2500000000]) (newMetricsCounter 0).
Proof.
  repeat split; try (vm_compute; (reflexivity || discriminate || apply Permutation_refl));
    vm_compute; by eexists.
Qed.

Lemma metricsRun_wellformed_witness :
  let m := (@metricsRun ascii_tables example_history (newMetricsCounter 0)).1 in
  targets m = ∅ ∧ ∀ k, is_Some (lastTargets m !! k) → is_Some (targets m !! k).
Proof.
  split; [vm_compute; reflexivity|].
  apply (@metricsRun_wellformed ascii_tables example_history 0); [vm_compute; reflexivity|].
  apply (proj1 (@opsOk_snoc ascii_tables _ _ _) example_history_ok).
Defined.

Lemma traffic_reported_once_witness :
  rule_total FUpload "r1" (@metricsRun ascii_tables (example_history ++ [OpPayload [] 2500000000])
                             (newMetricsCounter 0)).2 = 111.
Proof.
  rewrite (@traffic_reported_once ascii_tables example_history [] 2500000000 0 FUpload "r1");
    [vm_compute; reflexivity|discriminate|vm_compute; reflexivity|exact example_history_ok].
Defined.
