(* ===== verification/Listener.v ===== *)
(** * The supervisor's listeners (pkg/core/forward/supervisor.go, apply_errors.go)

    [Supervisor.Apply] moves the running listeners to a new configuration
    under the supervisor's mutex.  A listener runtime is a pointer: the old and
    the new map share the runtimes that stay, and a runtime's rules are written
    through it.  The model keeps a heap of runtimes (their socket while it is
    open, and their rules) and maps from listener keys to runtime numbers.

    Whether the operating system lets a socket be opened is the parameter
    [net_listen], which sees the number of the attempt and the open sockets;
    a Go map iteration visits its keys in an order that the operation takes as
    an argument. *)

From S2P Require Import Prelude GoString GoInt GoSort GoNet Domain Agent Metrics.
#[local] Open Scope Z_scope.

(** [listenerKey]: listen IP, protocol, port. *)
Abbreviation listenerKey := (string * string * Z)%type.
Definition key_listenIP (k : listenerKey) : string := k.1.1.
Definition key_protocol (k : listenerKey) : string := k.1.2.
Definition key_port (k : listenerKey) : Z := k.2.

Definition normalizedForwardingType (rule : RuleConfig) : string :=
  if String.eqb (rule_ForwardingType rule) "" then ForwardingTypeDirect else rule_ForwardingType rule.

Definition listenerProtocols (protocol : string) : list string :=
  if String.eqb protocol ProtocolTCPUDP then [ProtocolTCP; ProtocolUDP] else [protocol].

Definition ruleKey (rule : RuleConfig) (protocol : string) : listenerKey :=
  (rule_ListenIP rule, protocol, rule_Port rule).

Inductive ListenerError :=
| UnsupportedForwardingType (forwardingType : string)
| OverlappingListeners (left right : listenerKey)
| BindFailed (err : ConfigApplyError).

Abbreviation ruleGroups := (gmap listenerKey (list RuleConfig)).

Definition groupAppend (rule : RuleConfig) (grouped : ruleGroups) (protocol : string) : ruleGroups :=
  let key := ruleKey rule protocol in
  <[key := default [] (grouped !! key) ++ [rule]]> grouped.

Definition groupStep (grouped : ruleGroups) (rule : RuleConfig) : result ListenerError ruleGroups :=
  if negb (rule_Enabled rule) then Ok grouped
  else if negb (String.eqb (normalizedForwardingType rule) ForwardingTypeDirect)
  then Err (UnsupportedForwardingType (rule_ForwardingType rule))
  else Ok (foldl (groupAppend rule) grouped (listenerProtocols (rule_Protocol rule))).

Definition groupRulesByListener (rules : list RuleConfig) : result ListenerError ruleGroups :=
  fold_result groupStep ∅ rules.

(** ** Overlap *)

Definition isWildcardListenIP (value : string) : bool :=
  let value := Trim (TrimSpace value) "[]" in
  if String.eqb value "" then true
  else match ParseIP value with Some ip => IsUnspecified ip | None => false end.

Definition listenIPsOverlap (left right : string) : bool :=
  String.eqb left right || isWildcardListenIP left || isWildcardListenIP right.

Definition listenerKeysOverlap (left right : listenerKey) : bool :=
  String.eqb (key_protocol left) (key_protocol right)
  && (key_port left =? key_port right)
  && listenIPsOverlap (key_listenIP left) (key_listenIP right).

Definition overlapsAnyListener (key : listenerKey) (listeners : ruleGroups) : bool :=
  existsb (λ kv, listenerKeysOverlap key kv.1) (map_to_list listeners).

(** The two nested loops over [keys[left]], [keys[right]], [left < right]. *)
Fixpoint firstOverlap (keys : list listenerKey) : option (listenerKey * listenerKey) :=
  match keys with
  | [] => None
  | key :: rest => match List.find (listenerKeysOverlap key) rest with
                   | Some other => Some (key, other)
                   | None => firstOverlap rest
                   end
  end.
Definition validateNoOverlappingListeners (order : list listenerKey) : result ListenerError () :=
  match firstOverlap order with
  | Some (key, other) => Err (OverlappingListeners key other)
  | None => Ok ()
  end.

(** ** Runtimes *)

Record World := {
  attempts : nat;                                   (** sockets asked for so far *)
  sockets : gmap nat (string * string);             (** open sockets: network, address *)
  runtimeRules : gmap nat (list RuleConfig) }.      (** the rules of each runtime *)

Record Supervisor := { listeners : gmap listenerKey nat; world : World; metrics : metricsCounter }.

Definition ruleIDsForListener (rules : list RuleConfig) : list string :=
  sort_stable String.ltb
    (List.filter (λ id, negb (String.eqb (TrimSpace id) "")) (map rule_ID rules)).

Definition listenerBindApplyError (key : listenerKey) (rules : list RuleConfig) (err : string) : ConfigApplyError := {|
  apply_Message := err;
  apply_Errors := [{|
    detail_Code := "LISTENER_BIND_FAILED"; detail_RuleIDs := ruleIDsForListener rules;
    detail_Protocol := key_protocol key; detail_ListenIP := key_listenIP key; detail_Port := key_port key;
    detail_Dataplane := ""; detail_Owner := ""; detail_DriftStatus := ""; detail_ExternalResource := "";
    detail_Message := err |}] |}.

(** [ConfigApplyError.Error()]. *)
Definition applyErrorText (err : ConfigApplyError) : string :=
  if negb (String.eqb (TrimSpace (apply_Message err)) "") then apply_Message err
  else match apply_Errors err with
       | d :: _ => detail_Message d
       | [] => "config apply failed"
       end.

Definition listenAddress (key : listenerKey) : string :=
  JoinHostPort (key_listenIP key) (Itoa (key_port key)).

(** The network of a listener's socket, if its protocol has one. *)
Definition listenNetwork (protocol : string) : option string :=
  if String.eqb protocol ProtocolTCP then Some "tcp"
  else if String.eqb protocol ProtocolUDP then Some "udp" else None.

Definition stopRuntime (rid : nat) (w : World) : World := {|
  attempts := attempts w; sockets := delete rid (sockets w); runtimeRules := runtimeRules w |}.
Definition setRules (rid : nat) (rules : list RuleConfig) (w : World) : World := {|
  attempts := attempts w; sockets := sockets w; runtimeRules := <[rid := rules]> (runtimeRules w) |}.

(** A listener stopped before the new ones start: its key and its rules. *)
Abbreviation stoppedListener := (listenerKey * list RuleConfig)%type.

Section listen.
(** The error of [net.Listen] or [net.ListenPacket], if any. *)
Context (net_listen : nat → gmap nat (string * string) → string → string → option string).

Definition startListener (key : listenerKey) (rules : list RuleConfig) (w : World)
    : World * result string nat :=
  match listenNetwork (key_protocol key) with
  | None => (w, Err ("unsupported listener protocol " ++ key_protocol key)%string)
  | Some network =>
      let address := listenAddress key in
      let rid := attempts w in
      match net_listen rid (sockets w) network address with
      | Some err => ({| attempts := S rid; sockets := sockets w; runtimeRules := runtimeRules w |}, Err err)
      | None => ({| attempts := S rid; sockets := <[rid := (network, address)]> (sockets w);
                    runtimeRules := <[rid := rules]> (runtimeRules w) |}, Ok rid)
      end
  end.

(** *** stopOverlappingAbsentListenersLocked *)

Definition stopStep (grouped : ruleGroups)
    (s : gmap listenerKey nat * World * list stoppedListener) (oldKey : listenerKey)
    : gmap listenerKey nat * World * list stoppedListener :=
  let '(ls, w, stopped) := s in
  match ls !! oldKey with
  | None => s
  | Some rid =>
      if bool_decide (is_Some (grouped !! oldKey)) then s
      else if negb (overlapsAnyListener oldKey grouped) then s
      else (delete oldKey ls, stopRuntime rid w,
            stopped ++ [(oldKey, default [] (runtimeRules w !! rid))])
  end.
Definition stopOverlappingAbsentListenersLocked (order : list listenerKey) (grouped : ruleGroups)
    (ls : gmap listenerKey nat) (w : World) : gmap listenerKey nat * World * list stoppedListener :=
  foldl (stopStep grouped) (ls, w, []) order.

(** *** restoreStoppedListenersLocked: stops at the first failure *)

Fixpoint restoreStoppedListenersLocked (stopped : list stoppedListener)
    (ls : gmap listenerKey nat) (w : World) : gmap listenerKey nat * World * option string :=
  match stopped with
  | [] => (ls, w, None)
  | (key, rules) :: rest =>
      match ls !! key with
      | Some _ => restoreStoppedListenersLocked rest ls w
      | None =>
          match startListener key rules w with
          | (w', Err err) => (ls, w', Some err)
          | (w', Ok rid) => restoreStoppedListenersLocked rest (<[key := rid]> ls) w'
          end
      end
  end.

(** *** The start loop of Apply

    [next] and [started] are the two maps it fills; a failed start ends it
    with the key, its rules and the error. *)
Fixpoint startLoop (old : gmap listenerKey nat) (order : list (listenerKey * list RuleConfig))
    (next started : gmap listenerKey nat) (w : World)
    : gmap listenerKey nat * gmap listenerKey nat * World
      * option (listenerKey * list RuleConfig * string) :=
  match order with
  | [] => (next, started, w, None)
  | (key, rules) :: rest =>
      match old !! key with
      | Some runtime => startLoop old rest (<[key := runtime]> next) started w
      | None =>
          match startListener key rules w with
          | (w', Err err) => (next, started, w', Some (key, rules, err))
          | (w', Ok runtime) =>
              startLoop old rest (<[key := runtime]> next) (<[key := runtime]> started) w'
          end
      end
  end.

Definition stopAll (ls : gmap listenerKey nat) (w : World) : World :=
  foldl (λ w kv, stopRuntime kv.2 w) w (map_to_list ls).

Definition setAllRules (grouped : ruleGroups) (next : gmap listenerKey nat) (w : World) : World :=
  foldl (λ w kv, match next !! kv.1 with Some rid => setRules rid kv.2 w | None => w end)
    w (map_to_list grouped).

Section apply.
Context `{UnicodeTables}.

(** [Supervisor.Apply]. [oldOrder] is the iteration over the running
    listeners, [groupOrder] the iterations over the grouped rules,
    [targetOrder] that of [setActiveTargets]. *)
Definition Apply (oldOrder groupOrder : list listenerKey) (targetOrder : list targetMetricKey)
    (rules : list RuleConfig) (s : Supervisor) : Supervisor * result ListenerError () :=
  match groupRulesByListener rules with
  | Err e => (s, Err e)
  | Ok grouped =>
      match validateNoOverlappingListeners groupOrder with
      | Err e => (s, Err e)
      | Ok _ =>
          let '(old, w1, preStopped) :=
            stopOverlappingAbsentListenersLocked oldOrder grouped (listeners s) (world s) in
          let order := map (λ k, (k, default [] (grouped !! k))) groupOrder in
          match startLoop old order ∅ ∅ w1 with
          | (next, started, w2, Some (key, rules, err)) =>
              let applyErr := listenerBindApplyError key rules err in
              let w3 := stopAll started w2 in
              let '(restored, w4, restoreErr) := restoreStoppedListenersLocked preStopped old w3 in
              let applyErr := match restoreErr with
                | None => applyErr
                | Some e => {| apply_Message := (applyErrorText applyErr
                                  ++ "; restore previous listeners: " ++ e)%string;
                               apply_Errors := apply_Errors applyErr |}
                end in
              ({| listeners := restored; world := w4; metrics := metrics s |}, Err (BindFailed applyErr))
          | (next, started, w2, None) =>
              let removed := filter (λ '(k, _), next !! k = None) old in
              let w3 := setAllRules grouped next w2 in
              let w4 := stopAll removed w3 in
              ({| listeners := next; world := w4;
                  metrics := setActiveTargets rules targetOrder (metrics s) |}, Ok ())
          end
      end
  end.

Definition Close (s : Supervisor) : Supervisor := {|
  listeners := ∅; world := stopAll (listeners s) (world s); metrics := metrics s |}.
End apply.
End listen.

Definition NewSupervisor (now : Z) : Supervisor := {|
  listeners := ∅; world := {| attempts := 0; sockets := ∅; runtimeRules := ∅ |};
  metrics := newMetricsCounter now |}.

(** ** Grouping *)

Definition listensOn (k : listenerKey) (rule : RuleConfig) : bool :=
  rule_Enabled rule
  && existsb (λ p, bool_decide (ruleKey rule p = k)) (listenerProtocols (rule_Protocol rule)).
(** The rules configured for a listener, in configuration order. *)
Definition rulesFor (k : listenerKey) (rules : list RuleConfig) : option (list RuleConfig) :=
  match List.filter (listensOn k) rules with [] => None | l => Some l end.

Lemma groupAppend_lookup rule grouped p k :
  groupAppend rule grouped p !! k =
  if bool_decide (ruleKey rule p = k) then Some (default [] (grouped !! k) ++ [rule]) else grouped !! k.
Proof.
  unfold groupAppend. destruct (bool_decide _) eqn:E; bool_hyps.
  - subst k. by rewrite lookup_insert_eq.
  - by rewrite lookup_insert_ne.
Qed.

Lemma groupRulesByListener_spec rules grouped :
  groupRulesByListener rules = Ok grouped → ∀ k, grouped !! k = rulesFor k rules.
Proof.
  unfold groupRulesByListener. intros H k. revert H.
  apply (fold_result_ind groupStep (λ rules grouped, grouped !! k = rulesFor k rules)).
  - unfold rulesFor; simpl. apply lookup_empty.
  - intros l r g g' IH. unfold groupStep, rulesFor. rewrite List.filter_app. cbn [List.filter].
    fold (rulesFor k l) in IH. assert (default [] (g !! k) = List.filter (listensOn k) l) as Hd.
    { rewrite IH. unfold rulesFor. by destruct (List.filter _ l). }
    unfold listensOn at 2. destruct (rule_Enabled r); cbn [negb andb].
    2:{ intros [= <-]. rewrite app_nil_r. exact IH. }
    destruct (negb _); [done|]. intros [= <-]. unfold listenerProtocols.
    destruct (String.eqb (rule_Protocol r) ProtocolTCPUDP); cbn [foldl existsb].
    + rewrite !groupAppend_lookup, orb_false_r.
      assert (ruleKey r ProtocolTCP ≠ ruleKey r ProtocolUDP) as Hne by done.
      destruct (bool_decide (ruleKey r ProtocolUDP = k)) eqn:Eu, (bool_decide (ruleKey r ProtocolTCP = k)) eqn:Et;
        bool_hyps; cbn [orb]; rewrite ?Hd.
      * congruence.
      * by destruct (List.filter (listensOn k) l).
      * by destruct (List.filter (listensOn k) l).
      * rewrite app_nil_r. exact IH.
    + rewrite groupAppend_lookup, orb_false_r.
      destruct (bool_decide _); [by rewrite Hd; destruct (List.filter (listensOn k) l)|].
      rewrite app_nil_r. exact IH.
Qed.

Lemma firstOverlap_none keys :
  firstOverlap keys = None →
  ∀ i j k l, keys !! i = Some k → keys !! j = Some l → (i < j)%nat → listenerKeysOverlap k l = false.
Proof.
  induction keys as [|key keys IH]; intros H i j k l Hi Hj Hij; [done|]. cbn [firstOverlap] in H.
  destruct (List.find _ keys) as [?|] eqn:Ef; [done|].
  destruct i as [|i], j as [|j]; simplify_eq/=; try lia.
  - eapply (List.find_none _ _ Ef). apply list_elem_of_In, list_elem_of_lookup. eauto.
  - eapply (IH H i j); eauto; lia.
Qed.

Lemma listenerKeysOverlap_sym k l : listenerKeysOverlap k l = listenerKeysOverlap l k.
Proof.
  unfold listenerKeysOverlap, listenIPsOverlap.
  rewrite (String.eqb_sym (key_protocol k)), (Z.eqb_sym (key_port k)), (String.eqb_sym (key_listenIP k)).
  destruct (isWildcardListenIP (key_listenIP k)), (isWildcardListenIP (key_listenIP l));
    by rewrite ?orb_true_r, ?orb_false_r.
Qed.

Lemma firstOverlap_pairwise keys k l :
  firstOverlap keys = None → k ∈ keys → l ∈ keys → k ≠ l → listenerKeysOverlap k l = false.
Proof.
  intros H (i & Hi)%list_elem_of_lookup (j & Hj)%list_elem_of_lookup Hne.
  destruct (Nat.lt_total i j) as [?|[->|?]].
  - by eapply firstOverlap_none.
  - congruence.
  - rewrite listenerKeysOverlap_sym. by eapply firstOverlap_none.
Qed.

(** ** Ownership of sockets

    [owns L w]: the listeners [L] own exactly the open sockets of [w]. *)

Record owns (L : gmap listenerKey nat) (w : World) : Prop := {
  owns_open k r : L !! k = Some r →
    ∃ n, listenNetwork (key_protocol k) = Some n ∧ sockets w !! r = Some (n, listenAddress k)
         ∧ is_Some (runtimeRules w !! r);
  owns_owner r : is_Some (sockets w !! r) → ∃ k, L !! k = Some r;
  owns_inj k k' r : L !! k = Some r → L !! k' = Some r → k = k';
  owns_fresh r : is_Some (sockets w !! r) → (r < attempts w)%nat }.

(** The rules a listener key is served with. *)
Definition served (L : gmap listenerKey nat) (w : World) (k : listenerKey) : option (list RuleConfig) :=
  r ← L !! k; runtimeRules w !! r.

Section owns.
Context (net_listen : nat → gmap nat (string * string) → string → string → option string).
Abbreviation start := (startListener net_listen).

(** The rules of runtimes that were open stay as they are. *)
Definition keeps_rules (w w' : World) : Prop :=
  ∀ r, is_Some (sockets w !! r) → runtimeRules w' !! r = runtimeRules w !! r.

Lemma start_ok L w k rules w' rid :
  owns L w → L !! k = None → start k rules w = (w', Ok rid) →
  owns (<[k := rid]> L) w' ∧ runtimeRules w' !! rid = Some rules ∧ keeps_rules w w' ∧
  (∀ k' r, L !! k' = Some r → r ≠ rid).
Proof using Type.
  intros Hw Hk. unfold startListener. destruct (listenNetwork (key_protocol k)) as [n|] eqn:En; [|done].
  destruct (net_listen _ _ _ _); [done|]. intros [= <- <-].
  assert (∀ k' r, L !! k' = Some r → r ≠ attempts w) as Hlt.
  { intros k' r Hr ->. destruct (owns_open _ _ Hw k' _ Hr) as (? & _ & Hs & _).
    pose proof (owns_fresh _ _ Hw _ (mk_is_Some _ _ Hs)). lia. }
  assert (keeps_rules w {| attempts := S (attempts w);
      sockets := <[attempts w := (n, listenAddress k)]> (sockets w);
      runtimeRules := <[attempts w := rules]> (runtimeRules w) |}) as Hkeep.
  { intros r Hr. cbn [runtimeRules]. rewrite lookup_insert_ne; [done|]. intros <-.
    pose proof (owns_fresh _ _ Hw _ Hr). lia. }
  split; [|split; [cbn [runtimeRules]; by rewrite lookup_insert_eq|by split]].
  constructor; cbn [sockets runtimeRules attempts].
  - intros k' r. destruct (decide (k = k')) as [<-|Hne].
    + rewrite lookup_insert_eq. intros [= <-]. exists n. rewrite !lookup_insert_eq. eauto.
    + rewrite lookup_insert_ne by done. intros Hr. pose proof (Hlt _ _ Hr).
      rewrite !lookup_insert_ne by done. by eapply owns_open.
  - intros r. destruct (decide (r = attempts w)) as [->|Hne].
    + intros _. exists k. by rewrite lookup_insert_eq.
    + rewrite lookup_insert_ne by done. intros Hr. destruct (owns_owner _ _ Hw r Hr) as (k' & Hk').
      exists k'. rewrite lookup_insert_ne; [done|]. by intros <-; rewrite Hk in Hk'.
  - intros k1 k2 r. destruct (decide (k = k1)) as [<-|H1], (decide (k = k2)) as [<-|H2]; rewrite ?lookup_insert_eq;
      rewrite ?lookup_insert_ne by done; [done|..].
    + intros [= <-] Hr. by destruct (Hlt _ _ Hr).
    + intros Hr [= <-]. by destruct (Hlt _ _ Hr).
    + apply (owns_inj _ _ Hw).
  - intros r. destruct (decide (r = attempts w)) as [->|Hne]; [lia|].
    rewrite lookup_insert_ne by done. intros Hr. pose proof (owns_fresh _ _ Hw r Hr). lia.
Qed.

Lemma start_err L w k rules w' err :
  owns L w → start k rules w = (w', Err err) →
  owns L w' ∧ runtimeRules w' = runtimeRules w ∧ sockets w' = sockets w.
Proof using Type.
  intros Hw. unfold startListener. destruct (listenNetwork _); [|by intros [= <- _]].
  destruct (net_listen _ _ _ _); [|done]. intros [= <- _]. split; [|done].
  destruct Hw as [H1 H2 H3 H4]. constructor; cbn [sockets runtimeRules attempts]; try done.
  intros r Hr. pose proof (H4 r Hr). lia.
Qed.

Lemma stop_owns L w k r : owns L w → L !! k = Some r → owns (delete k L) (stopRuntime r w).
Proof using Type.
  intros [H1 H2 H3 H4] Hk. constructor; cbn [stopRuntime sockets runtimeRules attempts].
  - intros k' r' [Hne Hr']%lookup_delete_Some. rewrite lookup_delete_ne; [by apply H1|].
    intros <-. by apply Hne, (H3 k k' r).
  - intros r' [s [Hne Hs]%lookup_delete_Some]. destruct (H2 r' (mk_is_Some _ _ Hs)) as (k' & Hk').
    exists k'. rewrite lookup_delete_ne; [done|]. intros <-. congruence.
  - intros k1 k2 r' [_ ?]%lookup_delete_Some [_ ?]%lookup_delete_Some. by eapply H3.
  - intros r' [s [Hne Hs]%lookup_delete_Some]. by apply H4.
Qed.

Lemma stop_list_owns l L w :
  NoDup (map fst l) → (∀ kv, kv ∈ l → L !! kv.1 = Some kv.2) → owns L w →
  let w' := foldl (λ w (kv : listenerKey * nat), stopRuntime kv.2 w) w l in
  owns (foldr (λ kv L, delete kv.1 L) L l) w' ∧ runtimeRules w' = runtimeRules w.
Proof using Type.
  revert L w. induction l as [|[k r] l IH]; intros L w Hnd Hin Hw; [done|].
  cbn [map foldl foldr] in *. apply NoDup_cons in Hnd as [Hk Hnd]. cbn [fst snd] in *.
  pose proof (Hin (k, r) ltac:(by constructor)) as Hkr. cbn [fst snd] in Hkr.
  destruct (IH (delete k L) (stopRuntime r w)) as [Ho Hr]; [done| |by apply stop_owns|].
  - intros [k' r'] Hkv. cbn [fst snd]. rewrite lookup_delete_ne.
    + apply (Hin (k', r')). by constructor.
    + intros <-. apply Hk. apply list_elem_of_In, in_map_iff. exists (k, r'). split; [done|].
      by apply list_elem_of_In.
  - split; [|done]. replace (delete k (foldr (λ kv L, delete kv.1 L) L l))
      with (foldr (λ kv L, delete kv.1 L) (delete k L) l); [done|].
    clear. induction l as [|kv l IH]; [done|]. cbn [foldr]. rewrite IH. apply delete_delete.
Qed.

Lemma foldr_delete_lookup (l : list (listenerKey * nat)) (L : gmap listenerKey nat) (k : listenerKey) :
  foldr (λ (kv : listenerKey * nat) L, delete kv.1 L) L l !! k =
  if decide (k ∈ map fst l) then None else L !! k.
Proof using Type.
  induction l as [|kv l IH]; [done|]. cbn [foldr map]. destruct (decide (kv.1 = k)) as [<-|Hne].
  - rewrite lookup_delete_eq, decide_True; [done|]. apply elem_of_cons. by left.
  - rewrite lookup_delete_ne, IH by done.
    destruct (decide (k ∈ map fst l)) as [H1|H1], (decide (k ∈ kv.1 :: map fst l)) as [H2|H2]; try done.
    + destruct H2. apply elem_of_cons. by right.
    + apply elem_of_cons in H2 as [->|]; done.
Qed.

Lemma stopAll_owns S L w :
  owns L w → S ⊆ L → owns (L ∖ S) (stopAll S w) ∧ runtimeRules (stopAll S w) = runtimeRules w.
Proof using Type.
  intros Hw Hsub. destruct (stop_list_owns (map_to_list S) L w) as [Ho Hr]; [| |done|].
  - pose proof (NoDup_fst_map_to_list S) as Hnd. exact Hnd.
  - intros [k r] Hkr%elem_of_map_to_list. by apply (lookup_weaken _ _ _ _ Hkr).
  - split; [|done]. replace (L ∖ S) with (foldr (λ (kv : listenerKey * nat) L, delete kv.1 L) L (map_to_list S)); [done|].
    apply map_eq. intros k. rewrite foldr_delete_lookup, lookup_difference.
    destruct (decide (k ∈ map fst (map_to_list S))) as [Hin|Hin].
    + apply list_elem_of_In, in_map_iff in Hin as ([k' r] & <- & Hin).
      apply list_elem_of_In, elem_of_map_to_list in Hin. cbn [fst]. by rewrite Hin.
    + destruct (S !! k) as [r|] eqn:E; [|done]. destruct Hin. apply list_elem_of_In, in_map_iff.
      exists (k, r). split; [done|]. by apply list_elem_of_In, elem_of_map_to_list.
Qed.
End owns.

(** ** The loops of Apply *)

Definition preserves (L : gmap listenerKey nat) (w w' : World) : Prop :=
  ∀ k r, L !! k = Some r → runtimeRules w' !! r = runtimeRules w !! r.

Lemma preserves_trans L w1 w2 w3 : preserves L w1 w2 → preserves L w2 w3 → preserves L w1 w3.
Proof. intros H1 H2 k r Hk. rewrite (H2 k r Hk). by apply (H1 k r). Qed.

Lemma preserves_served L L' w w' k :
  preserves L w w' → L !! k = L' !! k → served L' w' k = served L w k.
Proof.
  intros Hp Hk. unfold served. rewrite <-Hk. destruct (L !! k) as [r|] eqn:E; [|done].
  cbn. by apply (Hp k r).
Qed.

Section loops.
Context (net_listen : nat → gmap nat (string * string) → string → string → option string).

Lemma stopOverlapping_spec order grouped L0 w0 :
  owns L0 w0 →
  let '(L, w, stopped) := stopOverlappingAbsentListenersLocked order grouped L0 w0 in
  owns L w ∧ runtimeRules w = runtimeRules w0 ∧ NoDup (map fst stopped) ∧
  (∀ k, L !! k = if decide (k ∈ map fst stopped) then None else L0 !! k) ∧
  (∀ k rs, (k, rs) ∈ stopped → served L0 w0 k = Some rs ∧ grouped !! k = None).
Proof using Type.
  intros H0. unfold stopOverlappingAbsentListenersLocked.
  apply (foldl_ind (stopStep grouped) (λ _ s, let '(L, w, stopped) := s in
    owns L w ∧ runtimeRules w = runtimeRules w0 ∧ NoDup (map fst stopped) ∧
    (∀ k, L !! k = if decide (k ∈ map fst stopped) then None else L0 !! k) ∧
    (∀ k rs, (k, rs) ∈ stopped → served L0 w0 k = Some rs ∧ grouped !! k = None))).
  - split; [done|]. split; [done|]. split; [constructor|]. split; [done|]. by intros ? ? ?%elem_of_nil.
  - intros _ key [[L w] stopped] (Ho & Hr & Hnd & HL & Hs). unfold stopStep.
    destruct (L !! key) as [rid|] eqn:Ek; [|done].
    destruct (bool_decide _) eqn:Eg; [done|]. destruct (negb _); [done|]. bool_hyps.
    pose proof (HL key) as Hkey. rewrite Ek in Hkey.
    destruct (decide (key ∈ map fst stopped)) as [|Hnew]; [done|].
    split; [by apply stop_owns|]. split; [done|]. rewrite map_app. cbn [map fst]. split; [|split].
    + apply NoDup_app. split; [done|]. split; [|apply NoDup_singleton].
      by intros x Hx ->%list_elem_of_singleton.
    + intros k. destruct (decide (key = k)) as [<-|Hne].
      * rewrite lookup_delete_eq, decide_True; [done|]. apply elem_of_app. right. by constructor.
      * rewrite lookup_delete_ne, HL by done.
        destruct (decide (k ∈ map fst stopped)) as [H1|H1].
        -- rewrite decide_True; [done|]. apply elem_of_app. by left.
        -- rewrite decide_False; [done|]. intros [?|?%list_elem_of_singleton]%elem_of_app; congruence.
    + intros k rs [Hin|[= -> ->]%list_elem_of_singleton]%elem_of_app; [by apply Hs|]. split.
      * unfold served. rewrite <-Hkey. cbn.
        destruct (owns_open _ _ Ho key rid Ek) as (_ & _ & _ & [rs Hrs]). rewrite Hrs. cbn. by rewrite <-Hr.
      * by apply eq_None_not_Some.
Qed.

Lemma startLoop_spec old order next started w :
  owns (started ∪ old) w → started ##ₘ old →
  (∀ k r, next !! k = Some r → (started ∪ old) !! k = Some r) → started ⊆ next →
  NoDup (map fst order) → (∀ k, k ∈ map fst order → next !! k = None) →
  let '(next', started', w', res) := startLoop net_listen old order next started w in
  owns (started' ∪ old) w' ∧ started' ##ₘ old ∧ preserves old w w' ∧
  (∀ k r, next' !! k = Some r → (started' ∪ old) !! k = Some r) ∧ started' ⊆ next' ∧
  (res = None → ∀ k, is_Some (next' !! k) ↔ is_Some (next !! k) ∨ k ∈ map fst order).
Proof using Type.
  revert next started w. induction order as [|[key rules] order IH];
    intros next started w Ho Hd Hn Hs Hnd Hfresh; cbn [startLoop].
  { split_and!; try done. intros _ k. split; [by left|]. intros [?|?%elem_of_nil]; done. }
  cbn [map fst] in *. apply NoDup_cons in Hnd as [Hkey Hnd].
  pose proof (Hfresh key ltac:(by apply elem_of_cons; left)) as Hnk.
  assert (started !! key = None) as Hsk.
  { destruct (started !! key) as [r|] eqn:E; [|done]. pose proof (lookup_weaken _ _ _ _ E Hs). congruence. }
  assert (∀ (r : nat) k, k ∈ map fst order → <[key:=r]> next !! k = None) as Hfresh'.
  { intros r k Hk. rewrite lookup_insert_ne; [apply Hfresh; apply elem_of_cons; by right|]. by intros <-. }
  assert (∀ (r : nat) k, is_Some (<[key:=r]> next !! k) ∨ k ∈ map fst order
                ↔ is_Some (next !! k) ∨ k ∈ key :: map fst order) as Hdom.
  { intros r k. rewrite lookup_insert_is_Some', elem_of_cons. naive_solver. }
  destruct (old !! key) as [rid|] eqn:Eo.
  - specialize (IH (<[key := rid]> next) started w Ho Hd). destruct (startLoop _ _ _ _ _ _) as [[[n' s'] w'] res].
    destruct IH as (H1 & H2 & H3 & H4 & H5 & H6); [| |done|by apply Hfresh'|].
    + intros k r. destruct (decide (key = k)) as [<-|Hne].
      * rewrite lookup_insert_eq. intros [= <-]. by rewrite lookup_union_r.
      * rewrite lookup_insert_ne by done. apply Hn.
    + by apply insert_subseteq_r.
    + split_and!; try done. intros Hres k. rewrite H6 by done. apply Hdom.
  - assert ((started ∪ old) !! key = None) as Hok by (by apply lookup_union_None).
    destruct (startListener net_listen key rules w) as [w1 [rid|err]] eqn:Est.
    + destruct (start_ok _ _ _ _ _ _ _ Ho Hok Est) as (Ho1 & _ & Hkeep & _).
      rewrite insert_union_l in Ho1.
      specialize (IH (<[key := rid]> next) (<[key := rid]> started) w1 Ho1).
      destruct (startLoop _ _ _ _ _ _) as [[[n' s'] w'] res].
      destruct IH as (H1 & H2 & H3 & H4 & H5 & H6); [| | |done|by apply Hfresh'|].
      * by apply map_disjoint_insert_l_2.
      * intros k r. rewrite <-insert_union_l. destruct (decide (key = k)) as [<-|Hne].
        -- by rewrite !lookup_insert_eq.
        -- rewrite !lookup_insert_ne by done. apply Hn.
      * by apply insert_mono.
      * split_and!; try done.
        -- eapply preserves_trans; [|exact H3]. intros k r Hk. apply Hkeep.
           assert ((started ∪ old) !! k = Some r) as Hk' by (by rewrite lookup_union_r; [|eapply map_disjoint_Some_r]).
           destruct (owns_open _ _ Ho k r Hk') as (n & _ & Hsock & _). eauto.
        -- intros Hres k. rewrite H6 by done. apply Hdom.
    + destruct (start_err _ _ _ _ _ _ _ Ho Est) as (Ho1 & Hr1 & _). split_and!; try done.
      intros k r _. by rewrite Hr1.
Qed.

Lemma restore_spec stopped L w :
  owns L w → NoDup (map fst stopped) → (∀ k, k ∈ map fst stopped → L !! k = None) →
  let '(L', w', err) := restoreStoppedListenersLocked net_listen stopped L w in
  owns L' w' ∧ preserves L w w' ∧ L ⊆ L' ∧
  (∀ k r, L' !! k = Some r → L !! k = Some r ∨ ∃ rs, (k, rs) ∈ stopped ∧ served L' w' k = Some rs) ∧
  (err = None → ∀ k rs, (k, rs) ∈ stopped → served L' w' k = Some rs).
Proof using Type.
  revert L w. induction stopped as [|[key rules] stopped IH]; intros L w Ho Hnd Hnone;
    cbn [restoreStoppedListenersLocked].
  { split_and!; try done; [|by intros _ ? ? ?%elem_of_nil]. by left. }
  cbn [map fst] in *. apply NoDup_cons in Hnd as [Hkey Hnd].
  pose proof (Hnone key ltac:(by apply elem_of_cons; left)) as Hk. rewrite Hk.
  destruct (startListener net_listen key rules w) as [w1 [rid|err]] eqn:Est.
  2:{ destruct (start_err _ _ _ _ _ _ _ Ho Est) as (Ho1 & Hr1 & _). split_and!; try done; [|by left].
      intros k r _. by rewrite Hr1. }
  destruct (start_ok _ _ _ _ _ _ _ Ho Hk Est) as (Ho1 & Hrules & Hkeep & Hfresh).
  specialize (IH (<[key := rid]> L) w1 Ho1 Hnd).
  destruct (restoreStoppedListenersLocked _ _ _ _) as [[L' w'] err].
  destruct IH as (H1 & H2 & H3 & H4 & H5).
  { intros k Hin. rewrite lookup_insert_ne; [apply Hnone, elem_of_cons; by right|]. by intros <-. }
  assert (served L' w' key = Some rules) as Hsk.
  { unfold served. rewrite (lookup_weaken (<[key := rid]> L) L' key rid) by (by rewrite lookup_insert_eq || done).
    cbn. rewrite (H2 key rid) by apply lookup_insert_eq. done. }
  split_and!; try done.
  - intros k r Hkr. assert (key ≠ k) by (intros <-; congruence).
    rewrite (H2 k r) by (by rewrite lookup_insert_ne). apply Hkeep.
    destruct (owns_open _ _ Ho k r Hkr) as (n & _ & Hsock & _). eauto.
  - etransitivity; [|exact H3]. by apply insert_subseteq.
  - intros k r Hkr. destruct (H4 k r Hkr) as [Hi|(rs & Hin & Hs)].
    + destruct (decide (key = k)) as [<-|Hne]; [right; exists rules; split; [by constructor|done]|].
      rewrite lookup_insert_ne in Hi by done. by left.
    + right. exists rs. split; [by apply elem_of_cons; right|done].
  - intros He k rs [[= -> ->]|Hin]%elem_of_cons; [done|]. by apply H5.
Qed.

(** Re-binding succeeds when the system lets every stopped socket open again. *)
Lemma restore_succeeds stopped L w :
  (∀ k rs, (k, rs) ∈ stopped → ∃ n, listenNetwork (key_protocol k) = Some n ∧
     ∀ i sk, net_listen i sk n (listenAddress k) = None) →
  (restoreStoppedListenersLocked net_listen stopped L w).2 = None.
Proof using Type.
  revert L w. induction stopped as [|[key rules] stopped IH]; intros L w H; cbn [restoreStoppedListenersLocked]; [done|].
  destruct (L !! key); [apply IH; intros k rs Hin; apply (H k rs), elem_of_cons; by right|].
  destruct (H key rules ltac:(by constructor)) as (n & Hn & Hl).
  unfold startListener. rewrite Hn, Hl. apply IH. intros k rs Hin. apply (H k rs), elem_of_cons. by right.
Qed.
End loops.

(** ** Writing the rules of the new configuration *)

Lemma setRules_list (l : list (listenerKey * list RuleConfig)) (next : gmap listenerKey nat) w :
  let w' := foldl (λ w (kv : listenerKey * list RuleConfig),
    match next !! kv.1 with Some rid => setRules rid kv.2 w | None => w end) w l in
  sockets w' = sockets w ∧ attempts w' = attempts w ∧
  (∀ r, is_Some (runtimeRules w !! r) → is_Some (runtimeRules w' !! r)) ∧
  (∀ r, (∀ k rs, (k, rs) ∈ l → next !! k ≠ Some r) → runtimeRules w' !! r = runtimeRules w !! r).
Proof.
  revert w. induction l as [|[k rs] l IH]; intros w; cbn [foldl fst snd]; [by split_and!|].
  destruct (next !! k) as [rid|] eqn:E.
  - destruct (IH (setRules rid rs w)) as (-> & -> & H3 & H4). split_and!; [done|done| |].
    + intros r Hr. apply H3. cbn [setRules runtimeRules]. rewrite lookup_insert_is_Some'. by right.
    + intros r Hr. rewrite H4 by (intros k' rs' Hin; apply (Hr k' rs'), elem_of_cons; by right).
      cbn [setRules runtimeRules]. rewrite lookup_insert_ne; [done|]. intros ->.
      apply (Hr k rs); [by constructor|done].
  - destruct (IH w) as (-> & -> & H3 & H4). split_and!; [done|done|done|].
    intros r Hr. apply H4. intros k' rs' Hin. apply (Hr k' rs'), elem_of_cons. by right.
Qed.

Lemma setRules_list_hit (l : list (listenerKey * list RuleConfig)) (next : gmap listenerKey nat) w k rs rid :
  NoDup (map fst l) → (∀ k k' r, next !! k = Some r → next !! k' = Some r → k = k') →
  (k, rs) ∈ l → next !! k = Some rid →
  runtimeRules (foldl (λ w (kv : listenerKey * list RuleConfig),
    match next !! kv.1 with Some rid => setRules rid kv.2 w | None => w end) w l) !! rid = Some rs.
Proof.
  intros Hnd Hinj. revert w. induction l as [|[k0 rs0] l IH]; intros w Hin Hk; [by apply elem_of_nil in Hin|].
  cbn [map fst foldl snd] in *. apply NoDup_cons in Hnd as [Hk0 Hnd].
  apply elem_of_cons in Hin as [[= -> ->]|Hin]; [|by apply IH].
  rewrite Hk. destruct (setRules_list l next (setRules rid rs0 w)) as (_ & _ & _ & H4).
  rewrite H4; [cbn [setRules runtimeRules]; by rewrite lookup_insert_eq|].
  intros k' rs' Hin Hk'. assert (k' = k0) as -> by by eapply Hinj.
  apply Hk0. apply list_elem_of_In, in_map_iff. exists (k0, rs'). split; [done|by apply list_elem_of_In].
Qed.

Lemma owns_sockets L w w' :
  sockets w' = sockets w → attempts w' = attempts w →
  (∀ r, is_Some (runtimeRules w !! r) → is_Some (runtimeRules w' !! r)) → owns L w → owns L w'.
Proof.
  intros Hs Ha Hr [H1 H2 H3 H4]. constructor; rewrite ?Hs, ?Ha; try done.
  intros k r Hk. destruct (H1 k r Hk) as (n & Hn & Hso & Hru). eauto 10.
Qed.

Lemma union_difference_l (S L : gmap listenerKey nat) : S ##ₘ L → (S ∪ L) ∖ S = L.
Proof.
  intros Hd. apply map_eq. intros k. rewrite lookup_difference.
  destruct (S !! k) as [r|] eqn:E; [symmetry; by eapply map_disjoint_Some_l|by rewrite lookup_union_r].
Qed.

(** ** Apply *)

Definition wf (s : Supervisor) : Prop := owns (listeners s) (world s).

Lemma NewSupervisor_wf now : wf (NewSupervisor now).
Proof.
  constructor; cbn [NewSupervisor listeners world sockets runtimeRules attempts].
  - intros k r. by rewrite lookup_empty.
  - intros r. rewrite lookup_empty. by intros [? ?].
  - intros k k' r. by rewrite lookup_empty.
  - intros r. rewrite lookup_empty. by intros [? ?].
Qed.

Section apply_facts.
Context `{UnicodeTables}.
Context (net_listen : nat → gmap nat (string * string) → string → string → option string).

(** The iterations over the grouped rules visit every key once. *)
Definition visits (groupOrder : list listenerKey) (rules : list RuleConfig) : Prop :=
  ∀ grouped, groupRulesByListener rules = Ok grouped → groupOrder ≡ₚ map fst (map_to_list grouped).

(** What an application that succeeds leaves. *)
Definition applied (rules : list RuleConfig) (s s' : Supervisor) : Prop :=
  (∀ k, served (listeners s') (world s') k = rulesFor k rules) ∧
  (∀ k r, listeners s !! k = Some r → is_Some (rulesFor k rules) → listeners s' !! k = Some r) ∧
  (∀ k l, is_Some (listeners s' !! k) → is_Some (listeners s' !! l) → k ≠ l →
          listenerKeysOverlap k l = false).

(** What a rejected one leaves: nothing new is served, and every listener
    that is still there serves what it served. *)
Definition rolled_back (s s' : Supervisor) : Prop :=
  ∀ k, served (listeners s') (world s') k = None
       ∨ served (listeners s') (world s') k = served (listeners s) (world s) k.

(** Every socket the supervisor holds could be opened again. *)
Definition rebindable (s : Supervisor) : Prop :=
  ∀ k, is_Some (listeners s !! k) → ∃ n, listenNetwork (key_protocol k) = Some n ∧
    ∀ i sk, net_listen i sk n (listenAddress k) = None.

(** The state after the overlapping absent listeners were stopped. *)
Definition stopped_from (s : Supervisor) (grouped : ruleGroups) (old : gmap listenerKey nat) (w1 : World)
    (stopped : list stoppedListener) : Prop :=
  owns old w1 ∧ runtimeRules w1 = runtimeRules (world s) ∧ NoDup (map fst stopped) ∧
  (∀ k, old !! k = if decide (k ∈ map fst stopped) then None else listeners s !! k) ∧
  (∀ k rs, (k, rs) ∈ stopped → served (listeners s) (world s) k = Some rs ∧ grouped !! k = None).

Lemma elem_of_keys {V} (l : list (listenerKey * V)) k : k ∈ map fst l ↔ ∃ v, (k, v) ∈ l.
Proof using Type.
  rewrite list_elem_of_In, in_map_iff. split.
  - intros ([k' v] & <- & Hin). exists v. by apply list_elem_of_In.
  - intros (v & Hin). exists (k, v). split; [done|by apply list_elem_of_In].
Qed.

Lemma elem_of_map_keys {V} (m : gmap listenerKey V) k : k ∈ map fst (map_to_list m) ↔ is_Some (m !! k).
Proof using Type. rewrite elem_of_keys. by setoid_rewrite elem_of_map_to_list. Qed.

(** Undoing a failed start: [started] are the new listeners that did open. *)
Lemma rollback_spec s grouped old w1 preStopped started w2 :
  stopped_from s grouped old w1 preStopped →
  owns (started ∪ old) w2 → started ##ₘ old → preserves old w1 w2 →
  let '(restored, w4, _) := restoreStoppedListenersLocked net_listen preStopped old (stopAll started w2) in
  let s' := {| listeners := restored; world := w4; metrics := metrics s |} in
  wf s' ∧ rolled_back s s' ∧
  (rebindable s → ∀ k, served restored w4 k = served (listeners s) (world s) k).
Proof using Type.
  intros (Ho1 & Hr1 & Hnds & HL & Hst) Ho2 Hd2 Hp2.
  destruct (stopAll_owns started (started ∪ old) w2 Ho2) as [Ho3 Hr3]; [apply map_union_subseteq_l|].
  rewrite union_difference_l in Ho3 by done. set (w3 := stopAll started w2) in *.
  assert (∀ k, k ∈ map fst preStopped → old !! k = None) as Hnone.
  { intros k Hk. by rewrite HL, decide_True. }
  pose proof (restore_spec net_listen preStopped old w3 Ho3 Hnds Hnone) as Hres.
  pose proof (restore_succeeds net_listen preStopped old w3) as Hsucc.
  destruct (restoreStoppedListenersLocked _ _ _ _) as [[restored w4] rerr].
  destruct Hres as (Ho4 & Hp4 & Hsub4 & Hback & Hall). cbv zeta. split; [done|].
  assert (∀ k r, old !! k = Some r → served restored w4 k = served (listeners s) (world s) k) as Hold.
  { intros k r Hk. unfold served. rewrite (lookup_weaken _ _ _ _ Hk Hsub4).
    pose proof (HL k) as HLk. rewrite Hk in HLk. destruct (decide _); [done|]. rewrite <-HLk. cbn.
    rewrite (Hp4 k r Hk), Hr3, (Hp2 k r Hk). by rewrite Hr1. }
  split.
  - intros k. cbn [listeners world]. destruct (restored !! k) as [r|] eqn:Ek; [|left; unfold served; by rewrite Ek].
    right. destruct (Hback k r Ek) as [Hk|(rs & Hin & Hs)]; [by eapply Hold|].
    rewrite Hs. symmetry. by apply Hst.
  - intros Hre k. destruct (old !! k) as [r|] eqn:Ek; [by eapply Hold|].
    destruct (decide (k ∈ map fst preStopped)) as [Hin|Hin].
    + apply elem_of_keys in Hin as [rs Hin]. destruct (Hst _ _ Hin) as [Hs _]. rewrite Hs. apply Hall; [|done].
      apply Hsucc. intros k' rs' Hin'. apply Hre. destruct (Hst _ _ Hin') as [Hs' _].
      unfold served in Hs'. by destruct (listeners s !! k').
    + pose proof (HL k) as HLk. rewrite Ek, decide_False in HLk by done.
      unfold served at 2. rewrite <-HLk. cbn.
      destruct (served restored w4 k) as [rs|] eqn:Es; [|done]. exfalso.
      unfold served in Es. destruct (restored !! k) as [r|] eqn:Er; [|done].
      destruct (Hback k r Er) as [?|(rs' & Hin' & _)]; [congruence|]. apply Hin, elem_of_keys. eauto.
Qed.

Lemma next_difference (next started old : gmap listenerKey nat) :
  (∀ k r, next !! k = Some r → (started ∪ old) !! k = Some r) → started ⊆ next →
  (started ∪ old) ∖ filter (λ '(k, _), next !! k = None) old = next.
Proof using Type.
  intros Hn2 Hs2. apply map_eq. intros k. rewrite lookup_difference. destruct (next !! k) as [r|] eqn:En.
  - assert (filter (λ '(k, _), next !! k = None) old !! k = None) as ->.
    { apply map_lookup_filter_None. right. intros x _. by rewrite En. }
    by apply Hn2.
  - assert (started !! k = None) as Hsk.
    { destruct (started !! k) eqn:Es; [|done]. by rewrite (lookup_weaken _ _ _ _ Es Hs2) in En. }
    destruct (filter _ old !! k) as [r|] eqn:Er; [done|]. rewrite lookup_union_r by done.
    apply map_lookup_filter_None in Er as [?|Hx]; [done|].
    destruct (old !! k) as [r|] eqn:Eo; [|done]. by destruct (Hx r eq_refl).
Qed.

(** Committing: every key of the new configuration has a runtime in [next]. *)
Lemma commit_spec s rules grouped groupOrder targetOrder old w1 preStopped next started w2 :
  groupRulesByListener rules = Ok grouped → groupOrder ≡ₚ map fst (map_to_list grouped) →
  firstOverlap groupOrder = None → stopped_from s grouped old w1 preStopped →
  owns (started ∪ old) w2 → started ##ₘ old →
  (∀ k r, next !! k = Some r → (started ∪ old) !! k = Some r) → started ⊆ next →
  (∀ k, is_Some (next !! k) ↔ is_Some (grouped !! k)) →
  let w4 := stopAll (filter (λ '(k, _), next !! k = None) old) (setAllRules grouped next w2) in
  let s' := {| listeners := next; world := w4;
               metrics := setActiveTargets rules targetOrder (metrics s) |} in
  wf s' ∧ applied rules s s'.
Proof using Type.
  intros Eg Hvis Ef (_ & _ & _ & HL & Hst) Ho2 Hd2 Hn2 Hs2 Hdom. cbv zeta.
  set (removed := filter _ old).
  assert (removed ⊆ started ∪ old) as Hrem.
  { etransitivity; [apply map_filter_subseteq|]. by apply map_union_subseteq_r. }
  unfold setAllRules. set (l := map_to_list grouped).
  destruct (setRules_list l next w2) as (Hs3 & Ha3 & Hr3 & _). set (w3 := foldl _ w2 l) in *.
  assert (owns (started ∪ old) w3) as Ho3 by (by eapply owns_sockets).
  destruct (stopAll_owns removed (started ∪ old) w3 Ho3 Hrem) as [Ho4 Hr4].
  unfold removed in Ho4 at 1. rewrite next_difference in Ho4 by done. split; [done|]. split; [|split].
  - intros k. cbn [listeners world]. rewrite <-(groupRulesByListener_spec rules grouped Eg). unfold served.
    destruct (next !! k) as [r|] eqn:En; cbn.
    + destruct (proj1 (Hdom k) (mk_is_Some _ _ En)) as [rs Hrs]. rewrite Hr4, Hrs.
      eapply (setRules_list_hit l next w2 k rs r); [apply NoDup_fst_map_to_list| |by apply elem_of_map_to_list|done].
      intros k1 k2 r' H1 H2. eapply (owns_inj _ _ Ho4); eauto.
    + destruct (grouped !! k) eqn:Ek; [|done]. destruct (proj2 (Hdom k)) as [? ?]; [eauto|congruence].
  - intros k r Hk. cbn [listeners]. rewrite <-(groupRulesByListener_spec rules grouped Eg). intros Hg.
    pose proof Hg as [r' Hr']%Hdom.
    pose proof (HL k) as HLk. destruct (decide (k ∈ map fst preStopped)) as [Hin|Hin].
    + exfalso. apply elem_of_keys in Hin as [rs Hin]. destruct (Hst _ _ Hin) as [_ Hn].
      rewrite Hn in Hg. by destruct Hg.
    + rewrite Hk in HLk. pose proof (Hn2 k r' Hr') as Hu.
      rewrite lookup_union_r in Hu by (by eapply map_disjoint_Some_r). congruence.
  - intros k1 k2 H1 H2 Hne. cbn [listeners] in *.
    eapply firstOverlap_pairwise; [done| | |done]; rewrite Hvis, elem_of_map_keys; by apply Hdom.
Qed.

Lemma Apply_cases oldOrder groupOrder targetOrder rules s :
  wf s → visits groupOrder rules →
  let '(s', res) := Apply net_listen oldOrder groupOrder targetOrder rules s in
  wf s' ∧
  match res with
  | Ok _ => applied rules s s'
  | Err _ => rolled_back s s' ∧
             (rebindable s → ∀ k, served (listeners s') (world s') k = served (listeners s) (world s) k)
  end.
Proof using Type.
  intros Hwf Hvis. unfold Apply.
  destruct (groupRulesByListener rules) as [grouped|e] eqn:Eg.
  2:{ split; [done|]. split; [intros k; by right|done]. }
  specialize (Hvis grouped Eg). unfold validateNoOverlappingListeners.
  destruct (firstOverlap groupOrder) as [[k1 k2]|] eqn:Ef.
  { split; [done|]. split; [intros k; by right|done]. }
  pose proof (stopOverlapping_spec oldOrder grouped (listeners s) (world s) Hwf) as Hstop.
  destruct (stopOverlappingAbsentListenersLocked _ _ _ _) as [[old w1] preStopped].
  fold (stopped_from s grouped old w1 preStopped) in Hstop.
  set (order := map (λ k, (k, default [] (grouped !! k))) groupOrder).
  assert (map fst order = groupOrder) as Hord by (unfold order; rewrite map_map; apply map_id).
  pose proof (startLoop_spec net_listen old order ∅ ∅ w1) as Hloop.
  rewrite map_empty_union in Hloop. specialize (Hloop (proj1 Hstop)).
  destruct (startLoop net_listen old order ∅ ∅ w1) as [[[next started] w2] res].
  destruct Hloop as (Ho2 & Hd2 & Hp2 & Hn2 & Hs2 & Hdom2).
  { apply map_disjoint_empty_l. } { intros k r. by rewrite lookup_empty. } { done. }
  { rewrite Hord, Hvis. apply NoDup_fst_map_to_list. } { intros. apply lookup_empty. }
  destruct res as [[[key krules] err]|].
  - pose proof (rollback_spec s grouped old w1 preStopped started w2 Hstop Ho2 Hd2 Hp2) as Hrb.
    destruct (restoreStoppedListenersLocked _ _ _ _) as [[restored w4] rerr]. naive_solver.
  - eapply commit_spec; try done. intros k. rewrite Hdom2, lookup_empty, Hord, Hvis, elem_of_map_keys by done.
    split; [|by right]. intros [[? ?]|?]; done.
Qed.
End apply_facts.

Lemma Close_sockets s : wf s → sockets (world (Close s)) = ∅ ∧ wf (Close s).
Proof.
  intros Hwf. destruct (stopAll_owns (listeners s) (listeners s) (world s) Hwf) as [Ho _]; [done|].
  rewrite map_difference_diag in Ho. split; [|done].
  apply map_eq. intros r. rewrite lookup_empty. cbn [Close world].
  destruct (sockets (stopAll (listeners s) (world s)) !! r) as [x|] eqn:E; [|done].
  destruct (owns_owner _ _ Ho r (mk_is_Some _ _ E)) as (k & Hk). by rewrite lookup_empty in Hk.
Qed.

(** ** Properties *)

Section properties.
Context `{UnicodeTables}.
Context (net_listen : nat → gmap nat (string * string) → string → string → option string).

(** The states a supervisor can be in. *)
Inductive Reachable : Supervisor → Prop :=
| reach_new now : Reachable (NewSupervisor now)
| reach_apply s oldOrder groupOrder targetOrder rules :
    Reachable s → visits groupOrder rules →
    Reachable (Apply net_listen oldOrder groupOrder targetOrder rules s).1
| reach_close s : Reachable s → Reachable (Close s).

Lemma Reachable_wf s : Reachable s → wf s.
Proof using Type.
  induction 1 as [now|s oldOrder groupOrder targetOrder rules _ IH Hv|s _ IH].
  - apply NewSupervisor_wf.
  - pose proof (Apply_cases net_listen oldOrder groupOrder targetOrder rules s IH Hv) as Ha.
    destruct (Apply _ _ _ _ _ s). apply Ha.
  - by apply Close_sockets.
Qed.

(** C26. A configuration that applies is served exactly: every listener of the
    enabled rules is open and serves those rules in order, no other listener
    is, no two of them overlap, and a listener that was already open keeps its
    runtime (its connections are not cut). *)
Theorem Apply_success oldOrder groupOrder targetOrder rules s s' :
  Reachable s → visits groupOrder rules →
  Apply net_listen oldOrder groupOrder targetOrder rules s = (s', Ok ()) → applied rules s s'.
Proof using Type.
  intros Hr Hv Ha. pose proof (Apply_cases net_listen oldOrder groupOrder targetOrder rules s
    (Reachable_wf s Hr) Hv) as Hc. rewrite Ha in Hc. apply Hc.
Qed.


(** C22. Sockets are never leaked: in every reachable state the open sockets are
    exactly those of the listeners, also after failed applications, so closing
    the supervisor closes all of them. *)
Theorem no_socket_leak s :
  Reachable s →
  (∀ r, is_Some (sockets (world s) !! r) ↔ ∃ k, listeners s !! k = Some r) ∧
  sockets (world (Close s)) = ∅.
Proof using Type.
  intros Hr. pose proof (Reachable_wf s Hr) as Hwf. split; [|by apply Close_sockets].
  intros r. split; [by apply owns_owner|]. intros (k & Hk).
  destruct (owns_open _ _ Hwf k r Hk) as (n & _ & Hs & _). eauto.
Qed.
End properties.

(** A system on which an address is in use while a socket has it, and port 22
    always is. *)
Definition example_listen (_ : nat) (open : gmap nat (string * string)) (network address : string) : option string :=
  if existsb (λ kv, bool_decide (kv.2 = (network, address))) (map_to_list open)
  then Some "bind: address already in use"
  else if HasSuffix address ":22" then Some "bind: address already in use" else None.

Definition example_listener_rule (id ip : string) (port : Z) : RuleConfig :=
  example_rule id "TCP" ip port "ANY_INBOUND" "" (single_target (example_target "t" "10.0.0.1" 80 1)).

Definition example_supervisor : Supervisor :=
  (@Apply example_listen ascii_tables [] [("127.0.0.1", "TCP", 80)] []
     [example_listener_rule "r1" "127.0.0.1" 80] (NewSupervisor 0)).1.

Lemma example_visits rules order :
  (g ← groupRulesByListener rules; Ok (map fst (map_to_list g))) = Ok order → visits order rules.
Proof. intros E grouped Hg. rewrite Hg in E. cbn in E. by injection E as ->. Qed.

Lemma example_reachable : Reachable example_listen example_supervisor (H := ascii_tables).
Proof. apply reach_apply; [constructor|]. apply example_visits. vm_compute. reflexivity. Qed.

Lemma Apply_success_witness :
  let rules := [example_listener_rule "r2" "0.0.0.0" 80] in
  ∃ s', applied rules example_supervisor s'.
Proof.
  eexists. apply (@Apply_success ascii_tables example_listen [("127.0.0.1", "TCP", 80)] [("0.0.0.0", "TCP", 80)] []
    [example_listener_rule "r2" "0.0.0.0" 80] example_supervisor); [exact example_reachable| |].
  - apply example_visits. vm_compute. reflexivity.
  - vm_compute. reflexivity.
Defined.


Lemma no_socket_leak_witness : sockets (world (Close example_supervisor)) = ∅.
Proof. apply (@no_socket_leak ascii_tables example_listen). exact example_reachable. Defined.
