(* ===== verification/Forwarding.v ===== *)
(** * Connections and datagrams (pkg/core/forward/supervisor.go, target_selection.go)

    What the supervisor does with a TCP connection ([proxyTCP]) and with a UDP
    datagram ([proxyUDP] and the session table).  The calls on the metrics
    counter are steps of Metrics.v ([metricsOp]), in the order the code makes
    them, since other connections' calls can come in between. *)

From S2P Require Import Prelude GoString GoInt GoFloat GoNet Agent Traffic TargetSelection Metrics ProxyProtocol TlsSni.
#[local] Open Scope Z_scope.

(** ** Selecting a target *)

Section select.
Context `{UnicodeTables}.

Definition selectLeastLoadTargetGroupEndpoint (rule : RuleConfig) (m : metricsCounter) : option TargetEndpoint :=
  match enabledLeastLoadTargetGroupCandidates rule with
  | [] => None
  | best :: rest =>
      let counts := openConnectionsForTargets m (rule_ID rule) (best :: rest) in
      Some (leastLoad (λ t, default 0 (counts !! target_ID t)) best rest)
  end.

(** [candidates[index]] panics out of range. *)
Definition selectTargetGroupEndpoint (rule : RuleConfig) (source : option string) (m : metricsCounter)
    : result (fault ()) (option TargetEndpoint) :=
  if isLeastLoad rule then Ok (selectLeastLoadTargetGroupEndpoint rule m)
  else
    let candidates := enabledTargetGroupCandidates rule in
    match candidates with
    | [] => Ok None
    | _ => match candidates !! Z.to_nat (hashIndex rule source (length candidates)) with
           | Some target => Ok (Some target)
           | None => Err Panic
           end
    end.

Definition selectTarget (rule : RuleConfig) (source : option string) (m : metricsCounter)
    : result (fault ()) (option TargetEndpoint) :=
  let group := if String.eqb (up_Type (rule_Upstream rule)) "TARGET_GROUP"
               then selectTargetGroupEndpoint rule source m else Ok None in
  if String.eqb (up_Type (rule_Upstream rule)) "TARGET" then
    match up_Target (rule_Upstream rule) with
    | Some target => if target_Enabled target then Ok (Some target) else group
    | None => group
    end
  else group.

(** A selection: the counter after it, and the target and whether a dial (a
    session) is reserved. *)
Abbreviation selection := (metricsCounter * option (TargetEndpoint * bool))%type.

Definition selectTCPTarget (rule : RuleConfig) (source : option string) (m : metricsCounter)
    : result (fault ()) selection :=
  if String.eqb (up_Type (rule_Upstream rule)) "TARGET_GROUP" && isLeastLoad rule then
    Ok (reserveLeastLoadTargetTCPDial (rule_ID rule) (enabledLeastLoadTargetGroupCandidates rule) m)
  else
    target ← selectTarget rule source m;
    match target with
    | None => Ok (m, None)
    | Some target => let '(m', reserved) := reserveTargetTCPDial (rule_ID rule) (target_ID target) m in
                     Ok (m', Some (target, reserved))
    end.

Definition selectUDPTarget (rule : RuleConfig) (source : option string) (m : metricsCounter)
    : result (fault ()) selection :=
  if String.eqb (up_Type (rule_Upstream rule)) "TARGET_GROUP" && isLeastLoad rule then
    Ok (reserveLeastLoadTargetUDPSession (rule_ID rule) (enabledLeastLoadTargetGroupCandidates rule) m)
  else
    target ← selectTarget rule source m;
    match target with
    | None => Ok (m, None)
    | Some target => Ok (m, Some (target, false))
    end.
End select.

Definition targetAddress (target : TargetEndpoint) : string :=
  JoinHostPort (target_Host target) (Itoa (target_Port target)).

(** ** A TCP connection *)

Section tcp.
Context `{UnicodeTables}.

Definition sourceAddr (ip : bytes) (port : Z) : string := TCPAddr_String ip port.

(** The first part of [proxyTCP]: the rule of the connection, its source
    address, the bytes read while choosing, and what is left to read. *)
Definition tcpRoute (conn : bytes) (remote : string) (rules : list RuleConfig)
    : result (fault ()) (option (RuleConfig * string * bytes * bytes)) :=
  match selectAnyInboundRule rules with
  | Some rule =>
      let proxyVersion := normalizedProxyProtocol (rule_ProxyProtocolIn rule) in
      if negb (String.eqb proxyVersion "") then
        match consumeInboundProxyHeader conn proxyVersion with
        | Ok (proxyInfo, reader) =>
            Ok (Some (rule, sourceAddr (SourceIP proxyInfo) (SourcePort proxyInfo), [], reader))
        | Err (Error _) => Ok None
        | Err Panic => Err Panic
        end
      else Ok (Some (rule, remote, [], conn))
  | None =>
      selected ← selectSNIRule conn rules;
      match selected with
      | None => Ok None
      | Some s =>
          if String.eqb (rule_ID (match_rule s)) "" then Ok None
          else
            let source := match match_source s with
                          | Some (ip, port) => sourceAddr ip port | None => remote end in
            Ok (Some (match_rule s, source, match_preface s, match_reader s))
      end
  end.

(** The third-party formatter of PROXY headers: version, source, destination. *)
Context (formatHeader : Z → bytes * Z → bytes * Z → option bytes).

(** [splitAddr]: 127.0.0.1 stands for what is not an IP address. *)
Definition splitAddr (address : string) : bytes * Z :=
  let localhost := v4_in_v6 [x7f; x00; x00; x01] in
  match SplitHostPort address with
  | None => (localhost, 0)
  | Some (host, portText) =>
      (match ParseIP host with Some ip => ip | None => localhost end,
       match Atoi portText with Some port => port | None => 0 end)
  end.

Definition outboundProxyHeader (version source destination : string) : option bytes :=
  if String.eqb version "V1" then formatHeader 1 (splitAddr source) (splitAddr destination)
  else if String.eqb version "V2" then formatHeader 2 (splitAddr source) (splitAddr destination)
  else None.

(** What the network does to a connection: the time the dial took, unless it
    failed; the target's address; how many bytes the target takes before its
    connection breaks; and the copied chunks in the order they are copied. *)
Inductive copyEvent := CopyUp (size : nat) | CopyDown (size : Z).
Record tcpEnv := {
  env_dial : option Z; env_upstreamAddr : string; env_capacity : nat; env_copies : list copyEvent }.

(** [addTargetUpload] and [addTargetDownload], called for [n > 0]. *)
Definition uploadOps (rule : RuleConfig) (target : TargetEndpoint) (n : Z) : list metricsOp :=
  if 0 <? n then [OpUpload n; OpTargetUpload (rule_ID rule) (target_ID target) n] else [].
Definition downloadOps (rule : RuleConfig) (target : TargetEndpoint) (n : Z) : list metricsOp :=
  if 0 <? n then [OpDownload n; OpTargetDownload (rule_ID rule) (target_ID target) n] else [].

(** [upstream.Write(payload)]: a short write is an error. *)
Definition upstreamWrite (capacity : nat) (payload : bytes) : bytes * nat * bool :=
  (take capacity payload, (capacity - length payload)%nat, (capacity <? length payload)%nat).

(** The two [io.Copy] loops; a failed write closes both sides. *)
Fixpoint copyLoop (rule : RuleConfig) (target : TargetEndpoint) (events : list copyEvent)
    (reader : bytes) (capacity : nat) : list metricsOp * bytes :=
  match events with
  | [] => ([], [])
  | CopyDown n :: rest =>
      let '(ops, up) := copyLoop rule target rest reader capacity in
      (downloadOps rule target n ++ ops, up)
  | CopyUp size :: rest =>
      let '(written, capacity', failed) := upstreamWrite capacity (take size reader) in
      let ops := uploadOps rule target (Z.of_nat (length written)) in
      if failed then (ops, written)
      else let '(ops', up) := copyLoop rule target rest (drop size reader) capacity' in
           (ops ++ ops', written ++ up)
  end.

(** Write a header or the preface before copying: [None] when there is none. *)
Definition writeFirst (rule : RuleConfig) (target : TargetEndpoint) (payload : bytes) (capacity : nat)
    : list metricsOp * bytes * nat * bool :=
  let '(written, capacity', failed) := upstreamWrite capacity payload in
  (uploadOps rule target (Z.of_nat (length written)), written, capacity', failed).

Definition wantsOutHeader (rule : RuleConfig) : bool :=
  negb (String.eqb (rule_ProxyProtocolOut rule) "") && negb (String.eqb (rule_ProxyProtocolOut rule) "NONE").

(** The header to send, [Some []] when the rule asks for none. *)
Definition outHeader (rule : RuleConfig) (source : string) (env : tcpEnv) : option bytes :=
  if wantsOutHeader rule
  then outboundProxyHeader (rule_ProxyProtocolOut rule) source (env_upstreamAddr env) else Some [].

(** The rest of [proxyTCP] once a target is selected: the calls on the
    counter and the bytes the target receives. *)
Definition tcpServe (env : tcpEnv) (rule : RuleConfig) (source : string) (preface reader : bytes)
    (target : TargetEndpoint) (reserved : bool) : list metricsOp * bytes :=
  match env_dial env with
  | None => (if reserved then [OpReleaseTCP (rule_ID rule) (target_ID target)] else [], [])
  | Some latency =>
      let opened := [ OpLatency (rule_ID rule) (target_ID target) latency; OpTCPConnection 1;
                      if reserved then OpPromoteTCP (rule_ID rule) (target_ID target)
                      else OpTargetTCP (rule_ID rule) (target_ID target) 1 ] in
      let closed := [ OpTCPConnection (-1); OpTargetTCP (rule_ID rule) (target_ID target) (-1) ] in
      match outHeader rule source env with
      | None => (opened ++ closed, [])
      | Some header =>
          let '(ops1, up1, capacity1, failed1) := writeFirst rule target header (env_capacity env) in
          if failed1 then (opened ++ ops1 ++ closed, up1)
          else
            let '(ops2, up2, capacity2, failed2) := writeFirst rule target preface capacity1 in
            if failed2 then (opened ++ (ops1 ++ ops2) ++ closed, up1 ++ up2)
            else
              let '(ops3, up3) := copyLoop rule target (env_copies env) reader capacity2 in
              (opened ++ (ops1 ++ ops2 ++ ops3) ++ closed, up1 ++ up2 ++ up3)
      end
  end.
End tcp.

(** ** What a connection adds to the counters *)

Definition op_upload (op : metricsOp) : Z := match op with OpUpload n => n | _ => 0 end.
Definition op_targetUpload (op : metricsOp) : Z := match op with OpTargetUpload _ _ n => n | _ => 0 end.
(** Changes of the process's open connections, of a target's reservations and
    of a target's connections. *)
Definition op_open (op : metricsOp) : Z := match op with OpTCPConnection n => n | _ => 0 end.
Definition op_reserved (op : metricsOp) : Z :=
  match op with OpReleaseTCP _ _ | OpPromoteTCP _ _ => -1 | _ => 0 end.
Definition op_connected (op : metricsOp) : Z :=
  match op with OpPromoteTCP _ _ => 1 | OpTargetTCP _ _ n => n | _ => 0 end.
Definition op_sum (g : metricsOp → Z) (ops : list metricsOp) : Z := Zsum (map g ops).

Lemma op_sum_app g l k : op_sum g (l ++ k) = op_sum g l + op_sum g k.
Proof. unfold op_sum. by rewrite map_app, Zsum_app. Qed.

(** Uploading or downloading leaves the gauges alone and counts what was
    written. *)
Definition copy_ops (ops : list metricsOp) (written : bytes) : Prop :=
  op_sum op_upload ops = Z.of_nat (length written) ∧
  op_sum op_targetUpload ops = Z.of_nat (length written) ∧
  op_sum op_open ops = 0 ∧ op_sum op_reserved ops = 0 ∧ op_sum op_connected ops = 0.

Lemma copy_ops_app o1 w1 o2 w2 : copy_ops o1 w1 → copy_ops o2 w2 → copy_ops (o1 ++ o2) (w1 ++ w2).
Proof.
  unfold copy_ops. intros (?&?&?&?&?) (?&?&?&?&?). rewrite !op_sum_app, length_app. lia.
Qed.

Lemma uploadOps_copy rule target (w : bytes) : copy_ops (uploadOps rule target (Z.of_nat (length w))) w.
Proof.
  unfold uploadOps, copy_ops. destruct (Z.ltb_spec 0 (Z.of_nat (length w))); unfold op_sum, Zsum; simpl; lia.
Qed.

Lemma downloadOps_copy rule target n : copy_ops (downloadOps rule target n) [].
Proof. unfold downloadOps, copy_ops. destruct (0 <? n); unfold op_sum, Zsum; simpl; lia. Qed.

Lemma prefix_take_app {A} (l k : list A) n u : u `prefix_of` k → (length l ≤ n)%nat → take n l ++ u `prefix_of` l ++ k.
Proof. intros Hu Hn. rewrite take_ge by done. by apply prefix_app. Qed.

Lemma copyLoop_spec rule target events reader capacity :
  let '(ops, up) := copyLoop rule target events reader capacity in
  copy_ops ops up ∧ up `prefix_of` reader.
Proof.
  revert reader capacity. induction events as [|[size|n] events IH]; intros reader capacity; cbn [copyLoop].
  - split; [|apply prefix_nil]. unfold copy_ops, op_sum, Zsum. simpl. lia.
  - unfold upstreamWrite. set (chunk := take size reader). pose proof (uploadOps_copy rule target (take capacity chunk)) as Hc.
    destruct (Nat.ltb_spec capacity (length chunk)).
    + split; [done|]. unfold chunk. rewrite take_take. apply prefix_take.
    + specialize (IH (drop size reader) (capacity - length chunk)%nat).
      destruct (copyLoop _ _ _ _ _) as [ops' up]. destruct IH as [IH1 IH2].
      split; [by apply copy_ops_app|]. rewrite (take_ge chunk) by done.
      rewrite <-(take_drop size reader). by apply prefix_app.
  - specialize (IH reader capacity). destruct (copyLoop _ _ _ _ _) as [ops' up]. destruct IH as [IH1 IH2].
    split; [|done]. change up with ([] ++ up). apply copy_ops_app; [apply downloadOps_copy|done].
Qed.

Section tcp_facts.
Context `{UnicodeTables} (formatHeader : Z → bytes * Z → bytes * Z → option bytes).

(** The calls between opening and closing a connection. *)
Lemma tcpServe_shape env rule source preface reader target reserved latency :
  env_dial env = Some latency →
  let '(ops, up) := tcpServe formatHeader env rule source preface reader target reserved in
  ∃ middle, copy_ops middle up ∧
    ops = [ OpLatency (rule_ID rule) (target_ID target) latency; OpTCPConnection 1;
            if reserved then OpPromoteTCP (rule_ID rule) (target_ID target)
            else OpTargetTCP (rule_ID rule) (target_ID target) 1 ]
          ++ middle ++ [ OpTCPConnection (-1); OpTargetTCP (rule_ID rule) (target_ID target) (-1) ] ∧
    (up = [] ∨ ∃ header, outHeader formatHeader rule source env = Some header ∧
                         up `prefix_of` header ++ preface ++ reader).
Proof using Type.
  intros Hd. unfold tcpServe. rewrite Hd.
  destruct (outHeader formatHeader rule source env) as [header|] eqn:Eh.
  2:{ exists []. split; [|by auto]. unfold copy_ops, op_sum, Zsum; simpl; lia. }
  unfold writeFirst, upstreamWrite. set (cap := env_capacity env).
  pose proof (uploadOps_copy rule target (take cap header)) as H1.
  destruct (Nat.ltb_spec cap (length header)) as [Hf1|Hf1].
  { exists (uploadOps rule target (Z.of_nat (length (take cap header)))). split; [done|]. split; [done|].
    right. exists header. split; [done|]. apply prefix_app_r, prefix_take. }
  pose proof (uploadOps_copy rule target (take (cap - length header) preface)) as H2.
  destruct (Nat.ltb_spec (cap - length header) (length preface)) as [Hf2|Hf2].
  { exists (uploadOps rule target (Z.of_nat (length (take cap header)))
            ++ uploadOps rule target (Z.of_nat (length (take (cap - length header) preface)))).
    split; [by apply copy_ops_app|]. split; [done|]. right. exists header. split; [done|].
    apply prefix_take_app; [|done]. apply prefix_app_r, prefix_take. }
  pose proof (copyLoop_spec rule target (env_copies env) reader (cap - length header - length preface)) as H3.
  destruct (copyLoop _ _ _ _ _) as [ops3 up3]. destruct H3 as [H3 Hpre].
  exists (uploadOps rule target (Z.of_nat (length (take cap header)))
          ++ uploadOps rule target (Z.of_nat (length (take (cap - length header) preface))) ++ ops3).
  split; [by repeat apply copy_ops_app|]. split; [done|]. right. exists header. split; [done|].
  apply prefix_take_app; [|done]. by apply prefix_take_app.
Qed.

Lemma tcpRoute_safe conn remote rules :
  safe_m (λ o, ∀ rule source preface reader, o = Some (rule, source, preface, reader) →
    rule ∈ rules ∧ ∃ header, conn = header ++ preface ++ reader ∧
      (header = [] ↔ normalizedProxyProtocol (rule_ProxyProtocolIn rule) = ""))
    (tcpRoute conn remote rules).
Proof using Type.
  unfold tcpRoute. destruct (selectAnyInboundRule rules) as [rule|] eqn:Ea.
  - apply List.find_some in Ea as [Hin _]. apply list_elem_of_In in Hin. cbv zeta.
    destruct (String.eqb_spec (normalizedProxyProtocol (rule_ProxyProtocolIn rule)) "") as [Hv|Hv]; cbn [negb].
    + intros ? ? ? ? [= <- <- <- <-]. split; [done|]. exists []. rewrite Hv. done.
    + pose proof (consume_safe conn (normalizedProxyProtocol (rule_ProxyProtocolIn rule))) as Hc.
      destruct (consumeInboundProxyHeader _ _) as [[info reader]|[e|]]; [|done|done].
      destruct Hc as (_ & header & Hconn & Hne). intros ? ? ? ? [= <- <- <- <-]. split; [done|].
      exists header. split; [done|]. naive_solver.
  - eapply safe_bind; [apply selectSNIRule_safe|]. intros [s|] Hs; [|done].
    destruct (Hs s eq_refl) as (Hin & _ & _ & header & Hconn & _ & Hver).
    destruct (String.eqb _ ""); [done|]. intros ? ? ? ? [= <- <- <- <-]. split; [done|].
    by exists header.
Qed.
End tcp_facts.

(** ** Properties of TCP forwarding *)

Section tcp_properties.
Context `{UnicodeTables} (formatHeader : Z → bytes * Z → bytes * Z → option bytes).

(** C27. Forwarding is transparent: for a routed connection, the client's bytes
    are an inbound PROXY header (present exactly when the rule asks for one)
    followed by the payload, and what the target receives is a prefix of the
    outbound header (empty when the rule asks for none) followed by that
    payload, whatever the target accepts and however the copies are cut; the
    uploads counted for the target and the process are the bytes it received. *)
Theorem proxyTCP_transparent conn remote rules rule source preface reader env target reserved :
  tcpRoute conn remote rules = Ok (Some (rule, source, preface, reader)) →
  let '(ops, up) := tcpServe formatHeader env rule source preface reader target reserved in
  ∃ inHeader payload, conn = inHeader ++ payload ∧ rule ∈ rules ∧
    (inHeader = [] ↔ normalizedProxyProtocol (rule_ProxyProtocolIn rule) = "") ∧
    (up = [] ∨ ∃ header, outHeader formatHeader rule source env = Some header ∧
                         up `prefix_of` header ++ payload) ∧
    op_sum op_targetUpload ops = Z.of_nat (length up) ∧ op_sum op_upload ops = Z.of_nat (length up).
Proof using Type.
  intros Hr. pose proof (tcpRoute_safe conn remote rules) as Hs. rewrite Hr in Hs.
  destruct (Hs _ _ _ _ eq_refl) as (Hin & header & Hconn & Hver).
  destruct (env_dial env) as [latency|] eqn:Ed.
  - pose proof (tcpServe_shape formatHeader env rule source preface reader target reserved latency Ed) as Hsh.
    destruct (tcpServe _ _ _ _ _ _ _) as [ops up]. destruct Hsh as (mid & (U1 & U2 & _) & -> & Hup).
    exists header, (preface ++ reader). do 4 (split; [done|]). rewrite !op_sum_app, U1, U2.
    unfold op_sum, Zsum. destruct reserved; simpl; lia.
  - unfold tcpServe. rewrite Ed. exists header, (preface ++ reader).
    do 3 (split; [done|]). split; [by left|]. destruct reserved; done.
Qed.

(** C23. A connection gives back what it takes: from its dial to its close, the
    calls it makes change the process's open connections by zero, the target's
    connections by zero, and the target's reservations by minus one exactly
    when the dial was reserved, on every path (failed dial, refused header,
    broken upstream, normal end). *)
Theorem tcpServe_balanced env rule source preface reader target reserved :
  let ops := (tcpServe formatHeader env rule source preface reader target reserved).1 in
  op_sum op_open ops = 0 ∧ op_sum op_connected ops = 0 ∧
  op_sum op_reserved ops = if reserved : bool then -1 else 0.
Proof using Type.
  intros ops. unfold ops. destruct (env_dial env) as [latency|] eqn:Ed.
  - pose proof (tcpServe_shape formatHeader env rule source preface reader target reserved latency Ed) as Hsh.
    destruct (tcpServe _ _ _ _ _ _ _) as [ops' up]. destruct Hsh as (mid & (_ & _ & H1 & H2 & H3) & -> & _).
    cbn [fst]. rewrite !op_sum_app, H1, H2, H3. unfold op_sum, Zsum. destruct reserved; simpl; lia.
  - unfold tcpServe. rewrite Ed. destruct reserved; done.
Qed.
End tcp_properties.

Lemma proxyTCP_transparent_witness :
  let rule := example_rule "r1" "TCP" "0.0.0.0" 80 "ANY_INBOUND" ""
                (single_target (example_target "t1" "10.0.0.1" 8080 1)) in
  let env := {| env_dial := Some 1500000; env_upstreamAddr := "10.0.0.1:8080"; env_capacity := 3;
                env_copies := [CopyUp 2; CopyDown 10; CopyUp 5] |} in
  op_sum op_targetUpload (tcpServe (λ _ _ _, None) env rule "1.2.3.4:5" [] (bytes_of "GET /")
    (example_target "t1" "10.0.0.1" 8080 1) true).1 = 3.
Proof.
  intros rule env.
  pose proof (@proxyTCP_transparent ascii_tables (λ _ _ _, None) (bytes_of "GET /") "1.2.3.4:5" [rule] rule
    "1.2.3.4:5" [] (bytes_of "GET /") env (example_target "t1" "10.0.0.1" 8080 1) true eq_refl) as Hp.
  destruct (tcpServe _ _ _ _ _ _ _) as [ops up] eqn:E. cbn [fst].
  destruct Hp as (_ & _ & _ & _ & _ & _ & -> & _). vm_compute in E. by injection E as _ <-.
Defined.

(** ** UDP sessions *)

Record udpSession := {
  us_ruleID : string; us_targetID : string; us_targetAddress : string; us_clientAddress : string;
  us_lastSeen : Z }.

Abbreviation udpTable := (gmap string udpSession).

Definition udpSessionIdleTimeout : Z := 30000000000.

Definition udpSessionKey (clientAddress ruleID sendIP : string) : string :=
  (clientAddress ++ String (ascii_of_nat 0) ruleID ++ String (ascii_of_nat 0) (TrimSpace sendIP))%string.

(** [closeSessionLocked]: the table without the session, and its call on the
    counter. *)
Definition closeSessionLocked (key : string) (session : udpSession) (table : udpTable)
    : udpTable * list metricsOp :=
  (delete key table, [OpTargetUDPSession (us_ruleID session) (us_targetID session) (-1)]).

Section udp.
Context `{UnicodeTables}.

Definition targetStillConfiguredForRule (rule : RuleConfig) (targetID targetAddr : string) : bool :=
  let same t := String.eqb (target_ID t) targetID && String.eqb (targetAddress t) targetAddr in
  if String.eqb (up_Type (rule_Upstream rule)) "TARGET" then
    match up_Target (rule_Upstream rule) with Some t => target_Enabled t && same t | None => false end
  else if String.eqb (up_Type (rule_Upstream rule)) "TARGET_GROUP" then
    existsb same (activeTargetGroupCandidates rule)
  else false.

(** What the network does to a datagram: whether the target's address
    resolves, whether the socket opens, whether the write succeeds. *)
Record udpEnv := { env_resolves : bool; env_dials : bool; env_writes : bool }.

(** [udpSessionTable.write] at time [now]: the table, the calls on the counter,
    and the target and [created] of its result; [None] is an error before
    there is a session, the last component the error of the write. *)
Definition udpWrite (env : udpEnv) (now : Z) (rule : RuleConfig) (target : TargetEndpoint)
    (clientAddress : string) (table : udpTable)
    : udpTable * list metricsOp * option (string * bool * bool) :=
  let key := udpSessionKey clientAddress (rule_ID rule) (rule_SendIP rule) in
  let '(table1, ops1, session) :=
    match table !! key with
    | Some session =>
        if negb (targetStillConfiguredForRule rule (us_targetID session) (us_targetAddress session))
        then let '(table', ops) := closeSessionLocked key session table in (table', ops, None)
        else (table, [], Some session)
    | None => (table, [], None)
    end in
  match session with
  | Some s =>
      let s' := {| us_ruleID := us_ruleID s; us_targetID := us_targetID s;
                   us_targetAddress := us_targetAddress s; us_clientAddress := us_clientAddress s;
                   us_lastSeen := now |} in
      (<[key := s']> table1, ops1, Some (us_targetID s, false, negb (env_writes env)))
  | None =>
      if negb (env_resolves env) || negb (env_dials env) then (table1, ops1, None)
      else
        let s := {| us_ruleID := rule_ID rule; us_targetID := target_ID target;
                    us_targetAddress := targetAddress target; us_clientAddress := clientAddress;
                    us_lastSeen := now |} in
        (<[key := s]> table1, ops1, Some (target_ID target, true, negb (env_writes env)))
  end.

(** One session of an iteration over the table. *)
Definition closeIf (test : udpSession → bool) (s : udpTable * list metricsOp) (key : string)
    : udpTable * list metricsOp :=
  let '(table, ops) := s in
  match table !! key with
  | Some session => if test session
                    then let '(table', ops') := closeSessionLocked key session table in (table', ops ++ ops')
                    else s
  | None => s
  end.
Definition closeIdle (now : Z) (order : list string) (table : udpTable) : udpTable * list metricsOp :=
  foldl (closeIf (λ s, negb (time_sub now (us_lastSeen s) <=? udpSessionIdleTimeout))) (table, []) order.
Definition closeAll (order : list string) (table : udpTable) : udpTable * list metricsOp :=
  foldl (closeIf (λ _, true)) (table, []) order.

(** The calls of [proxyUDP] on the counter after [write] returned. *)
Definition udpSessionOps (rule : RuleConfig) (target : TargetEndpoint) (reserved created : bool) : list metricsOp :=
  if reserved then
    if negb created then [OpReleaseUDP (rule_ID rule) (target_ID target)]
    else [OpPromoteUDP (rule_ID rule) (target_ID target)]
  else if created then [OpTargetUDPSession (rule_ID rule) (target_ID target) 1] else [].
Definition udpCountOps (rule : RuleConfig) (targetID : string) (size : Z) : list metricsOp :=
  [OpUDP 1; OpUpload size; OpTargetUDP (rule_ID rule) targetID 1; OpTargetUpload (rule_ID rule) targetID size].

(** [proxyUDP] after a target was selected. *)
Definition udpServe (env : udpEnv) (now : Z) (rule : RuleConfig) (target : TargetEndpoint) (reserved : bool)
    (clientAddress : string) (payload : bytes) (table : udpTable) : udpTable * list metricsOp :=
  let '(table', ops1, written) := udpWrite env now rule target clientAddress table in
  let '(created, err, targetID) := match written with
    | Some (targetID, created, err) => (created, err, targetID) | None => (false, true, "") end in
  let ops2 := udpSessionOps rule target reserved created in
  let ops3 := if err : bool then [] else udpCountOps rule targetID (Z.of_nat (length payload)) in
  (table', ops1 ++ ops2 ++ ops3).
End udp.

(** ** Sessions and their count *)

(** The change of a target's sessions that a call asks for, and of its session
    reservations. *)
Definition op_session (R T : string) (op : metricsOp) : Z :=
  match op with
  | OpPromoteUDP r t => if String.eqb r R && String.eqb t T then 1 else 0
  | OpTargetUDPSession r t d => if String.eqb r R && String.eqb t T then d else 0
  | _ => 0
  end.
Definition op_udpReserved (op : metricsOp) : Z :=
  match op with OpReleaseUDP _ _ | OpPromoteUDP _ _ => -1 | _ => 0 end.
Definition session_count (R T : string) (table : udpTable) : Z :=
  msum (λ _ s, if String.eqb (us_ruleID s) R && String.eqb (us_targetID s) T then 1 else 0) table.

Lemma closeSession_count R T key session table :
  table !! key = Some session →
  session_count R T (closeSessionLocked key session table).1 =
  session_count R T table + op_sum (op_session R T) (closeSessionLocked key session table).2.
Proof.
  intros Hk. unfold session_count, closeSessionLocked, op_sum, Zsum; cbn [fst snd map foldr op_session].
  rewrite (msum_delete _ table key session Hk). destruct (_ && _); lia.
Qed.

Lemma closeIf_count test R T order table ops0 :
  let '(table', ops) := foldl (closeIf test) (table, ops0) order in
  session_count R T table' - op_sum (op_session R T) ops = session_count R T table - op_sum (op_session R T) ops0.
Proof.
  revert table ops0. induction order as [|key order IH]; intros table ops0; [done|]. cbn [foldl].
  unfold closeIf at 2. destruct (table !! key) as [session|] eqn:Ek; [|apply IH].
  destruct (test session); [|apply IH]. pose proof (closeSession_count R T key session table Ek) as Hc.
  destruct (closeSessionLocked key session table) as [table1 ops1]. cbn [fst snd] in Hc.
  specialize (IH table1 (ops0 ++ ops1)). destruct (foldl _ _ order) as [table' ops].
  rewrite op_sum_app in IH. lia.
Qed.

Section udp_facts.
Context `{UnicodeTables}.

Lemma udpServe_count env now rule target reserved client payload table R T :
  let '(table', ops) := udpServe env now rule target reserved client payload table in
  session_count R T table' = session_count R T table + op_sum (op_session R T) ops.
Proof using Type.
  unfold udpServe, udpWrite. set (key := udpSessionKey _ _ _).
  set (g := λ (_ : string) (s : udpSession), if String.eqb (us_ruleID s) R && String.eqb (us_targetID s) T then 1 else 0).
  assert (∀ ops, op_sum (op_session R T) (udpCountOps rule ops (Z.of_nat (length payload))) = 0) as Hcount by done.
  assert (∀ (t : udpTable) s, session_count R T (<[key := s]> t) = g key s + session_count R T (delete key t)) as Hins.
  { intros t s. unfold session_count. by rewrite msum_overwrite. }
  assert (∀ t : udpTable, t !! key = None →
    session_count R T (<[key := {| us_ruleID := rule_ID rule; us_targetID := target_ID target;
      us_targetAddress := targetAddress target; us_clientAddress := client; us_lastSeen := now |}]> t) =
    session_count R T t + op_sum (op_session R T) (udpSessionOps rule target reserved true)) as Hnew.
  { intros t Ht. rewrite Hins, delete_id by done. unfold g; cbn [us_ruleID us_targetID].
    unfold udpSessionOps; destruct reserved; unfold op_sum, Zsum; cbn [negb map foldr op_session];
      destruct (_ && _); lia. }
  assert (op_sum (op_session R T) (udpSessionOps rule target reserved false) = 0) as Hnone
    by (unfold udpSessionOps; by destruct reserved).
  destruct (table !! key) as [s|] eqn:Ek.
  - destruct (negb (targetStillConfiguredForRule _ _ _)) eqn:Es.
    + pose proof (closeSession_count R T key s table Ek) as Hc.
      destruct (closeSessionLocked key s table) as [t1 o1] eqn:Ec. cbn [fst snd] in Hc.
      assert (t1 !! key = None) as Ht1 by (injection Ec as <- _; apply lookup_delete_eq).
      destruct (negb (env_resolves env) || negb (env_dials env)).
      * rewrite !op_sum_app, Hnone. change (op_sum _ []) with 0. lia.
      * destruct (env_writes env); cbn [negb]; rewrite !op_sum_app, (Hnew t1 Ht1), ?Hcount;
          change (op_sum (op_session R T) []) with 0; lia.
    + rewrite Hins. unfold g; cbn [us_ruleID us_targetID].
      assert (session_count R T table = (if String.eqb (us_ruleID s) R && String.eqb (us_targetID s) T then 1 else 0)
        + session_count R T (delete key table)) as -> by (unfold session_count; by rewrite (msum_delete _ table key s)).
      destruct (env_writes env); cbn [negb]; rewrite !op_sum_app, Hnone, ?Hcount;
        change (op_sum (op_session R T) []) with 0; lia.
  - destruct (negb (env_resolves env) || negb (env_dials env)).
    + rewrite !op_sum_app, Hnone. change (op_sum _ []) with 0. lia.
    + destruct (env_writes env); cbn [negb]; rewrite !op_sum_app, (Hnew table Ek), ?Hcount;
        change (op_sum (op_session R T) []) with 0; lia.
Qed.

(** What happens to a table: datagrams and closings. *)
Inductive udpEvent :=
| UdpDatagram (env : udpEnv) (now : Z) (rule : RuleConfig) (target : TargetEndpoint) (reserved : bool)
    (client : string) (payload : bytes)
| UdpCloseIdle (now : Z) (order : list string)
| UdpCloseAll (order : list string).
Definition udpStep (e : udpEvent) (table : udpTable) : udpTable * list metricsOp :=
  match e with
  | UdpDatagram env now rule target reserved client payload =>
      udpServe env now rule target reserved client payload table
  | UdpCloseIdle now order => closeIdle now order table
  | UdpCloseAll order => closeAll order table
  end.
Fixpoint udpRun (events : list udpEvent) (table : udpTable) : udpTable * list metricsOp :=
  match events with
  | [] => (table, [])
  | e :: events => let '(t1, o1) := udpStep e table in
                   let '(t2, o2) := udpRun events t1 in (t2, o1 ++ o2)
  end.

(** C38. The calls on the counter account for the session table: over any
    sequence of datagrams, idle sweeps and shutdowns, the changes of a
    target's sessions that the calls ask for add up to the number of its
    sessions in the table. *)
Theorem udpRun_sessions events R T :
  let '(table, ops) := udpRun events ∅ in
  op_sum (op_session R T) ops = session_count R T table.
Proof using Type.
  enough (∀ table, let '(table', ops) := udpRun events table in
    session_count R T table' = session_count R T table + op_sum (op_session R T) ops) as Hgen.
  { specialize (Hgen ∅). destruct (udpRun events ∅) as [table ops].
    unfold session_count at 2 in Hgen. rewrite msum_empty in Hgen. lia. }
  induction events as [|e events IH]; intros table; cbn [udpRun].
  { change (op_sum _ []) with 0. lia. }
  assert (let '(t1, o1) := udpStep e table in
    session_count R T t1 = session_count R T table + op_sum (op_session R T) o1) as Hs.
  { destruct e as [env now rule target reserved client payload|now order|order]; cbn [udpStep].
    - apply udpServe_count.
    - unfold closeIdle. pose proof (closeIf_count (λ s, negb (time_sub now (us_lastSeen s) <=? udpSessionIdleTimeout))
        R T order table []) as Hc. destruct (foldl _ _ _). change (op_sum _ []) with 0 in Hc. lia.
    - unfold closeAll. pose proof (closeIf_count (λ _, true) R T order table []) as Hc.
      destruct (foldl _ _ _). change (op_sum _ []) with 0 in Hc. lia. }
  destruct (udpStep e table) as [t1 o1]. specialize (IH t1). destruct (udpRun events t1) as [t2 o2].
  rewrite op_sum_app. lia.
Qed.
End udp_facts.

(** A datagram opens a session; the listener shuts down, and closes it, before
    the goroutine of the datagram counts it. *)
Definition race_rule : RuleConfig := example_rule "r1" "UDP" "0.0.0.0" 53 "ANY_INBOUND" ""
  (single_target (example_target "t1" "10.0.0.1" 53 1)).
Definition race_target : TargetEndpoint := example_target "t1" "10.0.0.1" 53 1.
Definition race_env : udpEnv := {| env_resolves := true; env_dials := true; env_writes := true |}.

