(* ===== verification/TrafficSpool.v ===== *)
(** * The agent's traffic spool (pkg/core/agent/traffic_spool.go)

    Traffic deltas wait in the node runtime until the control plane
    acknowledges the report that carries them: [trafficPending] collects, one
    report at a time is in flight, and both are written to a file after every
    change so that a restart resends what was not acknowledged.

    The methods run under [trafficMu].  The file holds a [trafficSpoolFile]
    (its JSON is the standard library's); it is replaced atomically by a
    rename, so a failed write leaves the old one: each operation takes whether
    its write succeeds.  The random report identifier is an argument. *)

From S2P Require Import Prelude GoString GoInt Agent Traffic.
#[local] Open Scope Z_scope.

(** [UpdatedAt] is never read back. *)
Record trafficSpoolFile := {
  file_Pending : list RuleTrafficDelta; file_InFlightID : string;
  file_InFlightDeltas : list RuleTrafficDelta; file_SchemaVersion : string }.

Definition trafficSpoolSchemaVersion : string := "agent_traffic_spool.v1".

(** The fields of [NodeRuntime] that the spool uses; [spoolPath] is whether
    [trafficSpoolPath()] is not empty, [spoolFile] the file it names, if it is
    there and can be decoded. *)
Record spool := {
  spoolPath : bool; spoolFile : option trafficSpoolFile;
  trafficSpoolLoaded : bool; trafficPending : list RuleTrafficDelta;
  trafficInFlightID : string; trafficInFlight : list RuleTrafficDelta }.

Definition with_traffic (s : spool) (pending : list RuleTrafficDelta) (id : string)
    (inFlight : list RuleTrafficDelta) : spool := {|
  spoolPath := spoolPath s; spoolFile := spoolFile s; trafficSpoolLoaded := true;
  trafficPending := pending; trafficInFlightID := id; trafficInFlight := inFlight |}.
Definition with_file (s : spool) (f : option trafficSpoolFile) : spool := {|
  spoolPath := spoolPath s; spoolFile := f; trafficSpoolLoaded := trafficSpoolLoaded s;
  trafficPending := trafficPending s; trafficInFlightID := trafficInFlightID s;
  trafficInFlight := trafficInFlight s |}.

Definition loadTrafficSpoolLocked (s : spool) : spool :=
  if trafficSpoolLoaded s then s
  else
    let s := with_traffic s (trafficPending s) (trafficInFlightID s) (trafficInFlight s) in
    if negb (spoolPath s) then s
    else match spoolFile s with
    | None => s
    | Some payload =>
        if negb (String.eqb (file_SchemaVersion payload) "")
           && negb (String.eqb (file_SchemaVersion payload) trafficSpoolSchemaVersion) then s
        else
          let pending := mergeTrafficDeltas (file_Pending payload) in
          let id := TrimSpace (file_InFlightID payload) in
          let inFlight := mergeTrafficDeltas (file_InFlightDeltas payload) in
          if String.eqb id "" || is_nil inFlight then with_traffic s pending "" []
          else with_traffic s pending id inFlight
    end.

Definition persistTrafficSpoolLocked (writes : bool) (s : spool) : spool :=
  if negb (spoolPath s) then s
  else if is_nil (trafficPending s) && is_nil (trafficInFlight s) then
    if writes then with_file s None else s
  else if writes then
    with_file s (Some {| file_Pending := trafficPending s; file_InFlightID := trafficInFlightID s;
                         file_InFlightDeltas := trafficInFlight s;
                         file_SchemaVersion := trafficSpoolSchemaVersion |})
  else s.

Definition queueTrafficDeltas (writes : bool) (deltas : list RuleTrafficDelta) (s : spool) : spool :=
  let normalized := mergeTrafficDeltas deltas in
  if is_nil normalized then s
  else
    let s := loadTrafficSpoolLocked s in
    persistTrafficSpoolLocked writes
      (with_traffic s (mergeTrafficDeltas (trafficPending s ++ normalized)) (trafficInFlightID s)
         (trafficInFlight s)).

(** The result is the report identifier and the deltas put in the metrics, if any. *)
Definition attachTrafficReport (writes : bool) (newID : string) (s : spool)
    : spool * option (string * list RuleTrafficDelta) :=
  let s := loadTrafficSpoolLocked s in
  let s :=
    if String.eqb (trafficInFlightID s) "" && negb (is_nil (trafficPending s))
    then persistTrafficSpoolLocked writes (with_traffic s [] newID (trafficPending s)) else s in
  if String.eqb (trafficInFlightID s) "" || is_nil (trafficInFlight s) then (s, None)
  else (s, Some (trafficInFlightID s, trafficInFlight s)).

Definition acknowledgeTrafficReport (writes : bool) (reportID : string) (s : spool) : spool :=
  let reportID := TrimSpace reportID in
  if String.eqb reportID "" then s
  else
    let s := loadTrafficSpoolLocked s in
    if negb (String.eqb reportID (trafficInFlightID s)) then s
    else persistTrafficSpoolLocked writes (with_traffic s (trafficPending s) "" []).

(** A new process on the same file. *)
Definition restart (s : spool) : spool := {|
  spoolPath := spoolPath s; spoolFile := spoolFile s; trafficSpoolLoaded := false;
  trafficPending := []; trafficInFlightID := ""; trafficInFlight := [] |}.

(** ** Histories *)

Inductive spoolOp :=
| SpQueue (writes : bool) (deltas : list RuleTrafficDelta)
| SpAttach (writes : bool) (newID : string)
| SpAck (writes : bool) (reportID : string)
| SpRestart.

Definition spoolStep (op : spoolOp) (s : spool) : spool :=
  match op with
  | SpQueue writes deltas => queueTrafficDeltas writes deltas s
  | SpAttach writes newID => (attachTrafficReport writes newID s).1
  | SpAck writes reportID => acknowledgeTrafficReport writes reportID s
  | SpRestart => restart s
  end.

(** What an acknowledgement takes out of the spool. *)
Definition acknowledged (op : spoolOp) (s : spool) : list RuleTrafficDelta :=
  match op with
  | SpAck _ reportID =>
      let s := loadTrafficSpoolLocked s in
      if negb (String.eqb (TrimSpace reportID) "")
         && String.eqb (TrimSpace reportID) (trafficInFlightID s) then trafficInFlight s else []
  | _ => []
  end.
Definition queued (op : spoolOp) : list RuleTrafficDelta :=
  match op with SpQueue _ deltas => deltas | _ => [] end.

Fixpoint spoolRun (ops : list spoolOp) (s : spool) : spool * list RuleTrafficDelta :=
  match ops with
  | [] => (s, [])
  | op :: ops => let '(s', acks) := spoolRun ops (spoolStep op s) in (s', acknowledged op s ++ acks)
  end.

(** Report identifiers are trimmed and not empty; a restart is harmless only if
    the file is written. *)
Definition spoolOpOk (reliable : bool) (op : spoolOp) : Prop :=
  match op with
  | SpQueue writes _ | SpAck writes _ => reliable = true → writes = true
  | SpAttach writes newID => (reliable = true → writes = true) ∧ TrimSpace newID = newID ∧ newID ≠ ""
  | SpRestart => reliable = true
  end.

(** ** Invariant *)

Definition spool_new (path : bool) : spool := {|
  spoolPath := path; spoolFile := None; trafficSpoolLoaded := false; trafficPending := [];
  trafficInFlightID := ""; trafficInFlight := [] |}.

Record spoolOk (s : spool) : Prop := {
  sp_pending : normal_deltas (trafficPending s);
  sp_inflight : normal_deltas (trafficInFlight s);
  sp_id : TrimSpace (trafficInFlightID s) = trafficInFlightID s;
  sp_empty : trafficInFlightID s = "" ↔ trafficInFlight s = [] }.

(** What a load would make of the spool. *)
Definition reloaded (s : spool) : spool := loadTrafficSpoolLocked (restart s).
(** The three fields that matter. *)
Definition traffic_of (s : spool) : list RuleTrafficDelta * string * list RuleTrafficDelta :=
  (trafficPending s, trafficInFlightID s, trafficInFlight s).

(** The spool as the next operation will see it is well formed, and on a
    reliable disk a restart does not change it. *)
Record spoolInv (reliable : bool) (s : spool) : Prop := {
  si_ok : spoolOk (loadTrafficSpoolLocked s);
  si_path : reliable = true → spoolPath s = true;
  si_disk : reliable = true → traffic_of (reloaded s) = traffic_of (loadTrafficSpoolLocked s) }.

Lemma normal_nil : normal_deltas [].
Proof. constructor; [constructor|..]; intros; by apply elem_of_nil in H. Qed.

Lemma load_loaded s : trafficSpoolLoaded s = true → loadTrafficSpoolLocked s = s.
Proof. intros E. unfold loadTrafficSpoolLocked. by rewrite E. Qed.

Lemma load_sets_loaded s : trafficSpoolLoaded (loadTrafficSpoolLocked s) = true.
Proof.
  unfold loadTrafficSpoolLocked. destruct (trafficSpoolLoaded s) eqn:E; [by rewrite ?E|].
  cbn [spoolPath with_traffic]. destruct (spoolPath s); cbn [negb]; [|done].
  cbn [spoolFile with_traffic]. destruct (spoolFile s); [|done]. destruct (_ && _); [done|]. by destruct (_ || _).
Qed.

Lemma load_idemp s : loadTrafficSpoolLocked (loadTrafficSpoolLocked s) = loadTrafficSpoolLocked s.
Proof. apply load_loaded, load_sets_loaded. Qed.

Lemma load_file s : spoolFile (loadTrafficSpoolLocked s) = spoolFile s ∧ spoolPath (loadTrafficSpoolLocked s) = spoolPath s.
Proof.
  unfold loadTrafficSpoolLocked. destruct (trafficSpoolLoaded s); [done|].
  cbn [spoolPath with_traffic]. destruct (negb (spoolPath s)); [done|].
  cbn [spoolFile with_traffic]. destruct (spoolFile s) eqn:Ef; [|done].
  destruct (_ && _); [done|]. by destruct (_ || _).
Qed.

(** A file that was written from a well-formed spool loads as that spool. *)
Lemma reload_persisted s :
  spoolOk s → spoolPath s = true →
  traffic_of (reloaded (persistTrafficSpoolLocked true s)) = traffic_of s.
Proof.
  intros [Hp Hi Hid He] Hpath. unfold persistTrafficSpoolLocked. rewrite Hpath. cbn [negb].
  unfold reloaded, restart, loadTrafficSpoolLocked, traffic_of.
  destruct (is_nil (trafficPending s) && is_nil (trafficInFlight s)) eqn:En.
  - apply andb_true_iff in En as [E1 E2].
    destruct (trafficPending s) eqn:EP; [|done]. destruct (trafficInFlight s) eqn:EI; [|done].
    cbn. rewrite Hpath. cbn. f_equal. f_equal. symmetry. by apply He.
  - cbn [with_file spoolPath spoolFile trafficSpoolLoaded with_traffic file_SchemaVersion file_Pending
         file_InFlightID file_InFlightDeltas]. rewrite Hpath. cbn [negb].
    change (negb (String.eqb trafficSpoolSchemaVersion "") && negb (String.eqb trafficSpoolSchemaVersion trafficSpoolSchemaVersion)) with false.
    cbv iota. rewrite !mergeTrafficDeltas_normal, Hid by done.
    destruct (String.eqb_spec (trafficInFlightID s) "") as [E|E]; cbn [orb].
    + rewrite E, (proj1 He E). done.
    + destruct (trafficInFlight s) eqn:EI; [|done]. destruct E. by apply He.
Qed.

Lemma persist_fields writes s : traffic_of (persistTrafficSpoolLocked writes s) = traffic_of s
  ∧ trafficSpoolLoaded (persistTrafficSpoolLocked writes s) = trafficSpoolLoaded s
  ∧ spoolPath (persistTrafficSpoolLocked writes s) = spoolPath s.
Proof.
  unfold persistTrafficSpoolLocked. destruct (negb (spoolPath s)); [done|].
  destruct (_ && _); by destruct writes.
Qed.

Lemma spoolOk_traffic s s' : traffic_of s' = traffic_of s → spoolOk s → spoolOk s'.
Proof. intros E [H1 H2 H3 H4]. unfold traffic_of in E. injection E as E1 E2 E3. constructor; rewrite ?E1, ?E2, ?E3; done. Qed.

(** A change that is persisted keeps the invariant. *)
Lemma persist_inv reliable writes s :
  spoolOk s → trafficSpoolLoaded s = true → (reliable = true → spoolPath s = true) →
  (reliable = true → writes = true) → spoolInv reliable (persistTrafficSpoolLocked writes s).
Proof.
  intros Hok Hl Hp Hw. destruct (persist_fields writes s) as (Ht & Hl' & Hp'). constructor.
  - rewrite load_loaded by congruence. by eapply spoolOk_traffic.
  - intros Hr. rewrite Hp'. auto.
  - intros Hr. rewrite load_loaded by congruence. rewrite Ht. rewrite (Hw Hr). apply reload_persisted; auto.
Qed.

(** ** Conservation *)

Definition spool_amount (f : traffic_field) (R : string) (s : spool) : Z :=
  rule_total f R (trafficPending s) + rule_total f R (trafficInFlight s).

Lemma rule_total_nonneg f R l : normal_deltas l → 0 ≤ rule_total f R l.
Proof. intros H. rewrite <-spool_total_normal by done. apply spool_total_nonneg. Qed.

(** The amounts in the spool as the next operation sees it. *)
Definition held (f : traffic_field) (R : string) (s : spool) : Z := spool_amount f R (loadTrafficSpoolLocked s).

Lemma held_persist f R writes s :
  trafficSpoolLoaded s = true → held f R (persistTrafficSpoolLocked writes s) = spool_amount f R s.
Proof.
  intros Hl. destruct (persist_fields writes s) as (Ht & Hl' & _). unfold held.
  rewrite load_loaded by congruence. unfold traffic_of in Ht. injection Ht as E1 E2 E3.
  unfold spool_amount. by rewrite E1, E3.
Qed.

Lemma mergeTrafficDeltas_small l :
  (∀ f R, spool_total f R l < 2 ^ 63) →
  normal_deltas (mergeTrafficDeltas l) ∧ ∀ f R, rule_total f R (mergeTrafficDeltas l) = spool_total f R l.
Proof.
  intros H. split; [by apply mergeTrafficDeltas_is_normal|]. intros f R.
  rewrite mergeTrafficDeltas_total. apply wrap64_id. pose proof (spool_total_nonneg f R l).
  specialize (H f R). unfold in64. lia.
Qed.

(** A load that is not followed by a change leaves the invariant. *)
Lemma load_inv reliable s : spoolInv reliable s → spoolInv reliable (loadTrafficSpoolLocked s).
Proof.
  intros [Hok Hpath Hdisk]. destruct (load_file s) as [Hf Hp]. constructor.
  - by rewrite load_idemp.
  - by rewrite Hp.
  - intros Hr. rewrite load_idemp, <-(Hdisk Hr). unfold reloaded, restart. by rewrite Hf, Hp.
Qed.

Lemma held_load f R s : held f R (loadTrafficSpoolLocked s) = held f R s.
Proof. unfold held. by rewrite load_idemp. Qed.

(** What an operation does to the invariant and to the amounts held. *)
Definition conserves (reliable : bool) (op : spoolOp) (s : spool) : Prop :=
  spoolInv reliable (spoolStep op s) ∧
  ∀ f R, held f R (spoolStep op s) + rule_total f R (acknowledged op s)
         = held f R s + spool_total f R (queued op).

Section StepConservation.
Context (reliable : bool) (s : spool) (Hinv : spoolInv reliable s).

Lemma load_facts :
  let l := loadTrafficSpoolLocked s in
  spoolOk l ∧ trafficSpoolLoaded l = true ∧ (reliable = true → spoolPath l = true).
Proof using Hinv.
  destruct Hinv as [Hok Hpath _]. split; [done|]. split; [apply load_sets_loaded|].
  intros Hr. destruct (load_file s) as [_ ->]. auto.
Qed.

Lemma held_pending f R : 0 ≤ rule_total f R (trafficPending (loadTrafficSpoolLocked s)) ≤ held f R s.
Proof using Hinv.
  destruct load_facts as ([H1 H2 _ _] & _). unfold held, spool_amount.
  pose proof (rule_total_nonneg f R _ H1). pose proof (rule_total_nonneg f R _ H2). lia.
Qed.

Lemma queue_conserves writes deltas :
  (reliable = true → writes = true) → (∀ f R, held f R s + spool_total f R deltas < 2 ^ 63) →
  conserves reliable (SpQueue writes deltas) s.
Proof using Hinv.
  intros Hw Hsmall. destruct load_facts as (Hok & Hll & Hlp).
  destruct (mergeTrafficDeltas_small deltas) as [Hn Ht].
  { intros f R. pose proof (held_pending f R). specialize (Hsmall f R). lia. }
  unfold conserves. cbn [spoolStep acknowledged queued]. unfold queueTrafficDeltas.
  destruct (is_nil (mergeTrafficDeltas deltas)) eqn:En.
  { split; [done|]. intros f R. rewrite <-Ht. by destruct (mergeTrafficDeltas deltas). }
  set (l := loadTrafficSpoolLocked s) in *. set (N := mergeTrafficDeltas deltas) in *.
  assert (∀ f R, spool_total f R (trafficPending l ++ N)
                 = rule_total f R (trafficPending l) + spool_total f R deltas) as Hsum.
  { intros f R. rewrite spool_total_app, !spool_total_normal by (done || apply Hok). by rewrite Ht. }
  destruct (mergeTrafficDeltas_small (trafficPending l ++ N)) as [Hn2 Ht2].
  { intros f R. rewrite Hsum. pose proof (held_pending f R). fold l in H. specialize (Hsmall f R). lia. }
  split.
  - apply persist_inv; try done. destruct Hok. by constructor.
  - intros f R. rewrite held_persist by done. unfold held, spool_amount. fold l.
    cbn [trafficPending trafficInFlight with_traffic]. rewrite Ht2, Hsum.
    change (rule_total f R []) with 0. lia.
Qed.

Lemma attach_conserves writes newID :
  spoolOpOk reliable (SpAttach writes newID) → conserves reliable (SpAttach writes newID) s.
Proof using Hinv.
  intros (Hw & Htrim & Hne). destruct load_facts as (Hok & Hll & Hlp).
  assert (∀ p : spool, (if String.eqb (trafficInFlightID p) "" || is_nil (trafficInFlight p)
    then (p, None) else (p, Some (trafficInFlightID p, trafficInFlight p))).1 = p) as Hfst
    by (intros p; by destruct (_ || _)).
  unfold conserves. cbn [spoolStep acknowledged queued]. unfold attachTrafficReport. rewrite Hfst.
  set (l := loadTrafficSpoolLocked s) in *.
  destruct (String.eqb (trafficInFlightID l) "" && negb (is_nil (trafficPending l))) eqn:E.
  - bool_hyps. split.
    + apply persist_inv; try done. destruct Hok. constructor; try done; [apply normal_nil|].
      cbn. split; [done|]. intros HP. by rewrite HP in *.
    + intros f R. rewrite held_persist by done. unfold held, spool_amount. fold l.
      cbn [with_traffic trafficPending trafficInFlight].
      rewrite (proj1 (sp_empty _ Hok)) by done. change (spool_total f R []) with 0.
      change (rule_total f R []) with 0. lia.
  - split; [by apply load_inv|]. intros f R. unfold l. by rewrite held_load.
Qed.

Lemma ack_conserves writes reportID :
  (reliable = true → writes = true) → conserves reliable (SpAck writes reportID) s.
Proof using Hinv.
  intros Hw. destruct load_facts as (Hok & Hll & Hlp).
  unfold conserves. cbn [spoolStep acknowledged queued]. unfold acknowledgeTrafficReport.
  destruct (String.eqb (TrimSpace reportID) "") eqn:E1; [done|]. cbn [negb andb].
  destruct (String.eqb (TrimSpace reportID) (trafficInFlightID _)) eqn:E2; cbn [negb].
  - split.
    + apply persist_inv; try done. destruct Hok. constructor; try done; apply normal_nil.
    + intros f R. rewrite held_persist by done. unfold held, spool_amount.
      cbn [with_traffic trafficPending trafficInFlight]. change (spool_total f R []) with 0.
      change (rule_total f R []) with 0. lia.
  - split; [by apply load_inv|]. intros f R. by rewrite held_load.
Qed.

Lemma restart_conserves : reliable = true → conserves reliable SpRestart s.
Proof using Hinv.
  intros Hr. destruct Hinv as [Hok Hpath Hdisk]. specialize (Hdisk Hr). split.
  - constructor; [by eapply spoolOk_traffic|done|done].
  - intros f R. cbn [spoolStep acknowledged queued]. unfold held, spool_amount.
    unfold traffic_of in Hdisk. injection Hdisk as E1 E2 E3. fold (reloaded s). by rewrite E1, E3.
Qed.

Lemma spoolStep_conserves op :
  spoolOpOk reliable op → (∀ f R, held f R s + spool_total f R (queued op) < 2 ^ 63) →
  conserves reliable op s.
Proof using Hinv.
  destruct op; cbn [spoolOpOk queued]; auto using queue_conserves, attach_conserves, ack_conserves, restart_conserves.
Qed.
End StepConservation.

(** ** Histories *)

Definition queued_total (f : traffic_field) (R : string) (ops : list spoolOp) : Z :=
  Zsum (map (λ op, spool_total f R (queued op)) ops).

Lemma queued_total_nonneg f R ops : 0 ≤ queued_total f R ops.
Proof.
  unfold queued_total, Zsum. induction ops as [|op ops IH]; cbn; [lia|].
  pose proof (spool_total_nonneg f R (queued op)). lia.
Qed.

Lemma acknowledged_nonneg reliable op s f R :
  spoolInv reliable s → 0 ≤ rule_total f R (acknowledged op s).
Proof.
  intros Hinv. destruct op; cbn [acknowledged]; try done. destruct (_ && _); [|done].
  apply rule_total_nonneg, (si_ok _ _ Hinv).
Qed.

Lemma queued_total_cons f R op ops : queued_total f R (op :: ops) = spool_total f R (queued op) + queued_total f R ops.
Proof. done. Qed.

Lemma spoolRun_conserves reliable ops s :
  spoolInv reliable s → Forall (spoolOpOk reliable) ops →
  (∀ f R, held f R s + queued_total f R ops < 2 ^ 63) →
  spoolInv reliable (spoolRun ops s).1 ∧
  (∀ f R, held f R (spoolRun ops s).1 + rule_total f R (spoolRun ops s).2 = held f R s + queued_total f R ops) ∧
  ∀ f R, 0 ≤ rule_total f R (spoolRun ops s).2.
Proof.
  revert s. induction ops as [|op ops IH]; intros s Hinv Hops Hsmall; cbn [spoolRun]; [done|].
  apply Forall_cons in Hops as [Hop Hops].
  destruct (spoolStep_conserves reliable s Hinv op Hop) as [Hinv' Hstep].
  { intros f R. specialize (Hsmall f R). rewrite queued_total_cons in Hsmall.
    pose proof (queued_total_nonneg f R ops). lia. }
  destruct (IH (spoolStep op s) Hinv' Hops) as (HI & HR & HN).
  { intros f R. specialize (Hsmall f R). specialize (Hstep f R). rewrite queued_total_cons in Hsmall.
    pose proof (acknowledged_nonneg reliable op s f R Hinv). lia. }
  destruct (spoolRun ops (spoolStep op s)) as [s' acks] eqn:Er. cbn [fst snd] in *.
  split; [done|]. split; intros f R; rewrite rule_total_app; specialize (HN f R); specialize (HR f R);
    specialize (Hstep f R); pose proof (acknowledged_nonneg reliable op s f R Hinv);
    rewrite ?queued_total_cons; lia.
Qed.

Lemma spool_new_inv reliable path : (reliable = true → path = true) → spoolInv reliable (spool_new path).
Proof.
  intros Hp. assert (traffic_of (loadTrafficSpoolLocked (spool_new path)) = ([], "", [])) as Ht by (by destruct path).
  constructor; [|done|done].
  apply (spoolOk_traffic (with_traffic (spool_new path) [] "" [])); [by rewrite Ht|].
  constructor; try apply normal_nil; done.
Qed.

Lemma held_new f R path : held f R (spool_new path) = 0.
Proof. by destruct path. Qed.

(** ** The report in flight *)

Definition acks_report (id : string) (op : spoolOp) : Prop :=
  match op with SpAck _ reportID => TrimSpace reportID = id | _ => False end.

(** What [attachTrafficReport] would put in the next metrics. *)
Definition in_flight (s : spool) : string * list RuleTrafficDelta :=
  (trafficInFlightID (loadTrafficSpoolLocked s), trafficInFlight (loadTrafficSpoolLocked s)).

Lemma in_flight_loaded s :
  trafficSpoolLoaded s = true → in_flight s = (trafficInFlightID s, trafficInFlight s).
Proof. intros H. unfold in_flight. by rewrite load_loaded. Qed.

Lemma in_flight_persist writes s :
  trafficSpoolLoaded s = true →
  in_flight (persistTrafficSpoolLocked writes s) = (trafficInFlightID s, trafficInFlight s).
Proof.
  intros H. destruct (persist_fields writes s) as (Ht & Hl & _). rewrite in_flight_loaded by congruence.
  unfold traffic_of in Ht. by injection Ht as _ -> ->.
Qed.

Lemma attach_fst writes newID s (l := loadTrafficSpoolLocked s) :
  (attachTrafficReport writes newID s).1 =
  if String.eqb (trafficInFlightID l) "" && negb (is_nil (trafficPending l))
  then persistTrafficSpoolLocked writes (with_traffic l [] newID (trafficPending l)) else l.
Proof. unfold attachTrafficReport. fold l. by destruct (_ && _); destruct (_ || _). Qed.

Lemma in_flight_step reliable s op id deltas :
  spoolInv reliable s → spoolOpOk reliable op → in_flight s = (id, deltas) → id ≠ "" → ¬ acks_report id op →
  in_flight (spoolStep op s) = (id, deltas).
Proof.
  intros Hinv Hop Hin Hid Hack. pose proof (load_sets_loaded s) as Hll.
  pose proof Hin as Hin0. unfold in_flight in Hin0. injection Hin0 as E1 E2.
  assert (in_flight (loadTrafficSpoolLocked s) = (id, deltas)) as Hload by (rewrite in_flight_loaded; congruence).
  destruct op as [writes ds|writes newID|writes reportID|]; cbn [spoolStep acks_report] in *.
  - unfold queueTrafficDeltas. destruct (is_nil _); [done|]. rewrite in_flight_persist by done. cbn. congruence.
  - rewrite attach_fst. rewrite E1. rewrite (proj2 (String.eqb_neq id "")) by done. done.
  - unfold acknowledgeTrafficReport. destruct (String.eqb (TrimSpace reportID) ""); [done|].
    rewrite E1, (proj2 (String.eqb_neq _ id)) by done. done.
  - unfold in_flight. pose proof (si_disk _ _ Hinv Hop) as Hd. unfold reloaded, traffic_of in Hd.
    injection Hd as _ -> ->. congruence.
Qed.

Lemma attach_in_flight writes newID s id deltas :
  (attachTrafficReport writes newID s).2 = Some (id, deltas) ↔
  in_flight (attachTrafficReport writes newID s).1 = (id, deltas) ∧ id ≠ "" ∧ deltas ≠ [].
Proof.
  unfold attachTrafficReport. set (l := loadTrafficSpoolLocked s).
  assert (trafficSpoolLoaded l = true) as Hl by apply load_sets_loaded.
  set (p := if _ && _ then _ else l). assert (trafficSpoolLoaded p = true) as Hp.
  { unfold p. destruct (_ && _); [|done]. by rewrite (proj1 (proj2 (persist_fields _ _))). }
  clearbody p. destruct (String.eqb_spec (trafficInFlightID p) "") as [E|E]; cbn [orb].
  - cbn [fst snd]. rewrite in_flight_loaded by done. split; [done|]. intros (Hx & Hid & _). congruence.
  - destruct (trafficInFlight p) eqn:EI; cbn [is_nil fst snd]; rewrite in_flight_loaded by done.
    + split; [done|]. intros (Hx & _ & Hd). congruence.
    + split; [|intros [Hx _]; congruence]. intros [= <- <-]. by rewrite EI.
Qed.

Lemma in_flight_run reliable ops s id deltas :
  spoolInv reliable s → Forall (spoolOpOk reliable) ops →
  (∀ f R, held f R s + queued_total f R ops < 2 ^ 63) → in_flight s = (id, deltas) → id ≠ "" →
  Forall (λ op, ¬ acks_report id op) ops → in_flight (spoolRun ops s).1 = (id, deltas).
Proof.
  revert s. induction ops as [|op ops IH]; intros s Hinv Hops Hsmall Hin Hid Hacks; [done|].
  pose proof (Forall_inv Hops) as Hop. pose proof (Forall_inv Hacks) as Hack.
  assert (∀ f R, held f R s + queued_total f R [op] < 2 ^ 63) as Hone.
  { intros f R. specialize (Hsmall f R). pose proof (queued_total_nonneg f R ops).
    unfold queued_total, Zsum in *. cbn in *. lia. }
  destruct (spoolRun_conserves reliable [op] s Hinv (Forall_cons_2 _ _ _ Hop (Forall_nil_2 _)) Hone) as (Hinv' & Hc & _).
  cbn [spoolRun fst snd app] in Hinv', Hc.
  cbn [spoolRun]. destruct (spoolRun ops (spoolStep op s)) as [s' acks] eqn:E. cbn [fst].
  change s' with (s', acks).1. rewrite <-E. apply IH; try done.
  - by apply Forall_inv_tail in Hops.
  - intros f R. specialize (Hsmall f R). specialize (Hc f R). rewrite app_nil_r in Hc.
    pose proof (acknowledged_nonneg reliable op s f R Hinv).
    unfold queued_total, Zsum in *. cbn in *. lia.
  - by eapply in_flight_step.
  - by apply Forall_inv_tail in Hacks.
Qed.

Lemma spoolRun_app ops1 ops2 s : (spoolRun (ops1 ++ ops2) s).1 = (spoolRun ops2 (spoolRun ops1 s).1).1.
Proof.
  revert s. induction ops1 as [|op ops1 IH]; intros s; [done|]. cbn [spoolRun app].
  specialize (IH (spoolStep op s)). destruct (spoolRun (ops1 ++ ops2) _). by destruct (spoolRun ops1 _).
Qed.

Lemma queued_total_app f R l k : queued_total f R (l ++ k) = queued_total f R l + queued_total f R k.
Proof. unfold queued_total. by rewrite map_app, Zsum_app. Qed.

(** ** Properties *)

(** C4. The spool neither loses nor invents traffic: whatever the order of
    queued deltas, report attempts, acknowledgements (stale or foreign ones
    included) and restarts, the amounts acknowledged so far plus the amounts
    still held are the amounts queued, per rule and counter.  Restarts are
    covered when the spool file's writes succeed; without restarts the writes
    may fail. *)
Theorem spool_conservation reliable path ops :
  (reliable = true → path = true) → Forall (spoolOpOk reliable) ops →
  (∀ f R, queued_total f R ops < 2 ^ 63) →
  let '(s, acks) := spoolRun ops (spool_new path) in
  ∀ f R, rule_total f R acks + held f R s = queued_total f R ops.
Proof.
  intros Hp Hops Hsmall. destruct (spoolRun_conserves reliable ops (spool_new path)) as (_ & H & _).
  - by apply spool_new_inv.
  - done.
  - intros f R. rewrite held_new. specialize (Hsmall f R). lia.
  - destruct (spoolRun ops (spool_new path)) as [s acks]. intros f R. specialize (H f R).
    rewrite held_new in H. cbn [fst snd] in H. lia.
Qed.

Definition spool_example_deltas : list RuleTrafficDelta :=
  [{| delta_RuleID := " r1 "; delta_UploadBytes := 7; delta_DownloadBytes := 5;
      delta_TCPConnections := 1; delta_UDPPackets := -3 |}].
Definition spool_example : list spoolOp :=
  [SpQueue true spool_example_deltas; SpAttach true "a1"; SpQueue true spool_example_deltas; SpRestart;
   SpAck true "zz"; SpAck true "a1"; SpAttach true "a2"; SpRestart].

Lemma spool_example_ok : Forall (spoolOpOk true) spool_example.
Proof. repeat constructor; done. Qed.

Lemma spool_example_small f R : queued_total f R spool_example < 2 ^ 63.
Proof.
  unfold queued_total, spool_total, contributions, Zsum, spool_example, spool_example_deltas.
  cbn [map foldr queued]. unfold contribution. cbn [delta_RuleID].
  destruct f; cbn [delta_field delta_UploadBytes delta_DownloadBytes delta_TCPConnections delta_UDPPackets];
    repeat match goal with |- context [if ?b then _ else _] => destruct b end; vm_compute; reflexivity.
Qed.

Lemma spool_conservation_witness :
  let '(s, acks) := spoolRun spool_example (spool_new true) in
  ∀ f R, rule_total f R acks + held f R s = queued_total f R spool_example.
Proof.
  apply (spool_conservation true true spool_example); [done|apply spool_example_ok|].
  intros f R. apply spool_example_small.
Defined.

(** C25. A traffic report is resent unchanged until it is acknowledged: once a
    report has been attached, every later attempt attaches the same identifier
    with the same deltas - whatever was queued, whichever other reports were
    acknowledged, and across restarts - until an acknowledgement names that
    identifier.  The receiver can therefore drop a report it has already seen. *)
Theorem attached_report_stable reliable path ops1 writes newID ops2 id deltas writes' newID' :
  (reliable = true → path = true) →
  Forall (spoolOpOk reliable) (ops1 ++ SpAttach writes newID :: ops2) →
  (∀ f R, queued_total f R (ops1 ++ ops2) < 2 ^ 63) →
  (attachTrafficReport writes newID (spoolRun ops1 (spool_new path)).1).2 = Some (id, deltas) →
  Forall (λ op, ¬ acks_report id op) ops2 →
  (attachTrafficReport writes' newID'
     (spoolRun (ops1 ++ SpAttach writes newID :: ops2) (spool_new path)).1).2 = Some (id, deltas).
Proof.
  intros Hp Hops Hsmall Hatt Hacks. apply attach_in_flight in Hatt as (Hin & Hid & Hds).
  apply Forall_app in Hops as [Hops1 Hops2]. pose proof (Forall_inv Hops2) as Hop.
  apply Forall_inv_tail in Hops2.
  assert (∀ f R, queued_total f R ops1 + queued_total f R ops2 < 2 ^ 63) as Hs
    by (intros f R; rewrite <-queued_total_app; auto).
  destruct (spoolRun_conserves reliable ops1 (spool_new path)) as (Hinv1 & Hc1 & Hn1);
    [by apply spool_new_inv|done|intros f R; rewrite held_new; specialize (Hs f R);
     pose proof (queued_total_nonneg f R ops2); lia|].
  set (s1 := (spoolRun ops1 (spool_new path)).1) in *.
  destruct (attach_conserves reliable s1 Hinv1 writes newID Hop) as [Hinv2 Hc2]. cbn [spoolStep] in Hinv2, Hc2.
  rewrite spoolRun_app. fold s1. set (s2 := (attachTrafficReport writes newID s1).1) in *.
  assert (in_flight (spoolRun ops2 s2).1 = (id, deltas)) as Hfin.
  { apply (in_flight_run reliable); try done. intros f R. specialize (Hs f R). specialize (Hc1 f R).
    specialize (Hc2 f R). rewrite held_new in Hc1. cbn [acknowledged queued] in Hc2.
    specialize (Hn1 f R).
    change (rule_total f R []) with 0 in Hc2. change (spool_total f R []) with 0 in Hc2. lia. }
  cbn [spoolRun]. fold s2. destruct (spoolRun ops2 (spoolStep (SpAttach writes newID) s1)) as [s3 acks] eqn:E3.
  cbn [spoolStep] in E3. fold s2 in E3. rewrite E3 in Hfin. cbn [fst] in *.
  apply attach_in_flight. split; [|done]. rewrite attach_fst. pose proof Hfin as Hf. unfold in_flight in Hf.
  injection Hf as E1 E2. rewrite E1, (proj2 (String.eqb_neq id "")) by done. cbn [andb].
  rewrite in_flight_loaded by apply load_sets_loaded. congruence.
Qed.

Lemma attached_report_stable_witness :
  (attachTrafficReport true "a9"
     (spoolRun ([SpQueue true spool_example_deltas] ++ SpAttach true "a1" ::
                [SpQueue true spool_example_deltas; SpRestart; SpAck true "zz"]) (spool_new true)).1).2
  = Some ("a1", mergeTrafficDeltas spool_example_deltas).
Proof.
  apply (attached_report_stable true true).
  - done.
  - repeat constructor; done.
  - intros f R. exact (spool_example_small f R).
  - vm_compute. reflexivity.
  - apply Forall_cons; split; [intros []|]. apply Forall_cons; split; [intros []|].
    apply Forall_cons; split; [vm_compute; discriminate|]. apply Forall_nil_2.
Defined.
