(* ===== verification/RuleValidator.v ===== *)
(** * Validation of rule requests (pkg/core/validator)

    [validateRulePortSegments] of control_ports_send_ips.go and the rule
    requests of control.go.  A Go [*T] is an [option T]. *)

From S2P Require Import Prelude GoString GoSort GoNet ValidatorBase.
#[local] Open Scope Z_scope.

(** ** Port segments *)

Record RulePortSegmentRequest := { seg_StartPort : Z; seg_EndPort : Z }.
#[export] Instance RulePortSegmentRequest_eq_dec : EqDecision RulePortSegmentRequest.
Proof. solve_decision. Defined.

Definition segLess (x y : RulePortSegmentRequest) : bool :=
  if seg_StartPort x =? seg_StartPort y then seg_EndPort x <? seg_EndPort y
  else seg_StartPort x <? seg_StartPort y.

(** The body of the first loop. *)
Definition segStep (segments : list RulePortSegmentRequest) (value : RulePortSegmentRequest)
    : result validatorError (list RulePortSegmentRequest) :=
  let value := {| seg_StartPort := seg_StartPort value;
                  seg_EndPort := if seg_EndPort value =? 0 then seg_StartPort value else seg_EndPort value |} in
  if (seg_StartPort value <? 1) || (65535 <? seg_StartPort value) || (seg_EndPort value <? 1)
     || (65535 <? seg_EndPort value) || (seg_EndPort value <? seg_StartPort value)
  then Err (invalidFieldError "port_segments"
              "Rule port segments must be within 1-65535 and start_port must be <= end_port."
              {["start_port" := AnyInt (seg_StartPort value); "end_port" := AnyInt (seg_EndPort value)]})
  else Ok (segments ++ [value]).

(** The body of the merge loop: [merged[len(merged)-1]] is the last element. *)
Definition mergeSegment (merged : list RulePortSegmentRequest) (segment : RulePortSegmentRequest)
    : list RulePortSegmentRequest :=
  match last merged with
  | None => merged ++ [segment]
  | Some lst =>
      if seg_EndPort lst + 1 <? seg_StartPort segment then merged ++ [segment]
      else if seg_EndPort lst <? seg_EndPort segment then
        removelast merged ++ [{| seg_StartPort := seg_StartPort lst; seg_EndPort := seg_EndPort segment |}]
      else merged
  end.

Definition is_single (port : Z) (merged : list RulePortSegmentRequest) : bool :=
  match merged with
  | [s] => (seg_StartPort s =? port) && (seg_EndPort s =? port)
  | _ => false
  end.

Definition validateRulePortSegments (port : Z) (values : list RulePortSegmentRequest)
    : result validatorError (list RulePortSegmentRequest) :=
  match values with
  | [] =>
      if (port <? 1) || (65535 <? port)
      then Err (invalidFieldError "port" "Rule port must be between 1 and 65535."
                  {["actual" := AnyInt port; "min" := AnyInt 1; "max" := AnyInt 65535]})
      else Ok [{| seg_StartPort := port; seg_EndPort := port |}]
  | _ =>
      segments ← fold_result segStep [] values;
      let merged := foldl mergeSegment [] (sort_stable segLess segments) in
      if negb (port =? 0) && negb (is_single port merged)
      then Err (invalidFieldError "port" "Rule port must be omitted when using port_segments."
                  {["port" := AnyInt port]})
      else Ok merged
  end.

(** ** The ports of a list of segments *)

Definition in_segment (p : Z) (s : RulePortSegmentRequest) : Prop := seg_StartPort s <= p <= seg_EndPort s.
Definition covered (p : Z) (l : list RulePortSegmentRequest) : Prop := ∃ s, s ∈ l ∧ in_segment p s.
Definition seg_ok (s : RulePortSegmentRequest) : Prop := 1 ≤ seg_StartPort s ≤ seg_EndPort s ∧ seg_EndPort s ≤ 65535.
(** Ascending with a gap in between. *)
Definition apart (x y : RulePortSegmentRequest) : Prop := seg_EndPort x + 1 < seg_StartPort y.
Definition canonical (l : list RulePortSegmentRequest) : Prop := StronglySorted apart l ∧ Forall seg_ok l.

(** What a request's segment stands for: no end means one port. *)
Definition meant (s : RulePortSegmentRequest) : RulePortSegmentRequest := {|
  seg_StartPort := seg_StartPort s;
  seg_EndPort := if seg_EndPort s =? 0 then seg_StartPort s else seg_EndPort s |}.
Definition requested (port : Z) (values : list RulePortSegmentRequest) (p : Z) : Prop :=
  match values with [] => p = port | _ => covered p (map meant values) end.

Lemma covered_nil p : ¬ covered p [].
Proof. intros (s & Hs & _). by apply elem_of_nil in Hs. Qed.
Lemma covered_cons p s l : covered p (s :: l) ↔ in_segment p s ∨ covered p l.
Proof. unfold covered. setoid_rewrite elem_of_cons. naive_solver. Qed.
Lemma covered_app p l k : covered p (l ++ k) ↔ covered p l ∨ covered p k.
Proof. unfold covered. setoid_rewrite elem_of_app. naive_solver. Qed.
Lemma covered_single p s : covered p [s] ↔ in_segment p s.
Proof. rewrite covered_cons. pose proof (covered_nil p). tauto. Qed.
#[export] Instance covered_perm p : Proper ((≡ₚ) ==> iff) (covered p).
Proof. intros l k Hp. unfold covered. by setoid_rewrite Hp. Qed.

#[export] Instance segLess_weak : StrictWeak segLess.
Proof.
  constructor; unfold not_after, segLess; intros [a b] [c d]; cbn.
  - destruct (Z.eqb_spec a c), (Z.eqb_spec c a); lia.
  - intros [e f]. cbn. destruct (Z.eqb_spec a c), (Z.eqb_spec c a), (Z.eqb_spec c e), (Z.eqb_spec e c), (Z.eqb_spec a e), (Z.eqb_spec e a); lia.
Qed.

Lemma not_after_start x y : not_after segLess x y → seg_StartPort x ≤ seg_StartPort y.
Proof. unfold not_after, segLess. destruct (Z.eqb_spec (seg_StartPort y) (seg_StartPort x)); lia. Qed.

Lemma segStep_loop acc values segs :
  fold_result segStep acc values = Ok segs ↔ Forall seg_ok (map meant values) ∧ segs = acc ++ map meant values.
Proof.
  revert acc. induction values as [|v values IH]; intros acc; cbn.
  { rewrite app_nil_r. split; [intros [= <-]; split; [constructor|done]|intros [_ ->]; done]. }
  rewrite Forall_cons. unfold segStep. fold (meant v). destruct (_ || _) eqn:E.
  - split; [done|]. intros [[[H1 H2] _] _]. exfalso. unfold seg_ok in *. lia.
  - rewrite IH, <-app_assoc. bool_hyps. assert (seg_ok (meant v)) by (unfold seg_ok; lia). cbn. tauto.
Qed.

(** ** Merging *)

Lemma canonical_snoc l x : canonical (l ++ [x]) ↔ canonical l ∧ seg_ok x ∧ ∀ y, last l = Some y → apart y x.
Proof.
  unfold canonical. rewrite Forall_app, Forall_singleton. split.
  - intros (Hs & Hl & Hx). split; [split; [by eapply StronglySorted_app_1_l|done]|]. split; [done|].
    intros y Hy. eapply (StronglySorted_app_1_elem_of _ l [x]); [done| |by left].
    apply last_Some in Hy as [k ->]. set_solver.
  - intros ((Hs & Hl) & Hx & Hy). split; [|done]. induction Hs as [|z l Hs IH Hz]; cbn; [repeat constructor|].
    apply Forall_cons in Hl as [Hz' Hl]. constructor.
    + apply IH; [done|]. intros y Hyl. apply Hy. destruct l; [done|]. by rewrite last_cons, Hyl.
    + apply Forall_app. split; [done|]. apply Forall_singleton. unfold apart in *.
      destruct (last l) as [y|] eqn:El.
      * pose proof (Hy y) as Hyx. rewrite last_cons, El in Hyx. specialize (Hyx eq_refl).
        rewrite Forall_forall in Hz, Hl. apply last_Some in El as [k ->].
        specialize (Hz y ltac:(set_solver)). specialize (Hl y ltac:(set_solver)). unfold seg_ok in *. lia.
      * apply Hy. by rewrite last_cons, El.
Qed.

(** One step of the merge, for a segment that starts no earlier than the last one. *)
Lemma mergeSegment_spec merged x :
  canonical merged → seg_ok x → (∀ y, last merged = Some y → seg_StartPort y ≤ seg_StartPort x) →
  canonical (mergeSegment merged x) ∧ (∀ p, covered p (mergeSegment merged x) ↔ covered p merged ∨ in_segment p x) ∧
  ∀ y, last (mergeSegment merged x) = Some y → seg_StartPort y ≤ seg_StartPort x.
Proof.
  intros Hc Hx Hlast. unfold mergeSegment. destruct (last merged) as [y|] eqn:El.
  - specialize (Hlast y eq_refl). apply last_Some in El as [m ->].
    pose proof Hc as (Hm & Hy & Hgap)%canonical_snoc.
    destruct (Z.ltb_spec (seg_EndPort y + 1) (seg_StartPort x)).
    + split; [apply canonical_snoc; split; [done|]; split; [done|]|].
      { intros z. rewrite last_snoc. by intros [= <-]. }
      split; [intros p; by rewrite covered_app, covered_single|]. intros z. rewrite last_snoc. by intros [= <-].
    + unfold seg_ok, in_segment in *. destruct (Z.ltb_spec (seg_EndPort y) (seg_EndPort x)).
      * rewrite removelast_last. split; [|split].
        -- apply canonical_snoc. split; [done|]. split; [unfold seg_ok; cbn; lia|]. exact Hgap.
        -- intros p. rewrite !covered_app, !covered_single. unfold in_segment; cbn.
           assert (seg_StartPort y ≤ p ≤ seg_EndPort x ↔
             seg_StartPort y ≤ p ≤ seg_EndPort y ∨ seg_StartPort x ≤ p ≤ seg_EndPort x) by lia. tauto.
        -- intros z. rewrite last_snoc. intros [= <-]. cbn. lia.
      * split; [done|]. split; [|intros z; rewrite last_snoc; by intros [= <-]].
        intros p. rewrite !covered_app, !covered_single. unfold in_segment.
        assert (seg_StartPort x ≤ p ≤ seg_EndPort x → seg_StartPort y ≤ p ≤ seg_EndPort y) by lia. tauto.
  - apply last_None in El as ->. cbn. split; [apply (canonical_snoc [] x); split; [repeat constructor|done]|].
    split; [intros p; rewrite covered_single; pose proof (covered_nil p); tauto|]. by intros y [= <-].
Qed.

Lemma merge_spec l :
  StronglySorted (not_after segLess) l → Forall seg_ok l →
  canonical (foldl mergeSegment [] l) ∧ ∀ p, covered p (foldl mergeSegment [] l) ↔ covered p l.
Proof.
  enough (∀ l, StronglySorted (not_after segLess) l → Forall seg_ok l →
    canonical (foldl mergeSegment [] l) ∧ (∀ p, covered p (foldl mergeSegment [] l) ↔ covered p l) ∧
    ∀ y, last (foldl mergeSegment [] l) = Some y → ∃ x, x ∈ l ∧ seg_StartPort y ≤ seg_StartPort x) as H
    by (intros H1 H2; destruct (H l H1 H2) as (? & ? & _); done).
  clear l. apply (foldl_ind mergeSegment (λ l m, StronglySorted (not_after segLess) l → Forall seg_ok l →
    canonical m ∧ (∀ p, covered p m ↔ covered p l) ∧
    ∀ y, last m = Some y → ∃ x, x ∈ l ∧ seg_StartPort y ≤ seg_StartPort x)).
  - intros _ _. split; [repeat constructor|done].
  - intros l x m IH Hs [Hl Hx%Forall_inv]%Forall_app.
    destruct IH as (Hc & Hcov & Hlast); [by eapply StronglySorted_app_1_l|done|].
    destruct (mergeSegment_spec m x Hc Hx) as (Hc' & Hcov' & Hlast').
    + intros y (z & Hz & Hle)%Hlast. etrans; [done|]. apply not_after_start.
      eapply (StronglySorted_app_1_elem_of _ l [x]); [done|done|by left].
    + split; [done|]. split; [|intros y Hy; exists x; split; [set_solver|auto]].
      intros p. by rewrite Hcov', Hcov, covered_app, covered_single.
Qed.

(** A canonical list is determined by its ports. *)
Lemma canonical_cons_head x l p : canonical (x :: l) → covered p (x :: l) → seg_StartPort x ≤ p.
Proof.
  intros [Hs Hok] (s & Hin & Hp). apply StronglySorted_cons in Hs as [Hx _]. apply Forall_cons in Hok as [Hx' _].
  apply elem_of_cons in Hin as [->|Hin]; [apply Hp|].
  rewrite Forall_forall in Hx. specialize (Hx s Hin). unfold apart, seg_ok, in_segment in *. lia.
Qed.

Lemma canonical_cons_tail x l p : canonical (x :: l) → covered p l → seg_EndPort x + 1 < p.
Proof.
  intros [Hs _] (s & Hin & Hp). apply StronglySorted_cons in Hs as [Hx _].
  rewrite Forall_forall in Hx. specialize (Hx s Hin). unfold apart, in_segment in *. lia.
Qed.

Lemma canonical_inv x l : canonical (x :: l) → seg_ok x ∧ canonical l.
Proof. intros [Hs Hok]. apply StronglySorted_cons in Hs as [_ Hs]. by apply Forall_cons in Hok as [? ?]. Qed.

Lemma canonical_start x l : canonical (x :: l) → covered (seg_StartPort x) (x :: l).
Proof. intros [[H _] _]%canonical_inv. apply covered_cons. left. unfold in_segment. lia. Qed.

Lemma canonical_head_eq x l y k :
  canonical (x :: l) → canonical (y :: k) → (∀ p, covered p (x :: l) → covered p (y :: k)) →
  seg_StartPort x = seg_StartPort y → seg_EndPort x ≤ seg_EndPort y.
Proof.
  intros Hx Hy Hcov E. destruct (Z.le_gt_cases (seg_EndPort x) (seg_EndPort y)); [done|exfalso].
  pose proof (canonical_inv _ _ Hy) as [Hyok _]. unfold seg_ok in *.
  assert (covered (seg_EndPort y + 1) (y :: k)) as H1.
  { apply Hcov, covered_cons. left. unfold in_segment. lia. }
  apply covered_cons in H1 as [H1|H1]; [unfold in_segment in H1; lia|].
  pose proof (canonical_cons_tail _ _ _ Hy H1). lia.
Qed.

Lemma canonical_unique l k : canonical l → canonical k → (∀ p, covered p l ↔ covered p k) → l = k.
Proof.
  revert k. induction l as [|x l IH]; intros k Hl Hk Hcov.
  { destruct k as [|y k]; [done|]. destruct (covered_nil (seg_StartPort y)). by apply Hcov, canonical_start. }
  destruct k as [|y k]; [destruct (covered_nil (seg_StartPort x)); by apply Hcov, canonical_start|].
  assert (seg_StartPort x = seg_StartPort y) as Es.
  { apply Z.le_antisymm.
    - apply (canonical_cons_head x l); [done|]. by apply Hcov, canonical_start.
    - apply (canonical_cons_head y k); [done|]. by apply Hcov, canonical_start. }
  assert (seg_EndPort x = seg_EndPort y) as Ee.
  { apply Z.le_antisymm; [apply (canonical_head_eq x l y k)|apply (canonical_head_eq y k x l)];
      try done; intros p; apply Hcov. }
  assert (x = y) as <- by (destruct x, y; cbn in *; congruence). f_equal.
  apply IH; [by eapply canonical_inv..|]. intros p. specialize (Hcov p). rewrite !covered_cons in Hcov.
  assert (∀ m, canonical (x :: m) → covered p m → ¬ in_segment p x) as Hd.
  { intros m Hm Hp%(canonical_cons_tail _ _ _ Hm). unfold in_segment. lia. }
  pose proof (Hd l Hl). pose proof (Hd k Hk). tauto.
Qed.

(** ** What [validateRulePortSegments] returns *)

Lemma canonical_single port : 1 ≤ port ≤ 65535 → canonical [{| seg_StartPort := port; seg_EndPort := port |}].
Proof. intros H. split; [repeat constructor|]. apply Forall_singleton. unfold seg_ok; cbn; lia. Qed.

Lemma covered_one p port : covered p [{| seg_StartPort := port; seg_EndPort := port |}] ↔ p = port.
Proof. rewrite covered_single. unfold in_segment; cbn. lia. Qed.

Lemma is_single_spec port merged :
  is_single port merged = true ↔ merged = [{| seg_StartPort := port; seg_EndPort := port |}].
Proof.
  split; [|intros ->; cbn; by rewrite !Z.eqb_refl].
  destruct merged as [|[s e] [|]]; cbn; try done. intros H. bool_hyps. by subst.
Qed.

(** The single condition under which a request is accepted, on its ports. *)
Definition ports_accepted (port : Z) (values : list RulePortSegmentRequest) : Prop :=
  match values with
  | [] => 1 ≤ port ≤ 65535
  | _ => Forall seg_ok (map meant values) ∧ (port = 0 ∨ ∀ p, requested port values p ↔ p = port)
  end.

Lemma covered_in_range p l : Forall seg_ok l → covered p l → 1 ≤ p ≤ 65535.
Proof. intros Hl (s & Hin & Hp). rewrite Forall_forall in Hl. specialize (Hl s Hin). unfold seg_ok, in_segment in *. lia. Qed.

Lemma validateRulePortSegments_iff port values segs :
  validateRulePortSegments port values = Ok segs ↔
  ports_accepted port values ∧ canonical segs ∧ ∀ p, covered p segs ↔ requested port values p.
Proof.
  unfold validateRulePortSegments, ports_accepted. destruct values as [|v values].
  - destruct (_ || _) eqn:E; [split; [done|]; intros [H _]; lia|]. bool_hyps.
    assert (canonical [{| seg_StartPort := port; seg_EndPort := port |}]) as Hc by (apply canonical_single; lia).
    split.
    + intros [= <-]. split; [lia|]. split; [done|]. intros p. apply covered_one.
    + intros (_ & Hs & Hcov). f_equal. apply canonical_unique; [done..|]. intros p. by rewrite Hcov, covered_one.
  - set (vs := v :: values) in *. set (req := requested port vs).
    destruct (fold_result segStep [] vs) as [segments|e] eqn:Ef.
    2:{ split; [done|]. intros ((Hall & _) & _). cbn. exfalso.
        enough (fold_result segStep [] vs = Ok (map meant vs)) by congruence. by apply segStep_loop. }
    apply segStep_loop in Ef as [Hall ->]. cbn [app]. cbn [mbind result_bind].
    set (m := foldl mergeSegment [] (sort_stable segLess (map meant vs))).
    destruct (merge_spec (sort_stable segLess (map meant vs))) as [Hcan Hcov]; [apply sort_sorted, _| |].
    { by rewrite sort_perm. }
    fold m in Hcan, Hcov. setoid_rewrite (sort_perm segLess (map meant vs)) in Hcov.
    assert (canonical segs ∧ (∀ p, covered p segs ↔ req p) ↔ m = segs) as Hu.
    { split; [|intros <-; done]. intros [Hs Hp]. apply canonical_unique; [done..|]. intros p. by rewrite Hp, Hcov. }
    rewrite Hu. destruct (Z.eqb_spec port 0) as [->|Hport]; cbn [negb andb].
    { split; [intros [= ->]; auto|]. by intros [_ ->]. }
    destruct (is_single port m) eqn:Es; cbn [negb].
    + apply is_single_spec in Es. split; [intros [= ->]|by intros [_ ->]].
      split; [|done]. split; [done|]. right. intros p. rewrite <-covered_one, <-Es. symmetry. apply Hcov.
    + split; [done|]. intros [[_ [?|Hp]] _]; [done|]. exfalso.
      assert (m = [{| seg_StartPort := port; seg_EndPort := port |}]) as Em; [|apply is_single_spec in Em; congruence].
      assert (1 ≤ port ≤ 65535) as Hr by (apply (covered_in_range port (map meant vs)); [done|by apply Hp]).
      apply canonical_unique; [done|by apply canonical_single|]. intros p. rewrite Hcov, covered_one. apply Hp.
Qed.

Lemma canonical_meant l : canonical l → map meant l = l.
Proof.
  intros [_ Hl]. induction Hl as [|[s e] l Hx _ IH]; [done|]. cbn. unfold meant at 1. cbn.
  unfold seg_ok in Hx; cbn in Hx. rewrite IH. by destruct (Z.eqb_spec e 0); [lia|].
Qed.

Lemma validateRulePortSegments_nonempty port values segs :
  validateRulePortSegments port values = Ok segs → segs ≠ [].
Proof.
  intros (Ha & Hc & Hcov)%validateRulePortSegments_iff ->.
  assert (∃ p, requested port values p) as [p Hp]; [|by apply Hcov, covered_nil in Hp].
  destruct values as [|v values]; [by exists port|]. destruct Ha as [Hall _]. apply Forall_inv in Hall.
  exists (seg_StartPort v). apply covered_cons. left. unfold seg_ok, in_segment in *. cbn in *. lia.
Qed.

(** Every accepted set of ports has its canonical list. *)
Lemma ports_accepted_ok port values :
  ports_accepted port values → ∃ segs, validateRulePortSegments port values = Ok segs.
Proof.
  intros Ha. destruct values as [|v values].
  - eexists. apply validateRulePortSegments_iff. split; [done|]. cbn in Ha.
    split; [by apply canonical_single|]. intros p. apply covered_one.
  - destruct Ha as [Hall Hp]. set (vs := v :: values) in *.
    destruct (merge_spec (sort_stable segLess (map meant vs))) as [Hcan Hcov]; [apply sort_sorted, _| |].
    { by rewrite sort_perm. }
    eexists. apply validateRulePortSegments_iff. split; [done|]. split; [done|].
    intros p. rewrite Hcov. by rewrite (sort_perm segLess (map meant vs)).
Qed.

(** ** Rule requests *)

Record RuleMatchRequest := { match_Type : string; match_SNIHostname : string }.
Record ProxyProtocolRequest := { proxy_In : string; proxy_Out : string }.
Record RuleUpstreamRequest := { up_Type : string; up_TargetID : string; up_TargetGroupID : string }.
Record RuleRequest := {
  rr_Name : string; rr_Tags : list string; rr_NodeGroupID : string; rr_ListenIP : string;
  rr_SendIP : string; rr_FailurePolicy : string; rr_DataplanePreference : string;
  rr_ForwardingType : string; rr_Protocol : string; rr_Port : Z;
  rr_PortSegments : list RulePortSegmentRequest; rr_Match : RuleMatchRequest;
  rr_ProxyProtocol : ProxyProtocolRequest; rr_Upstream : RuleUpstreamRequest; rr_Enabled : bool }.

Definition validProxyProtocol (value : string) : bool :=
  String.eqb value "" || String.eqb value "NONE" || String.eqb value "V1" || String.eqb value "V2".
Definition normalizedProxyProtocol (value : string) : string :=
  if String.eqb value "" || String.eqb value "NONE" then "" else value.
Definition or_default (value dflt : string) : string := if String.eqb value "" then dflt else value.

Section requests.
Context `{UnicodeTables}.

(** The assignments at the top of [ValidateRuleRequest]. *)
Definition trimRuleRequest (r : RuleRequest) : RuleRequest := {|
  rr_Name := TrimSpace (rr_Name r); rr_Tags := normalizeTags (rr_Tags r);
  rr_NodeGroupID := TrimSpace (rr_NodeGroupID r); rr_ListenIP := TrimSpace (rr_ListenIP r);
  rr_SendIP := TrimSpace (rr_SendIP r); rr_FailurePolicy := upperTrim (rr_FailurePolicy r);
  rr_DataplanePreference := upperTrim (rr_DataplanePreference r);
  rr_ForwardingType := upperTrim (rr_ForwardingType r); rr_Protocol := upperTrim (rr_Protocol r);
  rr_Port := rr_Port r; rr_PortSegments := rr_PortSegments r;
  rr_Match := {| match_Type := upperTrim (match_Type (rr_Match r));
                 match_SNIHostname := lowerTrim (match_SNIHostname (rr_Match r)) |};
  rr_ProxyProtocol := {| proxy_In := upperTrim (proxy_In (rr_ProxyProtocol r));
                         proxy_Out := upperTrim (proxy_Out (rr_ProxyProtocol r)) |};
  rr_Upstream := {| up_Type := upperTrim (up_Type (rr_Upstream r));
                    up_TargetID := TrimSpace (up_TargetID (rr_Upstream r));
                    up_TargetGroupID := TrimSpace (up_TargetGroupID (rr_Upstream r)) |};
  rr_Enabled := rr_Enabled r |}.

Definition field_error (field message : string) (details : gmap string anyValue) : fault validatorError :=
  Error (invalidFieldError field message details).

(** The switch over the upstream type. *)
Definition validateUpstream (u : RuleUpstreamRequest) : result (fault validatorError) () :=
  let present : gmap string anyValue :=
    {["upstream.target_id_present" := AnyBool (negb (String.eqb (up_TargetID u) ""));
      "upstream.target_group_id_present" := AnyBool (negb (String.eqb (up_TargetGroupID u) ""))]} in
  if String.eqb (up_Type u) "TARGET" then
    reject_if (String.eqb (up_TargetID u) "" || negb (String.eqb (up_TargetGroupID u) ""))
      (Error (invalidRequestError "TARGET upstream requires target_id and no target_group_id." present))
  else if String.eqb (up_Type u) "TARGET_GROUP" then
    reject_if (String.eqb (up_TargetGroupID u) "" || negb (String.eqb (up_TargetID u) ""))
      (Error (invalidRequestError "TARGET_GROUP upstream requires target_group_id and no target_id." present))
  else Err (field_error "upstream.type" "Rule upstream type must be TARGET or TARGET_GROUP."
              {["actual" := AnyString (up_Type u)]}).

(** From the protocol on: the checks that need no port. *)
Definition validateRuleOptions (request : RuleRequest) (port : Z) (segments : list RulePortSegmentRequest)
    : result (fault validatorError) RuleRequest :=
  let protocol := rr_Protocol request in
  let matchType := match_Type (rr_Match request) in
  let sni := match_SNIHostname (rr_Match request) in
  let proxyIn := proxy_In (rr_ProxyProtocol request) in
  let proxyOut := proxy_Out (rr_ProxyProtocol request) in
  reject_if (negb (String.eqb protocol "TCP") && negb (String.eqb protocol "UDP") && negb (String.eqb protocol "TCP_UDP"))
    (field_error "protocol" "Rule protocol must be TCP, UDP, or TCP_UDP." {["actual" := AnyString protocol]});;
  let forwardingType := or_default (rr_ForwardingType request) "DIRECT" in
  reject_if (negb (String.eqb forwardingType "DIRECT"))
    (field_error "forwarding_type" "Only DIRECT forwarding is supported by the current runtime."
       {["actual" := AnyString forwardingType]});;
  let failurePolicy := or_default (rr_FailurePolicy request) "KEEP_ENABLED" in
  reject_if (negb (String.eqb failurePolicy "KEEP_ENABLED") && negb (String.eqb failurePolicy "DISABLE_WHEN_ALL_NODES_FAILED"))
    (field_error "failure_policy" "Unsupported rule failure policy." {["actual" := AnyString failurePolicy]});;
  let preference := or_default (rr_DataplanePreference request) "AUTO" in
  reject_if (negb (String.eqb preference "AUTO") && negb (String.eqb preference "NATIVE")
             && negb (String.eqb preference "HAPROXY") && negb (String.eqb preference "NFTABLES"))
    (field_error "dataplane_preference" "Unsupported rule dataplane preference." {["actual" := AnyString preference]});;
  reject_if (negb (String.eqb matchType "ANY_INBOUND") && negb (String.eqb matchType "TLS_SNI"))
    (field_error "match.type" "Rule match type must be ANY_INBOUND or TLS_SNI." {["actual" := AnyString matchType]});;
  reject_if (negb (String.eqb protocol "TCP") && negb (String.eqb matchType "ANY_INBOUND"))
    (field_error "match.type" "Only TCP rules can use TLS_SNI matching."
       {["match_type" := AnyString matchType; "protocol" := AnyString protocol]});;
  reject_if (String.eqb matchType "TLS_SNI" && String.eqb sni "")
    (field_error "match.sni_hostname" "TLS_SNI rules require an SNI hostname." ∅);;
  reject_if (String.eqb matchType "TLS_SNI" && negb (validSNIHostname sni))
    (field_error "match.sni_hostname" "TLS_SNI hostname must be a valid hostname token." ∅);;
  let sni := if String.eqb matchType "ANY_INBOUND" then "" else sni in
  reject_if (negb (validProxyProtocol proxyIn) || negb (validProxyProtocol proxyOut))
    (Error (invalidRequestError "Rule proxy protocol must be NONE, V1, or V2."
       {["proxy_protocol.in" := AnyString proxyIn; "proxy_protocol.out" := AnyString proxyOut]}));;
  reject_if (String.eqb protocol "UDP"
             && (negb (String.eqb (normalizedProxyProtocol proxyIn) "")
                 || negb (String.eqb (normalizedProxyProtocol proxyOut) "")))
    (Error (invalidRequestError "UDP rules cannot use Proxy Protocol."
       {["protocol" := AnyString protocol; "proxy_protocol.in" := AnyString proxyIn;
         "proxy_protocol.out" := AnyString proxyOut]}));;
  validateUpstream (rr_Upstream request);;
  Ok {| rr_Name := rr_Name request; rr_Tags := rr_Tags request; rr_NodeGroupID := rr_NodeGroupID request;
        rr_ListenIP := rr_ListenIP request; rr_SendIP := rr_SendIP request;
        rr_FailurePolicy := failurePolicy; rr_DataplanePreference := preference;
        rr_ForwardingType := forwardingType; rr_Protocol := protocol; rr_Port := port;
        rr_PortSegments := segments;
        rr_Match := {| match_Type := matchType; match_SNIHostname := sni |};
        rr_ProxyProtocol := rr_ProxyProtocol request; rr_Upstream := rr_Upstream request;
        rr_Enabled := rr_Enabled request |}.

Definition ValidateRuleRequest (request : RuleRequest) : result (fault validatorError) RuleRequest :=
  let request := trimRuleRequest request in
  reject_if (String.eqb (rr_Name request) "") (field_error "name" "Rule name is required." ∅);;
  reject_if (120 <? len (rr_Name request))
    (field_error "name" "Rule name must be at most 120 characters." {["max_length" := AnyInt 120]});;
  reject_if (String.eqb (rr_NodeGroupID request) "")
    (field_error "node_group_id" "Rule node_group_id is required." ∅);;
  reject_if (String.eqb (rr_ListenIP request) "") (field_error "listen_ip" "Rule listen_ip is required." ∅);;
  segments ← map_err Error (validateRulePortSegments (rr_Port request) (rr_PortSegments request));
  match segments with
  | [] => Err Panic
  | first :: _ =>
      reject_if (negb (String.eqb (rr_SendIP request) "") && negb (isSome (ParseIP (rr_SendIP request))))
        (field_error "send_ip" "Rule send_ip must be a valid IP address." ∅);;
      validateRuleOptions request (seg_StartPort first) segments
  end.

Record RuleCopyRequest := { copy_Name : string; copy_Tags : option (list string) }.

Definition ValidateRuleCopyRequest (request : RuleCopyRequest) : result validatorError RuleCopyRequest :=
  let name := TrimSpace (copy_Name request) in
  let tags := normalizeTags <$> copy_Tags request in
  if 120 <? len name
  then Err (invalidFieldError "name" "Copied rule name must be at most 120 characters." {["max_length" := AnyInt 120]})
  else Ok {| copy_Name := name; copy_Tags := tags |}.

Record RuleBatchRequest := { batch_Action : string; batch_RuleIDs : list string }.

Definition ValidateRuleBatchRequest (request : RuleBatchRequest) : result validatorError RuleBatchRequest :=
  let action := upperTrim (batch_Action request) in
  if negb (String.eqb action "ENABLE") && negb (String.eqb action "DISABLE") && negb (String.eqb action "DELETE")
  then Err (invalidFieldError "action" "Batch action must be ENABLE, DISABLE, or DELETE." {["actual" := AnyString action]})
  else
    let ruleIDs := dedupLoop TrimSpace is_blank (batch_RuleIDs request) in
    match ruleIDs with
    | [] => Err (invalidFieldError "rule_ids" "Batch request must include at least one rule_id." ∅)
    | _ => Ok {| batch_Action := action; batch_RuleIDs := ruleIDs |}
    end.
End requests.

(** ** What a rule request is accepted for *)

Definition upstream_ok (u : RuleUpstreamRequest) : Prop :=
  (up_Type u = "TARGET" ∧ up_TargetID u ≠ "" ∧ up_TargetGroupID u = "") ∨
  (up_Type u = "TARGET_GROUP" ∧ up_TargetGroupID u ≠ "" ∧ up_TargetID u = "").

Definition proxy_ok (protocol : string) (p : ProxyProtocolRequest) : Prop :=
  proxy_In p ∈ [""; "NONE"; "V1"; "V2"] ∧ proxy_Out p ∈ [""; "NONE"; "V1"; "V2"] ∧
  (protocol = "UDP" → proxy_In p ∈ [""; "NONE"] ∧ proxy_Out p ∈ [""; "NONE"]).

Section accepted.
Context `{UnicodeTables}.

Definition match_ok (protocol : string) (m : RuleMatchRequest) : Prop :=
  match_Type m = "ANY_INBOUND" ∨
  (match_Type m = "TLS_SNI" ∧ protocol = "TCP" ∧ validSNIHostname (match_SNIHostname m) = true).

Record options_accepted (n : RuleRequest) : Prop := {
  oa_protocol : rr_Protocol n ∈ ["TCP"; "UDP"; "TCP_UDP"];
  oa_forwarding : rr_ForwardingType n ∈ [""; "DIRECT"];
  oa_policy : rr_FailurePolicy n ∈ [""; "KEEP_ENABLED"; "DISABLE_WHEN_ALL_NODES_FAILED"];
  oa_preference : rr_DataplanePreference n ∈ [""; "AUTO"; "NATIVE"; "HAPROXY"; "NFTABLES"];
  oa_match : match_ok (rr_Protocol n) (rr_Match n);
  oa_proxy : proxy_ok (rr_Protocol n) (rr_ProxyProtocol n);
  oa_upstream : upstream_ok (rr_Upstream n) }.

(** The acceptance condition, on the trimmed request. *)
Record rule_accepted (n : RuleRequest) : Prop := {
  ra_name : rr_Name n ≠ "" ∧ len (rr_Name n) ≤ 120;
  ra_group : rr_NodeGroupID n ≠ "";
  ra_listen : rr_ListenIP n ≠ "";
  ra_ports : ports_accepted (rr_Port n) (rr_PortSegments n);
  ra_send : rr_SendIP n = "" ∨ is_Some (ParseIP (rr_SendIP n));
  ra_options : options_accepted n }.

(** The invariant of a stored rule: every field has its canonical form. *)
Record rule_stored (r : RuleRequest) : Prop := {
  rs_name : rr_Name r ≠ "" ∧ len (rr_Name r) ≤ 120;
  rs_ids : rr_NodeGroupID r ≠ "" ∧ rr_ListenIP r ≠ "";
  rs_segments : canonical (rr_PortSegments r);
  rs_port : ∃ first rest, rr_PortSegments r = first :: rest ∧ rr_Port r = seg_StartPort first;
  rs_send : rr_SendIP r = "" ∨ is_Some (ParseIP (rr_SendIP r));
  rs_protocol : rr_Protocol r ∈ ["TCP"; "UDP"; "TCP_UDP"];
  rs_forwarding : rr_ForwardingType r = "DIRECT";
  rs_policy : rr_FailurePolicy r ∈ ["KEEP_ENABLED"; "DISABLE_WHEN_ALL_NODES_FAILED"];
  rs_preference : rr_DataplanePreference r ∈ ["AUTO"; "NATIVE"; "HAPROXY"; "NFTABLES"];
  rs_match : match_ok (rr_Protocol r) (rr_Match r);
  rs_sni : match_Type (rr_Match r) = "ANY_INBOUND" → match_SNIHostname (rr_Match r) = "";
  rs_proxy : proxy_ok (rr_Protocol r) (rr_ProxyProtocol r);
  rs_upstream : upstream_ok (rr_Upstream r) }.
End accepted.

Lemma validProxyProtocol_spec v : validProxyProtocol v = true ↔ v ∈ [""; "NONE"; "V1"; "V2"].
Proof. unfold validProxyProtocol. rewrite !orb_true_iff, !String.eqb_eq. set_solver. Qed.

Lemma normalizedProxyProtocol_none v : normalizedProxyProtocol v = "" ↔ v ∈ [""; "NONE"].
Proof.
  unfold normalizedProxyProtocol. destruct (String.eqb_spec v ""), (String.eqb_spec v "NONE"); cbn; set_solver.
Qed.

Lemma or_default_in v d l : d ∈ l → "" ∉ l → or_default v d ∈ l ↔ v ∈ "" :: l.
Proof. intros. unfold or_default. destruct (String.eqb_spec v ""); set_solver. Qed.

Lemma validateUpstream_ok u : is_ok (validateUpstream u) = true ↔ upstream_ok u.
Proof.
  unfold validateUpstream, upstream_ok. cbv zeta. destruct (String.eqb_spec (up_Type u) "TARGET") as [->|].
  - unfold reject_if. destruct (String.eqb_spec (up_TargetID u) ""), (String.eqb_spec (up_TargetGroupID u) "");
      cbn; naive_solver.
  - destruct (String.eqb_spec (up_Type u) "TARGET_GROUP") as [->|]; [|cbn; naive_solver].
    unfold reject_if. destruct (String.eqb_spec (up_TargetID u) ""), (String.eqb_spec (up_TargetGroupID u) "");
      cbn; naive_solver.
Qed.

Lemma in3 {A} (v a b c : A) : v ∈ [a; b; c] ↔ v = a ∨ v = b ∨ v = c.
Proof. set_solver. Qed.

Lemma validSNIHostname_empty `{UnicodeTables} : validSNIHostname "" = false.
Proof. done. Qed.

Section rule_proofs.
Context `{UnicodeTables}.

(** One boolean check against its proposition. *)
Lemma protocol_check v : (negb (String.eqb v "TCP") && negb (String.eqb v "UDP") && negb (String.eqb v "TCP_UDP")) = false
  ↔ v ∈ ["TCP"; "UDP"; "TCP_UDP"].
Proof. destruct (String.eqb_spec v "TCP"), (String.eqb_spec v "UDP"), (String.eqb_spec v "TCP_UDP"); set_solver. Qed.

Lemma match_check protocol m :
  let t := match_Type m in let sni := match_SNIHostname m in
  (negb (String.eqb t "ANY_INBOUND") && negb (String.eqb t "TLS_SNI")) = false ∧
  (negb (String.eqb protocol "TCP") && negb (String.eqb t "ANY_INBOUND")) = false ∧
  (String.eqb t "TLS_SNI" && String.eqb sni "") = false ∧
  (String.eqb t "TLS_SNI" && negb (validSNIHostname sni)) = false
  ↔ match_ok protocol m.
Proof.
  cbv zeta. unfold match_ok. pose proof validSNIHostname_empty as He.
  destruct (String.eqb_spec (match_Type m) "ANY_INBOUND") as [->|Hany]; [cbn; rewrite ?andb_false_r; naive_solver|].
  destruct (String.eqb_spec (match_Type m) "TLS_SNI") as [->|Htls]; [|cbn; naive_solver].
  destruct (String.eqb_spec (match_SNIHostname m) "") as [->|Hsni]; [rewrite He; cbn; naive_solver|].
  destruct (String.eqb_spec protocol "TCP") as [->|Hp], (validSNIHostname (match_SNIHostname m)); cbn; intuition congruence.
Qed.

Lemma proxy_check protocol p :
  (negb (validProxyProtocol (proxy_In p)) || negb (validProxyProtocol (proxy_Out p))) = false ∧
  (String.eqb protocol "UDP" && (negb (String.eqb (normalizedProxyProtocol (proxy_In p)) "")
     || negb (String.eqb (normalizedProxyProtocol (proxy_Out p)) ""))) = false
  ↔ proxy_ok protocol p.
Proof.
  unfold proxy_ok. rewrite <-!validProxyProtocol_spec, <-!normalizedProxyProtocol_none.
  destruct (validProxyProtocol (proxy_In p)), (validProxyProtocol (proxy_Out p)); cbn; [|naive_solver..].
  destruct (String.eqb_spec protocol "UDP") as [->|]; cbn; [|naive_solver].
  destruct (String.eqb_spec (normalizedProxyProtocol (proxy_In p)) ""),
    (String.eqb_spec (normalizedProxyProtocol (proxy_Out p)) ""); cbn; naive_solver.
Qed.

Lemma default_check1 v d : negb (String.eqb (or_default v d) d) = false ↔ v ∈ [""; d].
Proof.
  unfold or_default. destruct (String.eqb_spec v "") as [->|]; [rewrite String.eqb_refl; set_solver|].
  rewrite negb_false_iff, String.eqb_eq. set_solver.
Qed.

Lemma default_check2 v d a : d ≠ "" →
  (negb (String.eqb (or_default v d) d) && negb (String.eqb (or_default v d) a)) = false ↔ v = "" ∨ v ∈ [d; a].
Proof.
  intros Hd. unfold or_default.
  destruct (String.eqb_spec v "") as [->|]; [rewrite String.eqb_refl; cbn; naive_solver|].
  destruct (String.eqb_spec v d), (String.eqb_spec v a); cbn; set_solver.
Qed.

Lemma default_check4 v d a b c : d ≠ "" →
  (negb (String.eqb (or_default v d) d) && negb (String.eqb (or_default v d) a)
   && negb (String.eqb (or_default v d) b) && negb (String.eqb (or_default v d) c)) = false
  ↔ v = "" ∨ v ∈ [d; a; b; c].
Proof.
  intros Hd. unfold or_default.
  destruct (String.eqb_spec v "") as [->|]; [rewrite String.eqb_refl; cbn; naive_solver|].
  destruct (String.eqb_spec v d), (String.eqb_spec v a), (String.eqb_spec v b), (String.eqb_spec v c); cbn; set_solver.
Qed.

Lemma validateRuleOptions_iff n port segs r :
  validateRuleOptions n port segs = Ok r ↔
  options_accepted n ∧
  r = {| rr_Name := rr_Name n; rr_Tags := rr_Tags n; rr_NodeGroupID := rr_NodeGroupID n;
         rr_ListenIP := rr_ListenIP n; rr_SendIP := rr_SendIP n;
         rr_FailurePolicy := or_default (rr_FailurePolicy n) "KEEP_ENABLED";
         rr_DataplanePreference := or_default (rr_DataplanePreference n) "AUTO";
         rr_ForwardingType := or_default (rr_ForwardingType n) "DIRECT"; rr_Protocol := rr_Protocol n;
         rr_Port := port; rr_PortSegments := segs;
         rr_Match := {| match_Type := match_Type (rr_Match n);
                        match_SNIHostname := if String.eqb (match_Type (rr_Match n)) "ANY_INBOUND" then ""
                                             else match_SNIHostname (rr_Match n) |};
         rr_ProxyProtocol := rr_ProxyProtocol n; rr_Upstream := rr_Upstream n; rr_Enabled := rr_Enabled n |}.
Proof.
  unfold validateRuleOptions. cbv zeta. rewrite !reject_if_bind.
  rewrite protocol_check, default_check1, default_check2, default_check4 by done.
  pose proof (match_check (rr_Protocol n) (rr_Match n)) as Hm. cbv zeta in Hm.
  pose proof (proxy_check (rr_Protocol n) (rr_ProxyProtocol n)) as Hp.
  pose proof (validateUpstream_ok (rr_Upstream n)) as Hu.
  destruct (validateUpstream (rr_Upstream n)) as [[]|e]; cbn [is_ok mbind result_bind] in *; split.
  - intros (H1 & H2 & H3 & H4 & H5 & H6 & H7 & H8 & H9 & H10 & [= <-]). split; [|done].
    constructor; try tauto; set_solver.
  - intros [[H1 H2 H3 H4 H5 H6 H7] ->]. apply Hm in H5 as (? & ? & ? & ?). apply Hp in H6 as [? ?].
    split_and!; try done; set_solver.
  - naive_solver.
  - intros [[H1 H2 H3 H4 H5 H6 H7] _]. apply Hu in H7. done.
Qed.

(** The whole function: the result is [Ok] exactly for an accepted request. *)
Lemma ValidateRuleRequest_iff request r (n := trimRuleRequest request) :
  ValidateRuleRequest request = Ok r ↔
  rule_accepted n ∧ ∃ first rest,
    validateRulePortSegments (rr_Port n) (rr_PortSegments n) = Ok (first :: rest) ∧
    validateRuleOptions n (seg_StartPort first) (first :: rest) = Ok r.
Proof.
  unfold ValidateRuleRequest. fold n. cbv zeta. rewrite !reject_if_bind, !String.eqb_neq, Z.ltb_ge.
  destruct (validateRulePortSegments (rr_Port n) (rr_PortSegments n)) as [[|first rest]|e] eqn:Es;
    cbn [map_err mbind result_bind].
  - by apply validateRulePortSegments_nonempty in Es.
  - rewrite reject_if_bind.
    assert ((negb (String.eqb (rr_SendIP n) "") && negb (isSome (ParseIP (rr_SendIP n)))) = false ↔
      rr_SendIP n = "" ∨ is_Some (ParseIP (rr_SendIP n))) as ->.
    { destruct (String.eqb_spec (rr_SendIP n) ""), (ParseIP (rr_SendIP n)); cbn;
        rewrite ?is_Some_alt; naive_solver. }
    apply validateRulePortSegments_iff in Es as (Hports & _ & _). split.
    + intros (H1 & H2 & H3 & H4 & H5 & H6). split; [|eauto]. apply validateRuleOptions_iff in H6 as [H6 _].
      by constructor.
    + intros [[[? ?] ? ? ? ? ?] (f & rs & [= <- <-] & Hr)]. done.
  - split; [naive_solver|]. intros [_ (f & rs & ? & _)]. done.
Qed.

Lemma validateRuleOptions_no_panic n port segs : validateRuleOptions n port segs ≠ Err Panic.
Proof.
  unfold validateRuleOptions, validateUpstream. cbv zeta. unfold reject_if.
  repeat match goal with |- context [if ?b then Err _ else Ok tt] => destruct b; cbn [mbind result_bind]; [done|] end.
  repeat case_match; done.
Qed.

Lemma accepted_options_of n : rule_accepted n → options_accepted n.
Proof. by intros []. Qed.
Lemma ValidateRuleRequest_rule_stored request r :
  ValidateRuleRequest request = Ok r → rule_stored r.
Proof.
  intros ([Hn Hg Hl Hp Hsd Ho] & first & rest & Hs & Hr)%ValidateRuleRequest_iff.
  apply validateRuleOptions_iff in Hr as [_ ->]. apply validateRulePortSegments_iff in Hs as (_ & Hcan & _).
  destruct Ho as [H1 H2 H3 H4 H5 H6 H7].
  constructor; cbn [rr_Name rr_NodeGroupID rr_ListenIP rr_PortSegments rr_Port rr_SendIP rr_Protocol rr_ForwardingType
    rr_FailurePolicy rr_DataplanePreference rr_Match rr_ProxyProtocol rr_Upstream match_Type match_SNIHostname]; try done.
  - by exists first, rest.
  - unfold or_default. destruct (String.eqb_spec (rr_ForwardingType (trimRuleRequest request)) ""); [done|set_solver].
  - apply or_default_in; [by left|set_solver|done].
  - apply or_default_in; [by left|set_solver|done].
  - destruct H5 as [E|(E1 & E2 & E3)]; [by left|]. right. cbn [match_Type match_SNIHostname]. rewrite E1. done.
  - intros ->. done.
Qed.
End rule_proofs.

(** ** Properties *)

(** C24. Port segments are brought to the one canonical form of their set of
    ports: a request is accepted exactly when every segment lies in 1..65535
    with its ends in order and a port given beside the segments is their only
    port; the result is ascending, in range, with a gap between segments, and
    covers exactly the requested ports - and is the only such list. *)
Theorem validateRulePortSegments_spec port values segs :
  validateRulePortSegments port values = Ok segs ↔
  ports_accepted port values ∧ canonical segs ∧ ∀ p, covered p segs ↔ requested port values p.
Proof. apply validateRulePortSegments_iff. Qed.

(** Validating stored port segments again returns them unchanged. *)
Theorem validateRulePortSegments_idemp port values segs :
  validateRulePortSegments port values = Ok segs → validateRulePortSegments 0 segs = Ok segs.
Proof.
  intros Hok. pose proof (validateRulePortSegments_nonempty _ _ _ Hok) as Hne.
  apply validateRulePortSegments_iff in Hok as (_ & Hc & _). apply validateRulePortSegments_iff.
  destruct segs as [|x l]; [done|]. unfold ports_accepted, requested. rewrite canonical_meant by done.
  split; [|done]. split; [apply Hc|by left].
Qed.

Lemma validateRulePortSegments_idemp_witness :
  let l := [{| seg_StartPort := 90; seg_EndPort := 95 |}; {| seg_StartPort := 80; seg_EndPort := 0 |};
            {| seg_StartPort := 81; seg_EndPort := 83 |}] in
  validateRulePortSegments 0 [{| seg_StartPort := 80; seg_EndPort := 83 |}; {| seg_StartPort := 90; seg_EndPort := 95 |}]
  = Ok [{| seg_StartPort := 80; seg_EndPort := 83 |}; {| seg_StartPort := 90; seg_EndPort := 95 |}].
Proof. intros l. apply (validateRulePortSegments_idemp 0 l). vm_compute. reflexivity. Defined.

(** [ValidateRuleRequest] accepts a request exactly when its trimmed form
    meets the acceptance condition, and never panics: the index into the
    validated segments is in range. *)
Theorem ValidateRuleRequest_accepts `{UnicodeTables} request :
  match ValidateRuleRequest request with
  | Ok _ => rule_accepted (trimRuleRequest request)
  | Err (Error _) => ¬ rule_accepted (trimRuleRequest request)
  | Err Panic => False
  end.
Proof.
  destruct (ValidateRuleRequest request) as [r|e] eqn:E; [apply ValidateRuleRequest_iff in E; apply E|].
  set (n := trimRuleRequest request) in *. destruct e as [e|].
  - intros Ha. pose proof (ra_ports _ Ha) as Hp. pose proof (accepted_options_of _ Ha) as Ho.
    assert (∃ segs, validateRulePortSegments (rr_Port n) (rr_PortSegments n) = Ok segs) as [segs Hs] by (by apply ports_accepted_ok).
    pose proof (validateRulePortSegments_nonempty _ _ _ Hs) as Hne. destruct segs as [|first rest]; [done|].
    assert (∃ r, ValidateRuleRequest request = Ok r) as [r Hr]; [|congruence].
    eexists. apply ValidateRuleRequest_iff. split; [done|]. exists first, rest. split; [done|].
    apply validateRuleOptions_iff. done.
  - unfold ValidateRuleRequest in E. fold n in E. cbv zeta in E. unfold reject_if in E.
    destruct (validateRulePortSegments (rr_Port n) (rr_PortSegments n)) as [[|first rest]|e] eqn:Es.
    { by apply validateRulePortSegments_nonempty in Es. }
    all: cbn [map_err] in E; repeat match type of E with
      | context [if ?b then Err _ else Ok tt] => destruct b; cbn [mbind result_bind] in E; [done|] end; try done.
    by apply validateRuleOptions_no_panic in E.
Qed.

(** C31. A validated rule is in stored form: names and references are present,
    its port segments are canonical and start with its port, every option has
    one of its values with the defaults filled in, a TLS_SNI rule is a TCP rule
    with a valid host name and any other rule has none, UDP rules carry no
    proxy protocol, and the upstream names exactly one of a target and a group. *)
Theorem ValidateRuleRequest_stored `{UnicodeTables} request r :
  ValidateRuleRequest request = Ok r → rule_stored r.
Proof. apply ValidateRuleRequest_rule_stored. Qed.

Definition example_rule_request : RuleRequest := {|
  rr_Name := " web "; rr_Tags := ["B"; "a"; " b "]; rr_NodeGroupID := "g1"; rr_ListenIP := "0.0.0.0";
  rr_SendIP := ""; rr_FailurePolicy := ""; rr_DataplanePreference := "haproxy"; rr_ForwardingType := "";
  rr_Protocol := "tcp"; rr_Port := 0;
  rr_PortSegments := [{| seg_StartPort := 8443; seg_EndPort := 8450 |}; {| seg_StartPort := 443; seg_EndPort := 0 |}];
  rr_Match := {| match_Type := "tls_sni"; match_SNIHostname := "Example.COM" |};
  rr_ProxyProtocol := {| proxy_In := ""; proxy_Out := "v2" |};
  rr_Upstream := {| up_Type := "target"; up_TargetID := "t1"; up_TargetGroupID := "" |}; rr_Enabled := true |}.

Definition example_stored_rule : RuleRequest := {|
  rr_Name := "web"; rr_Tags := ["a"; "b"]; rr_NodeGroupID := "g1"; rr_ListenIP := "0.0.0.0";
  rr_SendIP := ""; rr_FailurePolicy := "KEEP_ENABLED"; rr_DataplanePreference := "HAPROXY";
  rr_ForwardingType := "DIRECT"; rr_Protocol := "TCP"; rr_Port := 443;
  rr_PortSegments := [{| seg_StartPort := 443; seg_EndPort := 443 |}; {| seg_StartPort := 8443; seg_EndPort := 8450 |}];
  rr_Match := {| match_Type := "TLS_SNI"; match_SNIHostname := "example.com" |};
  rr_ProxyProtocol := {| proxy_In := ""; proxy_Out := "V2" |};
  rr_Upstream := {| up_Type := "TARGET"; up_TargetID := "t1"; up_TargetGroupID := "" |}; rr_Enabled := true |}.

Lemma ValidateRuleRequest_stored_witness : @rule_stored ascii_tables example_stored_rule.
Proof. apply (@ValidateRuleRequest_stored ascii_tables example_rule_request). vm_compute. reflexivity. Defined.
