(* ===== verification/NodeValidator.v ===== *)
(** * Validation of node requests (pkg/core/validator)

    Listen and send addresses, port ranges, published DNS addresses and the
    full and partial node requests. *)

From S2P Require Import Prelude GoString GoSort GoNet ValidatorBase.
#[local] Open Scope Z_scope.

Record NodeListenIP := { nl_ListenIP : string; nl_DisplayName : string }.
Record NodeSendIP := { ns_SendIP : string; ns_DisplayName : string }.
Record NodePortRange := { pr_Protocol : string; pr_StartPort : Z; pr_EndPort : Z }.
Record NodeDNSPublishAddress := { da_AddressType : string; da_Address : string; da_Enabled : bool }.

(** ** Addresses *)

(** A loop state: the keys seen and the normalised values. *)
Definition seenStep (A : Type) : Type := (gset string * list A)%type.

Definition listenIPStep (s : seenStep NodeListenIP) (value : NodeListenIP) : result validatorError (seenStep NodeListenIP) :=
  let '(seen, normalized) := s in
  let ip := TrimSpace (nl_ListenIP value) in
  let name := TrimSpace (nl_DisplayName value) in
  if String.eqb ip "" then Ok s
  else if negb (isSome (ParseIP ip))
  then Err (invalidFieldError "listen_ips" "Listen IP must be a valid IP address." {["actual" := AnyString ip]})
  else if 120 <? len name
  then Err (invalidFieldError "listen_ips" "Listen IP label must be at most 120 characters." ∅)
  else if bool_decide (ip ∈ seen)
  then Err (invalidFieldError "listen_ips" "Listen IP entries must be unique." {["actual" := AnyString ip]})
  else
    let name := if String.eqb name "" then (if String.eqb ip "0.0.0.0" then "default" else ip) else name in
    Ok ({[ip]} ∪ seen, normalized ++ [{| nl_ListenIP := ip; nl_DisplayName := name |}]).

Definition validateListenIPs (values : list NodeListenIP) : result validatorError (list NodeListenIP) :=
  s ← fold_result listenIPStep (∅, []) values;
  match s.2 with
  | [] => Ok [{| nl_ListenIP := "0.0.0.0"; nl_DisplayName := "default" |}]
  | normalized => Ok normalized
  end.

Definition sendIPStep (s : seenStep NodeSendIP) (value : NodeSendIP) : result validatorError (seenStep NodeSendIP) :=
  let '(seen, normalized) := s in
  let ip := TrimSpace (ns_SendIP value) in
  let name := TrimSpace (ns_DisplayName value) in
  if String.eqb ip "" then Ok s
  else if negb (isSome (ParseIP ip))
  then Err (invalidFieldError "send_ips" "Send IP must be a valid IP address." {["actual" := AnyString ip]})
  else if 120 <? len name
  then Err (invalidFieldError "send_ips" "Send IP label must be at most 120 characters." ∅)
  else if bool_decide (ip ∈ seen)
  then Err (invalidFieldError "send_ips" "Send IP entries must be unique." {["actual" := AnyString ip]})
  else Ok ({[ip]} ∪ seen, normalized ++ [{| ns_SendIP := ip; ns_DisplayName := if String.eqb name "" then ip else name |}]).

Definition validateSendIPs (values : list NodeSendIP) : result validatorError (list NodeSendIP) :=
  snd <$> fold_result sendIPStep (∅, []) values.

Definition validateMaxRulePorts (value : Z) : result validatorError Z :=
  if value =? 0 then Ok 256
  else if (value <? 1) || (65535 <? value)
  then Err (invalidFieldError "max_rule_ports" "Maximum rule ports must be between 1 and 65535."
              {["actual" := AnyInt value; "min" := AnyInt 1; "max" := AnyInt 65535]})
  else Ok value.

Definition isCarrierGradeNATAddress (ip : bytes) : bool :=
  match To4 ip with
  | Some (b0 :: b1 :: _) => (b2z b0 =? 100) && (Z.land (b2z b1) 192 =? 64)
  | _ => false
  end.

Definition isPublicIP (ip : bytes) : bool :=
  IsGlobalUnicast ip && negb (IsPrivate ip) && negb (IsLoopback ip) && negb (IsLinkLocalUnicast ip)
  && negb (IsLinkLocalMulticast ip) && negb (IsMulticast ip) && negb (IsUnspecified ip)
  && negb (isCarrierGradeNATAddress ip).

(** The separator of the key is a NUL byte. *)
Definition nul : string := string_of [x00].

Section node.
Context `{UnicodeTables}.

Definition portRangeStep (s : seenStep NodePortRange) (value : NodePortRange) : result validatorError (seenStep NodePortRange) :=
  let '(seen, normalized) := s in
  let protocol := upperTrim (pr_Protocol value) in
  let protocol := if String.eqb protocol "" then "TCP" else protocol in
  let startPort := if pr_StartPort value =? 0 then 10000 else pr_StartPort value in
  let endPort := if pr_EndPort value =? 0 then 20000 else pr_EndPort value in
  if negb (String.eqb protocol "TCP") && negb (String.eqb protocol "UDP")
  then Err (invalidFieldError "port_ranges" "Port range protocol must be TCP or UDP." {["actual" := AnyString protocol]})
  else if (startPort <? 1) || (65535 <? startPort) || (endPort <? 1) || (65535 <? endPort) || (endPort <? startPort)
  then Err (invalidFieldError "port_ranges" "Port ranges must be within 1-65535 and start_port must be <= end_port."
              {["start_port" := AnyInt startPort; "end_port" := AnyInt endPort; "min" := AnyInt 1; "max" := AnyInt 65535]})
  else
    let key := (protocol ++ ":" ++ Itoa startPort ++ ":" ++ Itoa endPort)%string in
    if bool_decide (key ∈ seen)
    then Err (invalidFieldError "port_ranges" "Port range entries must be unique."
                {["protocol" := AnyString protocol; "start_port" := AnyInt startPort; "end_port" := AnyInt endPort]})
    else Ok ({[key]} ∪ seen,
             normalized ++ [{| pr_Protocol := protocol; pr_StartPort := startPort; pr_EndPort := endPort |}]).

Definition validatePortRanges (values : list NodePortRange) : result validatorError (list NodePortRange) :=
  s ← fold_result portRangeStep (∅, []) values;
  match s.2 with
  | [] => Ok [{| pr_Protocol := "TCP"; pr_StartPort := 10000; pr_EndPort := 20000 |}]
  | normalized => Ok normalized
  end.

Definition dnsAddressStep (s : seenStep NodeDNSPublishAddress) (value : NodeDNSPublishAddress)
    : result validatorError (seenStep NodeDNSPublishAddress) :=
  let '(seen, normalized) := s in
  let type := upperTrim (da_AddressType value) in
  let address := TrimSpace (da_Address value) in
  let not_public := invalidFieldError "dns_publish_addresses" "DNS publish address must be a public IP address."
                      {["actual" := AnyString address]} in
  if String.eqb address "" then Ok s
  else match ParseIP address with
  | None => Err not_public
  | Some ip =>
      if negb (isPublicIP ip) then Err not_public
      else
        let type := if String.eqb type "" then (if negb (isSome (To4 ip)) then "AAAA" else "A") else type in
        if (String.eqb type "A" && negb (isSome (To4 ip))) || (String.eqb type "AAAA" && isSome (To4 ip))
        then Err (invalidFieldError "dns_publish_addresses" "DNS publish address type must match the IP version."
                    {["actual" := AnyString type]})
        else if negb (String.eqb type "A") && negb (String.eqb type "AAAA")
        then Err (invalidFieldError "dns_publish_addresses" "DNS publish address type must be A or AAAA."
                    {["actual" := AnyString type]})
        else
          let key := (type ++ nul ++ address)%string in
          if bool_decide (key ∈ seen)
          then Err (invalidFieldError "dns_publish_addresses" "DNS publish address entries must be unique."
                      {["actual" := AnyString address]})
          else Ok ({[key]} ∪ seen,
                   normalized ++ [{| da_AddressType := type; da_Address := address; da_Enabled := da_Enabled value |}])
  end.

Definition validateDNSPublishAddresses (values : list NodeDNSPublishAddress)
    : result validatorError (list NodeDNSPublishAddress) :=
  snd <$> fold_result dnsAddressStep (∅, []) values.

(** ** Node requests *)

Record NodeRequest := {
  nr_Name : string; nr_GroupIDs : list string; nr_ListenIPs : list NodeListenIP;
  nr_SendIPs : list NodeSendIP; nr_PortRanges : list NodePortRange; nr_MaxRulePorts : Z;
  nr_DNSPublishAddresses : list NodeDNSPublishAddress; nr_PublicDescription : string;
  nr_DataplaneMode : string; nr_DataplaneConflictPolicy : string }.

(** Every field is a pointer in Go. *)
Record NodePatchRequest := {
  np_Name : option string; np_GroupIDs : option (list string); np_ListenIPs : option (list NodeListenIP);
  np_SendIPs : option (list NodeSendIP); np_PortRanges : option (list NodePortRange); np_MaxRulePorts : option Z;
  np_DNSPublishAddresses : option (list NodeDNSPublishAddress); np_PublicDescription : option string;
  np_DataplaneMode : option string; np_DataplaneConflictPolicy : option string }.

Definition normalizeDataplaneMode (value : string) : string :=
  let value := upperTrim value in if String.eqb value "" then "AUTO" else value.
Definition normalizeDataplaneConflictPolicy (value : string) : string :=
  let value := upperTrim value in if String.eqb value "" then "FAIL_FAST" else value.
Definition validDataplaneMode (value : string) : bool :=
  existsb (String.eqb value) ["AUTO"; "NATIVE"; "HAPROXY"; "NFTABLES"].
Definition validDataplaneConflictPolicy (value : string) : bool := String.eqb value "FAIL_FAST".

Definition ValidateNodeRequest (request : NodeRequest) : result validatorError NodeRequest :=
  let name := TrimSpace (nr_Name request) in
  let description := TrimSpace (nr_PublicDescription request) in
  let mode := normalizeDataplaneMode (nr_DataplaneMode request) in
  let policy := normalizeDataplaneConflictPolicy (nr_DataplaneConflictPolicy request) in
  let groupIDs := normalizeIDs (nr_GroupIDs request) in
  reject_if (String.eqb name "") (invalidFieldError "name" "Node name is required." ∅);;
  reject_if (120 <? len name) (invalidFieldError "name" "Node name must be at most 120 characters." ∅);;
  reject_if (2000 <? len description)
    (invalidFieldError "public_description" "Public description must be at most 2000 characters." ∅);;
  reject_if (negb (validDataplaneMode mode))
    (invalidFieldError "dataplane_mode" "Dataplane mode is not supported." {["actual" := AnyString mode]});;
  reject_if (negb (validDataplaneConflictPolicy policy))
    (invalidFieldError "dataplane_conflict_policy" "Dataplane conflict policy is not supported." {["actual" := AnyString policy]});;
  listenIPs ← validateListenIPs (nr_ListenIPs request);
  sendIPs ← validateSendIPs (nr_SendIPs request);
  portRanges ← validatePortRanges (nr_PortRanges request);
  maxRulePorts ← validateMaxRulePorts (nr_MaxRulePorts request);
  addresses ← validateDNSPublishAddresses (nr_DNSPublishAddresses request);
  Ok {| nr_Name := name; nr_GroupIDs := groupIDs; nr_ListenIPs := listenIPs; nr_SendIPs := sendIPs;
        nr_PortRanges := portRanges; nr_MaxRulePorts := maxRulePorts; nr_DNSPublishAddresses := addresses;
        nr_PublicDescription := description; nr_DataplaneMode := mode; nr_DataplaneConflictPolicy := policy |}.

(** [if field != nil { v, err := f( *field ); ...; request.field = &v }] *)
Definition when_some {A B} (f : A → result validatorError B) (o : option A) : result validatorError (option B) :=
  match o with None => Ok None | Some a => b ← f a; Ok (Some b) end.

Definition ValidateNodePatchRequest (request : NodePatchRequest) : result validatorError NodePatchRequest :=
  name ← when_some (λ v,
    let name := TrimSpace v in
    reject_if (String.eqb name "") (invalidFieldError "name" "Node name is required." ∅);;
    reject_if (120 <? len name) (invalidFieldError "name" "Node name must be at most 120 characters." ∅);;
    Ok name) (np_Name request);
  description ← when_some (λ v,
    let description := TrimSpace v in
    reject_if (2000 <? len description)
      (invalidFieldError "public_description" "Public description must be at most 2000 characters." ∅);;
    Ok description) (np_PublicDescription request);
  mode ← when_some (λ v,
    let mode := normalizeDataplaneMode v in
    reject_if (negb (validDataplaneMode mode))
      (invalidFieldError "dataplane_mode" "Dataplane mode is not supported." {["actual" := AnyString mode]});;
    Ok mode) (np_DataplaneMode request);
  policy ← when_some (λ v,
    let policy := normalizeDataplaneConflictPolicy v in
    reject_if (negb (validDataplaneConflictPolicy policy))
      (invalidFieldError "dataplane_conflict_policy" "Dataplane conflict policy is not supported." {["actual" := AnyString policy]});;
    Ok policy) (np_DataplaneConflictPolicy request);
  let groupIDs := normalizeIDs <$> np_GroupIDs request in
  listenIPs ← when_some validateListenIPs (np_ListenIPs request);
  sendIPs ← when_some validateSendIPs (np_SendIPs request);
  portRanges ← when_some validatePortRanges (np_PortRanges request);
  maxRulePorts ← when_some validateMaxRulePorts (np_MaxRulePorts request);
  addresses ← when_some validateDNSPublishAddresses (np_DNSPublishAddresses request);
  Ok {| np_Name := name; np_GroupIDs := groupIDs; np_ListenIPs := listenIPs; np_SendIPs := sendIPs;
        np_PortRanges := portRanges; np_MaxRulePorts := maxRulePorts; np_DNSPublishAddresses := addresses;
        np_PublicDescription := description; np_DataplaneMode := mode; np_DataplaneConflictPolicy := policy |}.

(** [NodeDNSPublishAddress.UnmarshalJSON] on the decoded fields: an address is
    enabled unless the JSON says otherwise. *)
Definition UnmarshalNodeDNSPublishAddress (addressType address : string) (enabled : option bool)
    : NodeDNSPublishAddress := {|
  da_AddressType := addressType; da_Address := address; da_Enabled := default true enabled |}.

(** The patch that sets every field. *)
Definition full_patch (r : NodeRequest) : NodePatchRequest := {|
  np_Name := Some (nr_Name r); np_GroupIDs := Some (nr_GroupIDs r); np_ListenIPs := Some (nr_ListenIPs r);
  np_SendIPs := Some (nr_SendIPs r); np_PortRanges := Some (nr_PortRanges r);
  np_MaxRulePorts := Some (nr_MaxRulePorts r); np_DNSPublishAddresses := Some (nr_DNSPublishAddresses r);
  np_PublicDescription := Some (nr_PublicDescription r); np_DataplaneMode := Some (nr_DataplaneMode r);
  np_DataplaneConflictPolicy := Some (nr_DataplaneConflictPolicy r) |}.
End node.

(** ** The loops *)

(** A loop that keeps the keys it has seen: the keys of the values are the seen
    set, without duplicates, and every value satisfies [good]. *)
Section seen_loop.
Context {A : Type} (key : A → string) (good : A → Prop)
  (step : seenStep A → A → result validatorError (seenStep A)).
Context (step_ok : ∀ s v s', step s v = Ok s' →
  s' = s ∨ ∃ x, good x ∧ (key x ∉ s.1) ∧ s' = ({[key x]} ∪ s.1, s.2 ++ [x])).

Lemma seen_loop_spec values s :
  fold_result step (∅, []) values = Ok s → NoDup (map key s.2) ∧ Forall good s.2.
Proof using step_ok.
  intros H. enough ((∀ k, k ∈ s.1 ↔ k ∈ map key s.2) ∧ NoDup (map key s.2) ∧ Forall good s.2) by tauto.
  revert H. apply (fold_result_ind step (λ _ s, (∀ k, k ∈ s.1 ↔ k ∈ map key s.2) ∧ NoDup (map key s.2) ∧ Forall good s.2)).
  - cbn. split; [set_solver|]. split; constructor.
  - intros l v s1 s2 (Hs & Hn & Hg) [->|(x & Hx & Hk & ->)]%step_ok; [done|]. cbn [fst snd].
    rewrite map_app. cbn [map]. split; [|split].
    + intros k. rewrite elem_of_union, elem_of_singleton, elem_of_app, list_elem_of_singleton, Hs. tauto.
    + apply NoDup_app. split; [done|]. split; [|repeat constructor; set_solver].
      intros k Hkin ->%list_elem_of_singleton. by apply Hk, Hs.
    + apply Forall_app. split; [done|]. by apply Forall_singleton.
Qed.
End seen_loop.

(** A stored address: a valid IP in trimmed form, and a label. *)
Definition listen_ok (v : NodeListenIP) : Prop :=
  is_Some (ParseIP (nl_ListenIP v)) ∧ nl_DisplayName v ≠ "" ∧ (len (nl_DisplayName v) ≤ 120 ∨ nl_DisplayName v = nl_ListenIP v).
Definition send_ok (v : NodeSendIP) : Prop :=
  is_Some (ParseIP (ns_SendIP v)) ∧ ns_DisplayName v ≠ "" ∧ (len (ns_DisplayName v) ≤ 120 ∨ ns_DisplayName v = ns_SendIP v).
Definition range_ok (v : NodePortRange) : Prop :=
  pr_Protocol v ∈ ["TCP"; "UDP"] ∧ 1 ≤ pr_StartPort v ≤ pr_EndPort v ∧ pr_EndPort v ≤ 65535.
Definition publish_ok (v : NodeDNSPublishAddress) : Prop :=
  ∃ ip, ParseIP (da_Address v) = Some ip ∧ isPublicIP ip = true ∧
        da_AddressType v = (if isSome (To4 ip) then "A" else "AAAA").

(** The list of a whole loop: normal values with distinct keys. *)
Definition distinct_ok {A} (key : A → string) (good : A → Prop) (l : list A) : Prop :=
  NoDup (map key l) ∧ Forall good l.

Lemma listenIPStep_ok s v s' : listenIPStep s v = Ok s' →
  s' = s ∨ ∃ x, listen_ok x ∧ (nl_ListenIP x ∉ s.1) ∧ s' = ({[nl_ListenIP x]} ∪ s.1, s.2 ++ [x]).
Proof.
  destruct s as [seen out]. unfold listenIPStep. cbn [fst snd]. set (ip := TrimSpace (nl_ListenIP v)).
  set (name := TrimSpace (nl_DisplayName v)). destruct (String.eqb_spec ip "") as [|Hip]; [intros [= <-]; by left|].
  destruct (ParseIP ip) as [b|] eqn:Ep; [|done]. cbn [isSome negb].
  destruct (Z.ltb_spec 120 (len name)); [done|]. case_bool_decide as Hin; [done|]. intros [= <-]. right.
  exists {| nl_ListenIP := ip; nl_DisplayName := if String.eqb name "" then (if String.eqb ip "0.0.0.0" then "default" else ip) else name |}.
  split; [|done]. unfold listen_ok. cbn [nl_ListenIP nl_DisplayName]. rewrite Ep. split; [eauto|].
  destruct (String.eqb_spec name ""); [|by auto]. destruct (String.eqb ip "0.0.0.0"); [|by auto].
  split; [done|]. left. vm_compute. discriminate.
Qed.

Lemma sendIPStep_ok s v s' : sendIPStep s v = Ok s' →
  s' = s ∨ ∃ x, send_ok x ∧ (ns_SendIP x ∉ s.1) ∧ s' = ({[ns_SendIP x]} ∪ s.1, s.2 ++ [x]).
Proof.
  destruct s as [seen out]. unfold sendIPStep. cbn [fst snd]. set (ip := TrimSpace (ns_SendIP v)).
  set (name := TrimSpace (ns_DisplayName v)). destruct (String.eqb_spec ip "") as [|Hip]; [intros [= <-]; by left|].
  destruct (ParseIP ip) as [b|] eqn:Ep; [|done]. cbn [isSome negb].
  destruct (Z.ltb_spec 120 (len name)); [done|]. case_bool_decide as Hin; [done|]. intros [= <-]. right.
  exists {| ns_SendIP := ip; ns_DisplayName := if String.eqb name "" then ip else name |}.
  split; [|done]. unfold send_ok. cbn [ns_SendIP ns_DisplayName]. rewrite Ep. split; [eauto|].
  destruct (String.eqb_spec name ""); by auto.
Qed.

Definition range_key (v : NodePortRange) : string :=
  (pr_Protocol v ++ ":" ++ Itoa (pr_StartPort v) ++ ":" ++ Itoa (pr_EndPort v))%string.
Definition publish_key (v : NodeDNSPublishAddress) : string := (da_AddressType v ++ nul ++ da_Address v)%string.

Section node_proofs.
Context `{UnicodeTables}.

Lemma portRangeStep_ok s v s' : portRangeStep s v = Ok s' →
  s' = s ∨ ∃ x, range_ok x ∧ (range_key x ∉ s.1) ∧ s' = ({[range_key x]} ∪ s.1, s.2 ++ [x]).
Proof.
  destruct s as [seen out]. unfold portRangeStep. cbv zeta. cbn [fst snd].
  set (protocol := if String.eqb (upperTrim (pr_Protocol v)) "" then _ else _).
  set (startPort := if pr_StartPort v =? 0 then _ else _). set (endPort := if pr_EndPort v =? 0 then _ else _).
  destruct (_ && _) eqn:E1; [done|]. destruct (_ || _) eqn:E2; [done|]. case_bool_decide as Hin; [done|].
  intros [= <-]. right. exists {| pr_Protocol := protocol; pr_StartPort := startPort; pr_EndPort := endPort |}.
  split; [|done]. unfold range_ok. cbn [pr_Protocol pr_StartPort pr_EndPort]. bool_hyps. split; [|lia].
  apply andb_false_iff in E1 as [E1|E1]; bool_hyps; set_solver.
Qed.

Lemma dnsAddressStep_ok s v s' : dnsAddressStep s v = Ok s' →
  s' = s ∨ ∃ x, publish_ok x ∧ (publish_key x ∉ s.1) ∧ s' = ({[publish_key x]} ∪ s.1, s.2 ++ [x]).
Proof.
  destruct s as [seen out]. unfold dnsAddressStep. cbv zeta. cbn [fst snd].
  set (address := TrimSpace (da_Address v)).
  destruct (String.eqb address ""); [intros [= <-]; by left|].
  destruct (ParseIP address) as [ip|] eqn:Ep; [|done]. destruct (isPublicIP ip) eqn:Epub; [|done]. cbn [negb].
  set (type := if String.eqb (upperTrim (da_AddressType v)) "" then _ else _).
  destruct (_ || _) eqn:E1; [done|]. destruct (negb (String.eqb type "A") && _) eqn:E2; [done|].
  case_bool_decide as Hin; [done|]. intros [= <-]. right.
  exists {| da_AddressType := type; da_Address := address; da_Enabled := da_Enabled v |}.
  split; [|done]. exists ip. cbn [da_Address da_AddressType]. split; [done|]. split; [done|]. clearbody type.
  destruct (String.eqb_spec type "A"), (String.eqb_spec type "AAAA"), (isSome (To4 ip)); done.
Qed.
End node_proofs.

Lemma validateListenIPs_ok values l :
  validateListenIPs values = Ok l → l ≠ [] ∧ distinct_ok nl_ListenIP listen_ok l.
Proof.
  unfold validateListenIPs. intros (s & Hs & Hl)%result_bind_ok.
  pose proof (seen_loop_spec nl_ListenIP listen_ok _ listenIPStep_ok _ _ Hs) as Hd.
  destruct s.2 as [|x k]; injection Hl as <-; [|done]. split; [done|].
  split; [repeat constructor; set_solver|]. apply Forall_singleton. split; [by vm_compute; eauto|].
  split; [done|]. left. vm_compute. discriminate.
Qed.

Lemma validateSendIPs_ok values l : validateSendIPs values = Ok l → distinct_ok ns_SendIP send_ok l.
Proof.
  unfold validateSendIPs. destruct (fold_result _ _ _) as [s|] eqn:Hs; [|done]. cbn. intros [= <-].
  by apply (seen_loop_spec ns_SendIP send_ok _ sendIPStep_ok _ _ Hs).
Qed.

Lemma validatePortRanges_ok `{UnicodeTables} values l :
  validatePortRanges values = Ok l → l ≠ [] ∧ distinct_ok range_key range_ok l.
Proof.
  unfold validatePortRanges. intros (s & Hs & Hl)%result_bind_ok.
  pose proof (seen_loop_spec range_key range_ok _ portRangeStep_ok _ _ Hs) as Hd.
  destruct s.2 as [|x k]; injection Hl as <-; [|done]. split; [done|].
  split; [repeat constructor; set_solver|]. apply Forall_singleton. split; cbn; [set_solver|lia].
Qed.

Lemma validateDNSPublishAddresses_ok `{UnicodeTables} values l :
  validateDNSPublishAddresses values = Ok l → distinct_ok publish_key publish_ok l.
Proof.
  unfold validateDNSPublishAddresses. destruct (fold_result _ _ _) as [s|] eqn:Hs; [|done]. cbn. intros [= <-].
  by apply (seen_loop_spec publish_key publish_ok _ dnsAddressStep_ok _ _ Hs).
Qed.

Lemma validateMaxRulePorts_ok v n : validateMaxRulePorts v = Ok n → 1 ≤ n ≤ 65535.
Proof.
  unfold validateMaxRulePorts. destruct (v =? 0); [intros [= <-]; lia|]. destruct (_ || _) eqn:E; [done|].
  intros [= <-]. bool_hyps. lia.
Qed.

(** ** Properties *)

(** The invariant of a stored node. *)
Record node_stored (r : NodeRequest) : Prop := {
  no_name : nr_Name r ≠ "" ∧ len (nr_Name r) ≤ 120;
  no_description : len (nr_PublicDescription r) ≤ 2000;
  no_mode : nr_DataplaneMode r ∈ ["AUTO"; "NATIVE"; "HAPROXY"; "NFTABLES"];
  no_policy : nr_DataplaneConflictPolicy r = "FAIL_FAST";
  no_listen : nr_ListenIPs r ≠ [] ∧ distinct_ok nl_ListenIP listen_ok (nr_ListenIPs r);
  no_send : distinct_ok ns_SendIP send_ok (nr_SendIPs r);
  no_ranges : nr_PortRanges r ≠ [] ∧ distinct_ok range_key range_ok (nr_PortRanges r);
  no_ports : 1 ≤ nr_MaxRulePorts r ≤ 65535;
  no_dns : distinct_ok publish_key publish_ok (nr_DNSPublishAddresses r) }.

(** C39. A validated node request is in stored form: at least one listen IP and
    one port range (defaults filled in), each list free of duplicates with every
    entry valid, published DNS addresses public and of the record type of their
    family, a known dataplane mode, and every length and number in its bounds. *)
Theorem ValidateNodeRequest_stored `{UnicodeTables} request r :
  ValidateNodeRequest request = Ok r → node_stored r.
Proof.
  unfold ValidateNodeRequest. cbv zeta. rewrite !reject_if_bind.
  intros (H1 & H2 & H3 & H4 & H5 & Hrest). bool_hyps.
  apply result_bind_ok in Hrest as (listenIPs & Hl%validateListenIPs_ok & Hrest).
  apply result_bind_ok in Hrest as (sendIPs & Hs%validateSendIPs_ok & Hrest).
  apply result_bind_ok in Hrest as (ranges & Hr%validatePortRanges_ok & Hrest).
  apply result_bind_ok in Hrest as (ports & Hp%validateMaxRulePorts_ok & Hrest).
  apply result_bind_ok in Hrest as (dns & Hd%validateDNSPublishAddresses_ok & [= <-]).
  unfold validDataplaneMode in H4. apply existsb_elem_of in H4 as (m & Hm & ->%String.eqb_eq).
  unfold validDataplaneConflictPolicy in H5. bool_hyps. by constructor.
Qed.

Definition example_node_request : NodeRequest := {|
  nr_Name := " edge-1 "; nr_GroupIDs := ["b"; "a"; "a "]; nr_ListenIPs := [];
  nr_SendIPs := [{| ns_SendIP := " 10.0.0.7"; ns_DisplayName := "" |}]; nr_PortRanges := [];
  nr_MaxRulePorts := 0;
  nr_DNSPublishAddresses := [{| da_AddressType := ""; da_Address := "8.8.8.8"; da_Enabled := true |}];
  nr_PublicDescription := ""; nr_DataplaneMode := "auto"; nr_DataplaneConflictPolicy := "" |}.
Definition example_stored_node : NodeRequest := {|
  nr_Name := "edge-1"; nr_GroupIDs := ["a"; "b"];
  nr_ListenIPs := [{| nl_ListenIP := "0.0.0.0"; nl_DisplayName := "default" |}];
  nr_SendIPs := [{| ns_SendIP := "10.0.0.7"; ns_DisplayName := "10.0.0.7" |}];
  nr_PortRanges := [{| pr_Protocol := "TCP"; pr_StartPort := 10000; pr_EndPort := 20000 |}];
  nr_MaxRulePorts := 256;
  nr_DNSPublishAddresses := [{| da_AddressType := "A"; da_Address := "8.8.8.8"; da_Enabled := true |}];
  nr_PublicDescription := ""; nr_DataplaneMode := "AUTO"; nr_DataplaneConflictPolicy := "FAIL_FAST" |}.

Lemma ValidateNodeRequest_stored_witness : node_stored example_stored_node.
Proof. apply (@ValidateNodeRequest_stored ascii_tables example_node_request). vm_compute. reflexivity. Defined.

(** Creating a node and patching every field of one are the same
    validation: both fail with the same error, or succeed with the same values. *)
Theorem ValidateNodePatchRequest_full `{UnicodeTables} request :
  ValidateNodePatchRequest (full_patch request) = full_patch <$> ValidateNodeRequest request.
Proof.
  unfold ValidateNodePatchRequest, ValidateNodeRequest, full_patch, when_some.
  cbn [np_Name np_GroupIDs np_ListenIPs np_SendIPs np_PortRanges np_MaxRulePorts np_DNSPublishAddresses
       np_PublicDescription np_DataplaneMode np_DataplaneConflictPolicy]. cbv zeta. unfold reject_if.
  repeat (case_match; cbn [mbind result_bind]; try done).
  destruct (validateListenIPs _); cbn [mbind result_bind]; [|done].
  destruct (validateSendIPs _); cbn [mbind result_bind]; [|done].
  destruct (validatePortRanges _); cbn [mbind result_bind]; [|done].
  destruct (validateMaxRulePorts _); cbn [mbind result_bind]; [|done].
  by destruct (validateDNSPublishAddresses _).
Qed.
