(* ===== verification/RequestValidator.v ===== *)
(** * Validation of the other requests (pkg/core/validator/control.go)

    Organizations, members, roles, groups, monitors, health checks, DNS
    credentials, records and instances, notification channels, registration
    tokens, targets and target groups.  All of them fail with the bare
    [ErrInvalidRequest].  The loops that write the normalised element back into
    the request's slice return the new list. *)

From S2P Require Import Prelude GoString GoSort GoRegexp ValidatorBase NodeValidator.
#[local] Open Scope Z_scope.

Abbreviation checked := (result validatorError).

(** [if bad { return ..., ErrInvalidRequest }] *)
Definition invalid_if {A} (bad : bool) (ok : A) : checked A := if bad then Err ErrInvalidRequest else Ok ok.

(** A missing or too long name. *)
Definition bad_name (name : string) : bool := String.eqb name "" || (120 <? len name).

Record OrganizationRequest := { org_Name : string; org_Slug : string }.
Record BootstrapRequest := { boot_OrganizationName : string; boot_OrganizationSlug : string }.
Record MemberRequest := { mem_Email : string; mem_RoleIDs : list string; mem_Status : string }.
Record MemberUpdateRequest := { memup_RoleIDs : option (list string); memup_Status : string }.
Record ResourceScopeRequest := { sc_ResourceType : string; sc_ResourceID : string; sc_AccessLevel : string }.
Record RoleRequest := {
  role_Name : string; role_Description : string; role_Permissions : list string;
  role_ResourceScopes : list ResourceScopeRequest }.
Record GroupRequest := { group_Name : string; group_Description : string }.
Record MonitorRequest := { mon_Name : string; mon_GroupIDs : list string }.
Record MonitorPatchRequest := { monp_Name : option string; monp_GroupIDs : option (list string) }.
Record HealthTargetScopeRequest := { hts_Type : string; hts_TargetIDs : list string; hts_TargetGroupID : string }.
Record HealthMonitorScopeRequest := { hms_Type : string; hms_MonitorID : string; hms_MonitorGroupID : string }.
(** A nil map is [None]. *)
Record HealthCheckRequest := {
  hc_Name : string; hc_ProbeType : string; hc_IntervalSeconds : Z; hc_TimeoutSeconds : Z; hc_Enabled : bool;
  hc_TargetScope : HealthTargetScopeRequest; hc_MonitorScope : HealthMonitorScopeRequest;
  hc_Config : option (gmap string anyValue) }.
Record DNSCredentialRequest := { dc_Name : string; dc_Provider : string; dc_Secret : string }.
Record DNSManagedRecordRequest := {
  mr_DNSCredentialID : string; mr_CredentialZoneID : string; mr_RecordHost : string; mr_RecordName : string;
  mr_RecordType : string; mr_TTL : Z; mr_Proxied : bool }.
Record DNSInstanceRequest := {
  di_ManagedRecordID : string; di_Name : string; di_Priority : Z; di_Enabled : bool;
  di_NodeGroupIDs : list string; di_AnswerCount : Z; di_Condition : option (gmap string anyValue);
  di_Action : option (gmap string anyValue); di_NotificationChannelIDs : list string }.
Record NotificationChannelRequest := {
  nc_Name : string; nc_ChannelType : string; nc_Config : option (gmap string anyValue); nc_Secret : string;
  nc_Enabled : bool }.
Record RegistrationTokenRequest := { rt_TTLHours : Z }.
Record TargetRequest := {
  tr_Name : string; tr_Host : string; tr_Port : Z; tr_Enabled : bool; tr_TargetGroupIDs : option (list string) }.
Record TargetGroupMemberRequest := {
  tgm_TargetID : string; tgm_Priority : Z; tgm_Weight : option Z; tgm_Enabled : bool }.
Record TargetGroupRequest := {
  tg_Name : string; tg_Description : string; tg_Scheduler : string; tg_Members : list TargetGroupMemberRequest }.

(** ** Checks without letter case *)

Definition ValidateGroupRequest (request : GroupRequest) : checked GroupRequest :=
  let name := TrimSpace (group_Name request) in
  let description := TrimSpace (group_Description request) in
  invalid_if (bad_name name || (1000 <? len description))
    {| group_Name := name; group_Description := description |}.

Definition ValidateMonitorRequest (request : MonitorRequest) : checked MonitorRequest :=
  let name := TrimSpace (mon_Name request) in
  let groupIDs := normalizeIDs (mon_GroupIDs request) in
  invalid_if (bad_name name || bool_decide (groupIDs = [])) {| mon_Name := name; mon_GroupIDs := groupIDs |}.

Definition ValidateMonitorPatchRequest (request : MonitorPatchRequest) : checked MonitorPatchRequest :=
  name ← when_some (λ v, let name := TrimSpace v in invalid_if (bad_name name) name) (monp_Name request);
  Ok {| monp_Name := name; monp_GroupIDs := normalizeIDs <$> monp_GroupIDs request |}.

Definition ValidateRegistrationTokenRequest (request : RegistrationTokenRequest) : checked RegistrationTokenRequest :=
  invalid_if ((rt_TTLHours request <? 0) || (24 * 7 <? rt_TTLHours request)) request.

Definition ValidateTargetRequest (request : TargetRequest) : checked TargetRequest :=
  let name := TrimSpace (tr_Name request) in
  let host := TrimSpace (tr_Host request) in
  let groups := normalizeIDs <$> tr_TargetGroupIDs request in
  reject_if (bad_name name || String.eqb host "" || (253 <? len host)) ErrInvalidRequest;;
  reject_if (ContainsAny host (string_of [x20; x09; x0d; x0a]) || (tr_Port request <? 1) || (65535 <? tr_Port request))
    ErrInvalidRequest;;
  Ok {| tr_Name := name; tr_Host := host; tr_Port := tr_Port request; tr_Enabled := tr_Enabled request;
        tr_TargetGroupIDs := groups |}.

Definition targetMemberStep (s : seenStep TargetGroupMemberRequest) (member : TargetGroupMemberRequest)
    : checked (seenStep TargetGroupMemberRequest) :=
  let '(seen, members) := s in
  let targetID := TrimSpace (tgm_TargetID member) in
  if String.eqb targetID "" || (tgm_Priority member <? 0) || bool_decide (targetID ∈ seen) then Err ErrInvalidRequest
  else
    let weight := default 1 (tgm_Weight member) in
    if (weight <? 0) || (256 <? weight) then Err ErrInvalidRequest
    else Ok ({[targetID]} ∪ seen,
             members ++ [{| tgm_TargetID := targetID; tgm_Priority := tgm_Priority member;
                            tgm_Weight := Some weight; tgm_Enabled := tgm_Enabled member |}]).

Section case.
Context `{UnicodeTables}.

Definition ValidateBootstrapRequest (request : BootstrapRequest) : checked BootstrapRequest :=
  let name := TrimSpace (boot_OrganizationName request) in
  let slug := normalizeSlug (boot_OrganizationSlug request) in
  reject_if (bad_name name) ErrInvalidRequest;;
  reject_if (negb (MatchString slugPattern slug)) ErrInvalidRequest;;
  Ok {| boot_OrganizationName := name; boot_OrganizationSlug := slug |}.

Definition ValidateOrganizationRequest (request : OrganizationRequest) : checked OrganizationRequest :=
  let name := TrimSpace (org_Name request) in
  let slug := normalizeSlug (org_Slug request) in
  invalid_if (bad_name name || negb (MatchString slugPattern slug)) {| org_Name := name; org_Slug := slug |}.

Definition bad_status (status : string) : bool :=
  negb (String.eqb status "") && negb (String.eqb status "ACTIVE") && negb (String.eqb status "DISABLED").

Definition ValidateMemberRequest (request : MemberRequest) : checked MemberRequest :=
  let email := lowerTrim (mem_Email request) in
  let status := upperTrim (mem_Status request) in
  let roleIDs := normalizeIDs (mem_RoleIDs request) in
  reject_if (String.eqb email "" || negb (Contains email "@")) ErrInvalidRequest;;
  reject_if (bad_status status) ErrInvalidRequest;;
  reject_if (bool_decide (roleIDs = [])) ErrInvalidRequest;;
  Ok {| mem_Email := email; mem_RoleIDs := roleIDs; mem_Status := status |}.

Definition ValidateMemberUpdateRequest (request : MemberUpdateRequest) : checked MemberUpdateRequest :=
  let status := upperTrim (memup_Status request) in
  let roleIDs := normalizeIDs <$> memup_RoleIDs request in
  invalid_if (bad_status status) {| memup_RoleIDs := roleIDs; memup_Status := status |}.

Definition scopeStep (scopes : list ResourceScopeRequest) (scope : ResourceScopeRequest)
    : checked (list ResourceScopeRequest) :=
  let type := upperTrim (sc_ResourceType scope) in
  let id := TrimSpace (sc_ResourceID scope) in
  let level := upperTrim (sc_AccessLevel scope) in
  if String.eqb type "" || String.eqb id "" || String.eqb level "" then Err ErrInvalidRequest
  else Ok (scopes ++ [{| sc_ResourceType := type; sc_ResourceID := id; sc_AccessLevel := level |}]).

Definition ValidateRoleRequest (request : RoleRequest) : checked RoleRequest :=
  let name := TrimSpace (role_Name request) in
  let description := TrimSpace (role_Description request) in
  let permissions := normalizeIDs (role_Permissions request) in
  reject_if (bad_name name || bool_decide (permissions = [])) ErrInvalidRequest;;
  scopes ← fold_result scopeStep [] (role_ResourceScopes request);
  Ok {| role_Name := name; role_Description := description; role_Permissions := permissions;
        role_ResourceScopes := scopes |}.

Definition validateHealthTargetScope (scope : HealthTargetScopeRequest) : checked HealthTargetScopeRequest :=
  let type := upperTrim (hts_Type scope) in
  let targetIDs := normalizeIDs (hts_TargetIDs scope) in
  let groupID := TrimSpace (hts_TargetGroupID scope) in
  let ok := {| hts_Type := type; hts_TargetIDs := targetIDs; hts_TargetGroupID := groupID |} in
  if String.eqb type "TARGETS" then invalid_if (bool_decide (targetIDs = []) || negb (String.eqb groupID "")) ok
  else if String.eqb type "TARGET_GROUP" then invalid_if (String.eqb groupID "" || negb (bool_decide (targetIDs = []))) ok
  else Err ErrInvalidRequest.

Definition validateHealthMonitorScope (scope : HealthMonitorScopeRequest) : checked HealthMonitorScopeRequest :=
  let type := upperTrim (hms_Type scope) in
  let monitorID := TrimSpace (hms_MonitorID scope) in
  let groupID := TrimSpace (hms_MonitorGroupID scope) in
  let ok := {| hms_Type := type; hms_MonitorID := monitorID; hms_MonitorGroupID := groupID |} in
  if String.eqb type "MONITOR" then invalid_if (String.eqb monitorID "" || negb (String.eqb groupID "")) ok
  else if String.eqb type "MONITOR_GROUP" then invalid_if (String.eqb groupID "" || negb (String.eqb monitorID "")) ok
  else Err ErrInvalidRequest.

Definition ValidateHealthCheckRequest (request : HealthCheckRequest) : checked HealthCheckRequest :=
  let name := TrimSpace (hc_Name request) in
  let probe := upperTrim (hc_ProbeType request) in
  reject_if (bad_name name) ErrInvalidRequest;;
  reject_if (negb (String.eqb probe "ICMP") && negb (String.eqb probe "TCP_PORT") && negb (String.eqb probe "HTTP"))
    ErrInvalidRequest;;
  reject_if ((hc_IntervalSeconds request <=? 0) || (hc_TimeoutSeconds request <=? 0)
             || (hc_IntervalSeconds request <? hc_TimeoutSeconds request)) ErrInvalidRequest;;
  targetScope ← validateHealthTargetScope (hc_TargetScope request);
  monitorScope ← validateHealthMonitorScope (hc_MonitorScope request);
  Ok {| hc_Name := name; hc_ProbeType := probe; hc_IntervalSeconds := hc_IntervalSeconds request;
        hc_TimeoutSeconds := hc_TimeoutSeconds request; hc_Enabled := hc_Enabled request;
        hc_TargetScope := targetScope; hc_MonitorScope := monitorScope;
        hc_Config := Some (default ∅ (hc_Config request)) |}.

Definition ValidateDNSCredentialRequest (request : DNSCredentialRequest) (secretRequired : bool)
    : checked DNSCredentialRequest :=
  let name := TrimSpace (dc_Name request) in
  let provider := upperTrim (dc_Provider request) in
  let secret := TrimSpace (dc_Secret request) in
  reject_if (bad_name name || negb (String.eqb provider "CLOUDFLARE")) ErrInvalidRequest;;
  reject_if (secretRequired && String.eqb secret "") ErrInvalidRequest;;
  Ok {| dc_Name := name; dc_Provider := provider; dc_Secret := secret |}.

Definition ValidateDNSManagedRecordRequest (request : DNSManagedRecordRequest) : checked DNSManagedRecordRequest :=
  let credentialID := TrimSpace (mr_DNSCredentialID request) in
  let zoneID := TrimSpace (mr_CredentialZoneID request) in
  let type := upperTrim (mr_RecordType request) in
  reject_if (String.eqb credentialID "" || String.eqb zoneID "") ErrInvalidRequest;;
  reject_if (negb (String.eqb type "A") && negb (String.eqb type "AAAA") && negb (String.eqb type "CNAME"))
    ErrInvalidRequest;;
  reject_if (mr_TTL request <? 0) ErrInvalidRequest;;
  Ok {| mr_DNSCredentialID := credentialID; mr_CredentialZoneID := zoneID;
        mr_RecordHost := TrimSpace (mr_RecordHost request); mr_RecordName := TrimSpace (mr_RecordName request);
        mr_RecordType := type; mr_TTL := if mr_TTL request =? 0 then 60 else mr_TTL request;
        mr_Proxied := mr_Proxied request |}.

(** [actionType, _ := request.Action["type"].(string)] *)
Definition actionType (action : gmap string anyValue) : string :=
  match action !! "type" with Some (AnyString s) => s | _ => "" end.

Definition ValidateDNSInstanceRequest (request : DNSInstanceRequest) : checked DNSInstanceRequest :=
  let recordID := TrimSpace (di_ManagedRecordID request) in
  let name := TrimSpace (di_Name request) in
  reject_if (String.eqb recordID "" || bad_name name || (di_Priority request <? 0)) ErrInvalidRequest;;
  let answerCount := if di_AnswerCount request =? 0 then -1 else di_AnswerCount request in
  reject_if (answerCount <? -1) ErrInvalidRequest;;
  match di_Action request with
  | None => Err ErrInvalidRequest
  | Some action =>
      reject_if (String.eqb (TrimSpace (actionType action)) "") ErrInvalidRequest;;
      Ok {| di_ManagedRecordID := recordID; di_Name := name; di_Priority := di_Priority request;
            di_Enabled := di_Enabled request; di_NodeGroupIDs := uniqueNonEmptyStrings (di_NodeGroupIDs request);
            di_AnswerCount := answerCount; di_Condition := Some (default ∅ (di_Condition request));
            di_Action := Some action;
            di_NotificationChannelIDs := uniqueNonEmptyStrings (di_NotificationChannelIDs request) |}
  end.

Definition ValidateNotificationChannelRequest (request : NotificationChannelRequest) (secretRequired : bool)
    : checked NotificationChannelRequest :=
  let name := TrimSpace (nc_Name request) in
  let type := upperTrim (nc_ChannelType request) in
  let secret := TrimSpace (nc_Secret request) in
  reject_if (bad_name name) ErrInvalidRequest;;
  reject_if (negb (String.eqb type "WEBHOOK") && negb (String.eqb type "EMAIL")) ErrInvalidRequest;;
  reject_if (String.eqb type "EMAIL" && secretRequired && String.eqb secret "") ErrInvalidRequest;;
  Ok {| nc_Name := name; nc_ChannelType := type; nc_Config := Some (default ∅ (nc_Config request));
        nc_Secret := secret; nc_Enabled := nc_Enabled request |}.

Definition ValidateTargetGroupRequest (request : TargetGroupRequest) : checked TargetGroupRequest :=
  let name := TrimSpace (tg_Name request) in
  let description := TrimSpace (tg_Description request) in
  let scheduler := upperTrim (tg_Scheduler request) in
  let scheduler := if String.eqb scheduler "" then "PRIORITY_IPHASH" else scheduler in
  reject_if (bad_name name || (1000 <? len description)) ErrInvalidRequest;;
  s ← fold_result targetMemberStep (∅, []) (tg_Members request);
  Ok {| tg_Name := name; tg_Description := description; tg_Scheduler := scheduler; tg_Members := s.2 |}.
End case.

(** ** Lemmas *)

Lemma bad_name_false name : bad_name name = false ↔ name ≠ "" ∧ len name ≤ 120.
Proof. unfold bad_name. rewrite orb_false_iff, String.eqb_neq, Z.ltb_ge. done. Qed.

Definition member_ok (m : TargetGroupMemberRequest) : Prop :=
  tgm_TargetID m ≠ "" ∧ 0 ≤ tgm_Priority m ∧ ∃ w, tgm_Weight m = Some w ∧ 0 ≤ w ≤ 256.

Lemma targetMemberStep_ok s v s' : targetMemberStep s v = Ok s' →
  s' = s ∨ ∃ x, member_ok x ∧ (tgm_TargetID x ∉ s.1) ∧ s' = ({[tgm_TargetID x]} ∪ s.1, s.2 ++ [x]).
Proof.
  destruct s as [seen out]. unfold targetMemberStep. cbv zeta. cbn [fst snd]. set (id := TrimSpace (tgm_TargetID v)).
  destruct (String.eqb id "" || _ || _) eqn:E1; [done|].
  destruct ((default 1 (tgm_Weight v) <? 0) || _) eqn:E2; [done|]. intros [= <-]. right. bool_hyps.
  exists {| tgm_TargetID := id; tgm_Priority := tgm_Priority v; tgm_Weight := Some (default 1 (tgm_Weight v));
            tgm_Enabled := tgm_Enabled v |}.
  split; [|done]. split; [done|]. split; [done|]. eexists. split; [done|]. lia.
Qed.

Definition target_scope_ok (s : HealthTargetScopeRequest) : Prop :=
  (hts_Type s = "TARGETS" ∧ hts_TargetIDs s ≠ [] ∧ hts_TargetGroupID s = "") ∨
  (hts_Type s = "TARGET_GROUP" ∧ hts_TargetIDs s = [] ∧ hts_TargetGroupID s ≠ "").
Definition monitor_scope_ok (s : HealthMonitorScopeRequest) : Prop :=
  (hms_Type s = "MONITOR" ∧ hms_MonitorID s ≠ "" ∧ hms_MonitorGroupID s = "") ∨
  (hms_Type s = "MONITOR_GROUP" ∧ hms_MonitorID s = "" ∧ hms_MonitorGroupID s ≠ "").

Lemma validateHealthTargetScope_ok `{UnicodeTables} s t : validateHealthTargetScope s = Ok t → target_scope_ok t.
Proof.
  unfold validateHealthTargetScope, invalid_if, target_scope_ok. cbv zeta.
  destruct (String.eqb_spec (upperTrim (hts_Type s)) "TARGETS") as [->|].
  - destruct (_ || _) eqn:E; [done|]. intros [= <-]. cbn. bool_hyps. auto.
  - destruct (String.eqb_spec (upperTrim (hts_Type s)) "TARGET_GROUP") as [->|]; [|done].
    destruct (_ || _) eqn:E; [done|]. intros [= <-]. cbn. bool_hyps. auto.
Qed.

Lemma validateHealthMonitorScope_ok `{UnicodeTables} s t : validateHealthMonitorScope s = Ok t → monitor_scope_ok t.
Proof.
  unfold validateHealthMonitorScope, invalid_if, monitor_scope_ok. cbv zeta.
  destruct (String.eqb_spec (upperTrim (hms_Type s)) "MONITOR") as [->|].
  - destruct (_ || _) eqn:E; [done|]. intros [= <-]. cbn. bool_hyps. auto.
  - destruct (String.eqb_spec (upperTrim (hms_Type s)) "MONITOR_GROUP") as [->|]; [|done].
    destruct (_ || _) eqn:E; [done|]. intros [= <-]. cbn. bool_hyps. auto.
Qed.

(** ** Properties *)

(** C40. A validated target group names each target at most once, with a
    non-empty identifier, a priority of at least zero and a weight that is
    present and in 0..256, and has a scheduler. *)
Theorem ValidateTargetGroupRequest_stored `{UnicodeTables} request r :
  ValidateTargetGroupRequest request = Ok r →
  (tg_Name r ≠ "" ∧ len (tg_Name r) ≤ 120) ∧ len (tg_Description r) ≤ 1000 ∧ tg_Scheduler r ≠ "" ∧
  distinct_ok tgm_TargetID member_ok (tg_Members r).
Proof.
  unfold ValidateTargetGroupRequest. cbv zeta. rewrite reject_if_bind.
  intros [Hn (s & Hs & [= <-])%result_bind_ok]. apply orb_false_iff in Hn as [Hn%bad_name_false Hd]. bool_hyps.
  cbn [tg_Name tg_Description tg_Scheduler tg_Members]. split; [done|]. split; [done|]. split.
  - by destruct (String.eqb_spec (upperTrim (tg_Scheduler request)) "").
  - by apply (seen_loop_spec tgm_TargetID member_ok _ targetMemberStep_ok _ _ Hs).
Qed.

Definition example_target_group : TargetGroupRequest := {|
  tg_Name := "pool"; tg_Description := ""; tg_Scheduler := "";
  tg_Members := [{| tgm_TargetID := " t1"; tgm_Priority := 0; tgm_Weight := None; tgm_Enabled := true |};
                 {| tgm_TargetID := "t2"; tgm_Priority := 1; tgm_Weight := Some 0; tgm_Enabled := true |}] |}.
Definition example_stored_target_group : TargetGroupRequest := {|
  tg_Name := "pool"; tg_Description := ""; tg_Scheduler := "PRIORITY_IPHASH";
  tg_Members := [{| tgm_TargetID := "t1"; tgm_Priority := 0; tgm_Weight := Some 1; tgm_Enabled := true |};
                 {| tgm_TargetID := "t2"; tgm_Priority := 1; tgm_Weight := Some 0; tgm_Enabled := true |}] |}.

Lemma ValidateTargetGroupRequest_stored_witness :
  distinct_ok tgm_TargetID member_ok (tg_Members example_stored_target_group).
Proof.
  apply (@ValidateTargetGroupRequest_stored ascii_tables example_target_group). vm_compute. reflexivity.
Defined.

(** A validated health check has a known probe, a positive timeout of at
    most its interval, exactly one of targets and a target group to probe, and
    exactly one of a monitor and a monitor group to probe from. *)
Theorem ValidateHealthCheckRequest_stored `{UnicodeTables} request r :
  ValidateHealthCheckRequest request = Ok r →
  hc_ProbeType r ∈ ["ICMP"; "TCP_PORT"; "HTTP"] ∧ 0 < hc_TimeoutSeconds r ≤ hc_IntervalSeconds r ∧
  target_scope_ok (hc_TargetScope r) ∧ monitor_scope_ok (hc_MonitorScope r) ∧ is_Some (hc_Config r).
Proof.
  unfold ValidateHealthCheckRequest. cbv zeta. rewrite !reject_if_bind.
  intros (_ & Hp & Ht & Hrest). apply result_bind_ok in Hrest as (ts & Hts%validateHealthTargetScope_ok & Hrest).
  apply result_bind_ok in Hrest as (ms & Hms%validateHealthMonitorScope_ok & [= <-]).
  cbn [hc_ProbeType hc_TimeoutSeconds hc_IntervalSeconds hc_TargetScope hc_MonitorScope hc_Config]. bool_hyps.
  split; [|split; [lia|eauto]].
  apply andb_false_iff in Hp as [[Hp|Hp]%andb_false_iff|Hp]; bool_hyps; set_solver.
Qed.

Definition example_health_check : HealthCheckRequest := {|
  hc_Name := "ping"; hc_ProbeType := "icmp"; hc_IntervalSeconds := 30; hc_TimeoutSeconds := 5; hc_Enabled := true;
  hc_TargetScope := {| hts_Type := "targets"; hts_TargetIDs := ["b"; " a"]; hts_TargetGroupID := "" |};
  hc_MonitorScope := {| hms_Type := "monitor"; hms_MonitorID := "m1"; hms_MonitorGroupID := " " |};
  hc_Config := None |}.
Definition example_stored_health_check : HealthCheckRequest := {|
  hc_Name := "ping"; hc_ProbeType := "ICMP"; hc_IntervalSeconds := 30; hc_TimeoutSeconds := 5; hc_Enabled := true;
  hc_TargetScope := {| hts_Type := "TARGETS"; hts_TargetIDs := ["a"; "b"]; hts_TargetGroupID := "" |};
  hc_MonitorScope := {| hms_Type := "MONITOR"; hms_MonitorID := "m1"; hms_MonitorGroupID := "" |};
  hc_Config := Some ∅ |}.

Lemma ValidateHealthCheckRequest_stored_witness : target_scope_ok (hc_TargetScope example_stored_health_check).
Proof.
  apply (@ValidateHealthCheckRequest_stored ascii_tables example_health_check). vm_compute. reflexivity.
Defined.
