(* ===== verification/DataplanePlan.v ===== *)
(** * Dataplane planning (pkg/core/dataplane/manager.go)

    Which backend (native, HAProxy or nftables) serves each rule, and the
    listener conflicts that reject a snapshot: [Manager.plan] with what it
    calls in manager.go, types.go, errors.go, haproxy.go and nftables.go.
    A key is the triple (protocol, listen IP, port). *)

From S2P Require Import Prelude GoString GoSort GoNet Agent ValidatorBase.
#[local] Open Scope Z_scope.

Definition ModeAuto : string := "AUTO".
Definition ModeNative : string := "NATIVE".
Definition ModeHAProxy : string := "HAPROXY".
Definition ModeNFTables : string := "NFTABLES".
Definition ErrorListenerConflict : string := "LISTENER_CONFLICT".
Definition ErrorDataplaneUnsupportedRule : string := "DATAPLANE_UNSUPPORTED_RULE".

Abbreviation dpKey := (string * string * Z)%type.
Definition dp_protocol (k : dpKey) : string := k.1.1.
Definition dp_listenIP (k : dpKey) : string := k.1.2.
Definition dp_port (k : dpKey) : Z := k.2.

Record plannedRule := { planned_rule : RuleConfig; planned_dataplane : string }.
#[export] Instance plannedRule_eq_dec : EqDecision plannedRule.
Proof. solve_decision. Defined.

(** ** Errors *)

Definition configApplyError (message : string) (details : list ConfigApplyErrorDetail) : ConfigApplyError := {|
  apply_Message := TrimSpace message; apply_Errors := details |}.

Definition ruleIDs (rules : list RuleConfig) : list string :=
  sort_stable String.ltb (List.filter (λ id, negb (String.eqb (TrimSpace id) "")) (map rule_ID rules)).

Definition unsupportedRuleError (rule : RuleConfig) (dataplane message : string) : ConfigApplyErrorDetail := {|
  detail_Code := ErrorDataplaneUnsupportedRule; detail_RuleIDs := [rule_ID rule];
  detail_Protocol := rule_Protocol rule; detail_ListenIP := rule_ListenIP rule; detail_Port := rule_Port rule;
  detail_Dataplane := dataplane; detail_Owner := ""; detail_DriftStatus := ""; detail_ExternalResource := "";
  detail_Message := message |}.

Definition listenerError (code : string) (key : dpKey) (rules : list RuleConfig) (dataplane owner message : string)
    : ConfigApplyErrorDetail := {|
  detail_Code := code; detail_RuleIDs := ruleIDs rules; detail_Protocol := dp_protocol key;
  detail_ListenIP := dp_listenIP key; detail_Port := dp_port key; detail_Dataplane := dataplane;
  detail_Owner := owner; detail_DriftStatus := ""; detail_ExternalResource := ""; detail_Message := message |}.

(** ** Listener keys *)

Definition normalizeListenIP (value : string) : string :=
  let value := TrimSpace value in if String.eqb value "" then "0.0.0.0" else value.

Definition listenerKeysForRule (rule : RuleConfig) : list dpKey :=
  let listenIP := normalizeListenIP (rule_ListenIP rule) in
  if String.eqb (rule_Protocol rule) "TCP_UDP"
  then [("TCP", listenIP, rule_Port rule); ("UDP", listenIP, rule_Port rule)]
  else [(rule_Protocol rule, listenIP, rule_Port rule)].

Definition listenIPFamily (ip : bytes) : string := if isSome (To4 ip) then "ip" else "ip6".

Definition listenIPsOverlap (left right : string) : bool :=
  let left := normalizeListenIP left in
  let right := normalizeListenIP right in
  if String.eqb left right then true
  else match ParseIP (Trim left "[]"), ParseIP (Trim right "[]") with
  | Some leftIP, Some rightIP =>
      if negb (String.eqb (listenIPFamily leftIP) (listenIPFamily rightIP)) then false
      else IsUnspecified leftIP || IsUnspecified rightIP
  | _, _ => false
  end.

Definition listenerKeysOverlap (left right : dpKey) : bool :=
  String.eqb (dp_protocol left) (dp_protocol right) && (dp_port left =? dp_port right)
  && listenIPsOverlap (dp_listenIP left) (dp_listenIP right).

(** ** What the backends support *)

Definition prioritizedTarget : Type := (Z * TargetEndpoint)%type.

Definition targetLess (x y : prioritizedTarget) : bool :=
  if negb (x.1 =? y.1) then x.1 <? y.1 else String.ltb (target_ID x.2) (target_ID y.2).

(** A nil slice is [None]. *)
Definition upstreamTargets (rule : RuleConfig) : option (list prioritizedTarget) :=
  if String.eqb (up_Type (rule_Upstream rule)) "TARGET" then
    (λ t, [(10, t)]) <$> up_Target (rule_Upstream rule)
  else if String.eqb (up_Type (rule_Upstream rule)) "TARGET_GROUP" then
    Some (sort_stable targetLess
      (concat (map (λ b, map (λ t, (bucket_Priority b, t)) (bucket_Targets b)) (up_TargetGroup (rule_Upstream rule)))))
  else None.

Definition haproxySupportsRule (rule : RuleConfig) : bool :=
  if negb (String.eqb (rule_Protocol rule) "TCP") then false
  else if String.eqb (rule_MatchType rule) "ANY_INBOUND" || String.eqb (rule_MatchType rule) "TLS_SNI"
  then isSome (upstreamTargets rule) else false.

Definition nftIPFamily (ip : bytes) : string := if isSome (To4 ip) then "ip" else "ip6".

Definition nftListenAddressFamily (listenIP : string) : string :=
  let value := TrimSpace listenIP in
  if String.eqb value "" || String.eqb value "0.0.0.0" then "ip"
  else if String.eqb value "::" then "ip6"
  else match ParseIP value with None => "" | Some ip => nftIPFamily ip end.

Definition nftListenAddressIsLoopback (listenIP : string) : bool :=
  let value := TrimSpace listenIP in
  if String.eqb value "" || String.eqb value "0.0.0.0" || String.eqb value "::" then false
  else match ParseIP value with Some ip => IsLoopback ip | None => false end.

Definition wants_proxy (value : string) : bool :=
  negb (String.eqb (TrimSpace value) "") && negb (String.eqb (TrimSpace value) "NONE").

Definition nftablesSupportsRule (rule : RuleConfig) : bool :=
  if negb (String.eqb (TrimSpace (rule_SendIP rule)) "") then false
  else if negb (String.eqb (rule_MatchType rule) "ANY_INBOUND") then false
  else if wants_proxy (rule_ProxyProtocolIn rule) then false
  else if wants_proxy (rule_ProxyProtocolOut rule) then false
  else if negb (String.eqb (up_Type (rule_Upstream rule)) "TARGET") then false
  else match up_Target (rule_Upstream rule) with
  | None => false
  | Some target =>
      if negb (target_Enabled target) then true
      else match ParseIP (target_Host target) with
      | None => false
      | Some targetIP =>
          if IsLoopback targetIP then false
          else if nftListenAddressIsLoopback (rule_ListenIP rule) then false
          else
            let listenFamily := nftListenAddressFamily (rule_ListenIP rule) in
            String.eqb listenFamily "" || String.eqb listenFamily (nftIPFamily targetIP)
      end
  end.

Definition backendSupportsRule (dataplane : string) (rule : RuleConfig) : bool :=
  if String.eqb dataplane ModeNative then true
  else if String.eqb dataplane ModeHAProxy then haproxySupportsRule rule
  else if String.eqb dataplane ModeNFTables then nftablesSupportsRule rule
  else false.

(** ** Selection *)

Section select.
Context `{UnicodeTables}.

Definition knownMode (value : string) : option string :=
  let value := upperTrim value in
  if existsb (String.eqb value) [ModeAuto; ModeHAProxy; ModeNFTables; ModeNative] then Some value else None.

(** The recursive call has NATIVE as its fallback. *)
Definition normalizeMode (value fallback : string) : string :=
  match knownMode value with
  | Some mode => mode
  | None => if negb (String.eqb (TrimSpace fallback) "") then default ModeNative (knownMode fallback) else ModeNative
  end.

Definition normalizePreference (value : string) : string := normalizeMode value ModeAuto.

(** An [errDetail] with no code is success. *)
Definition autoSelectDataplane (rule : RuleConfig) : result ConfigApplyErrorDetail string :=
  if String.eqb (rule_Protocol rule) "UDP" && String.eqb (rule_MatchType rule) "ANY_INBOUND" then
    if backendSupportsRule ModeNFTables rule then Ok ModeNFTables else Ok ModeNative
  else if String.eqb (rule_Protocol rule) "TCP" then
    if backendSupportsRule ModeHAProxy rule then Ok ModeHAProxy
    else Err (unsupportedRuleError rule ModeHAProxy
                "AUTO requires HAProxy for TCP TLS_SNI/ANY_INBOUND, but the rule is not HAProxy-compatible")
  else Ok ModeNative.

Definition selectDataplane (nodeMode : string) (rule : RuleConfig) : result ConfigApplyErrorDetail string :=
  let preference := normalizePreference (rule_Dataplane rule) in
  if negb (String.eqb preference ModeAuto) then
    if negb (String.eqb nodeMode ModeAuto) && negb (String.eqb nodeMode preference)
    then Err (unsupportedRuleError rule preference
                ("node dataplane mode " ++ nodeMode ++ " does not allow rule preference " ++ preference))
    else Ok preference
  else if negb (String.eqb nodeMode ModeAuto) then Ok nodeMode
  else autoSelectDataplane rule.

(** ** Conflicts *)

Definition sameProxyProtocol (entries : list plannedRule) : bool :=
  match entries with
  | [] => true
  | first :: rest =>
      forallb (λ e, String.eqb (TrimSpace (rule_ProxyProtocolIn (planned_rule e)))
                               (TrimSpace (rule_ProxyProtocolIn (planned_rule first)))) rest
  end.

Definition sni_of (e : plannedRule) : string := lowerTrim (rule_SNIHostname (planned_rule e)).
Definition is_any (e : plannedRule) : bool := String.eqb (rule_MatchType (planned_rule e)) "ANY_INBOUND".
Definition is_sni (e : plannedRule) : bool := String.eqb (rule_MatchType (planned_rule e)) "TLS_SNI".

(** The loop of [listenerConflictDetail]: [hasAny], [sniByValue], [rules]. *)
Record conflictState := {
  cs_hasAny : bool; cs_sniByValue : gmap string string; cs_rules : list RuleConfig }.

Definition conflictStep (key : dpKey) (dataplane : string) (s : conflictState) (entry : plannedRule)
    : result ConfigApplyErrorDetail conflictState :=
  let rules := cs_rules s ++ [planned_rule entry] in
  if negb (String.eqb (planned_dataplane entry) dataplane)
  then Err (listenerError ErrorListenerConflict key rules "MIXED" "" "one listener cannot be owned by multiple dataplanes")
  else
    let hasAny := cs_hasAny s || is_any entry in
    if is_sni entry then
      let sni := sni_of entry in
      match cs_sniByValue s !! sni with
      | Some previousRuleID =>
          if negb (String.eqb previousRuleID (rule_ID (planned_rule entry)))
          then Err (listenerError ErrorListenerConflict key rules dataplane ""
                      "multiple TLS_SNI rules use the same listener and SNI hostname")
          else Ok {| cs_hasAny := hasAny;
                     cs_sniByValue := <[sni := rule_ID (planned_rule entry)]> (cs_sniByValue s); cs_rules := rules |}
      | None => Ok {| cs_hasAny := hasAny;
                      cs_sniByValue := <[sni := rule_ID (planned_rule entry)]> (cs_sniByValue s); cs_rules := rules |}
      end
    else Ok {| cs_hasAny := hasAny; cs_sniByValue := cs_sniByValue s; cs_rules := rules |}.

Definition listenerConflictDetail (key : dpKey) (entries : list plannedRule) : option ConfigApplyErrorDetail :=
  match entries with
  | [] | [_] => None
  | first :: _ =>
      let dataplane := planned_dataplane first in
      match fold_result (conflictStep key dataplane) {| cs_hasAny := false; cs_sniByValue := ∅; cs_rules := [] |} entries with
      | Err detail => Some detail
      | Ok s =>
          if cs_hasAny s
          then Some (listenerError ErrorListenerConflict key (cs_rules s) dataplane ""
                       "ANY_INBOUND listener cannot share protocol/listen IP/port with another rule")
          else if negb (sameProxyProtocol entries)
          then Some (listenerError ErrorListenerConflict key (cs_rules s) dataplane ""
                       "rules sharing one listener must use the same incoming proxy protocol setting")
          else None
      end
  end.

Definition groupPlanned (rules : list plannedRule) : gmap dpKey (list plannedRule) :=
  foldl (λ grouped rule,
    foldl (λ grouped key, <[key := default [] (grouped !! key) ++ [rule]]> grouped)
      grouped (listenerKeysForRule (planned_rule rule))) ∅ rules.

Definition keyLess (x y : dpKey) : bool :=
  if negb (String.eqb (dp_protocol x) (dp_protocol y)) then String.ltb (dp_protocol x) (dp_protocol y)
  else if negb (String.eqb (dp_listenIP x) (dp_listenIP y)) then String.ltb (dp_listenIP x) (dp_listenIP y)
  else dp_port x <? dp_port y.

(** The index pairs of the two nested loops, in order. *)
Fixpoint keyPairs (keys : list dpKey) : list (dpKey * dpKey) :=
  match keys with [] => [] | k :: rest => map (pair k) rest ++ keyPairs rest end.

Definition detectListenerConflicts (rules : list plannedRule) : list ConfigApplyErrorDetail :=
  let grouped := groupPlanned rules in
  let group key := default [] (grouped !! key) in
  let keys := sort_stable keyLess (map fst (map_to_list grouped)) in
  omap (λ '(k1, k2), if listenerKeysOverlap k1 k2
                     then listenerConflictDetail k1 (group k1 ++ group k2) else None) (keyPairs keys)
  ++ omap (λ key, listenerConflictDetail key (group key)) keys.

(** ** The plan *)

Record plan := { plan_rules : gmap string (list RuleConfig); plan_planned : list plannedRule }.

Definition rulesOf (p : plan) (dataplane : string) : list RuleConfig := default [] (plan_rules p !! dataplane).

(** The first loop of [Manager.plan]: the plan so far and the error details. *)
Definition planStep (nodeMode : string) (s : plan * list ConfigApplyErrorDetail) (rule : RuleConfig)
    : plan * list ConfigApplyErrorDetail :=
  let '(p, details) := s in
  match selectDataplane nodeMode rule with
  | Err detail => (p, details ++ [detail])
  | Ok dataplane =>
      if negb (backendSupportsRule dataplane rule)
      then (p, details ++ [unsupportedRuleError rule dataplane (dataplane ++ " does not support this rule shape")])
      else ({| plan_rules := <[dataplane := rulesOf p dataplane ++ [rule]]> (plan_rules p);
               plan_planned := plan_planned p ++ [{| planned_rule := rule; planned_dataplane := dataplane |}] |}, details)
  end.

Definition nodeModeOf (optionsMode : string) (snapshot : ConfigSnapshot) : string :=
  let nodeMode := normalizeMode (snap_DataplaneMode snapshot) ModeAuto in
  if String.eqb nodeMode ModeAuto then normalizeMode optionsMode ModeAuto else nodeMode.

Definition emptyPlan : plan := {|
  plan_rules := {[ModeNative := []; ModeHAProxy := []; ModeNFTables := []]}; plan_planned := [] |}.

Definition planSnapshot (optionsMode : string) (snapshot : ConfigSnapshot) : result ConfigApplyError plan :=
  let nodeMode := nodeModeOf optionsMode snapshot in
  let '(result, details) := foldl (planStep nodeMode) (emptyPlan, []) (snap_Rules snapshot) in
  let details := details ++ detectListenerConflicts (plan_planned result) in
  match details with
  | [] => Ok result
  | _ => Err (configApplyError "dataplane plan failed" details)
  end.

Definition snapshotFor (p : plan) (dataplane : string) (base : ConfigSnapshot) : ConfigSnapshot := {|
  snap_AgentProtocolVersion := snap_AgentProtocolVersion base; snap_NodeID := snap_NodeID base;
  snap_ConfigVersion := snap_ConfigVersion base; snap_ConfigHash := snap_ConfigHash base;
  snap_DataplaneMode := snap_DataplaneMode base; snap_DataplaneInstanceID := snap_DataplaneInstanceID base;
  snap_ConflictPolicy := snap_ConflictPolicy base; snap_Rules := rulesOf p dataplane |}.

Definition hasManaged (p : plan) : bool :=
  negb (bool_decide (rulesOf p ModeHAProxy = [])) || negb (bool_decide (rulesOf p ModeNFTables = [])).
End select.

(** ** Ordered pairs

    [StronglySorted R l] says that [R] holds of every two elements in order. *)

Section pairs.
Context {A : Type}.
Implicit Types (R : A → A → Prop) (l : list A).

Lemma pairs_cons R l x : StronglySorted R (x :: l) ↔ (∀ y, y ∈ l → R x y) ∧ StronglySorted R l.
Proof. by rewrite StronglySorted_cons, Forall_forall. Qed.

Lemma pairs_snoc R l x : StronglySorted R (l ++ [x]) ↔ StronglySorted R l ∧ ∀ y, y ∈ l → R y x.
Proof.
  rewrite StronglySorted_app, pairs_cons. setoid_rewrite list_elem_of_singleton.
  split; [naive_solver|]. intros [? ?]. split; [naive_solver|]. split; [done|]. split; [set_solver|constructor].
Qed.

Lemma pairs_filter R (f : A → bool) l :
  StronglySorted R (List.filter f l) ↔ StronglySorted (λ x y, f x = true → f y = true → R x y) l.
Proof.
  induction l as [|x l IH]; cbn; [split; constructor|]. rewrite pairs_cons.
  destruct (f x) eqn:E; [rewrite pairs_cons|]; rewrite IH; [setoid_rewrite elem_of_filterb|];
    split; [naive_solver| |intros ?; split; [|done]; congruence|tauto].
  intros [H1 H2]. split; [|done]. intros y [Hy Hf]. auto.
Qed.

Lemma pairs_all {K} (R : K → A → A → Prop) l :
  StronglySorted (λ x y, ∀ k, R k x y) l ↔ ∀ k, StronglySorted (R k) l.
Proof.
  induction l as [|x l IH]; [split; constructor|]. setoid_rewrite pairs_cons. rewrite IH. naive_solver.
Qed.

Lemma pairs_and R1 R2 l :
  StronglySorted (λ x y, R1 x y ∧ R2 x y) l ↔ StronglySorted R1 l ∧ StronglySorted R2 l.
Proof.
  induction l as [|x l IH]; [repeat split; constructor|]. rewrite !pairs_cons, IH. naive_solver.
Qed.

Lemma pairs_ext R1 R2 l : (∀ x y, x ∈ l → y ∈ l → R1 x y ↔ R2 x y) → StronglySorted R1 l ↔ StronglySorted R2 l.
Proof.
  induction l as [|x l IH]; intros H; [split; constructor|]. rewrite !pairs_cons.
  rewrite IH by (intros; apply H; set_solver). split; intros [H1 H2]; (split; [|done]);
    intros y Hy; (apply H; [set_solver|set_solver|auto]).
Qed.

Lemma pairs_eq {B} (g : A → B) x l : StronglySorted (λ x y, g x = g y) (x :: l) ↔ ∀ y, y ∈ x :: l → g y = g x.
Proof.
  split.
  - intros [H _]%pairs_cons y [->|Hy]%elem_of_cons; [done|]. symmetry. auto.
  - intros H. enough (∀ k, (∀ y, y ∈ k → g y = g x) → StronglySorted (λ x y, g x = g y) k) by auto.
    clear. induction k as [|z k IH]; intros Hk; [constructor|]. apply pairs_cons.
    split; [|apply IH; set_solver]. intros y Hy. rewrite (Hk z), (Hk y); set_solver.
Qed.

(** Both of two elements in different places. *)
Lemma pairs_both (P : A → Prop) x y l :
  StronglySorted (λ x y, P x ∧ P y) (x :: y :: l) ↔ ∀ z, z ∈ x :: y :: l → P z.
Proof.
  split.
  - intros [H1 H2]%pairs_cons z Hz. destruct (H1 y) as [Hx Hy]; [set_solver|].
    apply elem_of_cons in Hz as [->|Hz]; [done|]. by apply H1 in Hz as [_ ?].
  - generalize (x :: y :: l). clear. intros k H. induction k as [|z k IH]; [constructor|].
    apply pairs_cons. split; [intros; split; apply H; set_solver|apply IH; set_solver].
Qed.

(** A symmetric relation on ordered pairs holds of any two distinct elements. *)
Lemma pairs_sym R l x y :
  (∀ a b, R a b → R b a) → StronglySorted R l → x ∈ l → y ∈ l → x = y ∨ R x y.
Proof.
  intros Hsym. induction l as [|z l IH]; intros Hs Hx Hy; [set_solver|]. apply pairs_cons in Hs as [Hz Hs].
  apply elem_of_cons in Hx as [->|Hx], Hy as [->|Hy]; auto.
Qed.
End pairs.

(** ** Two rules on one listener *)

Section conflicts.
Context `{UnicodeTables}.
Implicit Types (e : plannedRule).

Definition proxy_of e : string := TrimSpace (rule_ProxyProtocolIn (planned_rule e)).

(** Two TLS_SNI entries with one host name are one rule. *)
Definition sni_ok e1 e2 : Prop :=
  is_sni e1 = true → is_sni e2 = true → sni_of e1 = sni_of e2 →
  rule_ID (planned_rule e1) = rule_ID (planned_rule e2).

(** What two entries that meet on a listener must satisfy. *)
Definition compatible e1 e2 : Prop :=
  planned_dataplane e1 = planned_dataplane e2 ∧ sni_ok e1 e2 ∧
  (is_any e1 = false ∧ is_any e2 = false) ∧ proxy_of e1 = proxy_of e2.

Lemma compatible_sym e1 e2 : compatible e1 e2 → compatible e2 e1.
Proof. unfold compatible, sni_ok. intros (H1 & H2 & [H3 H4] & H5). split_and!; try done. intros. symmetry. auto. Qed.

Definition init_conflict : conflictState := {| cs_hasAny := false; cs_sniByValue := ∅; cs_rules := [] |}.

(** The map of the loop holds, for each host name seen, the identifier that
    all its rules share. *)
Definition sni_map (l : list plannedRule) (m : gmap string string) : Prop :=
  ∀ v, match m !! v with
       | None => ∀ e, e ∈ l → is_sni e = true → sni_of e ≠ v
       | Some id => (∃ e, e ∈ l ∧ is_sni e = true ∧ sni_of e = v) ∧
                    ∀ e, e ∈ l → is_sni e = true → sni_of e = v → rule_ID (planned_rule e) = id
       end.

Lemma sni_map_snoc l m e :
  sni_map l m →
  sni_map (l ++ [e]) (if is_sni e then <[sni_of e := rule_ID (planned_rule e)]> m else m) ↔
  ∀ x, x ∈ l → sni_ok x e.
Proof.
  intros Hm. unfold sni_ok. destruct (is_sni e) eqn:Es.
  - split.
    + intros Hs x Hx Hxs _ Hv. specialize (Hs (sni_of e)). rewrite lookup_insert_eq in Hs.
      destruct Hs as [_ Hs]. apply Hs; [set_solver|done..].
    + intros Hok v. destruct (decide (v = sni_of e)) as [->|Hne].
      * rewrite lookup_insert_eq. split; [exists e; set_solver|].
        intros x [Hx| ->%list_elem_of_singleton]%elem_of_app Hxs Hv; [|done]. by apply Hok.
      * rewrite lookup_insert_ne by done. specialize (Hm v).
        destruct (m !! v) as [id|].
        -- destruct Hm as [(x & Hx & Hxs & Hxv) Hall]. split; [exists x; set_solver|].
           intros y [Hy| ->%list_elem_of_singleton]%elem_of_app; [by apply Hall|congruence].
        -- intros y [Hy| ->%list_elem_of_singleton]%elem_of_app; [by apply Hm|congruence].
  - split; [intros _ x Hx Hxs; congruence|]. intros _ v. specialize (Hm v).
    destruct (m !! v) as [id|].
    + destruct Hm as [(x & Hx & Hxs & Hxv) Hall]. split; [exists x; set_solver|].
      intros y [Hy| ->%list_elem_of_singleton]%elem_of_app; [by apply Hall|congruence].
    + intros y [Hy| ->%list_elem_of_singleton]%elem_of_app; [by apply Hm|congruence].
Qed.

(** One step of the loop. *)
Lemma conflictStep_spec key dp l s e :
  sni_map l (cs_sniByValue s) →
  match conflictStep key dp s e with
  | Ok s' => planned_dataplane e = dp ∧ (∀ x, x ∈ l → sni_ok x e) ∧ cs_hasAny s' = cs_hasAny s || is_any e ∧
             sni_map (l ++ [e]) (cs_sniByValue s')
  | Err _ => planned_dataplane e ≠ dp ∨ ∃ x, x ∈ l ∧ ¬ sni_ok x e
  end.
Proof.
  intros Hm. unfold conflictStep. cbv zeta.
  destruct (String.eqb_spec (planned_dataplane e) dp) as [Hdp|Hdp]; cbn [negb]; [|by left].
  pose proof (sni_map_snoc l _ e Hm) as Hs. destruct (is_sni e) eqn:Es.
  - pose proof (Hm (sni_of e)) as Hv. destruct (cs_sniByValue s !! sni_of e) as [id|] eqn:Ev.
    + destruct Hv as [(x & Hx & Hxs & Hxv) Hall].
      destruct (String.eqb_spec id (rule_ID (planned_rule e))) as [Hid|Hid]; cbn [negb].
      * assert (∀ x, x ∈ l → sni_ok x e) as Hok by (intros y Hy Hys _ Hyv; rewrite <-Hid; auto).
        split_and!; try done. cbn [cs_sniByValue]. by apply Hs.
      * right. exists x. split; [done|]. intros Hok. apply Hid. rewrite <-(Hall x) by done. by apply Hok.
    + assert (∀ x, x ∈ l → sni_ok x e) as Hok by (intros y Hy Hys _ Hyv; by destruct (Hv y Hy Hys)).
      split_and!; try done. cbn [cs_sniByValue]. by apply Hs.
  - assert (∀ x, x ∈ l → sni_ok x e) as Hok by (intros y _ _ Hys; congruence).
    split_and!; try done. cbn [cs_sniByValue]. by apply Hs.
Qed.

Lemma conflict_loop key dp l :
  match fold_result (conflictStep key dp) init_conflict l with
  | Ok s => (∀ e, e ∈ l → planned_dataplane e = dp) ∧ StronglySorted sni_ok l ∧
            cs_hasAny s = existsb is_any l ∧ sni_map l (cs_sniByValue s)
  | Err _ => ¬ ((∀ e, e ∈ l → planned_dataplane e = dp) ∧ StronglySorted sni_ok l)
  end.
Proof.
  induction l as [|e l IH] using rev_ind.
  { cbn. split; [set_solver|]. split; [constructor|]. split; [done|]. intros v. rewrite lookup_empty. set_solver. }
  rewrite fold_result_app. destruct (fold_result _ _ l) as [s|err].
  - destruct IH as (Hdp & Hs & Ha & Hm). pose proof (conflictStep_spec key dp l s e Hm) as Hstep. cbn [fold_result].
    destruct (conflictStep key dp s e) as [s'|err].
    + destruct Hstep as (He & Hok & Ha' & Hm'). split; [set_solver|]. split; [by apply pairs_snoc|].
      split; [|done]. rewrite existsb_app, Ha', Ha. cbn. by rewrite orb_false_r.
    + intros [Hall [_ Hp]%pairs_snoc]. destruct Hstep as [Hne|(x & Hx & Hn)]; [apply Hne, Hall; set_solver|].
      by apply Hn, Hp.
  - intros [Hall [Hp _]%pairs_snoc]. apply IH. split; [|done]. intros x Hx. apply Hall. set_solver.
Qed.

(** No conflict is reported exactly when every two entries are compatible. *)
Lemma listenerConflictDetail_none key l :
  listenerConflictDetail key l = None ↔ StronglySorted compatible l.
Proof.
  destruct l as [|e1 [|e2 l]]; [split; [constructor|done]|split; [repeat constructor|done]|].
  unfold listenerConflictDetail. fold init_conflict. set (k := e1 :: e2 :: l).
  assert (StronglySorted compatible k ↔
    ((∀ e, e ∈ k → planned_dataplane e = planned_dataplane e1) ∧ StronglySorted sni_ok k) ∧
    (∀ e, e ∈ k → is_any e = false) ∧ ∀ e, e ∈ k → proxy_of e = proxy_of e1) as ->.
  { unfold compatible. rewrite 3!pairs_and. unfold k.
    pose proof (pairs_both (λ e, is_any e = false) e1 e2 l) as Hb. cbv beta in Hb.
    rewrite (pairs_eq planned_dataplane), (pairs_eq proxy_of), Hb. tauto. }
  pose proof (conflict_loop key (planned_dataplane e1) k) as Hloop. cbv zeta.
  destruct (fold_result _ _ k) as [s|err]; [|split; [done|tauto]].
  destruct Hloop as (Hdp & Hs & Ha & _). destruct (cs_hasAny s) eqn:E.
  - split; [done|]. intros (_ & Hany & _). symmetry in Ha. apply existsb_elem_of in Ha as (x & Hx & Hxa).
    rewrite (Hany x Hx) in Hxa. done.
  - symmetry in Ha. rewrite existsb_false in Ha. unfold sameProxyProtocol, k. fold proxy_of.
    destruct (forallb _ (e2 :: l)) eqn:Ef; cbn [negb].
    + split; [|done]. intros _. split; [done|]. split; [done|]. rewrite forallb_elem_of in Ef.
      intros e [->|He]%elem_of_cons; [done|]. by apply Ef, String.eqb_eq in He.
    + split; [done|]. intros (_ & _ & Hp). rewrite <-not_true_iff_false in Ef. exfalso. apply Ef, forallb_elem_of.
      intros e He. apply String.eqb_eq, Hp. set_solver.
Qed.
End conflicts.

(** ** Groups and keys *)

Definition has_key (k : dpKey) (e : plannedRule) : bool := bool_decide (k ∈ listenerKeysForRule (planned_rule e)).

Lemma listenerKeys_nodup rule : NoDup (listenerKeysForRule rule).
Proof.
  unfold listenerKeysForRule. cbv zeta. destruct (String.eqb _ _); [|apply NoDup_singleton].
  apply NoDup_cons. split; [|apply NoDup_singleton]. by intros [= ]%list_elem_of_singleton.
Qed.

(** Appending to the groups of several distinct keys. *)
Definition group_append (e : plannedRule) (grouped : gmap dpKey (list plannedRule)) (key : dpKey) :
  gmap dpKey (list plannedRule) := <[key := default [] (grouped !! key) ++ [e]]> grouped.

Lemma group_append_lookup e keys m k :
  NoDup keys → foldl (group_append e) m keys !! k =
  if bool_decide (k ∈ keys) then Some (default [] (m !! k) ++ [e]) else m !! k.
Proof.
  revert m. induction keys as [|k' keys IH]; intros m Hn; [done|]. apply NoDup_cons in Hn as [Hk' Hn].
  cbn [foldl]. rewrite IH by done. unfold group_append. destruct (decide (k = k')) as [->|Hne].
  - rewrite (bool_decide_false _ Hk'), lookup_insert_eq. by rewrite bool_decide_true by set_solver.
  - rewrite lookup_insert_ne by done. rewrite (bool_decide_ext (k ∈ keys) (k ∈ k' :: keys)) by set_solver. done.
Qed.

Lemma groupPlanned_lookup l k :
  groupPlanned l !! k = match List.filter (has_key k) l with [] => None | g => Some g end.
Proof.
  induction l as [|e l IH] using rev_ind; [done|]. unfold groupPlanned in *. rewrite foldl_app. cbn [foldl].
  fold (group_append e). rewrite group_append_lookup by apply listenerKeys_nodup.
  rewrite IH, List.filter_app. cbn [List.filter]. fold (has_key k e).
  destruct (has_key k e); destruct (List.filter (has_key k) l); cbn; by rewrite ?app_nil_r.
Qed.

Lemma group_eq l k : default [] (groupPlanned l !! k) = List.filter (has_key k) l.
Proof. rewrite groupPlanned_lookup. by destruct (List.filter _ l). Qed.

Definition plannedKeys (l : list plannedRule) : list dpKey :=
  sort_stable keyLess (map fst (map_to_list (groupPlanned l))).

Lemma plannedKeys_nodup l : NoDup (plannedKeys l).
Proof. unfold plannedKeys. rewrite sort_perm. apply NoDup_fst_map_to_list. Qed.

Lemma elem_of_plannedKeys l k : k ∈ plannedKeys l ↔ ∃ e, e ∈ l ∧ k ∈ listenerKeysForRule (planned_rule e).
Proof.
  unfold plannedKeys. rewrite elem_of_sort. change (map fst) with (fmap (M:=list) (@fst dpKey (list plannedRule))).
  rewrite list_elem_of_fmap. split.
  - intros ([k' g] & -> & Hg%elem_of_map_to_list). cbn. rewrite groupPlanned_lookup in Hg.
    destruct (List.filter (has_key k') l) as [|e f] eqn:Ef; [done|].
    assert (e ∈ List.filter (has_key k') l) as He by (rewrite Ef; by left).
    apply elem_of_filterb in He as [He Hk]. exists e. split; [done|]. by apply bool_decide_eq_true in Hk.
  - intros (e & He & Hk). assert (e ∈ List.filter (has_key k) l) as Hf.
    { apply elem_of_filterb. split; [done|]. by apply bool_decide_eq_true. }
    destruct (List.filter (has_key k) l) as [|x f] eqn:Ef; [by apply elem_of_nil in Hf|].
    exists (k, x :: f). split; [done|]. apply elem_of_map_to_list. by rewrite groupPlanned_lookup, Ef.
Qed.

Lemma elem_of_keyPairs keys k1 k2 :
  NoDup keys → (k1, k2) ∈ keyPairs keys → k1 ∈ keys ∧ k2 ∈ keys ∧ k1 ≠ k2.
Proof.
  induction keys as [|k keys IH]; intros Hn; [set_solver|]. apply NoDup_cons in Hn as [Hk Hn]. cbn [keyPairs].
  intros [Hin|Hin]%elem_of_app; [|apply IH in Hin; set_solver].
  change (map (pair k)) with (fmap (M:=list) (pair (B:=dpKey) k)) in Hin.
  apply list_elem_of_fmap in Hin as (k' & [= -> ->] & Hk'). set_solver.
Qed.

Lemma keyPairs_complete keys k1 k2 :
  k1 ∈ keys → k2 ∈ keys → k1 ≠ k2 → (k1, k2) ∈ keyPairs keys ∨ (k2, k1) ∈ keyPairs keys.
Proof.
  induction keys as [|k keys IH]; [set_solver|]. cbn [keyPairs]. rewrite !elem_of_app, !elem_of_cons.
  change (map (pair k)) with (fmap (M:=list) (pair (B:=dpKey) k)). rewrite !list_elem_of_fmap. naive_solver.
Qed.

Lemma listenIPsOverlap_sym a b : listenIPsOverlap a b = listenIPsOverlap b a.
Proof.
  unfold listenIPsOverlap. cbv zeta. rewrite (String.eqb_sym (normalizeListenIP a)).
  destruct (String.eqb _ _); [done|]. destruct (ParseIP _) as [ip1|], (ParseIP _) as [ip2|]; try done.
  rewrite (String.eqb_sym (listenIPFamily ip1)). destruct (negb _); [done|]. apply orb_comm.
Qed.

Lemma dpKeysOverlap_sym k1 k2 : listenerKeysOverlap k1 k2 = listenerKeysOverlap k2 k1.
Proof.
  unfold listenerKeysOverlap. by rewrite String.eqb_sym, Z.eqb_sym, listenIPsOverlap_sym.
Qed.

Lemma dpKeysOverlap_refl k : listenerKeysOverlap k k = true.
Proof. unfold listenerKeysOverlap, listenIPsOverlap. by rewrite !String.eqb_refl, Z.eqb_refl. Qed.

(** The keys of one rule do not overlap each other. *)
Lemma listenerKeys_overlap_same rule k1 k2 :
  k1 ∈ listenerKeysForRule rule → k2 ∈ listenerKeysForRule rule → listenerKeysOverlap k1 k2 = true → k1 = k2.
Proof.
  unfold listenerKeysForRule. cbv zeta. destruct (String.eqb _ _).
  - intros [->|[->|[]%elem_of_nil]%elem_of_cons]%elem_of_cons [->|[->|[]%elem_of_nil]%elem_of_cons]%elem_of_cons; done.
  - by intros ->%list_elem_of_singleton ->%list_elem_of_singleton.
Qed.

Lemma omap_nil {A B} (f : A → option B) l : omap f l = [] ↔ ∀ x, x ∈ l → f x = None.
Proof.
  induction l as [|x l IH]; [split; [set_solver|done]|]. cbn. setoid_rewrite elem_of_cons.
  destruct (f x) eqn:E; [split; [done|]; intros H; rewrite H in E by auto; done|]. rewrite IH. naive_solver.
Qed.

(** ** The conflict check *)

Section detect.
Context `{UnicodeTables}.

(** Whatever overlapping listeners two rules have, the rules are compatible. *)
Definition no_conflict (e1 e2 : plannedRule) : Prop :=
  ∀ k1 k2, k1 ∈ listenerKeysForRule (planned_rule e1) → k2 ∈ listenerKeysForRule (planned_rule e2) →
  listenerKeysOverlap k1 k2 = true → compatible e1 e2.

Lemma no_conflict_sym e1 e2 : no_conflict e1 e2 → no_conflict e2 e1.
Proof.
  intros Hc k1 k2 H1 H2 Ho. apply compatible_sym, (Hc k2 k1); try done. by rewrite dpKeysOverlap_sym.
Qed.

(** The check, on groups. *)
Definition groups_ok (l : list plannedRule) : Prop :=
  (∀ k, StronglySorted compatible (List.filter (has_key k) l)) ∧
  ∀ k1 k2, k1 ≠ k2 → listenerKeysOverlap k1 k2 = true →
    ∀ x y, x ∈ l → y ∈ l → has_key k1 x = true → has_key k2 y = true → compatible x y.

Lemma groups_ok_iff l : groups_ok l ↔ StronglySorted no_conflict l.
Proof.
  unfold groups_ok. setoid_rewrite pairs_filter. rewrite <-pairs_all. split.
  - intros [Hs Hd]. eapply pairs_ext; [|apply Hs]. intros x y Hx Hy. split.
    + intros Hc k Hkx Hky. unfold has_key in *. bool_hyps. apply (Hc k k); try done. apply dpKeysOverlap_refl.
    + intros Hc k1 k2 H1 H2 Ho. destruct (decide (k1 = k2)) as [->|Hne].
      * apply (Hc k2); by apply bool_decide_eq_true.
      * apply (Hd k1 k2); try done; by apply bool_decide_eq_true.
  - intros Hs. split.
    + apply pairs_all. intros k. eapply (pairs_ext no_conflict) in Hs; [|reflexivity].
      revert Hs. clear. induction l as [|x l IH]; intros Hs; [constructor|]. apply pairs_cons in Hs as [Hx Hs].
      apply pairs_cons. split; [|auto]. intros y Hy Hkx Hky. unfold has_key in *. bool_hyps.
      apply (Hx y Hy k k); try done. apply dpKeysOverlap_refl.
    + intros k1 k2 Hne Ho x y Hx Hy Hkx Hky. unfold has_key in *. bool_hyps.
      destruct (pairs_sym no_conflict l x y no_conflict_sym Hs Hx Hy) as [->|Hc]; [|by apply (Hc k1 k2)].
      destruct Hne. by eapply listenerKeys_overlap_same.
Qed.

Lemma detectListenerConflicts_nil l : detectListenerConflicts l = [] ↔ StronglySorted no_conflict l.
Proof.
  rewrite <-groups_ok_iff. unfold detectListenerConflicts. cbv zeta. fold (plannedKeys l).
  rewrite app_nil, !omap_nil. setoid_rewrite group_eq. split.
  - intros [Hp Hk]. split.
    + intros k. destruct (decide (k ∈ plannedKeys l)) as [Hin|Hout].
      * apply (listenerConflictDetail_none k), Hk, Hin.
      * rewrite elem_of_plannedKeys in Hout. destruct (List.filter (has_key k) l) as [|e f] eqn:Ef; [constructor|].
        exfalso. apply Hout. assert (e ∈ List.filter (has_key k) l) as He by (rewrite Ef; by left).
        apply elem_of_filterb in He as [He Hke]. exists e. split; [done|]. by apply bool_decide_eq_true in Hke.
    + assert (∀ k1 k2, (k1, k2) ∈ keyPairs (plannedKeys l) → listenerKeysOverlap k1 k2 = true →
        ∀ x y, x ∈ l → y ∈ l → has_key k1 x = true → has_key k2 y = true → compatible x y) as Hpair.
      { intros k1 k2 Hin Ho x y Hx Hy Hkx Hky. specialize (Hp (k1, k2) Hin). cbn in Hp. rewrite Ho in Hp.
        apply listenerConflictDetail_none in Hp. apply StronglySorted_app in Hp as (Hp & _ & _).
        rewrite !group_eq in Hp. apply Hp; by apply elem_of_filterb. }
      intros k1 k2 Hne Ho x y Hx Hy Hkx Hky.
      assert (k1 ∈ plannedKeys l ∧ k2 ∈ plannedKeys l) as [H1 H2].
      { rewrite !elem_of_plannedKeys. unfold has_key in *. bool_hyps. split; [by exists x|by exists y]. }
      destruct (keyPairs_complete _ k1 k2 H1 H2 Hne) as [Hin|Hin]; [by apply (Hpair k1 k2)|].
      apply compatible_sym, (Hpair k2 k1); try done. by rewrite dpKeysOverlap_sym.
  - intros [Hk Hp]. split.
    + intros [k1 k2] Hin. apply elem_of_keyPairs in Hin as (_ & _ & Hne); [|apply plannedKeys_nodup].
      destruct (listenerKeysOverlap k1 k2) eqn:Ho; [|done]. apply listenerConflictDetail_none.
      rewrite !group_eq. apply StronglySorted_app. split; [|split; apply Hk]. intros x y [Hx Hkx]%elem_of_filterb [Hy Hky]%elem_of_filterb.
      by apply (Hp k1 k2).
    + intros k _. apply listenerConflictDetail_none, Hk.
Qed.
End detect.

(** ** The plan *)

Section planning.
Context `{UnicodeTables}.

(** The backend of one rule. *)
Definition assigned (nodeMode : string) (rule : RuleConfig) (dataplane : string) : Prop :=
  selectDataplane nodeMode rule = Ok dataplane ∧ backendSupportsRule dataplane rule = true.

(** What [Manager.plan] promises: every rule is served once, by the backend it
    selects, which supports it; each backend gets its rules in order; and no
    two rules conflict. *)
Record plan_ok (nodeMode : string) (rules : list RuleConfig) (p : plan) : Prop := {
  po_all : map planned_rule (plan_planned p) = rules;
  po_assigned e : e ∈ plan_planned p → assigned nodeMode (planned_rule e) (planned_dataplane e);
  po_rules dp : rulesOf p dp =
    map planned_rule (List.filter (λ e, String.eqb (planned_dataplane e) dp) (plan_planned p));
  po_conflicts : StronglySorted no_conflict (plan_planned p) }.

(** The loop over the rules. *)
Record plan_loop_inv (nodeMode : string) (rules : list RuleConfig) (s : plan * list ConfigApplyErrorDetail) : Prop := {
  pl_assigned e : e ∈ plan_planned s.1 → assigned nodeMode (planned_rule e) (planned_dataplane e);
  pl_rules dp : rulesOf s.1 dp =
    map planned_rule (List.filter (λ e, String.eqb (planned_dataplane e) dp) (plan_planned s.1));
  pl_all : s.2 = [] → map planned_rule (plan_planned s.1) = rules;
  pl_errors : s.2 ≠ [] → ∃ rule, rule ∈ rules ∧ ∀ dp, ¬ assigned nodeMode rule dp }.

Lemma rulesOf_empty dp : rulesOf emptyPlan dp = [].
Proof.
  unfold rulesOf, emptyPlan. cbn [plan_rules].
  destruct (decide (dp = ModeNative)) as [->|H1]; [done|]. destruct (decide (dp = ModeHAProxy)) as [->|H2]; [done|].
  destruct (decide (dp = ModeNFTables)) as [->|H3]; [done|].
  by rewrite !lookup_insert_ne, lookup_singleton_ne by done.
Qed.

Lemma planStep_inv nodeMode rules rule s :
  plan_loop_inv nodeMode rules s → plan_loop_inv nodeMode (rules ++ [rule]) (planStep nodeMode s rule).
Proof.
  intros [Ha Hr Hall Herr]. destruct s as [p details]. cbn [fst snd] in *.
  assert (∀ d, (∀ dp, ¬ assigned nodeMode rule dp) → plan_loop_inv nodeMode (rules ++ [rule]) (p, details ++ [d])) as Hbad.
  { intros d Hd. constructor; cbn [fst snd]; try done.
    - intros Hnil. by apply app_nil in Hnil as [_ ?].
    - intros _. exists rule. split; [apply elem_of_app; right; by left|done]. }
  unfold planStep. destruct (selectDataplane nodeMode rule) as [dp|d] eqn:Es.
  2:{ apply Hbad. intros dp [Hs _]. congruence. }
  destruct (backendSupportsRule dp rule) eqn:Eb; cbn [negb].
  2:{ apply Hbad. intros dp' [Hs Hb]. congruence. }
  constructor; cbn [fst snd plan_planned].
  - intros e [He| ->%list_elem_of_singleton]%elem_of_app; [by apply Ha|done].
  - intros dp'. rewrite List.filter_app, map_app. cbn [List.filter planned_dataplane].
    unfold rulesOf at 1. cbn [plan_rules]. destruct (String.eqb_spec dp dp') as [->|Hne].
    + rewrite lookup_insert_eq. cbn. by rewrite Hr.
    + rewrite lookup_insert_ne by done. fold (rulesOf p dp'). rewrite Hr. cbn. by rewrite app_nil_r.
  - intros Hd. rewrite map_app, Hall by done. done.
  - intros Hd. destruct (Herr Hd) as (x & Hx & Hn). exists x. split; [apply elem_of_app; by left|done].
Qed.

Lemma plan_loop nodeMode rules :
  plan_loop_inv nodeMode rules (foldl (planStep nodeMode) (emptyPlan, []) rules).
Proof.
  apply (foldl_ind (planStep nodeMode) (λ l s, plan_loop_inv nodeMode l s)).
  - constructor; cbn [fst snd]; try done; [set_solver|]. intros dp. apply rulesOf_empty.
  - intros l x s Hs. by apply planStep_inv.
Qed.

Lemma planned_unique nodeMode l k :
  map planned_rule l = map planned_rule k →
  (∀ e, e ∈ l → assigned nodeMode (planned_rule e) (planned_dataplane e)) →
  (∀ e, e ∈ k → assigned nodeMode (planned_rule e) (planned_dataplane e)) → l = k.
Proof.
  revert k. induction l as [|[r d] l IH]; intros [|[r' d'] k] E Hl Hk; try done.
  cbn in E. injection E as -> E. f_equal; [|apply IH; [done|set_solver..]].
  destruct (Hl {| planned_rule := r'; planned_dataplane := d |}) as [H1 _]; [by left|].
  destruct (Hk {| planned_rule := r'; planned_dataplane := d' |}) as [H2 _]; [by left|]. cbn in *. congruence.
Qed.

(** C2. A dataplane plan is sound and complete: when [plan] succeeds, every
    rule of the snapshot is served exactly once, by the backend that the node
    mode and the rule's preference select and that supports it, each backend
    gets its rules in order, and no two rules that meet on overlapping
    listeners conflict; when it fails, it reports at least one error and no
    such plan exists. *)
Theorem planSnapshot_spec optionsMode snapshot :
  match planSnapshot optionsMode snapshot with
  | Ok p => plan_ok (nodeModeOf optionsMode snapshot) (snap_Rules snapshot) p
  | Err e => apply_Errors e ≠ [] ∧ ∀ p, ¬ plan_ok (nodeModeOf optionsMode snapshot) (snap_Rules snapshot) p
  end.
Proof.
  unfold planSnapshot. cbv zeta. set (nm := nodeModeOf optionsMode snapshot). set (rules := snap_Rules snapshot).
  pose proof (plan_loop nm rules) as Hloop.
  destruct (foldl (planStep nm) (emptyPlan, []) rules) as [p details]. destruct Hloop as [Ha Hr Hall Herr].
  cbn [fst snd] in *. pose proof (detectListenerConflicts_nil (plan_planned p)) as Hc.
  destruct (details ++ detectListenerConflicts (plan_planned p)) as [|d ds] eqn:E.
  - apply app_nil in E as [E1 E2]. constructor; [by apply Hall|done|done|by apply Hc].
  - split; [done|]. intros q [Qall Qa Qr Qc]. destruct details as [|d' ds'].
    + assert (plan_planned p = plan_planned q) as Epq.
      { apply (planned_unique nm); [|done|done]. rewrite Hall, Qall by done. done. }
      rewrite <-Epq in Qc. apply Hc in Qc. rewrite Qc in E. done.
    + destruct Herr as (rule & Hrule & Hn); [done|]. rewrite <-Qall in Hrule.
      change (map planned_rule) with (fmap (M:=list) planned_rule) in Hrule.
      apply list_elem_of_fmap in Hrule as (e & -> & He). by apply (Hn _ (Qa e He)).
Qed.
End planning.
