(* ===== verification/ServiceErrors.v ===== *)
(** * Errors of the control-plane services (control.go, control_errors.go)

    The error values that the services return and their classification: the
    mapping of repository errors and the payload an HTTP handler answers
    with.  An error is a chain: a [ControlServiceError] unwraps to its cause,
    and [errors.Is] and [errors.As] walk that chain. *)

From S2P Require Import Prelude GoString Domain.
Import Domain.Errors.
#[local] Open Scope Z_scope.

(** The dynamic types that the services put into [Details]. *)
Inductive detailValue :=
| DString (s : string)
| DInt (n : Z)
| DBool (b : bool)
| DPortSegments (segments : list (Z * Z)).
#[export] Instance detailValue_eq_dec : EqDecision detailValue.
Proof. solve_decision. Defined.

Abbreviation errorDetails := (gmap string detailValue).

(** The sentinels of the service and repository packages, the two error
    structs, and any other error with its text. *)
Inductive serviceError :=
| ErrForbidden
| ErrNotFound
| ErrConflict
| ErrInvalidInput
| ErrQuotaExceeded
| RepoErrNotFound
| RepoErrConflict
| ControlServiceError (code message : string) (details : errorDetails) (cause : serviceError)
| ServiceDomainError (e : DomainError)
| OtherError (text : string).

(** [err.Error()]. *)
Definition Error (e : serviceError) : string :=
  match e with
  | ErrForbidden => "forbidden" | ErrNotFound => "not found" | ErrConflict => "conflict"
  | ErrInvalidInput => "invalid input" | ErrQuotaExceeded => "quota exceeded"
  | RepoErrNotFound => "repository record not found" | RepoErrConflict => "repository conflict"
  | ControlServiceError code message _ _ => if String.eqb message "" then code else (code ++ ": " ++ message)%string
  | ServiceDomainError e => (Code e ++ ": " ++ Message e)%string
  | OtherError text => text
  end.

Definition Unwrap (e : serviceError) : option serviceError :=
  match e with ControlServiceError _ _ _ cause => Some cause | _ => None end.

Definition copyErrorDetails (details : errorDetails) : errorDetails := details.

Definition validationError (message : string) (details : errorDetails) : serviceError :=
  ControlServiceError "VALIDATION_FAILED" message (copyErrorDetails details) ErrInvalidInput.

Definition validationFieldError (field message : string) (details : errorDetails) : serviceError :=
  validationError message (<["field" := DString field]> details).

(** [errors.Is] against a sentinel. *)
Fixpoint errors_is (sentinel : serviceError → bool) (e : serviceError) : bool :=
  sentinel e ||
  match e with ControlServiceError _ _ _ cause => errors_is sentinel cause | _ => false end.

Definition is_forbidden (e : serviceError) : bool := match e with ErrForbidden => true | _ => false end.
Definition is_not_found (e : serviceError) : bool := match e with ErrNotFound => true | _ => false end.
Definition is_conflict (e : serviceError) : bool := match e with ErrConflict => true | _ => false end.
Definition is_invalid_input (e : serviceError) : bool := match e with ErrInvalidInput => true | _ => false end.
Definition is_quota (e : serviceError) : bool := match e with ErrQuotaExceeded => true | _ => false end.
Definition is_repo_not_found (e : serviceError) : bool := match e with RepoErrNotFound => true | _ => false end.
Definition is_repo_conflict (e : serviceError) : bool := match e with RepoErrConflict => true | _ => false end.

Definition mapServiceError (err : option serviceError) : option serviceError :=
  match err with
  | None => None
  | Some e =>
      if errors_is is_repo_not_found e then Some ErrNotFound
      else if errors_is is_repo_conflict e then Some ErrConflict
      else Some e
  end.

(** [errors.As] for [*domain.DomainError]. *)
Fixpoint as_domain (e : serviceError) : option DomainError :=
  match e with
  | ServiceDomainError d => Some d
  | ControlServiceError _ _ _ cause => as_domain cause
  | _ => None
  end.

Record ErrorPayload := {
  payload_Code : string; payload_Message : string; payload_Details : errorDetails }.
#[export] Instance ErrorPayload_eq_dec : EqDecision ErrorPayload.
Proof. solve_decision. Defined.

Definition plainPayload (code message : string) : ErrorPayload :=
  {| payload_Code := code; payload_Message := message; payload_Details := ∅ |}.

(** [errors.As] for [*controlServiceError] finds the first of the chain, which
    is the error itself: the other errors unwrap to nothing. *)
Definition ErrorPayloadForError (err : serviceError) : ErrorPayload :=
  match err with
  | ControlServiceError code message details _ =>
      {| payload_Code := code; payload_Message := message; payload_Details := copyErrorDetails details |}
  | _ =>
      let err := default err (mapServiceError (Some err)) in
      match as_domain err with
      | Some d => plainPayload (Code d) (Message d)
      | None =>
          if errors_is is_forbidden err then plainPayload "FORBIDDEN" "You do not have permission to perform this action."
          else if errors_is is_not_found err then plainPayload "NOT_FOUND" "The requested resource was not found."
          else if errors_is is_conflict err then plainPayload "CONFLICT" "The request conflicts with the current environment state."
          else if errors_is is_quota err then plainPayload "QUOTA_EXCEEDED" "The request exceeds the configured quota."
          else if errors_is is_invalid_input err then plainPayload "VALIDATION_FAILED" "The request payload is invalid."
          else plainPayload "INTERNAL_ERROR" "An internal error occurred."
      end
  end.

(** ** Facts *)

Lemma validationFieldError_payload field message details :
  payload_Code (ErrorPayloadForError (validationFieldError field message details)) = "VALIDATION_FAILED"
  ∧ payload_Details (ErrorPayloadForError (validationFieldError field message details)) !! "field"
    = Some (DString field).
Proof. split; [done|]. apply lookup_insert_eq. Qed.

(** Mapping an error never makes it anonymous, and mapping twice is mapping
    once: callers may map an error that a helper has mapped already. *)
Lemma mapServiceError_idemp err : mapServiceError (mapServiceError err) = mapServiceError err.
Proof.
  destruct err as [e|]; simpl; [|done].
  destruct (errors_is is_repo_not_found e) eqn:E1; [done|].
  destruct (errors_is is_repo_conflict e) eqn:E2; [done|]. simpl. by rewrite E1, E2.
Qed.
