(* ===== verification/ConfigCompiler.v ===== *)
(** * Configuration compiler (pkg/core/service/config_compiler.go)

    From the rules of an organisation to the configuration of one node:
    selection, normalisation, expansion of port segments, the reductions for
    agents that speak an older protocol, and the configuration hash.  The
    hash is a function [digest] of the hashed structure: SHA-256 of its JSON
    text in the program. *)

From S2P Require Import Prelude GoString GoSort Domain Agent ServiceErrors.
#[local] Open Scope Z_scope.

Definition NodeDataplaneModeAuto : string := "AUTO".
Definition NodeDataplaneModeNative : string := "NATIVE".
Definition NodeDataplaneModeHAProxy : string := "HAPROXY".
Definition NodeDataplaneModeNFTables : string := "NFTABLES".
Definition NodeDataplaneConflictPolicyFailFast : string := "FAIL_FAST".

Definition DataplanePreferenceAuto : string := "AUTO".
Definition DataplanePreferenceNative : string := "NATIVE".
Definition DataplanePreferenceHAProxy : string := "HAPROXY".
Definition DataplanePreferenceNFTables : string := "NFTABLES".

Definition targetGroupSchedulerPriorityIPHash : string := "PRIORITY_IPHASH".
Definition targetGroupSchedulerLeastLoad : string := "LEAST_LOAD".

Record AgentConfigInput := {
  in_NodeID : string; in_NodeGroups : list string;
  in_AgentProtocolVersion : ProtocolVersion; in_AgentProtocolKnown : bool;
  in_DataplaneMode : string; in_DataplaneInstanceID : string; in_DataplaneConflictPolicy : string;
  in_Rules : list RuleConfig }.

(** What the hash covers: neither the hash itself nor the data plane fields. *)
Record hashInput := {
  hash_AgentProtocolVersion : ProtocolVersion; hash_NodeID : string;
  hash_ConfigVersion : Z; hash_Rules : list RuleConfig }.

(** ** Agent versions *)

Definition agentSupportsManagedDataplane (version : ProtocolVersion) : bool :=
  let required := ManagedDataplaneProtocolVersion in
  if negb (Major version =? Major required) then Major required <? Major version
  else Minor required <=? Minor version.

Definition agentSupportsSendIP (version : ProtocolVersion) : bool :=
  let required := SendIPProtocolVersion in
  if negb (Major version =? Major required) then Major required <? Major version
  else Minor required <=? Minor version.

Definition agentSupportsLeastLoadTargetGroups (version : ProtocolVersion) : bool :=
  let required := LeastLoadTargetGroupProtocolVersion in
  if negb (Major version =? Major required) then Major required <? Major version
  else Minor required <=? Minor version.

(** ** Rule selection and normalisation *)

Definition ruleMatchesAnyNodeGroup (rule : RuleConfig) (nodeGroupSet : gset string) : bool :=
  existsb (λ id, bool_decide (id ∈ nodeGroupSet)) (rule_NodeGroupIDs rule).

Definition ruleMatchesNode (rule : RuleConfig) (nodeID : string) (nodeGroupSet : gset string) : bool :=
  existsb (String.eqb nodeID) (rule_NodeIDs rule) || ruleMatchesAnyNodeGroup rule nodeGroupSet.

Definition openCoreExecutableRuleSupported (rule : RuleConfig) : result serviceError bool :=
  let forwardingType := if String.eqb (rule_ForwardingType rule) "" then ForwardingTypeDirect
                        else rule_ForwardingType rule in
  if negb (String.eqb forwardingType ForwardingTypeDirect) then Ok false
  else if String.eqb (TrimSpace (rule_MatchType rule)) "" then Err ErrInvalidInput
  else if String.eqb (rule_MatchType rule) MatchTypeAnyInbound
          || String.eqb (rule_MatchType rule) MatchTypeTLSSNI then Ok true
  else if String.eqb (rule_MatchType rule) MatchTypeFeature then Ok false
  else Ok false.

Definition runtimeRuleID (rule : RuleConfig) (port : Z) : string :=
  match rule_PortSegments rule with
  | [seg] => if (seg_StartPort seg =? port) && (seg_EndPort seg =? port)
             then TrimSpace (rule_RuntimeID rule)
             else (TrimSpace (rule_ID rule) ++ "-p" ++ Itoa port)%string
  | _ => (TrimSpace (rule_ID rule) ++ "-p" ++ Itoa port)%string
  end.

(** The ports that one segment expands to. *)
Definition segmentPorts (segment : PortSegmentConfig) : list Z :=
  let start := seg_StartPort segment in
  let end_ := seg_EndPort segment in
  if (start <=? 0) || (end_ <=? 0) then []
  else let '(start, end_) := if end_ <? start then (end_, start) else (start, end_) in
       seqZ start (end_ - start + 1).

(** The rule without its segments. *)
Definition rule_unsegmented (r : RuleConfig) : RuleConfig :=
  rule_with_port r (rule_RuntimeID r) (rule_Port r).

Definition expandRulePortSegments (rule : RuleConfig) : list RuleConfig :=
  match rule_PortSegments rule with
  | [] => [rule]
  | segments =>
      match flat_map (λ segment,
              map (λ port, rule_with_port rule (runtimeRuleID rule port) port) (segmentPorts segment)) segments with
      | [] => [rule_unsegmented rule]
      | result => result
      end
  end.

Definition targetLess (x y : TargetEndpoint) : bool := String.ltb (target_ID x) (target_ID y).

Definition bucketLess (x y : TargetPriorityBucket) : bool :=
  if bucket_Priority x =? bucket_Priority y then
    match bucket_Targets x, bucket_Targets y with
    | t :: _, u :: _ => targetLess t u
    | ts, us => (length ts <? length us)%nat
    end
  else bucket_Priority x <? bucket_Priority y.

Definition ruleLess : RuleConfig → RuleConfig → bool :=
  lex_less rule_ID String.eqb String.ltb (λ x y, rule_Port x <? rule_Port y).

Definition normalizedBucket (b : TargetPriorityBucket) : TargetPriorityBucket := {|
  bucket_Priority := bucket_Priority b; bucket_Targets := sort_stable targetLess (bucket_Targets b) |}.

Section compiler.
Context `{UnicodeTables}.

Definition defaultNodeDataplaneMode (value : string) : string :=
  let v := ToUpper (TrimSpace value) in
  if bool_decide (v ∈ [NodeDataplaneModeNative; NodeDataplaneModeHAProxy; NodeDataplaneModeNFTables])
  then v else NodeDataplaneModeAuto.

Definition defaultNodeDataplaneConflictPolicy (value : string) : string :=
  if String.eqb (ToUpper (TrimSpace value)) NodeDataplaneConflictPolicyFailFast
  then NodeDataplaneConflictPolicyFailFast else NodeDataplaneConflictPolicyFailFast.

Definition defaultDataplanePreference (value : string) : string :=
  let value := ToUpper (TrimSpace value) in
  if bool_decide (value ∈ [DataplanePreferenceNative; DataplanePreferenceHAProxy; DataplanePreferenceNFTables])
  then value else DataplanePreferenceAuto.

Definition normalizeTargetGroupScheduler (scheduler : string) : string :=
  let scheduler := ToUpper (TrimSpace scheduler) in
  if String.eqb scheduler "" then targetGroupSchedulerPriorityIPHash else scheduler.

Definition targetGroupSchedulerSupportedByOSS (scheduler : string) : bool :=
  bool_decide (normalizeTargetGroupScheduler scheduler
               ∈ [targetGroupSchedulerPriorityIPHash; targetGroupSchedulerLeastLoad]).

Definition normalizedUpstream (upstream : RuleUpstreamConfig) : RuleUpstreamConfig := {|
  up_Type := up_Type upstream;
  up_Target := up_Target upstream;
  up_Scheduler := if String.eqb (up_Type upstream) "TARGET_GROUP"
                  then normalizeTargetGroupScheduler (up_Scheduler upstream) else "";
  up_TargetGroup := sort_stable bucketLess (map normalizedBucket (up_TargetGroup upstream)) |}.

Definition normalizedRule (r : RuleConfig) : RuleConfig := {|
  rule_ID := rule_ID r; rule_RuntimeID := rule_RuntimeID r; rule_ConfigVersion := rule_ConfigVersion r;
  rule_Enabled := rule_Enabled r; rule_Dataplane := rule_Dataplane r;
  rule_ForwardingType := if String.eqb (rule_ForwardingType r) "" then ForwardingTypeDirect
                         else rule_ForwardingType r;
  rule_Protocol := rule_Protocol r;
  rule_NodeIDs := sort_stable String.ltb (rule_NodeIDs r);
  rule_NodeGroupIDs := sort_stable String.ltb (rule_NodeGroupIDs r);
  rule_ListenIP := rule_ListenIP r; rule_Port := rule_Port r; rule_PortSegments := rule_PortSegments r;
  rule_SendIP := rule_SendIP r; rule_MatchType := rule_MatchType r;
  rule_SNIHostname := rule_SNIHostname r; rule_ProxyProtocolIn := rule_ProxyProtocolIn r;
  rule_ProxyProtocolOut := rule_ProxyProtocolOut r;
  rule_Upstream := normalizedUpstream (rule_Upstream r) |}.

(** One iteration of the loop over the rules: the matches and the version. *)
Definition matchStep (nodeID : string) (nodeGroupSet : gset string)
    (acc : list RuleConfig * Z) (rule : RuleConfig) : result serviceError (list RuleConfig * Z) :=
  let '(matches, configVersion) := acc in
  if negb (rule_Enabled rule) then Ok acc
  else if ruleMatchesNode rule nodeID nodeGroupSet then
    let configVersion := if configVersion <? rule_ConfigVersion rule then rule_ConfigVersion rule
                         else configVersion in
    supported ← openCoreExecutableRuleSupported rule;
    if supported : bool then Ok (matches ++ expandRulePortSegments (normalizedRule rule), configVersion)
    else Ok (matches, configVersion)
  else Ok acc.

Definition matchingEnabledRules (nodeID : string) (nodeGroups : list string) (rules : list RuleConfig)
    : result serviceError (list RuleConfig * Z) :=
  '(matches, configVersion) ← fold_result (matchStep nodeID (list_to_set nodeGroups)) ([], 0) rules;
  Ok (sort_stable ruleLess matches, configVersion).

(** ** Reductions for older agents *)

Definition rule_without_dataplane (r : RuleConfig) : RuleConfig := {|
  rule_ID := rule_ID r; rule_RuntimeID := rule_RuntimeID r; rule_ConfigVersion := rule_ConfigVersion r;
  rule_Enabled := rule_Enabled r; rule_Dataplane := "";
  rule_ForwardingType := rule_ForwardingType r; rule_Protocol := rule_Protocol r;
  rule_NodeIDs := rule_NodeIDs r; rule_NodeGroupIDs := rule_NodeGroupIDs r;
  rule_ListenIP := rule_ListenIP r; rule_Port := rule_Port r; rule_PortSegments := rule_PortSegments r;
  rule_SendIP := rule_SendIP r; rule_MatchType := rule_MatchType r;
  rule_SNIHostname := rule_SNIHostname r; rule_ProxyProtocolIn := rule_ProxyProtocolIn r;
  rule_ProxyProtocolOut := rule_ProxyProtocolOut r; rule_Upstream := rule_Upstream r |}.

Definition nativeCompatibleRulesForLegacyAgent (inputMode : string) (rules : list RuleConfig) : list RuleConfig :=
  if String.eqb (defaultNodeDataplaneMode inputMode) NodeDataplaneModeHAProxy
     || String.eqb (defaultNodeDataplaneMode inputMode) NodeDataplaneModeNFTables then []
  else foldl (λ result rule,
    if negb (String.eqb (TrimSpace (rule_SendIP rule)) "") then result
    else if String.eqb (defaultDataplanePreference (rule_Dataplane rule)) NodeDataplaneModeHAProxy
            || String.eqb (defaultDataplanePreference (rule_Dataplane rule)) NodeDataplaneModeNFTables
    then result
    else result ++ [rule_without_dataplane rule]) [] rules.

Definition protocol22CompatibleRulesForAgent (rules : list RuleConfig) : list RuleConfig :=
  foldl (λ result rule,
    if negb (String.eqb (TrimSpace (rule_SendIP rule)) "") then result
    else if negb (String.eqb (TrimSpace (rule_RuntimeID rule)) "") then result
    else result ++ [rule]) [] rules.

Definition protocol23CompatibleRulesForAgent (rules : list RuleConfig) : list RuleConfig :=
  foldl (λ result rule,
    if String.eqb (up_Type (rule_Upstream rule)) "TARGET_GROUP"
       && String.eqb (normalizeTargetGroupScheduler (up_Scheduler (rule_Upstream rule)))
            targetGroupSchedulerLeastLoad
    then result else result ++ [rule]) [] rules.

(** ** Compilation *)

Variable digest : hashInput → string.

Definition configHash (config : ConfigSnapshot) : string :=
  digest {| hash_AgentProtocolVersion := snap_AgentProtocolVersion config;
            hash_NodeID := snap_NodeID config; hash_ConfigVersion := snap_ConfigVersion config;
            hash_Rules := snap_Rules config |}.

Definition with_hash (config : ConfigSnapshot) : ConfigSnapshot := {|
  snap_AgentProtocolVersion := snap_AgentProtocolVersion config; snap_NodeID := snap_NodeID config;
  snap_ConfigVersion := snap_ConfigVersion config; snap_ConfigHash := configHash config;
  snap_DataplaneMode := snap_DataplaneMode config; snap_DataplaneInstanceID := snap_DataplaneInstanceID config;
  snap_ConflictPolicy := snap_ConflictPolicy config; snap_Rules := snap_Rules config |}.

Definition EmptyNodeAgentConfig (nodeID : string) : ConfigSnapshot :=
  with_hash {| snap_AgentProtocolVersion := CurrentProtocolVersion; snap_NodeID := nodeID;
    snap_ConfigVersion := 0; snap_ConfigHash := ""; snap_DataplaneMode := NodeDataplaneModeAuto;
    snap_DataplaneInstanceID := ""; snap_ConflictPolicy := NodeDataplaneConflictPolicyFailFast;
    snap_Rules := [] |}.

Definition Compile (input : AgentConfigInput) : result serviceError ConfigSnapshot :=
  '(rules, configVersion) ← matchingEnabledRules (in_NodeID input) (in_NodeGroups input) (in_Rules input);
  let agentProtocolVersion :=
    if in_AgentProtocolKnown input then in_AgentProtocolVersion input else {| Major := 0; Minor := 0 |} in
  let managed := agentSupportsManagedDataplane agentProtocolVersion in
  let rules := if managed then rules else nativeCompatibleRulesForLegacyAgent (in_DataplaneMode input) rules in
  let rules := if agentSupportsSendIP agentProtocolVersion then rules
               else protocol22CompatibleRulesForAgent rules in
  let rules := if agentSupportsLeastLoadTargetGroups agentProtocolVersion then rules
               else protocol23CompatibleRulesForAgent rules in
  Ok (with_hash {| snap_AgentProtocolVersion := CurrentProtocolVersion; snap_NodeID := in_NodeID input;
    snap_ConfigVersion := configVersion; snap_ConfigHash := "";
    snap_DataplaneMode := if managed then defaultNodeDataplaneMode (in_DataplaneMode input)
                          else NodeDataplaneModeNative;
    snap_DataplaneInstanceID := if managed then TrimSpace (in_DataplaneInstanceID input) else "";
    snap_ConflictPolicy := if managed then defaultNodeDataplaneConflictPolicy (in_DataplaneConflictPolicy input)
                           else "";
    snap_Rules := rules |}).
(** ** Selection *)

(** The rule is enabled and placed on the node. *)
Definition selected (nodeID : string) (groups : gset string) (r : RuleConfig) : bool :=
  rule_Enabled r && ruleMatchesNode r nodeID groups.
Definition direct (r : RuleConfig) : bool :=
  bool_decide (rule_ForwardingType r ∈ [""; ForwardingTypeDirect]).
(** The rule has no match type, which fails the compilation. *)
Definition untyped (r : RuleConfig) : bool := direct r && String.eqb (TrimSpace (rule_MatchType r)) "".
(** The open core runs the rule. *)
Definition executable (r : RuleConfig) : bool :=
  direct r && bool_decide (rule_MatchType r ∈ [MatchTypeAnyInbound; MatchTypeTLSSNI]).

Lemma supported_spec r :
  openCoreExecutableRuleSupported r =
  if untyped r then Err ErrInvalidInput else Ok (executable r).
Proof.
  unfold openCoreExecutableRuleSupported, untyped, executable, direct.
  assert (negb (String.eqb (if String.eqb (rule_ForwardingType r) "" then ForwardingTypeDirect
     else rule_ForwardingType r) ForwardingTypeDirect) = negb (bool_decide (rule_ForwardingType r ∈ [""; ForwardingTypeDirect]))) as ->.
  { f_equal. destruct (String.eqb_spec (rule_ForwardingType r) "") as [->|Hne]; [done|].
    destruct (String.eqb_spec (rule_ForwardingType r) ForwardingTypeDirect) as [->|Hne']; [done|].
    symmetry. apply bool_decide_eq_false. set_solver. }
  destruct (bool_decide (rule_ForwardingType r ∈ _)); cbn [negb andb]; [|done].
  destruct (String.eqb (TrimSpace (rule_MatchType r)) ""); [done|].
  destruct (String.eqb_spec (rule_MatchType r) MatchTypeAnyInbound) as [->|H1]; [done|].
  destruct (String.eqb_spec (rule_MatchType r) MatchTypeTLSSNI) as [->|H2]; [done|]. cbn [orb].
  rewrite (bool_decide_false (_ ∈ _)) by set_solver. by destruct (String.eqb _ _).
Qed.

(** The rules that the compiler places on a node, before older agents are
    considered. *)
Definition placed (nodeID : string) (groups : gset string) (rules : list RuleConfig) : list RuleConfig :=
  flat_map (λ r, expandRulePortSegments (normalizedRule r))
    (List.filter (λ r, selected nodeID groups r && executable r) rules).
Definition maxVersion (nodeID : string) (groups : gset string) (rules : list RuleConfig) (v : Z) : Z :=
  foldr Z.max v (map rule_ConfigVersion (List.filter (selected nodeID groups) rules)).

Lemma match_loop nodeID groups rules acc v :
  fold_result (matchStep nodeID groups) (acc, v) rules =
  if existsb (λ r, selected nodeID groups r && untyped r) rules then Err ErrInvalidInput
  else Ok (acc ++ placed nodeID groups rules, maxVersion nodeID groups rules v).
Proof.
  revert acc v. induction rules as [|r rules IH]; intros acc v; [by rewrite app_nil_r|].
  assert (∀ x l, Z.max x (foldr Z.max v l) = foldr Z.max (if v <? x then x else v) l) as Hmax.
  { intros x l. induction l as [|y l IHl]; cbn; [destruct (Z.ltb_spec v x); lia|]. rewrite <-IHl. lia. }
  unfold placed, maxVersion. cbn [fold_result existsb List.filter map]. unfold matchStep at 1, selected at 1 3 6.
  destruct (rule_Enabled r); cbn [negb andb]; [|apply IH].
  destruct (ruleMatchesNode r nodeID groups); cbn [andb]; [|apply IH].
  rewrite supported_spec. destruct (untyped r); cbn [orb mbind result_bind]; [done|].
  cbn [map foldr]. rewrite Hmax.
  destruct (executable r); cbn [flat_map]; rewrite IH; unfold placed, maxVersion; destruct (existsb _ rules); try done.
  by rewrite <-app_assoc.
Qed.

Lemma matchingEnabledRules_spec nodeID groups rules :
  matchingEnabledRules nodeID groups rules =
  if existsb (λ r, selected nodeID (list_to_set groups) r && untyped r) rules then Err ErrInvalidInput
  else Ok (sort_stable ruleLess (placed nodeID (list_to_set groups) rules),
           maxVersion nodeID (list_to_set groups) rules 0).
Proof. unfold matchingEnabledRules. rewrite match_loop. by destruct (existsb _ _). Qed.

(** ** Older agents *)

Definition needs_sendIP (r : RuleConfig) : bool := negb (String.eqb (TrimSpace (rule_SendIP r)) "").
Definition has_runtimeID (r : RuleConfig) : bool := negb (String.eqb (TrimSpace (rule_RuntimeID r)) "").
Definition managed_preference (r : RuleConfig) : bool :=
  bool_decide (defaultDataplanePreference (rule_Dataplane r) ∈ [DataplanePreferenceHAProxy; DataplanePreferenceNFTables]).
Definition managed_mode (mode : string) : bool :=
  bool_decide (defaultNodeDataplaneMode mode ∈ [NodeDataplaneModeHAProxy; NodeDataplaneModeNFTables]).
Definition least_load (r : RuleConfig) : bool :=
  String.eqb (up_Type (rule_Upstream r)) "TARGET_GROUP"
  && String.eqb (normalizeTargetGroupScheduler (up_Scheduler (rule_Upstream r))) targetGroupSchedulerLeastLoad.

Lemma eqb_or_elem s a b : String.eqb s a || String.eqb s b = bool_decide (s ∈ [a; b]).
Proof.
  destruct (String.eqb_spec s a) as [->|]; [by rewrite bool_decide_true by set_solver|].
  destruct (String.eqb_spec s b) as [->|]; [by rewrite bool_decide_true by set_solver|].
  cbn. symmetry. apply bool_decide_eq_false. set_solver.
Qed.

Lemma native_compatible_eq mode rules :
  nativeCompatibleRulesForLegacyAgent mode rules =
  if managed_mode mode then []
  else map rule_without_dataplane (List.filter (λ r, negb (needs_sendIP r || managed_preference r)) rules).
Proof.
  unfold nativeCompatibleRulesForLegacyAgent. rewrite eqb_or_elem. fold (managed_mode mode).
  destruct (managed_mode mode); [done|].
  rewrite <-(app_nil_l (map _ _)), <-foldl_skip. apply foldl_step_ext; intros acc r.
  rewrite eqb_or_elem. unfold needs_sendIP, managed_preference.
  change NodeDataplaneModeHAProxy with DataplanePreferenceHAProxy.
  change NodeDataplaneModeNFTables with DataplanePreferenceNFTables.
  by destruct (negb _), (bool_decide _).
Qed.

Lemma protocol22_eq rules :
  protocol22CompatibleRulesForAgent rules
  = List.filter (λ r, negb (needs_sendIP r || has_runtimeID r)) rules.
Proof.
  rewrite <-(app_nil_l (List.filter _ _)), <-(map_id (List.filter _ _)), <-foldl_skip.
  apply foldl_step_ext; intros acc r. unfold needs_sendIP, has_runtimeID.
  by destruct (negb _), (negb _).
Qed.

Lemma protocol23_eq rules :
  protocol23CompatibleRulesForAgent rules = List.filter (λ r, negb (least_load r)) rules.
Proof. rewrite <-(app_nil_l (List.filter _ _)), <-(map_id (List.filter _ _)), <-foldl_skip. done. Qed.

(** The agent of this version understands the rule. *)
Definition understood (version : ProtocolVersion) (mode : string) (r : RuleConfig) : bool :=
  (agentSupportsManagedDataplane version || negb (managed_mode mode || needs_sendIP r || managed_preference r))
  && (agentSupportsSendIP version || negb (needs_sendIP r || has_runtimeID r))
  && (agentSupportsLeastLoadTargetGroups version || negb (least_load r)).
Definition reduced (version : ProtocolVersion) (r : RuleConfig) : RuleConfig :=
  if agentSupportsManagedDataplane version then r else rule_without_dataplane r.

Lemma filterb_filterb {A} (f g : A → bool) l :
  List.filter f (List.filter g l) = List.filter (λ x, g x && f x) l.
Proof. induction l as [|x l IH]; cbn; [done|]. destruct (g x); cbn; [|done]. by destruct (f x); rewrite IH. Qed.
Lemma filterb_map {A B} (f : B → bool) (g : A → B) l :
  List.filter f (map g l) = map g (List.filter (λ x, f (g x)) l).
Proof. induction l as [|x l IH]; cbn; [done|]. destruct (f (g x)); cbn; by rewrite IH. Qed.

Lemma reductions_eq version mode rules :
  let rules1 := if agentSupportsManagedDataplane version then rules
                else nativeCompatibleRulesForLegacyAgent mode rules in
  let rules2 := if agentSupportsSendIP version then rules1 else protocol22CompatibleRulesForAgent rules1 in
  (if agentSupportsLeastLoadTargetGroups version then rules2 else protocol23CompatibleRulesForAgent rules2)
  = map (reduced version) (List.filter (understood version mode) rules).
Proof.
  cbv zeta. rewrite native_compatible_eq, protocol22_eq, protocol23_eq. unfold understood, reduced.
  destruct (agentSupportsManagedDataplane version); cbn [orb negb andb].
  - rewrite map_id.
    destruct (agentSupportsSendIP version), (agentSupportsLeastLoadTargetGroups version);
      cbn [orb andb]; rewrite ?filterb_filterb, ?filterb_all by done; try done.
    apply filter_ext. intros r. by rewrite andb_true_r.
  - destruct (managed_mode mode); cbn [orb negb andb].
    { rewrite (filterb_none (λ _, false)) by done.
      by destruct (agentSupportsSendIP version), (agentSupportsLeastLoadTargetGroups version). }
    destruct (agentSupportsSendIP version), (agentSupportsLeastLoadTargetGroups version);
      cbn [orb andb]; rewrite ?filterb_map, ?filterb_filterb; f_equal; apply filter_ext; intros r;
      cbn; rewrite ?andb_true_r, ?andb_assoc; done.
Qed.

(** The compiled configuration in closed form. *)
Definition agentVersion (input : AgentConfigInput) : ProtocolVersion :=
  if in_AgentProtocolKnown input then in_AgentProtocolVersion input else {| Major := 0; Minor := 0 |}.
Definition groupSet (input : AgentConfigInput) : gset string := list_to_set (in_NodeGroups input).

Definition compiledSnapshot (input : AgentConfigInput) : ConfigSnapshot :=
  let version := agentVersion input in
  let managed := agentSupportsManagedDataplane version in
  with_hash {| snap_AgentProtocolVersion := CurrentProtocolVersion; snap_NodeID := in_NodeID input;
    snap_ConfigVersion := maxVersion (in_NodeID input) (groupSet input) (in_Rules input) 0;
    snap_ConfigHash := "";
    snap_DataplaneMode := if managed then defaultNodeDataplaneMode (in_DataplaneMode input)
                          else NodeDataplaneModeNative;
    snap_DataplaneInstanceID := if managed then TrimSpace (in_DataplaneInstanceID input) else "";
    snap_ConflictPolicy := if managed then NodeDataplaneConflictPolicyFailFast else "";
    snap_Rules := map (reduced version) (List.filter (understood version (in_DataplaneMode input))
      (sort_stable ruleLess (placed (in_NodeID input) (groupSet input) (in_Rules input)))) |}.

Lemma Compile_eq input :
  Compile input =
  if existsb (λ r, selected (in_NodeID input) (groupSet input) r && untyped r) (in_Rules input)
  then Err ErrInvalidInput else Ok (compiledSnapshot input).
Proof.
  unfold Compile, compiledSnapshot, groupSet. rewrite matchingEnabledRules_spec.
  destruct (existsb _ _); [done|]. cbn [mbind result_bind]. f_equal.
  fold (agentVersion input). rewrite <-reductions_eq. cbv zeta. do 2 f_equal.
  unfold defaultNodeDataplaneConflictPolicy. by destruct (String.eqb _ _).
Qed.

(** ** The orders *)

#[local] Instance ruleLess_strict_weak : StrictWeak ruleLess.
Proof. apply (lex_strict_weak rule_ID (λ x y, rule_Port x <? rule_Port y)). Qed.
#[local] Instance targetLess_strict_weak : StrictWeak targetLess.
Proof. apply (key_fun_strict_weak target_ID). Qed.

Definition head_id (b : TargetPriorityBucket) : option string := target_ID <$> head (bucket_Targets b).
Definition head_ltb (a b : option string) : bool :=
  match a, b with Some s, Some t => String.ltb s t | None, Some _ => true | _, None => false end.

Lemma bucketLess_lex x y :
  bucketLess x y = lex_less bucket_Priority Z.eqb Z.ltb (λ x y, head_ltb (head_id x) (head_id y)) x y.
Proof.
  unfold bucketLess, lex_less, head_id. destruct (_ =? _); [|done].
  by destruct (bucket_Targets x), (bucket_Targets y).
Qed.

Lemma head_ltb_strict_weak : StrictWeak (λ x y, head_ltb (head_id x) (head_id y)).
Proof.
  constructor; unfold not_after.
  - intros x y. destruct (head_id x), (head_id y); cbn; try done. apply key_asym.
  - intros x y z. destruct (head_id x), (head_id y), (head_id z); cbn; try done.
    apply (not_after_trans String.ltb).
Qed.

#[local] Instance bucketLess_strict_weak : StrictWeak bucketLess.
Proof.
  pose proof (@lex_strict_weak _ Z.eqb Z.ltb _ _ bucket_Priority _ head_ltb_strict_weak) as [Ha Ht].
  constructor; unfold not_after in *.
  - intros x y. rewrite !bucketLess_lex. apply Ha.
  - intros x y z. rewrite !bucketLess_lex. apply Ht.
Qed.

Lemma head_id_total x y :
  head_ltb (head_id x) (head_id y) = false → head_ltb (head_id y) (head_id x) = false → head_id x = head_id y.
Proof. destruct (head_id x), (head_id y); cbn; try done. intros. f_equal. by apply str_ltb_total. Qed.

(** ** Rules that mean the same *)

Definition bucket_equiv (b c : TargetPriorityBucket) : Prop :=
  bucket_Priority b = bucket_Priority c ∧ bucket_Targets b ≡ₚ bucket_Targets c.

(** The same upstream with buckets and targets in another order. *)
Definition upstream_equiv (u v : RuleUpstreamConfig) : Prop :=
  up_Type u = up_Type v ∧ up_Target u = up_Target v ∧ up_Scheduler u = up_Scheduler v ∧
  ∃ m, up_TargetGroup u ≡ₚ m ∧ Forall2 bucket_equiv m (up_TargetGroup v).

(** The same rule with nodes, node groups and targets in another order. *)
Definition rule_equiv (r s : RuleConfig) : Prop :=
  rule_ID r = rule_ID s ∧ rule_RuntimeID r = rule_RuntimeID s ∧ rule_ConfigVersion r = rule_ConfigVersion s ∧
  rule_Enabled r = rule_Enabled s ∧ rule_Dataplane r = rule_Dataplane s ∧
  rule_ForwardingType r = rule_ForwardingType s ∧ rule_Protocol r = rule_Protocol s ∧
  rule_NodeIDs r ≡ₚ rule_NodeIDs s ∧ rule_NodeGroupIDs r ≡ₚ rule_NodeGroupIDs s ∧
  rule_ListenIP r = rule_ListenIP s ∧ rule_Port r = rule_Port s ∧ rule_PortSegments r = rule_PortSegments s ∧
  rule_SendIP r = rule_SendIP s ∧ rule_MatchType r = rule_MatchType s ∧
  rule_SNIHostname r = rule_SNIHostname s ∧ rule_ProxyProtocolIn r = rule_ProxyProtocolIn s ∧
  rule_ProxyProtocolOut r = rule_ProxyProtocolOut s ∧ upstream_equiv (rule_Upstream r) (rule_Upstream s).

Definition distinct_targets (u : RuleUpstreamConfig) : Prop :=
  NoDup (map target_ID (flat_map bucket_Targets (up_TargetGroup u))).

Lemma sort_strings_perm l k : l ≡ₚ k → sort_stable String.ltb l = sort_stable String.ltb k.
Proof. apply sort_unique; [apply _|]. intros. by apply str_ltb_total. Qed.

Lemma targets_sort_eq l k : NoDup (map target_ID l) → l ≡ₚ k → sort_stable targetLess l = sort_stable targetLess k.
Proof.
  intros Hl. apply sort_unique; [apply _|]. unfold targetLess. intros x y Hx Hy H1 H2.
  apply (NoDup_key_inj target_ID l); [done..|]. by apply str_ltb_total.
Qed.

Lemma normalizedBucket_eq b c :
  NoDup (map target_ID (bucket_Targets b)) → bucket_equiv b c → normalizedBucket b = normalizedBucket c.
Proof. intros Hb [Hp Ht]. unfold normalizedBucket. by rewrite Hp, (targets_sort_eq _ _ Hb Ht). Qed.

(** Distinct target identifiers tell the buckets of a group apart. *)
Lemma distinct_buckets (g : list TargetPriorityBucket) b c t u :
  NoDup (map target_ID (flat_map bucket_Targets g)) → b ∈ g → c ∈ g →
  t ∈ bucket_Targets b → u ∈ bucket_Targets c → target_ID t = target_ID u → b = c.
Proof.
  induction g as [|d g IH]; [by intros _ ?%not_elem_of_nil|]. cbn. rewrite map_app.
  intros (_ & Hdg & Hg)%NoDup_app Hb Hc Ht Hu E.
  assert (∀ e v w, e ∈ g → v ∈ bucket_Targets e → w ∈ bucket_Targets d → target_ID v ≠ target_ID w) as Hne.
  { intros e v w He Hv Hw Evw. apply (Hdg (target_ID w)); [apply elem_of_map; by exists w|].
    rewrite <-Evw. apply elem_of_map. exists v. split; [done|]. apply elem_of_flat_map. by exists e. }
  apply elem_of_cons in Hb as [->|Hb], Hc as [->|Hc]; [done|..|by apply IH].
  - by destruct (Hne c u t).
  - by destruct (Hne b t u).
Qed.

Lemma distinct_bucket g b :
  NoDup (map target_ID (flat_map bucket_Targets g)) → b ∈ g → NoDup (map target_ID (bucket_Targets b)).
Proof.
  intros Hg (l1 & l2 & ->)%list_elem_of_split. rewrite flat_map_app, map_app in Hg. cbn in Hg.
  rewrite map_app in Hg. apply NoDup_app in Hg as (_ & _ & Hg). by apply NoDup_app in Hg as (? & _ & _).
Qed.

Lemma normalized_buckets_total g x y :
  NoDup (map target_ID (flat_map bucket_Targets g)) →
  x ∈ map normalizedBucket g → y ∈ map normalizedBucket g →
  bucketLess x y = false → bucketLess y x = false → x = y.
Proof.
  intros Hg (b & -> & Hb)%elem_of_map (c & -> & Hc)%elem_of_map. rewrite !bucketLess_lex. unfold lex_less.
  cbn [normalizedBucket bucket_Priority].
  destruct (Z.eqb_spec (bucket_Priority b) (bucket_Priority c)) as [E|Hne];
    destruct (Z.eqb_spec (bucket_Priority c) (bucket_Priority b)); try lia.
  intros H1 H2. pose proof (head_id_total _ _ H1 H2) as Hh. unfold head_id in Hh. cbn in Hh.
  assert (∀ l, head (sort_stable targetLess l) = None → l = []) as Hnil.
  { intros l Hl. apply length_zero_iff_nil. rewrite <-(sort_length targetLess).
    by destruct (sort_stable targetLess l). }
  assert (∀ l t, head (sort_stable targetLess l) = Some t → t ∈ l) as Hin.
  { intros l t Hl. apply (elem_of_sort targetLess). destruct (sort_stable targetLess l); [done|].
    injection Hl as ->. apply list_elem_of_here. }
  destruct (head (sort_stable targetLess (bucket_Targets b))) as [t|] eqn:Et,
    (head (sort_stable targetLess (bucket_Targets c))) as [u|] eqn:Eu; try done.
  - injection Hh as Hid. f_equal. apply (distinct_buckets g b c t u); auto.
  - unfold normalizedBucket. by rewrite E, (Hnil _ Et), (Hnil _ Eu).
Qed.

Lemma normalizedUpstream_eq u v :
  distinct_targets u → upstream_equiv u v → normalizedUpstream u = normalizedUpstream v.
Proof.
  intros Hd (Ht & Htg & Hs & m & Hp & Hm). unfold normalizedUpstream. rewrite Ht, Htg, Hs. f_equal.
  unfold distinct_targets in Hd.
  assert (map normalizedBucket m = map normalizedBucket (up_TargetGroup v)) as <-.
  { assert (NoDup (map target_ID (flat_map bucket_Targets m))) as Hdm.
    { pose proof (Permutation_map target_ID (flat_map_perm bucket_Targets _ _ Hp)) as Hperm. by rewrite <-Hperm. }
    assert (∀ b, b ∈ m → NoDup (map target_ID (bucket_Targets b))) as Hb by (intros b; by apply distinct_bucket).
    clear Hdm Hp. induction Hm as [|b c m k Hbc _ IH]; cbn; [done|]. f_equal.
    - apply normalizedBucket_eq; [|done]. apply Hb, list_elem_of_here.
    - apply IH. intros d Hin. by apply Hb, list_elem_of_further. }
  apply sort_unique; [apply _| |by apply Permutation_map].
  intros x y. by apply normalized_buckets_total.
Qed.

Lemma normalizedRule_eq r s :
  distinct_targets (rule_Upstream r) → rule_equiv r s → normalizedRule r = normalizedRule s.
Proof.
  intros Hd (E1 & E2 & E3 & E4 & E5 & E6 & E7 & E8 & E9 & E10 & E11 & E12 & E13 & E14 & E15 & E16 & E17 & E18).
  unfold normalizedRule. rewrite E1, E2, E3, E4, E5, E6, E7, E10, E11, E12, E13, E14, E15, E16, E17.
  by rewrite (sort_strings_perm _ _ E8), (sort_strings_perm _ _ E9), (normalizedUpstream_eq _ _ Hd E18).
Qed.

(** ** Expansion *)

Lemma expand_eq r :
  expandRulePortSegments r =
  match flat_map segmentPorts (rule_PortSegments r) with
  | [] => [rule_unsegmented r]
  | ports => map (λ port, rule_with_port r (runtimeRuleID r port) port) ports
  end.
Proof.
  unfold expandRulePortSegments. destruct (rule_PortSegments r) as [|s l] eqn:E.
  - unfold rule_unsegmented, rule_with_port. cbn. rewrite <-E. by destruct r.
  - assert (∀ k : list PortSegmentConfig,
      flat_map (λ segment, map (λ port, rule_with_port r (runtimeRuleID r port) port) (segmentPorts segment)) k
      = map (λ port, rule_with_port r (runtimeRuleID r port) port) (flat_map segmentPorts k)) as ->.
    { induction k as [|x k IH]; cbn; [done|]. by rewrite map_app, IH. }
    by destruct (flat_map segmentPorts (s :: l)).
Qed.

(** An expanded rule is the rule on one port. *)
Lemma expand_elem r x :
  x ∈ expandRulePortSegments r → x = rule_with_port r (rule_RuntimeID x) (rule_Port x).
Proof.
  rewrite expand_eq. destruct (flat_map _ _).
  - by intros ->%list_elem_of_singleton.
  - by intros (q & -> & _)%elem_of_map.
Qed.

Lemma expand_inj r x y :
  x ∈ expandRulePortSegments r → y ∈ expandRulePortSegments r → rule_Port x = rule_Port y → x = y.
Proof.
  rewrite expand_eq. destruct (flat_map _ _).
  - by intros ->%list_elem_of_singleton ->%list_elem_of_singleton.
  - intros (q & -> & _)%elem_of_map (q' & -> & _)%elem_of_map. cbn. by intros ->.
Qed.

(** ** Order independence *)

Lemma selected_equiv nodeID groups r s : rule_equiv r s → selected nodeID groups r = selected nodeID groups s.
Proof.
  intros (_ & _ & _ & E4 & _ & _ & _ & E8 & E9 & _). unfold selected, ruleMatchesNode, ruleMatchesAnyNodeGroup.
  by rewrite E4, (existsb_perm _ _ _ E8), (existsb_perm _ _ _ E9).
Qed.
Lemma untyped_equiv r s : rule_equiv r s → untyped r = untyped s.
Proof. intros (_&_&_&_&_&E6&_&_&_&_&_&_&_&E14&_). unfold untyped, direct. by rewrite E6, E14. Qed.
Lemma executable_equiv r s : rule_equiv r s → executable r = executable s.
Proof. intros (_&_&_&_&_&E6&_&_&_&_&_&_&_&E14&_). unfold executable, direct. by rewrite E6, E14. Qed.

(** The rules of one list are those of the other in another order, each up
    to [rule_equiv]. *)
Definition rules_equiv (l k : list RuleConfig) : Prop := ∃ m, l ≡ₚ m ∧ Forall2 rule_equiv m k.

Lemma placed_perm nodeID groups l k :
  Forall (λ r, distinct_targets (rule_Upstream r)) l → rules_equiv l k →
  placed nodeID groups l ≡ₚ placed nodeID groups k.
Proof.
  intros Hd (m & Hp & Hm). unfold placed. etrans; [by apply flat_map_perm, filterb_perm|].
  rewrite Hp in Hd. clear Hp. induction Hm as [|r s m k Hrs _ IH]; [done|]. cbn.
  apply Forall_cons in Hd as [Hr Hd]. rewrite (selected_equiv _ _ _ _ Hrs), (executable_equiv _ _ Hrs).
  destruct (_ && _); cbn; rewrite (IH Hd); [|done]. by rewrite (normalizedRule_eq _ _ Hr Hrs).
Qed.

Lemma foldr_max_perm v (l k : list Z) : l ≡ₚ k → foldr Z.max v l = foldr Z.max v k.
Proof. induction 1; cbn; lia. Qed.

Lemma maxVersion_equiv nodeID groups l k v :
  rules_equiv l k → maxVersion nodeID groups l v = maxVersion nodeID groups k v.
Proof.
  intros (m & Hp & Hm). unfold maxVersion.
  rewrite (foldr_max_perm v _ _ (Permutation_map rule_ConfigVersion (filterb_perm (selected nodeID groups) _ _ Hp))).
  clear Hp. induction Hm as [|r s m k Hrs _ IH]; [done|]. cbn. rewrite (selected_equiv _ _ _ _ Hrs).
  destruct Hrs as (_ & _ & E3 & _). destruct (selected _ _ s); cbn; by rewrite ?E3, ?IH.
Qed.

Lemma untyped_exists_equiv nodeID groups l k :
  rules_equiv l k →
  existsb (λ r, selected nodeID groups r && untyped r) l = existsb (λ r, selected nodeID groups r && untyped r) k.
Proof.
  intros (m & Hp & Hm). rewrite (existsb_perm _ _ _ Hp). clear Hp.
  induction Hm as [|r s m k Hrs _ IH]; [done|]. cbn.
  by rewrite (selected_equiv _ _ _ _ Hrs), (untyped_equiv _ _ Hrs), IH.
Qed.

(** With distinct rule identifiers the order of the placed rules is total. *)
Lemma placed_total nodeID groups l x y :
  NoDup (map rule_ID l) → x ∈ placed nodeID groups l → y ∈ placed nodeID groups l →
  ruleLess x y = false → ruleLess y x = false → x = y.
Proof.
  intros Hd (r & [Hr _]%elem_of_filterb & Hx)%elem_of_flat_map (s & [Hs _]%elem_of_filterb & Hy)%elem_of_flat_map.
  pose proof (expand_elem _ _ Hx) as Ex. pose proof (expand_elem _ _ Hy) as Ey.
  assert (rule_ID x = rule_ID r ∧ rule_ID y = rule_ID s) as [Hxr Hys] by (by rewrite Ex, Ey).
  unfold ruleLess, lex_less. rewrite Hxr, Hys.
  destruct (String.eqb_spec (rule_ID r) (rule_ID s)) as [E|Hne];
    destruct (String.eqb_spec (rule_ID s) (rule_ID r)); try congruence.
  - intros H1 H2. pose proof (NoDup_key_inj rule_ID l r s Hd Hr Hs E) as ->.
    apply (expand_inj (normalizedRule s)); [done..|lia].
  - intros H1 H2. destruct Hne. by apply str_ltb_total.
Qed.

(** The input with its rules and groups replaced. *)
Definition with_rules (input : AgentConfigInput) (groups : list string) (rules : list RuleConfig) : AgentConfigInput := {|
  in_NodeID := in_NodeID input; in_NodeGroups := groups;
  in_AgentProtocolVersion := in_AgentProtocolVersion input; in_AgentProtocolKnown := in_AgentProtocolKnown input;
  in_DataplaneMode := in_DataplaneMode input; in_DataplaneInstanceID := in_DataplaneInstanceID input;
  in_DataplaneConflictPolicy := in_DataplaneConflictPolicy input; in_Rules := rules |}.

(** ** Ports of a rule *)

Definition seg_in_range (s : PortSegmentConfig) : Prop := 1 ≤ seg_StartPort s ≤ seg_EndPort s ∧ seg_EndPort s ≤ 65535.

Lemma segmentPorts_range s :
  seg_in_range s → segmentPorts s = seqZ (seg_StartPort s) (seg_EndPort s - seg_StartPort s + 1).
Proof.
  intros Hs. unfold segmentPorts, seg_in_range in *. destruct (_ || _) eqn:E; [lia|].
  by destruct (Z.ltb_spec (seg_EndPort s) (seg_StartPort s)); [lia|].
Qed.

Lemma elem_of_segmentPorts s p : seg_in_range s → p ∈ segmentPorts s ↔ seg_StartPort s ≤ p ≤ seg_EndPort s.
Proof. intros Hs. rewrite (segmentPorts_range _ Hs), elem_of_seqZ. lia. Qed.

Lemma append_inj_r (a b c : string) : (a ++ b = a ++ c)%string → b = c.
Proof. induction a as [|x a IH]; cbn; [done|]. intros [= E]. auto. Qed.

Lemma Itoa_inj p q : 1 ≤ p ≤ 65535 → 1 ≤ q ≤ 65535 → Itoa p = Itoa q → p = q.
Proof.
  intros Hp Hq E. pose proof (Atoi_Itoa p) as H1. pose proof (Atoi_Itoa q) as H2. unfold min_int64, max_int64 in *.
  rewrite E in H1. rewrite H1 in H2 by lia. injection H2; lia.
Qed.

(** Runtime identifiers tell the ports of a rule apart. *)
Lemma runtimeRuleID_inj r p q :
  Forall seg_in_range (rule_PortSegments r) →
  p ∈ flat_map segmentPorts (rule_PortSegments r) → q ∈ flat_map segmentPorts (rule_PortSegments r) →
  runtimeRuleID r p = runtimeRuleID r q → p = q.
Proof.
  intros Hall (s & Hs & Hp)%elem_of_flat_map (t & Ht & Hq)%elem_of_flat_map.
  pose proof (proj1 (Forall_forall _ _) Hall s Hs) as Hsr. pose proof (proj1 (Forall_forall _ _) Hall t Ht) as Htr.
  apply (elem_of_segmentPorts _ _ Hsr) in Hp. apply (elem_of_segmentPorts _ _ Htr) in Hq. unfold seg_in_range in *.
  assert ((TrimSpace (rule_ID r) ++ "-p" ++ Itoa p = TrimSpace (rule_ID r) ++ "-p" ++ Itoa q)%string → p = q) as Hid.
  { intros E%append_inj_r%(append_inj_r "-p"). apply Itoa_inj; [lia..|done]. }
  unfold runtimeRuleID. destruct (rule_PortSegments r) as [|u [|u' l]]; [done| |done].
  apply list_elem_of_singleton in Hs as ->. apply list_elem_of_singleton in Ht as ->.
  destruct (Z.eqb_spec (seg_StartPort u) p), (Z.eqb_spec (seg_EndPort u) p);
    destruct (Z.eqb_spec (seg_StartPort u) q), (Z.eqb_spec (seg_EndPort u) q); cbn [andb]; lia || done.
Qed.

(** ** Properties *)

(** The rules that the agent of [input] receives, before they are sorted. *)
Definition deployedRules (input : AgentConfigInput) : list RuleConfig :=
  map (reduced (agentVersion input)) (List.filter (understood (agentVersion input) (in_DataplaneMode input))
    (placed (in_NodeID input) (groupSet input) (in_Rules input))).

Lemma reduced_sorted version l :
  StronglySorted (not_after ruleLess) l → StronglySorted (not_after ruleLess) (map (reduced version) l).
Proof.
  apply StronglySorted_fmap. intros x y. unfold reduced. by destruct (agentSupportsManagedDataplane version).
Qed.

Lemma maxVersion_spec nodeID groups rules :
  let v := maxVersion nodeID groups rules 0 in
  0 ≤ v ∧ (∀ r, r ∈ rules → selected nodeID groups r = true → rule_ConfigVersion r ≤ v) ∧
  (v = 0 ∨ ∃ r, r ∈ rules ∧ selected nodeID groups r = true ∧ rule_ConfigVersion r = v).
Proof.
  cbv zeta. unfold maxVersion. induction rules as [|r rules IH]; cbn.
  { split; [done|]. split; [|by left]. by intros ? ?%not_elem_of_nil. }
  destruct IH as (H0 & Hle & Hat). destruct (selected nodeID groups r) eqn:E; cbn.
  - split; [lia|]. split.
    + intros s [->|Hs]%elem_of_cons Es; [lia|]. specialize (Hle s Hs Es). lia.
    + destruct (Z.max_spec (rule_ConfigVersion r) (foldr Z.max 0 (map rule_ConfigVersion
        (List.filter (selected nodeID groups) rules)))) as [[_ ->]|[_ ->]]; [|by right; exists r; set_solver].
      destruct Hat as [?|(s & Hs & Es)]; [by left|right; exists s; split; [by apply list_elem_of_further|done]].
  - split; [done|]. split.
    + intros s [->|Hs]%elem_of_cons Es; [congruence|]. by apply Hle.
    + destruct Hat as [?|(s & Hs & Es)]; [by left|right; exists s; split; [by apply list_elem_of_further|done]].
Qed.

(** C19. Compilation fails, with ErrInvalidInput, exactly when an enabled direct rule of the node has no match
    type.  Otherwise the configuration holds the expanded, normalised rules of the node that the agent
    understands, each as often as it was expanded, sorted by identifier and port; its version is the greatest
    version of the enabled rules of the node (0 without any), also of those that are not deployed; and its hash
    is that of the content it carries. *)
Theorem Compile_spec input :
  match Compile input with
  | Err e => e = ErrInvalidInput ∧
      ∃ r, r ∈ in_Rules input ∧ selected (in_NodeID input) (groupSet input) r = true ∧ untyped r = true
  | Ok c =>
      (∀ r, r ∈ in_Rules input → selected (in_NodeID input) (groupSet input) r = true → untyped r = false) ∧
      snap_Rules c ≡ₚ deployedRules input ∧
      StronglySorted (not_after ruleLess) (snap_Rules c) ∧
      0 ≤ snap_ConfigVersion c ∧
      (∀ r, r ∈ in_Rules input → selected (in_NodeID input) (groupSet input) r = true →
        rule_ConfigVersion r ≤ snap_ConfigVersion c) ∧
      (snap_ConfigVersion c = 0 ∨ ∃ r, r ∈ in_Rules input ∧
        selected (in_NodeID input) (groupSet input) r = true ∧ rule_ConfigVersion r = snap_ConfigVersion c) ∧
      snap_NodeID c = in_NodeID input ∧ snap_ConfigHash c = configHash c
  end.
Proof.
  rewrite Compile_eq. destruct (existsb _ _) eqn:E.
  - apply existsb_elem_of in E as (r & Hr & E). bool_hyps. split; [done|]. by exists r.
  - split.
    { intros r Hr Hs. pose proof (proj1 (existsb_false _ _) E r Hr) as Hf. cbn in Hf. by rewrite Hs in Hf. }
    split. { unfold deployedRules. cbn. by apply Permutation_map, filterb_perm, sort_perm. }
    split. { apply reduced_sorted, StronglySorted_filterb, sort_sorted, _. }
    destruct (maxVersion_spec (in_NodeID input) (groupSet input) (in_Rules input)) as (H0 & Hle & Hat). done.
Qed.

(** C37. An agent is never sent what its protocol version does not know: rules with a send address or a runtime
    identifier before 2.2, least-load groups before 2.3, and before 2.1 any managed data plane, be it as the
    mode of the node or as the preference of a rule.  An agent of unknown version counts as the oldest. *)
Theorem Compile_agent_safe input c r :
  Compile input = Ok c → r ∈ snap_Rules c →
  (agentSupportsSendIP (agentVersion input) = false →
    TrimSpace (rule_SendIP r) = "" ∧ TrimSpace (rule_RuntimeID r) = "") ∧
  (agentSupportsLeastLoadTargetGroups (agentVersion input) = false →
    up_Type (rule_Upstream r) = "TARGET_GROUP" →
    normalizeTargetGroupScheduler (up_Scheduler (rule_Upstream r)) ≠ targetGroupSchedulerLeastLoad) ∧
  (agentSupportsManagedDataplane (agentVersion input) = false →
    snap_DataplaneMode c = NodeDataplaneModeNative ∧ snap_DataplaneInstanceID c = "" ∧ snap_ConflictPolicy c = "" ∧
    rule_Dataplane r = "" ∧
    defaultNodeDataplaneMode (in_DataplaneMode input) ∉ [NodeDataplaneModeHAProxy; NodeDataplaneModeNFTables]).
Proof.
  rewrite Compile_eq. destruct (existsb _ _); [done|]. intros [= <-].
  cbn [compiledSnapshot with_hash snap_Rules snap_DataplaneMode snap_DataplaneInstanceID snap_ConflictPolicy].
  intros (s & -> & [_ Hu]%elem_of_filterb)%elem_of_map. unfold understood in Hu.
  assert (rule_SendIP (reduced (agentVersion input) s) = rule_SendIP s
    ∧ rule_RuntimeID (reduced (agentVersion input) s) = rule_RuntimeID s
    ∧ rule_Upstream (reduced (agentVersion input) s) = rule_Upstream s) as (-> & -> & ->)
    by (unfold reduced; by destruct (agentSupportsManagedDataplane _)).
  unfold needs_sendIP, has_runtimeID, least_load, managed_mode in Hu. unfold reduced.
  split; [|split].
  - intros E. rewrite E in Hu. cbn [orb] in Hu. bool_hyps. done.
  - intros E Et Es. rewrite E, Et, Es in Hu. by rewrite andb_comm in Hu.
  - intros E. rewrite E in *. cbn [orb] in Hu. split_and!; try done.
    destruct (bool_decide _) eqn:Em in Hu; [by rewrite !andb_false_l in Hu|]. by apply bool_decide_eq_false in Em.
Qed.

(** C21. The configuration, and with it the hash by which agents recognise a change, does not depend on the order
    in which the database lists the rules, their nodes and node groups, the priority buckets of their target
    groups and the targets of a bucket. *)
Theorem Compile_order_independent input groups rules :
  NoDup (map rule_ID (in_Rules input)) →
  Forall (λ r, distinct_targets (rule_Upstream r)) (in_Rules input) →
  rules_equiv (in_Rules input) rules → in_NodeGroups input ≡ₚ groups →
  Compile (with_rules input groups rules) = Compile input.
Proof.
  intros Hids Htargets Heq Hgroups. rewrite !Compile_eq. unfold compiledSnapshot.
  cbn [with_rules in_NodeID in_Rules in_DataplaneMode in_DataplaneInstanceID].
  assert (groupSet (with_rules input groups rules) = groupSet input) as ->.
  { unfold groupSet. cbn. apply set_eq. intros x. rewrite !elem_of_list_to_set. by rewrite Hgroups. }
  change (agentVersion (with_rules input groups rules)) with (agentVersion input).
  rewrite <-(untyped_exists_equiv _ _ _ _ Heq), <-(maxVersion_equiv _ _ _ _ _ Heq).
  destruct (existsb _ _); [done|]. do 5 f_equal. symmetry. apply sort_unique; [apply _| |].
  - intros x y. by apply placed_total.
  - by apply placed_perm.
Qed.

(** A rule with valid port segments is expanded to one single-port rule for every port of its segments, in
    order, which is otherwise the rule itself; when the segments are disjoint, each port is served by one
    expanded rule and the runtime identifiers are distinct. *)
Theorem expandRulePortSegments_spec r :
  rule_PortSegments r ≠ [] → Forall seg_in_range (rule_PortSegments r) →
  let ports := flat_map (λ s, seqZ (seg_StartPort s) (seg_EndPort s - seg_StartPort s + 1)) (rule_PortSegments r) in
  map rule_Port (expandRulePortSegments r) = ports ∧
  (∀ x, x ∈ expandRulePortSegments r → x = rule_with_port r (rule_RuntimeID x) (rule_Port x)) ∧
  (NoDup ports → NoDup (map rule_RuntimeID (expandRulePortSegments r))).
Proof.
  intros Hne Hall. cbv zeta.
  assert (flat_map segmentPorts (rule_PortSegments r)
    = flat_map (λ s, seqZ (seg_StartPort s) (seg_EndPort s - seg_StartPort s + 1)) (rule_PortSegments r)) as Hports.
  { clear Hne. induction Hall as [|s l Hs _ IH]; cbn; [done|]. by rewrite IH, (segmentPorts_range _ Hs). }
  assert (expandRulePortSegments r
    = map (λ port, rule_with_port r (runtimeRuleID r port) port) (flat_map segmentPorts (rule_PortSegments r))) as ->.
  { rewrite expand_eq. destruct (rule_PortSegments r) as [|s l]; [done|]. apply Forall_cons in Hall as [Hs _].
    cbn [flat_map]. rewrite (segmentPorts_range _ Hs). unfold seg_in_range in Hs.
    by rewrite (seqZ_cons (seg_StartPort s)) by lia. }
  rewrite <-Hports, !map_map. split; [by rewrite map_id|]. split.
  - by intros x (p & -> & _)%elem_of_map.
  - intros Hnd. apply (NoDup_fmap_2_strong (runtimeRuleID r)); [|done].
    intros p q Hp Hq. by apply runtimeRuleID_inj.
Qed.
End compiler.

(** ** Examples *)

#[local] Instance example_tables : UnicodeTables := ascii_tables.
Definition example_digest (h : hashInput) : string := Join (map rule_ID (hash_Rules h)) ",".

Definition example_group (targets : list TargetEndpoint) : RuleUpstreamConfig := {|
  up_Type := "TARGET_GROUP"; up_Target := None; up_Scheduler := " least_load ";
  up_TargetGroup := [{| bucket_Priority := 1; bucket_Targets := targets |}] |}.

Definition placed_rule (id sendIP : string) (nodes : list string) (segments : list PortSegmentConfig)
    (u : RuleUpstreamConfig) : RuleConfig := {|
  rule_ID := id; rule_RuntimeID := ""; rule_ConfigVersion := 4; rule_Enabled := true;
  rule_Dataplane := "haproxy"; rule_ForwardingType := ""; rule_Protocol := "TCP";
  rule_NodeIDs := nodes; rule_NodeGroupIDs := []; rule_ListenIP := "0.0.0.0"; rule_Port := 80;
  rule_PortSegments := segments; rule_SendIP := sendIP; rule_MatchType := "ANY_INBOUND";
  rule_SNIHostname := ""; rule_ProxyProtocolIn := "NONE"; rule_ProxyProtocolOut := "NONE";
  rule_Upstream := u |}.

Definition t1 : TargetEndpoint := example_target "t1" "10.0.0.1" 80 1.
Definition t2 : TargetEndpoint := example_target "t2" "10.0.0.2" 80 1.
Definition rule_a : RuleConfig :=
  placed_rule "a" "" ["n1"; "n2"] [{| seg_StartPort := 80; seg_EndPort := 82 |}] (single_target t1).
Definition rule_b : RuleConfig := placed_rule "b" "" ["n1"] [] (example_group [t1; t2]).
Definition rule_b' : RuleConfig := placed_rule "b" "" ["n1"] [] (example_group [t2; t1]).
Definition rule_c : RuleConfig := placed_rule "c" "192.0.2.1" ["n1"] [] (single_target t2).

Definition example_input (version : ProtocolVersion) (rules : list RuleConfig) : AgentConfigInput := {|
  in_NodeID := "n1"; in_NodeGroups := []; in_AgentProtocolVersion := version; in_AgentProtocolKnown := true;
  in_DataplaneMode := ""; in_DataplaneInstanceID := " i "; in_DataplaneConflictPolicy := "";
  in_Rules := rules |}.

Example compile_current :
  snap_ConfigHash <$> Compile example_digest (example_input CurrentProtocolVersion [rule_b; rule_a; rule_c])
  = Ok "a,a,a,b,c".
Proof. vm_compute. reflexivity. Qed.
Example compile_ports :
  (λ c, map rule_RuntimeID (snap_Rules c)) <$>
    Compile example_digest (example_input CurrentProtocolVersion [rule_a]) = Ok ["a-p80"; "a-p81"; "a-p82"].
Proof. vm_compute. reflexivity. Qed.

Lemma Compile_agent_safe_witness : ∃ c r,
  (Compile example_digest (example_input SendIPProtocolVersion [rule_b; rule_c]) = Ok c ∧ r ∈ snap_Rules c) ∧
  (up_Type (rule_Upstream r) = "TARGET_GROUP" →
    normalizeTargetGroupScheduler (up_Scheduler (rule_Upstream r)) ≠ targetGroupSchedulerLeastLoad).
Proof.
  eexists _, (normalizedRule rule_c). split; [split; [vm_compute; reflexivity|vm_compute; left]|].
  refine (proj1 (proj2 (Compile_agent_safe example_digest
    (example_input SendIPProtocolVersion [rule_b; rule_c]) _ (normalizedRule rule_c) eq_refl _)) eq_refl).
  vm_compute. left.
Defined.

Lemma Compile_order_independent_witness :
  Compile example_digest (with_rules (example_input CurrentProtocolVersion [rule_a; rule_b]) [] [rule_b'; rule_a])
  = Compile example_digest (example_input CurrentProtocolVersion [rule_a; rule_b]).
Proof.
  apply (Compile_order_independent example_digest (example_input CurrentProtocolVersion [rule_a; rule_b])).
  - apply (bool_decide_unpack _). vm_compute. exact I.
  - repeat constructor; apply (bool_decide_unpack _); vm_compute; exact I.
  - exists [rule_b; rule_a]. split; [apply perm_swap|].
    assert (∀ r, rule_equiv r r) as Hrefl.
    { intros r. unfold rule_equiv, upstream_equiv. split_and!; try reflexivity.
      exists (up_TargetGroup (rule_Upstream r)). split; [reflexivity|].
      induction (up_TargetGroup (rule_Upstream r)); constructor; done. }
    repeat constructor; cbn; try done.
    + exists (up_TargetGroup (example_group [t1; t2])). split; [done|].
      repeat constructor.
    + exists []. split; constructor.
  - done.
Defined.

Lemma expandRulePortSegments_spec_witness :
  map rule_Port (expandRulePortSegments rule_a) = [80; 81; 82] ∧
  NoDup (map rule_RuntimeID (expandRulePortSegments rule_a)).
Proof.
  assert (rule_PortSegments rule_a ≠ []) as H1 by done.
  assert (Forall seg_in_range (rule_PortSegments rule_a)) as H2 by (repeat constructor; done).
  pose proof (expandRulePortSegments_spec rule_a H1 H2) as (_ & _ & Hn). split; [done|].
  apply Hn. apply (bool_decide_unpack _). vm_compute. exact I.
Defined.
