(* ===== verification/Records.v ===== *)
(** * Repository records (pkg/core/repo/repository.go)

    The rows that the control-plane services read and write.  A field [X] of
    the Go struct [NodeRecord] is [node_X], and so on; time stamps are the
    RFC 3339 strings that the program stores. *)

From S2P Require Import Prelude GoString GoJson Domain ServiceErrors.
#[local] Open Scope Z_scope.

Record NodeListenIPRecord := {
  nlip_ID : string; nlip_OrganizationID : string; nlip_NodeID : string; nlip_ListenIP : string;
  nlip_DisplayName : string; nlip_Enabled : bool; nlip_CreatedAt : string; nlip_UpdatedAt : string }.
#[export] Instance NodeListenIPRecord_eq_dec : EqDecision NodeListenIPRecord.
Proof. solve_decision. Defined.

Record NodeSendIPRecord := {
  nsip_ID : string; nsip_OrganizationID : string; nsip_NodeID : string; nsip_SendIP : string;
  nsip_DisplayName : string; nsip_Enabled : bool; nsip_CreatedAt : string; nsip_UpdatedAt : string }.
#[export] Instance NodeSendIPRecord_eq_dec : EqDecision NodeSendIPRecord.
Proof. solve_decision. Defined.

Record NodePortRangeRecord := {
  nrange_ID : string; nrange_OrganizationID : string; nrange_NodeID : string; nrange_Protocol : string;
  nrange_StartPort : Z; nrange_EndPort : Z; nrange_Enabled : bool; nrange_CreatedAt : string;
  nrange_UpdatedAt : string }.
#[export] Instance NodePortRangeRecord_eq_dec : EqDecision NodePortRangeRecord.
Proof. solve_decision. Defined.

Record NodeDNSPublishAddressRecord := {
  ndns_ID : string; ndns_OrganizationID : string; ndns_NodeID : string; ndns_AddressType : string;
  ndns_Address : string; ndns_Source : string; ndns_Enabled : bool; ndns_ObservedAt : string;
  ndns_CreatedAt : string; ndns_UpdatedAt : string }.
#[export] Instance NodeDNSPublishAddressRecord_eq_dec : EqDecision NodeDNSPublishAddressRecord.
Proof. solve_decision. Defined.

Record NodeRecord := {
  node_ID : string; node_OrganizationID : string; node_Name : string; node_Status : string;
  node_PublicDescription : string; node_DesiredConfigVersion : Z; node_AppliedConfigVersion : Z;
  node_ConfigStatus : string; node_ConfigErrorMessage : string; node_ConfigStatusConfigVersion : Z;
  node_ConfigRetryCount : Z; node_ConfigNextRetryAt : string; node_ConfigStatusUpdatedAt : string;
  node_LastSeenAt : string; node_RegisteredAt : string; node_AgentVersion : string; node_AgentCommit : string;
  node_AgentBuildTime : string; node_AgentAutoUpdateEnabled : bool; node_DesiredAgentVersion : string;
  node_AgentUpdateStatus : string; node_AgentUpdateError : string; node_AgentUpdateStartedAt : string;
  node_AgentUpdateFinishedAt : string; node_DataplaneMode : string; node_DataplaneConflictPolicy : string;
  node_DataplaneInstanceID : string; node_DataplaneStatus : string; node_DataplaneError : string;
  node_DataplaneLastHash : string; node_DataplaneLastAppliedAt : string; node_EnrollmentProfileID : string;
  node_EnrollmentProfileName : string; node_CreatedAt : string; node_UpdatedAt : string;
  node_DeletedAt : string; node_GroupIDs : list string; node_ListenIPs : list NodeListenIPRecord;
  node_SendIPs : list NodeSendIPRecord; node_PortRanges : list NodePortRangeRecord;
  node_DNSPublishAddresses : list NodeDNSPublishAddressRecord; node_MaxRulePorts : Z }.
#[export] Instance NodeRecord_eq_dec : EqDecision NodeRecord.
Proof. solve_decision. Defined.

Record TargetRecord := {
  trec_ID : string; trec_OrganizationID : string; trec_Name : string; trec_Host : string; trec_Port : Z;
  trec_Enabled : bool; trec_CreatedAt : string; trec_UpdatedAt : string; trec_DeletedAt : string }.
#[export] Instance TargetRecord_eq_dec : EqDecision TargetRecord.
Proof. solve_decision. Defined.

Record TargetGroupMemberRecord := {
  gmem_ID : string; gmem_OrganizationID : string; gmem_TargetGroupID : string; gmem_TargetID : string;
  gmem_Priority : Z; gmem_Weight : Z; gmem_Enabled : bool; gmem_CreatedAt : string; gmem_UpdatedAt : string }.
#[export] Instance TargetGroupMemberRecord_eq_dec : EqDecision TargetGroupMemberRecord.
Proof. solve_decision. Defined.

Record TargetGroupRecord := {
  grec_ID : string; grec_OrganizationID : string; grec_Name : string; grec_Description : string;
  grec_Scheduler : string; grec_CreatedAt : string; grec_UpdatedAt : string; grec_DeletedAt : string;
  grec_Members : list TargetGroupMemberRecord }.
#[export] Instance TargetGroupRecord_eq_dec : EqDecision TargetGroupRecord.
Proof. solve_decision. Defined.

Record InboundBindingPortSegmentRecord := {
  bseg_ID : string; bseg_OrganizationID : string; bseg_InboundBindingID : string; bseg_StartPort : Z;
  bseg_EndPort : Z; bseg_CreatedAt : string }.
#[export] Instance InboundBindingPortSegmentRecord_eq_dec : EqDecision InboundBindingPortSegmentRecord.
Proof. solve_decision. Defined.

Record InboundBindingRecord := {
  bind_ID : string; bind_OrganizationID : string; bind_NodeGroupID : string; bind_ListenIP : string;
  bind_Protocol : string; bind_Port : Z; bind_PortSegments : list InboundBindingPortSegmentRecord;
  bind_MatchType : string; bind_CreatedAt : string }.
#[export] Instance InboundBindingRecord_eq_dec : EqDecision InboundBindingRecord.
Proof. solve_decision. Defined.

Record RuleRecord := {
  rrec_ID : string; rrec_OrganizationID : string; rrec_OwnerUserID : string; rrec_Name : string;
  rrec_Enabled : bool; rrec_Status : string; rrec_ForwardingType : string; rrec_Protocol : string;
  rrec_MatchType : string; rrec_InboundBindingID : string; rrec_SNIHostname : string; rrec_TargetType : string;
  rrec_TargetID : string; rrec_TargetGroupID : string; rrec_ProxyProtocolIn : string;
  rrec_ProxyProtocolOut : string; rrec_FailurePolicy : string; rrec_DataplanePreference : string;
  rrec_SendIP : string; rrec_ConfigVersion : Z; rrec_CreatedAt : string; rrec_UpdatedAt : string;
  rrec_DeletedAt : string; rrec_Binding : InboundBindingRecord; rrec_Tags : list string }.
#[export] Instance RuleRecord_eq_dec : EqDecision RuleRecord.
Proof. solve_decision. Defined.

Record RuleDeploymentRecord := {
  dep_ID : string; dep_OrganizationID : string; dep_RuleID : string; dep_NodeID : string;
  dep_ConfigVersion : Z; dep_RuleConfigVersion : Z; dep_Status : string; dep_ErrorCode : string;
  dep_ErrorMessage : string; dep_Protocol : string; dep_ListenIP : string; dep_Port : Z;
  dep_ExpectedDataplane : string; dep_ActualDataplane : string; dep_Owner : string; dep_DriftStatus : string;
  dep_ExternalResource : string; dep_UpdatedAt : string }.
#[export] Instance RuleDeploymentRecord_eq_dec : EqDecision RuleDeploymentRecord.
Proof. solve_decision. Defined.

Record NodeConfigAckRecord := {
  ack_ConfigVersion : Z; ack_Status : string; ack_ErrorMessage : string; ack_RetryCount : Z;
  ack_NextRetryAt : string; ack_DataplaneStatus : string; ack_DataplaneError : string;
  ack_DataplaneLastHash : string }.
#[export] Instance NodeConfigAckRecord_eq_dec : EqDecision NodeConfigAckRecord.
Proof. solve_decision. Defined.

Record RuleDeploymentPendingRecord := {
  pend_NodeID : string; pend_ConfigVersion : Z }.
#[export] Instance RuleDeploymentPendingRecord_eq_dec : EqDecision RuleDeploymentPendingRecord.
Proof. solve_decision. Defined.

Record RuleDeploymentFailureRecord := {
  fail_RuleID : string; fail_RuleConfigVersion : Z; fail_ErrorCode : string; fail_ErrorMessage : string;
  fail_Protocol : string; fail_ListenIP : string; fail_Port : Z; fail_ExpectedDataplane : string;
  fail_ActualDataplane : string; fail_Owner : string; fail_DriftStatus : string;
  fail_ExternalResource : string }.
#[export] Instance RuleDeploymentFailureRecord_eq_dec : EqDecision RuleDeploymentFailureRecord.
Proof. solve_decision. Defined.

Record RuleDeploymentAppliedRecord := {
  appl_RuleID : string; appl_RuleConfigVersion : Z; appl_ExpectedDataplane : string;
  appl_ActualDataplane : string }.
#[export] Instance RuleDeploymentAppliedRecord_eq_dec : EqDecision RuleDeploymentAppliedRecord.
Proof. solve_decision. Defined.

Record OrganizationRecord := {
  org_ID : string; org_Name : string; org_Slug : string; org_OwnerUserID : string; org_DefaultRuleLimit : Z;
  org_DefaultTrafficLimitBytes : Z; org_DefaultTrafficLimitMode : string; org_CreatedAt : string;
  org_UpdatedAt : string; org_DeletedAt : string }.
#[export] Instance OrganizationRecord_eq_dec : EqDecision OrganizationRecord.
Proof. solve_decision. Defined.

Record NodeGroupRecord := {
  ngrp_ID : string; ngrp_OrganizationID : string; ngrp_Name : string; ngrp_Description : string;
  ngrp_CreatedAt : string; ngrp_UpdatedAt : string; ngrp_DeletedAt : string }.
#[export] Instance NodeGroupRecord_eq_dec : EqDecision NodeGroupRecord.
Proof. solve_decision. Defined.

Record QuotaRecord := {
  quo_ID : string; quo_OrganizationID : string; quo_Scope : string; quo_SubjectUserID : string;
  quo_SubjectRuleID : string; quo_RuleLimit : Z; quo_TrafficLimitBytes : Z; quo_TrafficLimitMode : string;
  quo_OverLimitAction : string; quo_CreatedAt : string; quo_UpdatedAt : string }.
#[export] Instance QuotaRecord_eq_dec : EqDecision QuotaRecord.
Proof. solve_decision. Defined.

(** The JSON columns hold the lists whose text the program stores. *)
Record AuditLogRecord := {
  aud_ID : string; aud_OrganizationID : string; aud_ActorUserID : string; aud_ActorRolesJSON : list string;
  aud_ActorPermissionsJSON : list string; aud_Action : string; aud_ResourceType : string;
  aud_ResourceID : string; aud_Result : string; aud_ErrorMessage : string; aud_MetadataJSON : string;
  aud_SourceIP : string; aud_CreatedAt : string }.
#[export] Instance AuditLogRecord_eq_dec : EqDecision AuditLogRecord.
Proof. solve_decision. Defined.

(** ** Agents and enrollment

    A JSON column holds what the program decodes from its text: the list, with
    the empty list for a text that does not decode. *)

Record NodeListenIPInput := { lipi_ListenIP : string; lipi_DisplayName : string }.
#[export] Instance NodeListenIPInput_eq_dec : EqDecision NodeListenIPInput.
Proof. solve_decision. Defined.
Record NodeSendIPInput := { sipi_SendIP : string; sipi_DisplayName : string }.
#[export] Instance NodeSendIPInput_eq_dec : EqDecision NodeSendIPInput.
Proof. solve_decision. Defined.
Record NodePortRangeInput := { rngi_Protocol : string; rngi_StartPort : Z; rngi_EndPort : Z }.
#[export] Instance NodePortRangeInput_eq_dec : EqDecision NodePortRangeInput.
Proof. solve_decision. Defined.
Record NodeDNSPublishAddressInput := { pubi_AddressType : string; pubi_Address : string; pubi_Enabled : bool }.
#[export] Instance NodeDNSPublishAddressInput_eq_dec : EqDecision NodeDNSPublishAddressInput.
Proof. solve_decision. Defined.

Record AgentRegistrationTokenRecord := {
  rtok_ID : string; rtok_OrganizationID : string; rtok_AgentType : string; rtok_AgentID : string;
  rtok_TokenHash : string; rtok_ExpiresAt : string; rtok_UsedAt : string; rtok_RevokedAt : string;
  rtok_CreatedAt : string; rtok_CreatedByUserID : string }.
#[export] Instance AgentRegistrationTokenRecord_eq_dec : EqDecision AgentRegistrationTokenRecord.
Proof. solve_decision. Defined.

Record AgentCredentialRecord := {
  cred_ID : string; cred_OrganizationID : string; cred_AgentType : string; cred_AgentID : string;
  cred_CredentialHash : string; cred_RegistrationTokenID : string; cred_EnrollmentProfileID : string;
  cred_EnrollmentTokenHash : string; cred_ActivatedAt : string; cred_RevokedAt : string;
  cred_CreatedAt : string; cred_RotatedAt : string }.
#[export] Instance AgentCredentialRecord_eq_dec : EqDecision AgentCredentialRecord.
Proof. solve_decision. Defined.

Record NodeEnrollmentProfileRecord := {
  prof_ID : string; prof_OrganizationID : string; prof_Name : string; prof_Description : string;
  prof_TokenHash : string; prof_Enabled : bool; prof_ExpiresAt : string; prof_MaxUses : Z; prof_UsedCount : Z;
  prof_NodeNameTemplate : string; prof_GroupIDsJSON : list string; prof_ListenIPsJSON : list NodeListenIPInput;
  prof_SendIPsJSON : list NodeSendIPInput; prof_PortRangesJSON : list NodePortRangeInput;
  prof_MaxRulePorts : Z; prof_DNSPublishAddressesJSON : list NodeDNSPublishAddressInput;
  prof_DataplaneMode : string; prof_DataplaneConflictPolicy : string; prof_AutoUpdateEnabled : bool;
  prof_AllowedCIDRsJSON : list string; prof_MetadataJSON : string; prof_CreatedByUserID : string;
  prof_CreatedAt : string; prof_UpdatedAt : string; prof_RevokedAt : string; prof_DeletedAt : string }.
#[export] Instance NodeEnrollmentProfileRecord_eq_dec : EqDecision NodeEnrollmentProfileRecord.
Proof. solve_decision. Defined.

Record NodeEnrollmentEventRecord := {
  enev_ID : string; enev_OrganizationID : string; enev_EnrollmentProfileID : string; enev_NodeID : string;
  enev_Status : string; enev_ReasonCode : string; enev_Message : string; enev_RemoteIP : string;
  enev_Hostname : string; enev_MetadataJSON : string; enev_CreatedAt : string }.
#[export] Instance NodeEnrollmentEventRecord_eq_dec : EqDecision NodeEnrollmentEventRecord.
Proof. solve_decision. Defined.

(** ** Monitors and health checks *)

Record MonitorGroupRecord := {
  mgrp_ID : string; mgrp_OrganizationID : string; mgrp_Name : string; mgrp_Description : string;
  mgrp_CreatedAt : string; mgrp_UpdatedAt : string; mgrp_DeletedAt : string }.
#[export] Instance MonitorGroupRecord_eq_dec : EqDecision MonitorGroupRecord.
Proof. solve_decision. Defined.

Record MonitorRecord := {
  mon_ID : string; mon_OrganizationID : string; mon_Name : string; mon_Status : string;
  mon_DesiredConfigVersion : Z; mon_AppliedConfigVersion : Z; mon_LastSeenAt : string; mon_RegisteredAt : string;
  mon_CreatedAt : string; mon_UpdatedAt : string; mon_DeletedAt : string; mon_GroupIDs : list string }.
#[export] Instance MonitorRecord_eq_dec : EqDecision MonitorRecord.
Proof. solve_decision. Defined.

Record HealthCheckTargetRecord := {
  hct_ID : string; hct_OrganizationID : string; hct_HealthCheckID : string; hct_ScopeType : string;
  hct_TargetID : string; hct_TargetGroupID : string; hct_TargetName : string; hct_TargetHost : string;
  hct_TargetPort : Z; hct_CreatedAt : string }.
#[export] Instance HealthCheckTargetRecord_eq_dec : EqDecision HealthCheckTargetRecord.
Proof. solve_decision. Defined.
Record HealthCheckMonitorScopeRecord := {
  hcm_ID : string; hcm_OrganizationID : string; hcm_HealthCheckID : string; hcm_ScopeType : string;
  hcm_MonitorID : string; hcm_MonitorGroupID : string; hcm_CreatedAt : string }.
#[export] Instance HealthCheckMonitorScopeRecord_eq_dec : EqDecision HealthCheckMonitorScopeRecord.
Proof. solve_decision. Defined.
Record HealthCheckRecord := {
  hchk_ID : string; hchk_OrganizationID : string; hchk_Name : string; hchk_ProbeType : string;
  hchk_IntervalSeconds : Z; hchk_TimeoutSeconds : Z; hchk_ConfigJSON : string; hchk_Enabled : bool;
  hchk_CreatedAt : string; hchk_UpdatedAt : string; hchk_DeletedAt : string;
  hchk_Targets : list HealthCheckTargetRecord; hchk_MonitorScopes : list HealthCheckMonitorScopeRecord }.
#[export] Instance HealthCheckRecord_eq_dec : EqDecision HealthCheckRecord.
Proof. solve_decision. Defined.

(** ** DNS policies

    [inst_ActionJSON] is the action that the text decodes to, or the text of the
    decoding error; [inst_ConditionJSON] is [None] when the text does not
    decode. *)

Record DNSDiagnosticPayload := { diag_Code : string; diag_Message : string; diag_Details : errorDetails }.
Record dnsPolicyAction := {
  act_Type : string; act_Values : list string; act_Value : string; act_InstanceID : string }.

Record DNSInstanceRecord := {
  inst_ID : string; inst_OrganizationID : string; inst_ManagedRecordID : string; inst_Name : string;
  inst_Priority : Z; inst_Enabled : bool; inst_NodeGroupIDsJSON : list string; inst_AnswerCount : Z;
  inst_ConditionJSON : option jsonValue; inst_ActionJSON : result string dnsPolicyAction;
  inst_NotificationChannelIDsJSON : list string; inst_LastOutputValuesJSON : list string;
  inst_LastStatus : string; inst_LastDiagnosticsJSON : list DNSDiagnosticPayload; inst_LastEvaluatedAt : string;
  inst_CreatedAt : string; inst_UpdatedAt : string; inst_DeletedAt : string }.

Record DNSManagedRecordRecord := {
  drec_ID : string; drec_OrganizationID : string; drec_DNSCredentialID : string; drec_CredentialZoneID : string;
  drec_ZoneID : string; drec_ZoneName : string; drec_RecordHost : string; drec_RecordName : string;
  drec_RecordType : string; drec_TTL : Z; drec_Proxied : bool; drec_ActiveInstanceID : string;
  drec_LastAppliedValuesJSON : list string; drec_ProviderRetirementsJSON : string;
  drec_LastEvaluationStatus : string; drec_LastEvaluationError : string;
  drec_LastDiagnosticsJSON : list DNSDiagnosticPayload; drec_LastEvaluatedAt : string; drec_LastAppliedAt : string;
  drec_CreatedAt : string; drec_UpdatedAt : string; drec_DeletedAt : string;
  drec_Instances : list DNSInstanceRecord }.

(** A node and a rule to build examples from. *)
Definition example_node (id : string) (groups : list string) (listenIPs : list NodeListenIPRecord)
    (sendIPs : list NodeSendIPRecord) (ranges : list NodePortRangeRecord) : NodeRecord := {|
  node_ID := id; node_OrganizationID := ""; node_Name := ""; node_Status := "ONLINE";
  node_PublicDescription := ""; node_DesiredConfigVersion := 0; node_AppliedConfigVersion := 0;
  node_ConfigStatus := ""; node_ConfigErrorMessage := ""; node_ConfigStatusConfigVersion := 0;
  node_ConfigRetryCount := 0; node_ConfigNextRetryAt := ""; node_ConfigStatusUpdatedAt := "";
  node_LastSeenAt := ""; node_RegisteredAt := ""; node_AgentVersion := ""; node_AgentCommit := "";
  node_AgentBuildTime := ""; node_AgentAutoUpdateEnabled := false; node_DesiredAgentVersion := "";
  node_AgentUpdateStatus := ""; node_AgentUpdateError := ""; node_AgentUpdateStartedAt := "";
  node_AgentUpdateFinishedAt := ""; node_DataplaneMode := ""; node_DataplaneConflictPolicy := "";
  node_DataplaneInstanceID := ""; node_DataplaneStatus := ""; node_DataplaneError := "";
  node_DataplaneLastHash := ""; node_DataplaneLastAppliedAt := ""; node_EnrollmentProfileID := "";
  node_EnrollmentProfileName := ""; node_CreatedAt := ""; node_UpdatedAt := ""; node_DeletedAt := "";
  node_GroupIDs := groups; node_ListenIPs := listenIPs; node_SendIPs := sendIPs; node_PortRanges := ranges;
  node_DNSPublishAddresses := []; node_MaxRulePorts := 0 |}.
Definition example_rule_record (id group protocol : string) (port version : Z) (failurePolicy : string) : RuleRecord := {|
  rrec_ID := id; rrec_OrganizationID := ""; rrec_OwnerUserID := ""; rrec_Name := ""; rrec_Enabled := true;
  rrec_Status := "ENABLED"; rrec_ForwardingType := "DIRECT"; rrec_Protocol := protocol;
  rrec_MatchType := "ANY_INBOUND"; rrec_InboundBindingID := ""; rrec_SNIHostname := "";
  rrec_TargetType := "TARGET"; rrec_TargetID := "t1"; rrec_TargetGroupID := ""; rrec_ProxyProtocolIn := "NONE";
  rrec_ProxyProtocolOut := "NONE"; rrec_FailurePolicy := failurePolicy; rrec_DataplanePreference := "";
  rrec_SendIP := ""; rrec_ConfigVersion := version; rrec_CreatedAt := ""; rrec_UpdatedAt := "";
  rrec_DeletedAt := "";
  rrec_Binding := {| bind_ID := ""; bind_OrganizationID := ""; bind_NodeGroupID := group; bind_ListenIP := "0.0.0.0"; bind_Protocol := protocol; bind_Port := port; bind_PortSegments := []; bind_MatchType := "ANY_INBOUND"; bind_CreatedAt := "" |};
  rrec_Tags := [] |}.
