(* ===== verification/NodeCoverage.v ===== *)
(** * Node coverage of rules (pkg/core/service/control_rule_helpers.go)

    Whether a set of nodes can carry a rule's listener (listen address, ports,
    send address), the addresses offered for a node group, and the check that
    every enabled rule stays deployable when a node changes
    ([validateEnabledRulesForNodeSet]).  The rules that the repository lists
    are an argument. *)

From S2P Require Import Prelude GoString GoInt GoSort Domain ServiceErrors Records.
Import Domain.Errors Domain.Rules.
#[local] Open Scope Z_scope.

(** ** Sets of nodes *)

Definition nodesInGroupFromSet (nodes : list NodeRecord) (nodeGroupID : string) : list NodeRecord :=
  List.filter (λ node, existsb (String.eqb nodeGroupID) (node_GroupIDs node)) nodes.

Definition replaceNodeInSet (nodes : list NodeRecord) (replacement : NodeRecord) : list NodeRecord :=
  let '(result, replaced) := foldl (λ '(result, replaced) node,
    if String.eqb (node_ID node) (node_ID replacement) then (result ++ [replacement], true)
    else (result ++ [node], replaced)) ([], false) nodes in
  if replaced : bool then result else result ++ [replacement].

Definition removeNodeFromSet (nodes : list NodeRecord) (nodeID : string) : list NodeRecord :=
  List.filter (λ node, negb (String.eqb (node_ID node) nodeID)) nodes.

(** ** Coverage *)

Definition defaultMaxRulePorts (value : Z) : Z := if value <=? 0 then 256 else value.

Definition nodeCoversOnePort (node : NodeRecord) (protocol : string) (port : Z) : bool :=
  existsb (λ r, nrange_Enabled r && String.eqb (nrange_Protocol r) protocol
                && (nrange_StartPort r <=? port) && (port <=? nrange_EndPort r)) (node_PortRanges node).

Definition nodeCoversPort (node : NodeRecord) (protocol : string) (port : Z) : bool :=
  if String.eqb protocol ProtocolTCPUDP
  then nodeCoversOnePort node ProtocolTCP port && nodeCoversOnePort node ProtocolUDP port
  else nodeCoversOnePort node protocol port.

Definition nodeCoversPortSegments (node : NodeRecord) (protocol : string)
    (segments : list InboundBindingPortSegmentRecord) : bool :=
  forallb (λ s, forallb (nodeCoversPort node protocol)
    (seqZ (bseg_StartPort s) (bseg_EndPort s - bseg_StartPort s + 1))) segments.

Definition expandedPortCount (segments : list InboundBindingPortSegmentRecord) : Z :=
  foldl (λ count s, add64 count (add64 (sub64 (bseg_EndPort s) (bseg_StartPort s)) 1)) 0 segments.

Definition hasListenIP (node : NodeRecord) (listenIP : string) : bool :=
  existsb (λ c, nlip_Enabled c && String.eqb (nlip_ListenIP c) listenIP) (node_ListenIPs node).

Definition nodesCoverListenIPAndPortSegments (nodes : list NodeRecord) (listenIP protocol : string)
    (segments : list InboundBindingPortSegmentRecord) : bool :=
  match nodes with
  | [] => false
  | _ => forallb (λ node, negb (negb (hasListenIP node listenIP)
                                || negb (nodeCoversPortSegments node protocol segments)
                                || (defaultMaxRulePorts (node_MaxRulePorts node) <? expandedPortCount segments))) nodes
  end.

Definition nodesShareListenIP (nodes : list NodeRecord) (listenIP : string) : bool :=
  match nodes with [] => false | _ => forallb (λ node, hasListenIP node listenIP) nodes end.

Definition nodesShareSendIP (nodes : list NodeRecord) (sendIP : string) : bool :=
  if String.eqb (TrimSpace sendIP) "" then true
  else match nodes with
       | [] => false
       | _ => forallb (λ node, existsb (λ c, nsip_Enabled c && String.eqb (nsip_SendIP c) sendIP)
                                 (node_SendIPs node)) nodes
       end.

(** ** Address options of a node group *)

Record ResourceOption := { opt_Value : string; opt_Label : string }.
#[export] Instance ResourceOption_eq_dec : EqDecision ResourceOption.
Proof. solve_decision. Defined.

Definition count (counts : gmap string Z) (k : string) : Z := default 0 (counts !! k).
Definition bump (counts : gmap string Z) (k : string) : gmap string Z :=
  <[k := add64 (count counts k) 1]> counts.

Definition nodesLabel (value : string) (n : Z) : string := (value ++ " (" ++ Itoa n ++ " nodes)")%string.

(** The program ranges over the map; the sort makes the order of that range
    irrelevant, the values being distinct. *)
Definition sortOptions (options : list ResourceOption) : list ResourceOption :=
  sort_stable (λ x y, String.ltb (opt_Value x) (opt_Value y)) options.

Definition listenIPCounts (nodes : list NodeRecord) (protocol : string)
    (segments : list InboundBindingPortSegmentRecord) : gmap string Z :=
  foldl (λ counts node,
    foldl (λ counts listenIP,
      if negb (nlip_Enabled listenIP) then counts
      else if negb (String.eqb protocol "") && (0 <? Z.of_nat (length segments))
              && negb (nodeCoversPortSegments node protocol segments) then counts
      else bump counts (nlip_ListenIP listenIP)) counts (node_ListenIPs node)) ∅ nodes.

Definition listenIPOptionsForNodes (nodes : list NodeRecord) (protocol : string)
    (segments : list InboundBindingPortSegmentRecord) : list ResourceOption :=
  sortOptions (flat_map (λ '(listenIP, n),
    if (n =? Z.of_nat (length nodes)) && (0 <? n)
    then [{| opt_Value := listenIP; opt_Label := nodesLabel listenIP n |}] else [])
    (map_to_list (listenIPCounts nodes protocol segments))).

(** The counts, the labels and the addresses seen on the node at hand. *)
Definition sendIPNodeStep (s : gmap string Z * gmap string string * gset string) (sendIP : NodeSendIPRecord)
    : gmap string Z * gmap string string * gset string :=
  let '(counts, labels, seen) := s in
  if negb (nsip_Enabled sendIP) then s
  else if bool_decide (nsip_SendIP sendIP ∈ seen) then s
  else
    let labels := if String.eqb (default "" (labels !! nsip_SendIP sendIP)) ""
                  then <[nsip_SendIP sendIP := nsip_DisplayName sendIP]> labels else labels in
    (bump counts (nsip_SendIP sendIP), labels, {[nsip_SendIP sendIP]} ∪ seen).

Definition sendIPCounts (nodes : list NodeRecord) : gmap string Z * gmap string string :=
  foldl (λ '(counts, labels) node,
    let '(counts, labels, _) := foldl sendIPNodeStep (counts, labels, ∅) (node_SendIPs node) in
    (counts, labels)) (∅, ∅) nodes.

Definition sendIPLabel (labels : gmap string string) (sendIP : string) (n : Z) : string :=
  let label := default "" (labels !! sendIP) in
  if String.eqb label "" || String.eqb label sendIP then nodesLabel sendIP n
  else (label ++ " - " ++ nodesLabel sendIP n)%string.

Definition sendIPOptionsForNodes (nodes : list NodeRecord) : list ResourceOption :=
  let '(counts, labels) := sendIPCounts nodes in
  sortOptions (flat_map (λ '(sendIP, n),
    if negb (n =? Z.of_nat (length nodes)) || (n =? 0) then []
    else [{| opt_Value := sendIP; opt_Label := sendIPLabel labels sendIP n |}]) (map_to_list counts)).

(** ** Bindings of a rule *)

Definition rulePortSegments (binding : InboundBindingRecord) : list InboundBindingPortSegmentRecord :=
  match bind_PortSegments binding with
  | [] => [{| bseg_ID := ""; bseg_OrganizationID := ""; bseg_InboundBindingID := "";
              bseg_StartPort := bind_Port binding; bseg_EndPort := bind_Port binding; bseg_CreatedAt := "" |}]
  | segments => segments
  end.

Definition portSegmentsKey (segments : list InboundBindingPortSegmentRecord) : string :=
  Join (map (λ s, (Itoa (bseg_StartPort s) ++ "-" ++ Itoa (bseg_EndPort s))%string) segments) ",".

Definition bindingsForNodes (nodes : list NodeRecord) (nodeGroupID listenIP protocol : string)
    (segments : list InboundBindingPortSegmentRecord) (matchType sni proxyProtocolIn ruleID : string)
    : list InboundBinding :=
  flat_map (λ node, map (λ s, {|
    NodeID := node_ID node; ListenIP := listenIP; Protocol := protocol;
    Port := bseg_StartPort s; StartPort := bseg_StartPort s; EndPort := bseg_EndPort s;
    MatchType := matchType; SNI := sni; ProxyProtocolIn := proxyProtocolIn; ForwardRule := ruleID |}) segments) nodes.

(** The bindings that a stored rule makes on the nodes of its group. *)
Definition ruleBindings (nodes : list NodeRecord) (rule : RuleRecord) : list InboundBinding :=
  let b := rrec_Binding rule in
  bindingsForNodes (nodesInGroupFromSet nodes (bind_NodeGroupID b)) (bind_NodeGroupID b) (bind_ListenIP b)
    (rrec_Protocol rule) (rulePortSegments b) (rrec_MatchType rule) (rrec_SNIHostname rule)
    (rrec_ProxyProtocolIn rule) (rrec_ID rule).

(** ** The check of a node set *)

Definition coverageConflict (rule : RuleRecord) : serviceError :=
  let b := rrec_Binding rule in
  ControlServiceError "NODE_RULE_COVERAGE_CONFLICT" "The node configuration does not cover an enabled rule listener."
    {["node_group_id" := DString (bind_NodeGroupID b); "rule_id" := DString (rrec_ID rule);
      "rule_name" := DString (rrec_Name rule); "listen_ip" := DString (bind_ListenIP b);
      "protocol" := DString (rrec_Protocol rule); "port" := DInt (bind_Port b)]} ErrConflict.

Definition sendIPConflict (rule : RuleRecord) : serviceError :=
  let b := rrec_Binding rule in
  ControlServiceError "NODE_RULE_SEND_IP_CONFLICT"
    "The node configuration does not allow the send IP required by an enabled rule."
    {["node_group_id" := DString (bind_NodeGroupID b); "rule_id" := DString (rrec_ID rule);
      "rule_name" := DString (rrec_Name rule); "send_ip" := DString (rrec_SendIP rule)]} ErrConflict.

Section coverage.
Context `{UnicodeTables}.

(** The first binding that the seen ones do not admit. *)
Fixpoint checkBindings (seen bindings : list InboundBinding) : option DomainError :=
  match bindings with
  | [] => None
  | b :: rest => match ValidateInboundBindingConflict seen b with
                 | Some e => Some e
                 | None => checkBindings seen rest
                 end
  end.

Definition nodeSetStep (nodes : list NodeRecord) (seenBindings : list InboundBinding) (rule : RuleRecord)
    : result serviceError (list InboundBinding) :=
  let groupNodes := nodesInGroupFromSet nodes (bind_NodeGroupID (rrec_Binding rule)) in
  if negb (nodesCoverListenIPAndPortSegments groupNodes (bind_ListenIP (rrec_Binding rule)) (rrec_Protocol rule)
             (rulePortSegments (rrec_Binding rule))) then Err (coverageConflict rule)
  else if negb (nodesShareSendIP groupNodes (rrec_SendIP rule)) then Err (sendIPConflict rule)
  else match checkBindings seenBindings (ruleBindings nodes rule) with
       | Some e => Err (ServiceDomainError e)
       | None => Ok (seenBindings ++ ruleBindings nodes rule)
       end.

Definition validateEnabledRulesForNodeSet (rules : list RuleRecord) (nodes : list NodeRecord)
    : option serviceError :=
  match fold_result (nodeSetStep nodes) [] rules with Ok _ => None | Err e => Some e end.

(** ** The check of a node set: what it promises *)

Lemma checkBindings_none seen bindings :
  checkBindings seen bindings = None ↔
  ∀ c, c ∈ bindings → well_formed c ∧ ∀ b, b ∈ seen → sameEndpoint b c = true → may_share b c.
Proof.
  induction bindings as [|c l IH]; cbn; [by split; [intros _ ? ?%not_elem_of_nil|]|].
  destruct (ValidateInboundBindingConflict seen c) eqn:E.
  - split; [done|]. intros Hl. rewrite <-E. apply ValidateInboundBindingConflict_none. apply Hl. left.
  - rewrite IH. apply ValidateInboundBindingConflict_none in E. split.
    + intros Hl c' [->|Hc']%elem_of_cons; [done|by apply Hl].
    + intros Hl c' Hc'. apply Hl. by right.
Qed.

(** The node has the address, the ports and the room that a listener needs. *)
Definition carries (node : NodeRecord) (listenIP protocol : string) (segments : list InboundBindingPortSegmentRecord)
    : Prop :=
  (∃ c, c ∈ node_ListenIPs node ∧ nlip_Enabled c = true ∧ nlip_ListenIP c = listenIP) ∧
  (∀ seg port p, seg ∈ segments → bseg_StartPort seg ≤ port ≤ bseg_EndPort seg → p ∈ sockets protocol →
    ∃ r, r ∈ node_PortRanges node ∧ nrange_Enabled r = true ∧ nrange_Protocol r = p ∧
      nrange_StartPort r ≤ port ≤ nrange_EndPort r) ∧
  expandedPortCount segments ≤ defaultMaxRulePorts (node_MaxRulePorts node).

(** The nodes of the rule's group carry its listener and its send address. *)
Definition carried (nodes : list NodeRecord) (rule : RuleRecord) : Prop :=
  let groupNodes := nodesInGroupFromSet nodes (bind_NodeGroupID (rrec_Binding rule)) in
  groupNodes ≠ [] ∧
  ∀ node, node ∈ groupNodes →
    carries node (bind_ListenIP (rrec_Binding rule)) (rrec_Protocol rule) (rulePortSegments (rrec_Binding rule)) ∧
    (TrimSpace (rrec_SendIP rule) ≠ "" →
      ∃ c, c ∈ node_SendIPs node ∧ nsip_Enabled c = true ∧ nsip_SendIP c = rrec_SendIP rule).

Lemma hasListenIP_spec node ip :
  hasListenIP node ip = true ↔ ∃ c, c ∈ node_ListenIPs node ∧ nlip_Enabled c = true ∧ nlip_ListenIP c = ip.
Proof. unfold hasListenIP. rewrite existsb_elem_of. setoid_rewrite andb_true_iff. by setoid_rewrite String.eqb_eq. Qed.

Lemma nodeCoversPort_spec node protocol port :
  nodeCoversPort node protocol port = true ↔
  ∀ p, p ∈ sockets protocol → ∃ r, r ∈ node_PortRanges node ∧ nrange_Enabled r = true ∧ nrange_Protocol r = p ∧
    nrange_StartPort r ≤ port ≤ nrange_EndPort r.
Proof.
  assert (∀ p, nodeCoversOnePort node p port = true ↔ ∃ r, r ∈ node_PortRanges node ∧ nrange_Enabled r = true ∧
    nrange_Protocol r = p ∧ nrange_StartPort r ≤ port ≤ nrange_EndPort r) as Hone.
  { intros p. unfold nodeCoversOnePort. rewrite existsb_elem_of.
    split; intros (r & Hr & E); exists r; [bool_hyps; split_and!; try done; lia|].
    destruct E as (-> & -> & [E1%Z.leb_le E2%Z.leb_le]). by rewrite E1, E2, String.eqb_refl. }
  unfold nodeCoversPort, sockets. destruct (String.eqb protocol ProtocolTCPUDP).
  - rewrite andb_true_iff, !Hone. split.
    + intros [H1 H2] p [->|[->|?%not_elem_of_nil]%elem_of_cons]%elem_of_cons; done.
    + intros Hp. split; apply Hp; set_solver.
  - rewrite Hone. split; [by intros H1 p ->%list_elem_of_singleton|]. intros Hp. apply Hp. by apply list_elem_of_singleton.
Qed.

Lemma nodeCoversPortSegments_spec node protocol segments :
  nodeCoversPortSegments node protocol segments = true ↔
  ∀ seg port, seg ∈ segments → bseg_StartPort seg ≤ port ≤ bseg_EndPort seg → nodeCoversPort node protocol port = true.
Proof.
  unfold nodeCoversPortSegments. rewrite forallb_elem_of. setoid_rewrite forallb_elem_of.
  setoid_rewrite elem_of_seqZ. split; intros Hs seg; intros; eapply Hs; eauto; lia.
Qed.

Lemma carries_spec node listenIP protocol segments :
  negb (negb (hasListenIP node listenIP) || negb (nodeCoversPortSegments node protocol segments)
        || (defaultMaxRulePorts (node_MaxRulePorts node) <? expandedPortCount segments)) = true ↔
  carries node listenIP protocol segments.
Proof.
  unfold carries. rewrite <-hasListenIP_spec, !negb_orb, !negb_involutive, !andb_true_iff, nodeCoversPortSegments_spec.
  rewrite negb_true_iff, Z.ltb_ge. setoid_rewrite nodeCoversPort_spec. naive_solver.
Qed.

Lemma carried_spec nodes rule :
  let groupNodes := nodesInGroupFromSet nodes (bind_NodeGroupID (rrec_Binding rule)) in
  nodesCoverListenIPAndPortSegments groupNodes (bind_ListenIP (rrec_Binding rule)) (rrec_Protocol rule)
    (rulePortSegments (rrec_Binding rule)) && nodesShareSendIP groupNodes (rrec_SendIP rule) = true ↔
  carried nodes rule.
Proof.
  cbv zeta. unfold carried. set (g := nodesInGroupFromSet _ _).
  assert (∀ ip, g ≠ [] → nodesShareSendIP g ip = true ↔ ∀ node, node ∈ g → TrimSpace ip ≠ "" →
    ∃ c, c ∈ node_SendIPs node ∧ nsip_Enabled c = true ∧ nsip_SendIP c = ip) as Hsend.
  { intros ip Hg. unfold nodesShareSendIP. destruct (String.eqb_spec (TrimSpace ip) "") as [E|E]; [by split|].
    destruct g as [|n g']; [done|]. rewrite forallb_elem_of. setoid_rewrite existsb_elem_of.
    setoid_rewrite andb_true_iff. setoid_rewrite String.eqb_eq. naive_solver. }
  rewrite andb_true_iff. destruct (decide (g = [])) as [->|Hg]; [by split; intros [? ?]|].
  rewrite (Hsend _ Hg). unfold nodesCoverListenIPAndPortSegments. destruct g as [|n g']; [done|].
  rewrite forallb_elem_of. setoid_rewrite carries_spec. split.
  - intros [H1 H2]. split; [done|]. intros node Hn. split; [by apply H1|by apply H2].
  - intros [_ H1]. split; intros node Hn; by apply H1.
Qed.

(** The bindings of [rule] are well formed and each of them can stand beside
    every binding of the rules [before]. *)
Definition compatible_with (nodes : list NodeRecord) (before : list RuleRecord) (rule : RuleRecord) : Prop :=
  ∀ c, c ∈ ruleBindings nodes rule → well_formed c ∧
    ∀ r b, r ∈ before → b ∈ ruleBindings nodes r → sameEndpoint b c = true → may_share b c.

Lemma nodeSet_loop nodes rules seen :
  (∃ seen', fold_result (nodeSetStep nodes) seen rules = Ok seen') ↔
  ∀ before rule after, rules = before ++ rule :: after →
    carried nodes rule ∧
    ∀ c, c ∈ ruleBindings nodes rule → well_formed c ∧
      ∀ b, b ∈ seen ++ flat_map (ruleBindings nodes) before → sameEndpoint b c = true → may_share b c.
Proof.
  revert seen. induction rules as [|r rules IH]; intros seen; cbn.
  { split; [|by intros; exists seen]. by intros _ [|? ?] ? ? ?. }
  unfold nodeSetStep at 1. pose proof (carried_spec nodes r) as Hcar. cbv zeta in Hcar.
  rewrite andb_true_iff in Hcar. symmetry in Hcar.
  set (cov := nodesCoverListenIPAndPortSegments _ _ _ _) in *. set (snd := nodesShareSendIP _ _) in *.
  destruct cov; cbn [negb].
  2:{ split; [by intros [? ?]|]. intros Hl. by destruct (Hl [] r rules eq_refl) as [[? _]%Hcar _]. }
  destruct snd; cbn [negb].
  2:{ split; [by intros [? ?]|]. intros Hl. by destruct (Hl [] r rules eq_refl) as [[_ ?]%Hcar _]. }
  destruct (checkBindings seen (ruleBindings nodes r)) eqn:E.
  - split; [by intros [? ?]|]. intros Hl. destruct (Hl [] r rules eq_refl) as [_ Hb].
    cbn in Hb. setoid_rewrite app_nil_r in Hb. apply checkBindings_none in Hb. congruence.
  - cbn [mbind result_bind]. rewrite IH. pose proof (proj1 (checkBindings_none _ _) E) as Hok. split.
    + intros Hl [|x before] rule after [= <- Hr].
      * cbn. setoid_rewrite app_nil_r. split; [by apply Hcar|done].
      * cbn. setoid_rewrite app_assoc. by apply (Hl before rule after).
    + intros Hl before rule after ->. specialize (Hl (r :: before) rule after eq_refl).
      cbn in Hl. setoid_rewrite app_assoc in Hl. done.
Qed.

Lemma nodeSet_none rules nodes :
  validateEnabledRulesForNodeSet rules nodes = None ↔
  ∀ before rule after, rules = before ++ rule :: after →
    carried nodes rule ∧ compatible_with nodes before rule.
Proof.
  pose proof (nodeSet_loop nodes rules []) as H1. cbn in H1.
  assert (∀ before rule, compatible_with nodes before rule ↔ ∀ c, c ∈ ruleBindings nodes rule → well_formed c ∧
    ∀ b, b ∈ flat_map (ruleBindings nodes) before → sameEndpoint b c = true → may_share b c) as H2.
  { intros before rule. unfold compatible_with. split; intros Hc c Hin; destruct (Hc c Hin) as [Hwf Hs]; split; try done.
    - intros b (r & Hr & Hb)%elem_of_flat_map. by apply (Hs r).
    - intros r b Hr Hb. apply Hs, elem_of_flat_map. by exists r. }
  setoid_rewrite H2. rewrite <-H1. unfold validateEnabledRulesForNodeSet.
  destruct (fold_result _ _ _); split; try done; [intros _; by eexists|by intros [? ?]].
Qed.

(** C20. The check of a node set succeeds exactly when every enabled rule is carried by the nodes of its group
    (there is one, and each has the listen address, all ports of the segments for the protocol, room for their
    number, and the send address if the rule has one), and its bindings on those nodes are well formed and
    compatible with the bindings of every rule listed before it. *)
Theorem validateEnabledRulesForNodeSet_spec rules nodes :
  validateEnabledRulesForNodeSet rules nodes = None ↔
  ∀ before rule after, rules = before ++ rule :: after →
    carried nodes rule ∧ compatible_with nodes before rule.
Proof. apply nodeSet_none. Qed.
End coverage.

(** ** Address options: what is offered *)

Lemma filter_length_le {A} (f : A → bool) l : (length (List.filter f l) ≤ length l)%nat.
Proof. induction l as [|x l IH]; cbn; [lia|]. destruct (f x); cbn; lia. Qed.

Lemma filter_length_all {A} (f : A → bool) l :
  length (List.filter f l) = length l ↔ ∀ x, x ∈ l → f x = true.
Proof.
  induction l as [|x l IH]; cbn; [by split; [intros _ ? ?%not_elem_of_nil|]|].
  pose proof (filter_length_le f l). destruct (f x) eqn:E; cbn.
  - split.
    + intros [= Hl] y [->|Hy]%elem_of_cons; [done|]. by apply IH.
    + intros Hl. f_equal. apply IH. intros y Hy. apply Hl. by right.
  - split; [lia|]. intros Hl. rewrite Hl in E by left. done.
Qed.

(** Occurrences of a key. *)
Definition occ (k : string) (ks : list string) : Z := Z.of_nat (length (List.filter (String.eqb k) ks)).

Lemma occ_app k l1 l2 : occ k (l1 ++ l2) = occ k l1 + occ k l2.
Proof. unfold occ. rewrite List.filter_app, length_app. lia. Qed.
Lemma occ_nonneg k l : 0 ≤ occ k l.
Proof. unfold occ. lia. Qed.
Lemma occ_zero k l : occ k l = 0 ↔ k ∉ l.
Proof.
  unfold occ. induction l as [|x l IH]; cbn; [by split; [set_solver|]|].
  destruct (String.eqb_spec k x) as [->|Hne]; cbn; [split; [intros ?; lia|set_solver]|]. rewrite IH. set_solver.
Qed.
Lemma occ_NoDup k l : NoDup l → occ k l = if bool_decide (k ∈ l) then 1 else 0.
Proof.
  intros Hl. destruct (bool_decide_reflect (k ∈ l)) as [Hk|Hk]; [|by apply occ_zero].
  apply list_elem_of_split in Hk as (l1 & l2 & ->). apply NoDup_app in Hl as (_ & Hd & [Hk _]%NoDup_cons).
  rewrite occ_app. change (k :: l2) with ([k] ++ l2). rewrite occ_app.
  rewrite (proj2 (occ_zero k l1)), (proj2 (occ_zero k l2)); [|done|].
  - unfold occ. cbn. by rewrite String.eqb_refl.
  - intros Hk1. apply (Hd k Hk1). left.
Qed.

Lemma bump_loop ks : ∀ counts,
  (∀ k, 0 ≤ count counts k ∧ count counts k + occ k ks ≤ max_int64) →
  (∀ k, count (foldl bump counts ks) k = count counts k + occ k ks) ∧
  (∀ k, is_Some (foldl bump counts ks !! k) ↔ is_Some (counts !! k) ∨ k ∈ ks).
Proof.
  induction ks as [|x ks IH]; intros counts Hb; cbn [foldl].
  { split; intros k; [unfold occ; cbn; lia|]. set_solver. }
  assert (∀ k, occ k (x :: ks) = (if String.eqb k x then 1 else 0) + occ k ks) as Hocc.
  { intros k. unfold occ. cbn. destruct (String.eqb k x); cbn; lia. }
  assert (∀ k, count (bump counts x) k = count counts k + if String.eqb k x then 1 else 0) as Hbump.
  { intros k. unfold bump, count. destruct (String.eqb_spec k x) as [->|Hne].
    - rewrite lookup_insert_eq. cbn. specialize (Hb x). rewrite Hocc, String.eqb_refl in Hb.
      pose proof (occ_nonneg x ks). unfold count in Hb. apply wrap64_id; unfold in64, max_int64 in *; lia.
    - rewrite lookup_insert_ne by done. lia. }
  destruct (IH (bump counts x)) as [IH1 IH2].
  { intros k. specialize (Hb k). rewrite Hocc in Hb. rewrite Hbump. destruct (String.eqb k x); lia. }
  split; intros k.
  - rewrite IH1, Hbump, Hocc. lia.
  - rewrite IH2. unfold bump. destruct (decide (k = x)) as [->|Hne].
    + rewrite lookup_insert_eq. set_solver.
    + rewrite lookup_insert_ne by done. set_solver.
Qed.

Lemma count_in_nodes {A} (keys : A → list string) k (nodes : list A) :
  (∀ n, n ∈ nodes → NoDup (keys n)) →
  occ k (flat_map keys nodes) = Z.of_nat (length (List.filter (λ n, bool_decide (k ∈ keys n)) nodes)).
Proof.
  induction nodes as [|n nodes IH]; intros Hn; cbn; [done|].
  rewrite occ_app, (occ_NoDup _ _ (Hn n ltac:(left))), IH by (intros m Hm; apply Hn; by right).
  case_bool_decide; cbn [length]; lia.
Qed.

(** Counting each key once per node and keeping those that every node has. *)
Lemma counted_by_all {A} (keys : A → list string) (nodes : list A) k n :
  (∀ n, n ∈ nodes → NoDup (keys n)) → Z.of_nat (length nodes) ≤ max_int64 →
  foldl bump ∅ (flat_map keys nodes) !! k = Some n →
  n = Z.of_nat (length nodes) ↔ ∀ m, m ∈ nodes → k ∈ keys m.
Proof.
  intros Hn Hlen Hk.
  assert (count ∅ k = 0) as H0 by (unfold count; by rewrite lookup_empty).
  destruct (bump_loop (flat_map keys nodes) ∅) as [Hc _].
  { intros j. rewrite (count_in_nodes keys j nodes Hn). unfold count. rewrite lookup_empty. cbn.
    pose proof (filter_length_le (λ n, bool_decide (j ∈ keys n)) nodes). lia. }
  specialize (Hc k). rewrite H0, (count_in_nodes keys k nodes Hn) in Hc. unfold count in Hc. rewrite Hk in Hc. cbn in Hc.
  pose proof (filter_length_all (λ n, bool_decide (k ∈ keys n)) nodes) as Hf.
  setoid_rewrite bool_decide_eq_true in Hf. rewrite <-Hf, Hc, Z.add_0_l. lia.
Qed.

Lemma counted_some {A} (keys : A → list string) (nodes : list A) k :
  (∀ n, n ∈ nodes → NoDup (keys n)) → Z.of_nat (length nodes) ≤ max_int64 →
  is_Some (foldl bump ∅ (flat_map keys nodes) !! k) ↔ ∃ m, m ∈ nodes ∧ k ∈ keys m.
Proof.
  intros Hn Hlen. destruct (bump_loop (flat_map keys nodes) ∅) as [_ Hs].
  { intros j. rewrite (count_in_nodes keys j nodes Hn). unfold count. rewrite lookup_empty. cbn.
    pose proof (filter_length_le (λ n, bool_decide (j ∈ keys n)) nodes). lia. }
  rewrite Hs, lookup_empty, elem_of_flat_map. split; [|by right]. intros [[? ?]|?]; done.
Qed.

(** The options computed from the counts. *)
Lemma options_elem {A} (keys : A → list string) (nodes : list A) (keep : Z → bool) (label : string → Z → string) v :
  (∀ n, n ∈ nodes → NoDup (keys n)) → Z.of_nat (length nodes) ≤ max_int64 →
  (∀ n, keep n = true ↔ n = Z.of_nat (length nodes) ∧ n ≠ 0) →
  v ∈ map opt_Value (sortOptions (flat_map (λ '(k, n),
        if keep n then [{| opt_Value := k; opt_Label := label k n |}] else [])
        (map_to_list (foldl bump ∅ (flat_map keys nodes)))))
  ↔ nodes ≠ [] ∧ ∀ m, m ∈ nodes → v ∈ keys m.
Proof.
  intros Hn Hlen Hkeep. rewrite elem_of_map. split.
  - intros (o & -> & Ho). apply elem_of_sort, elem_of_flat_map in Ho as ((k & n) & Hkn & Ho).
    apply elem_of_map_to_list in Hkn. destruct (keep n) eqn:E; [|by apply not_elem_of_nil in Ho].
    apply list_elem_of_singleton in Ho as ->. cbn. apply Hkeep in E as [-> Hne].
    split; [by intros ->|]. apply (counted_by_all keys nodes k _ Hn Hlen Hkn). done.
  - intros [Hne Hall].
    destruct (proj2 (counted_some keys nodes v Hn Hlen)) as [n Hnv].
    { destruct nodes as [|m nodes]; [done|]. exists m. split; [left|]. apply Hall. left. }
    pose proof (proj2 (counted_by_all keys nodes v n Hn Hlen Hnv) Hall) as ->.
    exists {| opt_Value := v; opt_Label := label v (Z.of_nat (length nodes)) |}. split; [done|].
    apply elem_of_sort, elem_of_flat_map. exists (v, Z.of_nat (length nodes)).
    split; [by apply elem_of_map_to_list|]. rewrite (proj2 (Hkeep _)); [left|].
    split; [done|]. destruct nodes; cbn; [done|lia].
Qed.

(** Enabled listen addresses, once per occurrence; and what a node counts. *)
Definition enabledListenIPs (node : NodeRecord) : list string :=
  map nlip_ListenIP (List.filter nlip_Enabled (node_ListenIPs node)).
Definition countedListenIPs (protocol : string) (segments : list InboundBindingPortSegmentRecord) (node : NodeRecord)
    : list string :=
  if negb (String.eqb protocol "") && (0 <? Z.of_nat (length segments)) && negb (nodeCoversPortSegments node protocol segments)
  then [] else enabledListenIPs node.

Lemma foldl_flat_map {A B S} (f : S → B → S) (g : A → list B) (step : S → A → S) l s :
  (∀ s x, step s x = foldl f s (g x)) → foldl step s l = foldl f s (flat_map g l).
Proof.
  intros Hstep. revert s. induction l as [|x l IH]; intros s; cbn; [done|].
  by rewrite foldl_app, Hstep, IH.
Qed.

Lemma listenIPCounts_eq nodes protocol segments :
  listenIPCounts nodes protocol segments = foldl bump ∅ (flat_map (countedListenIPs protocol segments) nodes).
Proof.
  apply foldl_flat_map. intros counts node. unfold countedListenIPs, enabledListenIPs.
  destruct (negb (String.eqb protocol "") && _ && _).
  - induction (node_ListenIPs node) as [|c l IH]; cbn; [done|]. by destruct (nlip_Enabled c).
  - revert counts. induction (node_ListenIPs node) as [|c l IH]; intros counts; cbn; [done|].
    by destruct (nlip_Enabled c); cbn; rewrite IH.
Qed.

Lemma elem_of_enabledListenIPs node v : v ∈ enabledListenIPs node ↔ hasListenIP node v = true.
Proof.
  unfold enabledListenIPs. rewrite hasListenIP_spec, elem_of_map. setoid_rewrite elem_of_filterb. naive_solver.
Qed.

Lemma listenIPOptions_spec nodes protocol segments v :
  (∀ n, n ∈ nodes → NoDup (enabledListenIPs n)) → Z.of_nat (length nodes) ≤ max_int64 →
  v ∈ map opt_Value (listenIPOptionsForNodes nodes protocol segments) ↔
  nodesShareListenIP nodes v = true ∧
  (protocol ≠ "" → segments ≠ [] → ∀ n, n ∈ nodes → nodeCoversPortSegments n protocol segments = true).
Proof.
  intros Hnd Hlen. unfold listenIPOptionsForNodes. rewrite listenIPCounts_eq.
  rewrite (options_elem (countedListenIPs protocol segments) nodes
    (λ n, (n =? Z.of_nat (length nodes)) && (0 <? n)) nodesLabel v); [|..|done|].
  2:{ intros n Hn. unfold countedListenIPs. destruct (_ && _); [constructor|by apply Hnd]. }
  2:{ intros n. rewrite andb_true_iff. lia. }
  assert (∀ n, v ∈ countedListenIPs protocol segments n ↔ hasListenIP n v = true ∧
    (protocol ≠ "" → segments ≠ [] → nodeCoversPortSegments n protocol segments = true)) as Hin.
  { intros n. unfold countedListenIPs. rewrite <-elem_of_enabledListenIPs.
    destruct (String.eqb_spec protocol "") as [->|Hp]; cbn [negb andb]; [naive_solver|].
    destruct segments as [|s l]; cbn [length andb]; [naive_solver|].
    destruct (Z.ltb_spec 0 (Z.of_nat (S (length l)))); [|lia]. cbn [andb].
    destruct (nodeCoversPortSegments n protocol (s :: l)); cbn [negb]; [naive_solver|].
    split; [by intros ?%not_elem_of_nil|]. intros [_ Hc]. assert (s :: l ≠ []) as Hs by done. specialize (Hc Hp Hs). done. }
  setoid_rewrite Hin. unfold nodesShareListenIP. destruct nodes as [|n nodes]; [split; [by intros [Hne _]; destruct Hne|by intros [? _]]|].
  rewrite forallb_elem_of. split.
  - intros [_ Hall]. split; [intros m Hm; by apply Hall|intros Hp Hs m Hm; by apply Hall].
  - intros [H1 H2]. split; [done|]. intros m Hm. split; [by apply H1|]. intros. by apply H2.
Qed.

(** Enabled send addresses of a node, the first occurrence of each. *)
Fixpoint newSendIPs (seen : gset string) (l : list NodeSendIPRecord) : list string :=
  match l with
  | [] => []
  | c :: l => if negb (nsip_Enabled c) || bool_decide (nsip_SendIP c ∈ seen) then newSendIPs seen l
              else nsip_SendIP c :: newSendIPs ({[nsip_SendIP c]} ∪ seen) l
  end.

Lemma elem_of_newSendIPs l : ∀ seen k,
  k ∈ newSendIPs seen l ↔ (k ∉ seen) ∧ ∃ c, c ∈ l ∧ nsip_Enabled c = true ∧ nsip_SendIP c = k.
Proof.
  induction l as [|c l IH]; intros seen k; cbn.
  { split; [by intros ?%not_elem_of_nil|]. by intros (_ & c & ?%not_elem_of_nil & _). }
  destruct (nsip_Enabled c) eqn:E; cbn [negb orb].
  - case_bool_decide as Hs.
    + rewrite IH. split; intros [Hk (d & Hd & He & Hv)]; (split; [done|]).
      * exists d. split; [by right|done].
      * apply elem_of_cons in Hd as [->|Hd]; [by subst|by exists d].
    + rewrite elem_of_cons, IH. split.
      * intros [->|[Hk (d & Hd & ?)]]; [split; [done|]; exists c; split; [left|done]|].
        split; [set_solver|]. exists d. split; [by right|done].
      * intros [Hk (d & [->|Hd]%elem_of_cons & He & Hv)]; [by left|].
        destruct (decide (k = nsip_SendIP c)) as [?|Hne]; [by left|]. right. split; [set_solver|by exists d].
  - rewrite IH. split; intros [Hk (d & Hd & He & Hv)]; (split; [done|]).
    + exists d. split; [by right|done].
    + apply elem_of_cons in Hd as [->|Hd]; [congruence|by exists d].
Qed.

Lemma newSendIPs_NoDup l : ∀ seen, NoDup (newSendIPs seen l).
Proof.
  induction l as [|c l IH]; intros seen; cbn; [constructor|]. destruct (_ || _); [done|].
  constructor; [|done]. rewrite elem_of_newSendIPs. set_solver.
Qed.

Lemma sendIP_loop l : ∀ counts labels seen,
  (foldl sendIPNodeStep (counts, labels, seen) l).1.1 = foldl bump counts (newSendIPs seen l).
Proof.
  induction l as [|c l IH]; intros counts labels seen; [done|]. cbn [foldl newSendIPs]. unfold sendIPNodeStep at 2.
  destruct (nsip_Enabled c); cbn [negb orb]; [|apply IH]. case_bool_decide; [apply IH|]. cbn. apply IH.
Qed.

Lemma sendIPCounts_eq nodes :
  (sendIPCounts nodes).1 = foldl bump ∅ (flat_map (λ n, newSendIPs ∅ (node_SendIPs n)) nodes).
Proof.
  unfold sendIPCounts. generalize (∅ : gmap string string) as labels. generalize (∅ : gmap string Z) as counts.
  induction nodes as [|n nodes IH]; intros counts labels; cbn; [done|].
  rewrite foldl_app, <-(sendIP_loop (node_SendIPs n) counts labels ∅).
  destruct (foldl sendIPNodeStep (counts, labels, ∅) (node_SendIPs n)) as [[c l] s]. cbn. apply IH.
Qed.

(** The addresses offered for a node group are exactly the common ones: a listen address is offered when
    every node of the group has it enabled and, if ports were asked for, every node covers them; a send address
    when every node of a non-empty group has it enabled.  Listen addresses are assumed to be listed once per
    node, as the validator of nodes ensures, since the code counts entries; send addresses need no such
    assumption. *)
Theorem addressOptions_spec nodes protocol segments :
  (∀ n, n ∈ nodes → NoDup (enabledListenIPs n)) → Z.of_nat (length nodes) ≤ max_int64 →
  (∀ v, v ∈ map opt_Value (listenIPOptionsForNodes nodes protocol segments) ↔
    nodes ≠ [] ∧ ∀ n, n ∈ nodes →
      (∃ c, c ∈ node_ListenIPs n ∧ nlip_Enabled c = true ∧ nlip_ListenIP c = v) ∧
      (protocol ≠ "" → segments ≠ [] → nodeCoversPortSegments n protocol segments = true)) ∧
  (∀ v, v ∈ map opt_Value (sendIPOptionsForNodes nodes) ↔
    nodes ≠ [] ∧ ∀ n, n ∈ nodes → ∃ c, c ∈ node_SendIPs n ∧ nsip_Enabled c = true ∧ nsip_SendIP c = v).
Proof.
  intros Hnd Hlen. split; intros v.
  - rewrite (listenIPOptions_spec nodes protocol segments v Hnd Hlen). unfold nodesShareListenIP.
    destruct nodes as [|n nodes]; [split; [by intros [? _]|by intros [Hne _]; destruct Hne]|].
    rewrite forallb_elem_of. setoid_rewrite hasListenIP_spec. split.
    + intros [H1 H2]. split; [done|]. intros m Hm. split; [by apply H1|]. intros. by apply H2.
    + intros [_ H1]. split; [intros m Hm; by apply H1|]. intros ? ? m Hm. by apply H1.
  - unfold sendIPOptionsForNodes. pose proof (sendIPCounts_eq nodes) as Hc.
    destruct (sendIPCounts nodes) as [counts labels]. cbn in Hc. subst counts.
    assert (∀ l : list (string * Z), flat_map (λ '(sendIP, n), if negb (n =? Z.of_nat (length nodes)) || (n =? 0) then []
        else [{| opt_Value := sendIP; opt_Label := sendIPLabel labels sendIP n |}]) l
      = flat_map (λ '(k, n), if (n =? Z.of_nat (length nodes)) && negb (n =? 0)
        then [{| opt_Value := k; opt_Label := sendIPLabel labels k n |}] else []) l) as ->.
    { induction l as [|[k n] l IH]; cbn; [done|]. rewrite IH. by destruct (n =? _), (n =? 0). }
    rewrite (options_elem (λ n, newSendIPs ∅ (node_SendIPs n)) nodes
      (λ n, (n =? Z.of_nat (length nodes)) && negb (n =? 0)) (sendIPLabel labels) v); [|..|done|].
    + setoid_rewrite elem_of_newSendIPs. split; (intros [H1 H2]; split; [done|]).
      * intros n Hn. by apply H2.
      * intros n Hn. split; [apply not_elem_of_empty|by apply H2].
    + intros n _. apply newSendIPs_NoDup.
    + intros n. rewrite andb_true_iff, negb_true_iff. lia.
Qed.

(** ** Replacing a node *)

Lemma replaceNodeInSet_eq nodes replacement :
  replaceNodeInSet nodes replacement =
  map (λ n, if String.eqb (node_ID n) (node_ID replacement) then replacement else n) nodes
  ++ if existsb (λ n, String.eqb (node_ID n) (node_ID replacement)) nodes then [] else [replacement].
Proof.
  unfold replaceNodeInSet.
  assert (∀ acc b, foldl (λ '(result, replaced) node,
      if String.eqb (node_ID node) (node_ID replacement) then (result ++ [replacement], true)
      else (result ++ [node], replaced)) (acc, b) nodes
    = (acc ++ map (λ n, if String.eqb (node_ID n) (node_ID replacement) then replacement else n) nodes,
       b || existsb (λ n, String.eqb (node_ID n) (node_ID replacement)) nodes)) as ->.
  { induction nodes as [|n nodes IH]; intros acc b; cbn; [by rewrite app_nil_r, orb_false_r|].
    destruct (String.eqb _ _); rewrite IH, <-app_assoc; cbn; [by rewrite orb_true_r|done]. }
  cbn. by destruct (existsb _ _); rewrite ?app_nil_r.
Qed.

(** The replaced set holds the replacement and the other nodes. *)
Lemma elem_of_replaceNodeInSet nodes replacement n :
  n ∈ replaceNodeInSet nodes replacement ↔ n = replacement ∨ (n ∈ nodes ∧ node_ID n ≠ node_ID replacement).
Proof.
  rewrite replaceNodeInSet_eq, elem_of_app, elem_of_map. split.
  - intros [(m & -> & Hm)|Hn].
    + destruct (String.eqb_spec (node_ID m) (node_ID replacement)); [by left|by right].
    + destruct (existsb _ _); [by apply not_elem_of_nil in Hn|]. left. by apply list_elem_of_singleton in Hn.
  - intros [->|[Hn Hne]].
    + destruct (existsb _ nodes) eqn:E; [|right; by apply list_elem_of_singleton]. left.
      apply existsb_elem_of in E as (m & Hm & E). exists m. by rewrite E.
    + left. exists n. split; [|done]. by destruct (String.eqb_spec (node_ID n) (node_ID replacement)).
Qed.

(** ** Examples *)

Definition example_listenIP (ip : string) : NodeListenIPRecord := {|
  nlip_ID := ""; nlip_OrganizationID := ""; nlip_NodeID := ""; nlip_ListenIP := ip; nlip_DisplayName := "";
  nlip_Enabled := true; nlip_CreatedAt := ""; nlip_UpdatedAt := "" |}.
Definition example_sendIP (ip : string) : NodeSendIPRecord := {|
  nsip_ID := ""; nsip_OrganizationID := ""; nsip_NodeID := ""; nsip_SendIP := ip; nsip_DisplayName := "wan";
  nsip_Enabled := true; nsip_CreatedAt := ""; nsip_UpdatedAt := "" |}.
Definition example_range (protocol : string) (start end_ : Z) : NodePortRangeRecord := {|
  nrange_ID := ""; nrange_OrganizationID := ""; nrange_NodeID := ""; nrange_Protocol := protocol;
  nrange_StartPort := start; nrange_EndPort := end_; nrange_Enabled := true; nrange_CreatedAt := "";
  nrange_UpdatedAt := "" |}.
Definition node_a : NodeRecord := example_node "a" ["g"] [example_listenIP "0.0.0.0"; example_listenIP "192.0.2.1"]
  [example_sendIP "192.0.2.1"; example_sendIP "192.0.2.1"] [example_range "TCP" 1 1024].
Definition node_b : NodeRecord := example_node "b" ["g"] [example_listenIP "0.0.0.0"]
  [example_sendIP "192.0.2.1"] [example_range "TCP" 1 100].

Example options_example :
  listenIPOptionsForNodes [node_a; node_b] "" [] = [{| opt_Value := "0.0.0.0"; opt_Label := "0.0.0.0 (2 nodes)" |}]
  ∧ sendIPOptionsForNodes [node_a; node_b]
    = [{| opt_Value := "192.0.2.1"; opt_Label := "wan - 192.0.2.1 (2 nodes)" |}].
Proof. vm_compute. done. Qed.
Example nodeSet_example :
  let rule port := example_rule_record "r" "g" "TCP" port 1 "" in let _ := ascii_tables in
  validateEnabledRulesForNodeSet [rule 80; rule 90] [node_a; node_b] = None
  ∧ validateEnabledRulesForNodeSet [rule 800] [node_a; node_b] = Some (coverageConflict (rule 800)).
Proof. vm_compute. done. Qed.

Lemma addressOptions_spec_witness : "192.0.2.1" ∈ map opt_Value (sendIPOptionsForNodes [node_a; node_b]).
Proof.
  refine (proj2 (proj2 (addressOptions_spec [node_a; node_b] "" [] _ _) "192.0.2.1") _).
  - intros n [->|[->|?%not_elem_of_nil]%elem_of_cons]%elem_of_cons; [..|done];
      apply (bool_decide_unpack _); vm_compute; exact I.
  - vm_compute. discriminate.
  - split; [done|]. intros n [->|[->|?%not_elem_of_nil]%elem_of_cons]%elem_of_cons; [..|done];
      exists (example_sendIP "192.0.2.1"); (split; [left|done]).
Defined.
