(* ===== verification/RuleInput.v ===== *)
(** * Rule input of the services (pkg/core/service/control_rule_helpers.go)

    The second validation of a rule, which also guards imports and copies,
    the stored form of a rule as input, and the portable form of a rule that
    exports and imports exchange.  The first validation is that of the HTTP
    layer (RuleValidator.v); [decodeRuleInput] of pkg/core/handler turns its
    result into the input here. *)

From S2P Require Import RuleValidator Prelude GoString GoInt GoSort GoNet Domain Agent ValidatorBase ServiceErrors Records ConfigCompiler NodeCoverage.
#[local] Open Scope Z_scope.

Record RulePortSegmentInput := { pseg_StartPort : Z; pseg_EndPort : Z }.
Record RuleMatchInput := { mmatch_Type : string; mmatch_SNIHostname : string }.
Record RuleProxyProtocolInput := { mproxy_In : string; mproxy_Out : string }.
Record RuleUpstreamInput := { mup_Type : string; mup_TargetID : string; mup_TargetGroupID : string }.
Record RuleMutationInput := {
  mi_Name : string; mi_Tags : list string; mi_NodeGroupID : string; mi_ListenIP : string; mi_SendIP : string;
  mi_FailurePolicy : string; mi_DataplanePreference : string; mi_ForwardingType : string; mi_Protocol : string;
  mi_Port : Z; mi_PortSegments : list RulePortSegmentInput; mi_Match : RuleMatchInput;
  mi_ProxyProtocol : RuleProxyProtocolInput; mi_Upstream : RuleUpstreamInput; mi_Enabled : bool;
  mi_EnabledSet : bool }.
#[export] Instance RulePortSegmentInput_eq_dec : EqDecision RulePortSegmentInput.
Proof. solve_decision. Defined.
#[export] Instance RuleMatchInput_eq_dec : EqDecision RuleMatchInput.
Proof. solve_decision. Defined.
#[export] Instance RuleProxyProtocolInput_eq_dec : EqDecision RuleProxyProtocolInput.
Proof. solve_decision. Defined.
#[export] Instance RuleUpstreamInput_eq_dec : EqDecision RuleUpstreamInput.
Proof. solve_decision. Defined.
#[export] Instance RuleMutationInput_eq_dec : EqDecision RuleMutationInput.
Proof. solve_decision. Defined.

(** ** Ports *)

Definition inputSegLess (x y : RulePortSegmentInput) : bool :=
  if pseg_StartPort x =? pseg_StartPort y then pseg_EndPort x <? pseg_EndPort y
  else pseg_StartPort x <? pseg_StartPort y.

(** The checks of the first loop; [None] is its [return nil]. *)
Fixpoint checkedSegments (values : list RulePortSegmentInput) : option (list RulePortSegmentInput) :=
  match values with
  | [] => Some []
  | value :: rest =>
      let value := {| pseg_StartPort := pseg_StartPort value;
                      pseg_EndPort := if pseg_EndPort value =? 0 then pseg_StartPort value else pseg_EndPort value |} in
      if (pseg_StartPort value <? 1) || (65535 <? pseg_StartPort value) || (pseg_EndPort value <? 1)
         || (65535 <? pseg_EndPort value) || (pseg_EndPort value <? pseg_StartPort value) then None
      else segments ← checkedSegments rest; Some (value :: segments)
  end.

Definition mergeInputSegment (result : list RulePortSegmentInput) (segment : RulePortSegmentInput)
    : list RulePortSegmentInput :=
  match last result with
  | None => result ++ [segment]
  | Some lst =>
      if pseg_EndPort lst + 1 <? pseg_StartPort segment then result ++ [segment]
      else if pseg_EndPort lst <? pseg_EndPort segment
      then removelast result ++ [{| pseg_StartPort := pseg_StartPort lst; pseg_EndPort := pseg_EndPort segment |}]
      else result
  end.

Definition normalizeRulePortSegments (port : Z) (values : list RulePortSegmentInput) : list RulePortSegmentInput :=
  match values with
  | [] => if (port <? 1) || (65535 <? port) then [] else [{| pseg_StartPort := port; pseg_EndPort := port |}]
  | _ => match checkedSegments values with
         | None => []
         | Some segments => foldl mergeInputSegment [] (sort_stable inputSegLess segments)
         end
  end.

(** ** Validation *)

Definition FailurePolicyKeepEnabled : string := "KEEP_ENABLED".
Definition FailurePolicyDisableWhenAllNodesFailed : string := "DISABLE_WHEN_ALL_NODES_FAILED".

Definition validRuleProxyProtocol (value : string) : bool :=
  String.eqb value "" || String.eqb value "NONE" || String.eqb value "V1" || String.eqb value "V2".
Definition normalizedRuleProxyProtocol (value : string) : string :=
  if String.eqb value "" || String.eqb value "NONE" then "" else value.
Definition defaultProxyProtocol (value : string) : string := if String.eqb value "" then "NONE" else value.

Section input.
Context `{UnicodeTables}.

Definition defaultForwardingType (value : string) : string :=
  let value := ToUpper (TrimSpace value) in if String.eqb value "" then ForwardingTypeDirect else value.
Definition defaultFailurePolicy (value : string) : string :=
  let value := ToUpper (TrimSpace value) in if String.eqb value "" then FailurePolicyKeepEnabled else value.

Definition validateRuleForwardingType (value : string) : result serviceError () :=
  reject_if (negb (String.eqb (defaultForwardingType value) ForwardingTypeDirect))
    (validationFieldError "forwarding_type" "Only DIRECT forwarding is supported by the current runtime."
       {["actual" := DString value]}).

Definition validateFailurePolicy (value : string) : result serviceError () :=
  reject_if (negb (bool_decide (defaultFailurePolicy value
                     ∈ [FailurePolicyKeepEnabled; FailurePolicyDisableWhenAllNodesFailed])))
    (validationFieldError "failure_policy" "Unsupported rule failure policy." {["actual" := DString value]}).

Definition validateDataplanePreference (value : string) : result serviceError () :=
  let v := ToUpper (TrimSpace value) in
  reject_if (negb (bool_decide (v ∈ [""; DataplanePreferenceAuto; DataplanePreferenceNative;
                                     DataplanePreferenceHAProxy; DataplanePreferenceNFTables])))
    (validationFieldError "dataplane_preference" "Unsupported rule dataplane preference." {["actual" := DString value]}).

Definition normalizeDataplanePreferenceForMutation (value : string) : result serviceError string :=
  let value := ToUpper (TrimSpace value) in
  validateDataplanePreference value;;
  Ok (if String.eqb value "" then DataplanePreferenceAuto else value).

Definition validateRuleMatchType (value : string) : result serviceError () :=
  reject_if (negb (String.eqb value MatchTypeAnyInbound || String.eqb value MatchTypeTLSSNI))
    (validationFieldError "match.type" "Unsupported rule match type." {["actual" := DString value]}).

Definition normalizeRuleTags (values : list string) : list string :=
  dedupSorted (λ value, ToLower (TrimSpace value)) (λ value, String.eqb value "" || (64 <? len value)) values.

(** The assignments at the top. *)
Definition trimRuleInput (i : RuleMutationInput) : RuleMutationInput := {|
  mi_Name := TrimSpace (mi_Name i); mi_Tags := normalizeRuleTags (mi_Tags i);
  mi_NodeGroupID := TrimSpace (mi_NodeGroupID i); mi_ListenIP := TrimSpace (mi_ListenIP i);
  mi_SendIP := TrimSpace (mi_SendIP i); mi_FailurePolicy := defaultFailurePolicy (mi_FailurePolicy i);
  mi_DataplanePreference :=
    (let v := ToUpper (TrimSpace (mi_DataplanePreference i)) in
     if String.eqb v "" then DataplanePreferenceAuto else v);
  mi_ForwardingType := defaultForwardingType (mi_ForwardingType i);
  mi_Protocol := ToUpper (TrimSpace (mi_Protocol i)); mi_Port := mi_Port i; mi_PortSegments := mi_PortSegments i;
  mi_Match := {| mmatch_Type := ToUpper (TrimSpace (mmatch_Type (mi_Match i)));
                 mmatch_SNIHostname := ToLower (TrimSpace (mmatch_SNIHostname (mi_Match i))) |};
  mi_ProxyProtocol := {| mproxy_In := ToUpper (TrimSpace (mproxy_In (mi_ProxyProtocol i)));
                         mproxy_Out := ToUpper (TrimSpace (mproxy_Out (mi_ProxyProtocol i))) |};
  mi_Upstream := {| mup_Type := ToUpper (TrimSpace (mup_Type (mi_Upstream i)));
                    mup_TargetID := TrimSpace (mup_TargetID (mi_Upstream i));
                    mup_TargetGroupID := TrimSpace (mup_TargetGroupID (mi_Upstream i)) |};
  mi_Enabled := mi_Enabled i; mi_EnabledSet := mi_EnabledSet i |}.

(** The switch over the upstream type. *)
Definition validateInputUpstream (u : RuleUpstreamInput) : result serviceError () :=
  let present : errorDetails :=
    {["upstream.target_id_present" := DBool (negb (String.eqb (mup_TargetID u) ""));
      "upstream.target_group_id_present" := DBool (negb (String.eqb (mup_TargetGroupID u) ""))]} in
  if String.eqb (mup_Type u) "TARGET" then
    reject_if (String.eqb (mup_TargetID u) "" || negb (String.eqb (mup_TargetGroupID u) ""))
      (validationError "TARGET upstream requires target_id and no target_group_id." present)
  else if String.eqb (mup_Type u) "TARGET_GROUP" then
    reject_if (String.eqb (mup_TargetGroupID u) "" || negb (String.eqb (mup_TargetID u) ""))
      (validationError "TARGET_GROUP upstream requires target_group_id and no target_id." present)
  else Err (validationFieldError "upstream.type" "Rule upstream type must be TARGET or TARGET_GROUP."
              {["actual" := DString (mup_Type u)]}).

(** The input with its ports and server name normalised. *)
Definition normalizedInput (i : RuleMutationInput) (first : RulePortSegmentInput) (segments : list RulePortSegmentInput)
    : RuleMutationInput := {|
  mi_Name := mi_Name i; mi_Tags := mi_Tags i; mi_NodeGroupID := mi_NodeGroupID i; mi_ListenIP := mi_ListenIP i;
  mi_SendIP := mi_SendIP i; mi_FailurePolicy := mi_FailurePolicy i;
  mi_DataplanePreference := mi_DataplanePreference i; mi_ForwardingType := mi_ForwardingType i;
  mi_Protocol := mi_Protocol i; mi_Port := pseg_StartPort first; mi_PortSegments := segments;
  mi_Match := {| mmatch_Type := mmatch_Type (mi_Match i);
                 mmatch_SNIHostname := if String.eqb (mmatch_Type (mi_Match i)) "ANY_INBOUND" then ""
                                       else mmatch_SNIHostname (mi_Match i) |};
  mi_ProxyProtocol := mi_ProxyProtocol i; mi_Upstream := mi_Upstream i; mi_Enabled := mi_Enabled i;
  mi_EnabledSet := mi_EnabledSet i |}.

Definition validateRuleMutationInput (input : RuleMutationInput) : result serviceError RuleMutationInput :=
  let i := trimRuleInput input in
  reject_if (String.eqb (mi_Name i) "") (validationFieldError "name" "Rule name is required." ∅);;
  reject_if (120 <? len (mi_Name i))
    (validationFieldError "name" "Rule name must be at most 120 characters." {["max_length" := DInt 120]});;
  reject_if (String.eqb (mi_NodeGroupID i) "")
    (validationFieldError "node_group_id" "Rule node_group_id is required." ∅);;
  reject_if (String.eqb (mi_ListenIP i) "") (validationFieldError "listen_ip" "Rule listen_ip is required." ∅);;
  match normalizeRulePortSegments (mi_Port i) (mi_PortSegments i) with
  | [] => Err (validationFieldError "port" "Rule port must be between 1 and 65535."
                 {["actual" := DInt (mi_Port i); "min" := DInt 1; "max" := DInt 65535]})
  | first :: rest =>
      reject_if (negb (String.eqb (mi_SendIP i) "")
                 && (Contains (mi_SendIP i) "/" || negb (isSome (ParseIP (mi_SendIP i)))))
        (validationFieldError "send_ip" "Rule send_ip must be a literal IP address." ∅);;
      validateRuleForwardingType (mi_ForwardingType i);;
      validateFailurePolicy (mi_FailurePolicy i);;
      validateDataplanePreference (mi_DataplanePreference i);;
      let protocol := mi_Protocol i in
      let matchType := mmatch_Type (mi_Match i) in
      let proxyIn := mproxy_In (mi_ProxyProtocol i) in
      let proxyOut := mproxy_Out (mi_ProxyProtocol i) in
      reject_if (negb (String.eqb protocol "TCP") && negb (String.eqb protocol "UDP") && negb (String.eqb protocol "TCP_UDP"))
        (validationFieldError "protocol" "Rule protocol must be TCP, UDP, or TCP_UDP." {["actual" := DString protocol]});;
      reject_if (negb (String.eqb matchType "ANY_INBOUND") && negb (String.eqb matchType "TLS_SNI"))
        (validationFieldError "match.type" "Rule match type must be ANY_INBOUND or TLS_SNI." {["actual" := DString matchType]});;
      reject_if (negb (String.eqb protocol "TCP") && negb (String.eqb matchType "ANY_INBOUND"))
        (validationFieldError "match.type" "Only TCP rules can use TLS_SNI matching."
           {["match_type" := DString matchType; "protocol" := DString protocol]});;
      reject_if (String.eqb matchType "TLS_SNI" && String.eqb (mmatch_SNIHostname (mi_Match i)) "")
        (validationFieldError "match.sni_hostname" "TLS_SNI rules require an SNI hostname." ∅);;
      reject_if (negb (validRuleProxyProtocol proxyIn) || negb (validRuleProxyProtocol proxyOut))
        (validationError "Rule proxy protocol must be NONE, V1, or V2."
           {["proxy_protocol.in" := DString proxyIn; "proxy_protocol.out" := DString proxyOut]});;
      reject_if (String.eqb protocol "UDP"
                 && (negb (String.eqb (normalizedRuleProxyProtocol proxyIn) "")
                     || negb (String.eqb (normalizedRuleProxyProtocol proxyOut) "")))
        (validationError "UDP rules cannot use Proxy Protocol."
           {["protocol" := DString protocol; "proxy_protocol.in" := DString proxyIn;
             "proxy_protocol.out" := DString proxyOut]});;
      validateInputUpstream (mi_Upstream i);;
      Ok (normalizedInput i first (first :: rest))
  end.

(** ** Stored rules as input *)

Definition toRulePortSegmentInputs (segments : list InboundBindingPortSegmentRecord) : list RulePortSegmentInput :=
  map (λ s, {| pseg_StartPort := bseg_StartPort s; pseg_EndPort := bseg_EndPort s |}) segments.

Definition inputFromRule (rule : RuleRecord) : RuleMutationInput := {|
  mi_Name := rrec_Name rule; mi_Tags := rrec_Tags rule; mi_NodeGroupID := bind_NodeGroupID (rrec_Binding rule);
  mi_ListenIP := bind_ListenIP (rrec_Binding rule); mi_SendIP := rrec_SendIP rule;
  mi_FailurePolicy := defaultFailurePolicy (rrec_FailurePolicy rule);
  mi_DataplanePreference := defaultDataplanePreference (rrec_DataplanePreference rule);
  mi_ForwardingType := defaultForwardingType (rrec_ForwardingType rule);
  mi_Protocol := rrec_Protocol rule; mi_Port := bind_Port (rrec_Binding rule);
  mi_PortSegments := toRulePortSegmentInputs (rulePortSegments (rrec_Binding rule));
  mi_Match := {| mmatch_Type := rrec_MatchType rule; mmatch_SNIHostname := rrec_SNIHostname rule |};
  mi_ProxyProtocol := {| mproxy_In := rrec_ProxyProtocolIn rule; mproxy_Out := rrec_ProxyProtocolOut rule |};
  mi_Upstream := {| mup_Type := rrec_TargetType rule; mup_TargetID := rrec_TargetID rule;
                    mup_TargetGroupID := rrec_TargetGroupID rule |};
  mi_Enabled := rrec_Enabled rule; mi_EnabledSet := false |}.

(** [decodeRuleInput] after the validator accepted the request. *)
Definition decodeRuleInput (r : RuleValidator.RuleRequest) : RuleMutationInput := {|
  mi_Name := RuleValidator.rr_Name r; mi_Tags := RuleValidator.rr_Tags r;
  mi_NodeGroupID := RuleValidator.rr_NodeGroupID r; mi_ListenIP := RuleValidator.rr_ListenIP r;
  mi_SendIP := RuleValidator.rr_SendIP r; mi_FailurePolicy := RuleValidator.rr_FailurePolicy r;
  mi_DataplanePreference := RuleValidator.rr_DataplanePreference r;
  mi_ForwardingType := RuleValidator.rr_ForwardingType r; mi_Protocol := RuleValidator.rr_Protocol r;
  mi_Port := RuleValidator.rr_Port r;
  mi_PortSegments := map (λ s, {| pseg_StartPort := RuleValidator.seg_StartPort s;
                                  pseg_EndPort := RuleValidator.seg_EndPort s |}) (RuleValidator.rr_PortSegments r);
  mi_Match := {| mmatch_Type := RuleValidator.match_Type (RuleValidator.rr_Match r);
                 mmatch_SNIHostname := RuleValidator.match_SNIHostname (RuleValidator.rr_Match r) |};
  mi_ProxyProtocol := {| mproxy_In := RuleValidator.proxy_In (RuleValidator.rr_ProxyProtocol r);
                         mproxy_Out := RuleValidator.proxy_Out (RuleValidator.rr_ProxyProtocol r) |};
  mi_Upstream := {| mup_Type := RuleValidator.up_Type (RuleValidator.rr_Upstream r);
                    mup_TargetID := RuleValidator.up_TargetID (RuleValidator.rr_Upstream r);
                    mup_TargetGroupID := RuleValidator.up_TargetGroupID (RuleValidator.rr_Upstream r) |};
  mi_Enabled := RuleValidator.rr_Enabled r; mi_EnabledSet := true |}.
End input.

(** ** The two normalisations of ports are one *)

Definition segment_request (s : RulePortSegmentInput) : RuleValidator.RulePortSegmentRequest :=
  {| RuleValidator.seg_StartPort := pseg_StartPort s; RuleValidator.seg_EndPort := pseg_EndPort s |}.

Lemma checkedSegments_spec values acc :
  match checkedSegments values with
  | Some l => fold_result RuleValidator.segStep acc (map segment_request values) = Ok (acc ++ map segment_request l)
  | None => ∃ e, fold_result RuleValidator.segStep acc (map segment_request values) = Err e
  end.
Proof.
  revert acc. induction values as [|v values IH]; intros acc; cbn; [by rewrite app_nil_r|].
  unfold RuleValidator.segStep at 1 3. cbn.
  match goal with |- context [if ?c then None else _] => destruct c end; [by eexists|].
  cbn [mbind result_bind option_bind].
  specialize (IH (acc ++ [{| RuleValidator.seg_StartPort := pseg_StartPort v;
    RuleValidator.seg_EndPort := if pseg_EndPort v =? 0 then pseg_StartPort v else pseg_EndPort v |}])).
  destruct (checkedSegments values) as [l|]; cbn; [|done]. rewrite IH, <-app_assoc. done.
Qed.

Lemma mergeInputSegment_map result s :
  RuleValidator.mergeSegment (map segment_request result) (segment_request s)
  = map segment_request (mergeInputSegment result s).
Proof.
  unfold RuleValidator.mergeSegment, mergeInputSegment.
  assert (last (map segment_request result) = segment_request <$> last result) as -> by apply fmap_last.
  assert (removelast (map segment_request result) = map segment_request (removelast result)) as ->.
  { induction result as [|x [|y l] IH]; [done..|]. cbn in *. by rewrite IH. }
  destruct (last result) as [x|]; cbn; [|by rewrite map_app]. destruct (_ <? _); [by rewrite map_app|].
  destruct (_ <? _); [by rewrite map_app|done].
Qed.

Lemma merge_loop_map segments result :
  foldl RuleValidator.mergeSegment (map segment_request result) (map segment_request segments)
  = map segment_request (foldl mergeInputSegment result segments).
Proof.
  revert result. induction segments as [|s l IH]; intros result; cbn; [done|]. by rewrite mergeInputSegment_map, IH.
Qed.

Lemma normalizeRulePortSegments_eq port values :
  match RuleValidator.validateRulePortSegments (if bool_decide (values = []) then port else 0) (map segment_request values) with
  | Ok segs => segs = map segment_request (normalizeRulePortSegments port values)
  | Err _ => normalizeRulePortSegments port values = []
  end.
Proof.
  destruct values as [|v values].
  - cbn. by destruct (_ || _).
  - rewrite bool_decide_false by done. unfold RuleValidator.validateRulePortSegments, normalizeRulePortSegments.
    cbn [map]. change (segment_request v :: map segment_request values) with (map segment_request (v :: values)).
    pose proof (checkedSegments_spec (v :: values) []) as Hc.
    destruct (checkedSegments (v :: values)) as [l|]; [|by destruct Hc as [e ->]].
    rewrite Hc. cbn [mbind result_bind Z.eqb negb andb app].
    rewrite (sort_map segment_request inputSegLess) by done. apply (merge_loop_map _ []).
Qed.

Lemma segment_request_inj l k : map segment_request l = map segment_request k → l = k.
Proof.
  revert k. induction l as [|[s e] l IH]; intros [|[s' e'] k]; cbn; try done. intros [= -> -> E]. by rewrite (IH k).
Qed.

(** Normalised segments are canonical, cover the requested ports and stay as
    they are when they are normalised again. *)
Lemma normalizeRulePortSegments_canonical port values :
  normalizeRulePortSegments port values ≠ [] →
  RuleValidator.canonical (map segment_request (normalizeRulePortSegments port values)).
Proof.
  intros Hne. pose proof (normalizeRulePortSegments_eq port values) as H.
  destruct (RuleValidator.validateRulePortSegments _ _) as [segs|] eqn:E; [|done].
  apply RuleValidator.validateRulePortSegments_iff in E as (_ & Hc & _). by rewrite <-H.
Qed.

Lemma normalizeRulePortSegments_id port segs :
  segs ≠ [] → RuleValidator.canonical (map segment_request segs) → normalizeRulePortSegments port segs = segs.
Proof.
  intros Hne Hc. pose proof (normalizeRulePortSegments_eq port segs) as H. rewrite bool_decide_false in H by done.
  assert (RuleValidator.validateRulePortSegments 0 (map segment_request segs) = Ok (map segment_request segs)) as E.
  { apply RuleValidator.validateRulePortSegments_iff. unfold RuleValidator.ports_accepted, RuleValidator.requested.
    pose proof (RuleValidator.canonical_meant _ Hc) as Hm. destruct segs as [|s l]; [done|].
    cbn [map] in *. rewrite Hm. split; [|done]. split; [apply Hc|by left]. }
  rewrite E in H. symmetry. by apply segment_request_inj.
Qed.

(** ** What the HTTP layer validated is not changed by the service *)

Section unchanged.
Context `{UnicodeTables}.

Lemma elem_of_enumerated (P : string → Prop) (l : list string) (v : string) : Forall P l → v ∈ l → P v.
Proof. intros Hl Hv. rewrite Forall_forall in Hl. by apply Hl. Qed.

Lemma protocol_fixed v : v ∈ ["TCP"; "UDP"; "TCP_UDP"] → ToUpper (TrimSpace v) = v.
Proof. apply (elem_of_enumerated (λ v, ToUpper (TrimSpace v) = v)). by repeat constructor. Qed.
Lemma policy_fixed v : v ∈ [FailurePolicyKeepEnabled; FailurePolicyDisableWhenAllNodesFailed] → defaultFailurePolicy v = v.
Proof. apply (elem_of_enumerated (λ v, defaultFailurePolicy v = v)). by repeat constructor. Qed.
Lemma preference_fixed v : v ∈ ["AUTO"; "NATIVE"; "HAPROXY"; "NFTABLES"] →
  (if String.eqb (ToUpper (TrimSpace v)) "" then DataplanePreferenceAuto else ToUpper (TrimSpace v)) = v ∧
  is_ok (validateDataplanePreference v) = true.
Proof. apply (elem_of_enumerated (λ v, (if String.eqb (ToUpper (TrimSpace v)) "" then DataplanePreferenceAuto else ToUpper (TrimSpace v)) = v ∧
  is_ok (validateDataplanePreference v) = true)). by repeat constructor. Qed.
Lemma proxy_fixed v : v ∈ [""; "NONE"; "V1"; "V2"] → ToUpper (TrimSpace v) = v ∧ validRuleProxyProtocol v = true.
Proof. apply (elem_of_enumerated (λ v, ToUpper (TrimSpace v) = v ∧ validRuleProxyProtocol v = true)). by repeat constructor. Qed.

(** A stored rule whose free texts are trimmed, and whose tags and host name
    lower-casing leaves alone. *)
Record settled (r : RuleValidator.RuleRequest) : Prop := {
  st_stored : RuleValidator.rule_stored r;
  st_trimmed : Forall (λ s, TrimSpace s = s)
    [RuleValidator.rr_Name r; RuleValidator.rr_NodeGroupID r; RuleValidator.rr_ListenIP r; RuleValidator.rr_SendIP r;
     RuleValidator.up_TargetID (RuleValidator.rr_Upstream r); RuleValidator.up_TargetGroupID (RuleValidator.rr_Upstream r)];
  st_tags : normalizeRuleTags (RuleValidator.rr_Tags r) = RuleValidator.rr_Tags r;
  st_sni : lowerTrim (RuleValidator.match_SNIHostname (RuleValidator.rr_Match r))
           = RuleValidator.match_SNIHostname (RuleValidator.rr_Match r) }.

Lemma trimRuleInput_settled r : settled r → trimRuleInput (decodeRuleInput r) = decodeRuleInput r.
Proof.
  intros [[H1 H2 H3 H4 H5 H6 H7 H8 H9 [H10|(H10 & _)] H11 (H12 & H12' & _) H13] Ht Htag Hsni].
  all: rewrite !Forall_cons in Ht; destruct Ht as (T1 & T2 & T3 & T4 & T5 & T6 & _).
  all: apply proxy_fixed in H12 as [H12 _], H12' as [H12' _]; apply protocol_fixed in H6; apply policy_fixed in H8;
    apply preference_fixed in H9 as [H9 _].
  all: destruct r as [? ? ? ? ? ? ? ? ? ? ? [? ?] [? ?] [? ? ?] ?]; unfold trimRuleInput, decodeRuleInput;
    unfold RuleValidator.upstream_ok in H13; cbn [RuleValidator.rr_Name RuleValidator.rr_Tags RuleValidator.rr_NodeGroupID RuleValidator.rr_ListenIP
      RuleValidator.rr_SendIP RuleValidator.rr_FailurePolicy RuleValidator.rr_DataplanePreference
      RuleValidator.rr_ForwardingType RuleValidator.rr_Protocol RuleValidator.rr_Match RuleValidator.rr_ProxyProtocol
      RuleValidator.rr_Upstream RuleValidator.match_Type RuleValidator.match_SNIHostname RuleValidator.proxy_In
      RuleValidator.proxy_Out RuleValidator.up_Type RuleValidator.up_TargetID RuleValidator.up_TargetGroupID] in *;
    unfold lowerTrim in Hsni; subst.
  all: f_equal; try done; f_equal; try done.
  all: by destruct H13 as [(-> & _)|(-> & _)].
Qed.

(** What the service accepts, on the trimmed input. *)
Definition input_match_ok (protocol : string) (m : RuleMatchInput) : Prop :=
  mmatch_Type m = "ANY_INBOUND" ∨
  (mmatch_Type m = "TLS_SNI" ∧ protocol = "TCP" ∧ mmatch_SNIHostname m ≠ "").

Definition input_proxy (p : RuleProxyProtocolInput) : RuleValidator.ProxyProtocolRequest :=
  {| RuleValidator.proxy_In := mproxy_In p; RuleValidator.proxy_Out := mproxy_Out p |}.
Definition input_upstream (u : RuleUpstreamInput) : RuleValidator.RuleUpstreamRequest :=
  {| RuleValidator.up_Type := mup_Type u; RuleValidator.up_TargetID := mup_TargetID u;
     RuleValidator.up_TargetGroupID := mup_TargetGroupID u |}.

Record input_accepted (i : RuleMutationInput) : Prop := {
  ia_name : mi_Name i ≠ "" ∧ len (mi_Name i) ≤ 120;
  ia_group : mi_NodeGroupID i ≠ "";
  ia_listen : mi_ListenIP i ≠ "";
  ia_send : mi_SendIP i = "" ∨ is_Some (ParseIP (mi_SendIP i));
  ia_forwarding : is_ok (validateRuleForwardingType (mi_ForwardingType i)) = true;
  ia_policy : is_ok (validateFailurePolicy (mi_FailurePolicy i)) = true;
  ia_preference : is_ok (validateDataplanePreference (mi_DataplanePreference i)) = true;
  ia_protocol : mi_Protocol i ∈ ["TCP"; "UDP"; "TCP_UDP"];
  ia_match : input_match_ok (mi_Protocol i) (mi_Match i);
  ia_proxy : RuleValidator.proxy_ok (mi_Protocol i) (input_proxy (mi_ProxyProtocol i));
  ia_upstream : RuleValidator.upstream_ok (input_upstream (mi_Upstream i)) }.

Lemma input_match_check protocol m :
  let t := mmatch_Type m in
  (negb (String.eqb t "ANY_INBOUND") && negb (String.eqb t "TLS_SNI")) = false ∧
  (negb (String.eqb protocol "TCP") && negb (String.eqb t "ANY_INBOUND")) = false ∧
  (String.eqb t "TLS_SNI" && String.eqb (mmatch_SNIHostname m) "") = false ↔ input_match_ok protocol m.
Proof.
  cbv zeta. unfold input_match_ok.
  destruct (String.eqb_spec (mmatch_Type m) "ANY_INBOUND") as [->|Hany]; [cbn; rewrite ?andb_false_r; naive_solver|].
  destruct (String.eqb_spec (mmatch_Type m) "TLS_SNI") as [->|Htls]; [|cbn; naive_solver].
  destruct (String.eqb_spec (mmatch_SNIHostname m) "") as [->|Hsni]; [cbn; naive_solver|].
  destruct (String.eqb_spec protocol "TCP") as [->|Hp]; cbn; intuition congruence.
Qed.

Lemma input_send_check sendIP :
  (negb (String.eqb sendIP "") && (Contains sendIP "/" || negb (isSome (ParseIP sendIP)))) = false
  ↔ sendIP = "" ∨ is_Some (ParseIP sendIP).
Proof.
  destruct (String.eqb_spec sendIP ""), (ParseIP sendIP) eqn:E; cbn; rewrite ?orb_true_r, ?orb_false_r, ?is_Some_alt;
    try naive_solver. rewrite (ParseIP_no_slash _ _ E). naive_solver.
Qed.

Lemma validateInputUpstream_ok u : is_ok (validateInputUpstream u) = true ↔ RuleValidator.upstream_ok (input_upstream u).
Proof.
  rewrite <-RuleValidator.validateUpstream_ok. unfold validateInputUpstream, RuleValidator.validateUpstream, reject_if.
  cbn [input_upstream RuleValidator.up_Type RuleValidator.up_TargetID RuleValidator.up_TargetGroupID].
  destruct (String.eqb _ "TARGET"); [by destruct (_ || _)|]. destruct (String.eqb _ "TARGET_GROUP"); [|done].
  by destruct (_ || _).
Qed.

Lemma result_unit_bind {E B} (m : result E ()) (f : () → result E B) b :
  (m ≫= f) = Ok b ↔ is_ok m = true ∧ f () = Ok b.
Proof. destruct m as [[]|e]; cbn; naive_solver. Qed.

Lemma validateRuleMutationInput_iff input j (i := trimRuleInput input) :
  validateRuleMutationInput input = Ok j ↔
  input_accepted i ∧ ∃ first rest,
    normalizeRulePortSegments (mi_Port i) (mi_PortSegments i) = first :: rest ∧
    j = normalizedInput i first (first :: rest).
Proof.
  unfold validateRuleMutationInput. fold i. cbv zeta. rewrite !reject_if_bind, !String.eqb_neq, Z.ltb_ge.
  destruct (normalizeRulePortSegments (mi_Port i) (mi_PortSegments i)) as [|first rest]; [naive_solver|].
  rewrite reject_if_bind, input_send_check. do 3 rewrite result_unit_bind.
  rewrite !reject_if_bind, RuleValidator.protocol_check, result_unit_bind, validateInputUpstream_ok.
  pose proof (input_match_check (mi_Protocol i) (mi_Match i)) as Hm.
  pose proof (RuleValidator.proxy_check (mi_Protocol i) (input_proxy (mi_ProxyProtocol i))) as Hp.
  cbv zeta in Hm. split.
  - intros (H1 & H2 & H3 & H4 & H5 & H6 & H7 & H8 & H9 & H10 & H11 & H12 & H13 & H14 & H15 & [= <-]).
    split; [|by exists first, rest]. constructor; try done; [by apply Hm|by apply Hp].
  - intros [[[? ?] ? ? ? ? ? ? ? Hm' Hp' ?] (? & ? & [= <- <-] & ->)]. apply Hm in Hm' as (? & ? & ?).
    apply Hp in Hp' as [? ?]. by split_and!.
Qed.

Lemma validateRuleMutationInput_settled r :
  settled r → validateRuleMutationInput (decodeRuleInput r) = Ok (decodeRuleInput r).
Proof.
  intros Hs. pose proof (trimRuleInput_settled r Hs) as Et. apply validateRuleMutationInput_iff. rewrite Et.
  destruct Hs as [[[H1 H1'] [H2 H2'] H3 (first & rest & H4 & H4') H5 H6 H7 H8 H9 H10 H11 H12 H13] Ht _ _].
  split.
  - constructor; cbn [decodeRuleInput mi_Name mi_NodeGroupID mi_ListenIP mi_SendIP mi_ForwardingType mi_FailurePolicy
      mi_DataplanePreference mi_Protocol mi_Match mi_ProxyProtocol mi_Upstream input_proxy input_upstream mproxy_In
      mproxy_Out mup_Type mup_TargetID mup_TargetGroupID]; try done.
    + by rewrite H7.
    + unfold validateFailurePolicy. rewrite (policy_fixed _ H8). unfold reject_if.
      by rewrite bool_decide_true by exact H8.
    + by apply preference_fixed in H9 as [_ H9].
    + destruct H10 as [|(? & ? & E)]; [by left|right]. split_and!; [done..|]. intros E'. cbn in E'. by rewrite E' in E.
  - set (l := mi_PortSegments (decodeRuleInput r)).
    assert (map segment_request l = RuleValidator.rr_PortSegments r) as El.
    { unfold l. cbn [decodeRuleInput mi_PortSegments]. rewrite map_map. rewrite <-(map_id (RuleValidator.rr_PortSegments r)) at 2.
      apply map_ext. by intros []. }
    rewrite normalizeRulePortSegments_id.
    + unfold l. cbn [decodeRuleInput mi_PortSegments]. rewrite H4. cbn [map].
      eexists _, _. split; [done|]. unfold normalizedInput, decodeRuleInput. cbn. rewrite H4, H4'. f_equal.
      destruct (String.eqb_spec (RuleValidator.match_Type (RuleValidator.rr_Match r)) "ANY_INBOUND") as [E|]; [|done].
      by rewrite (H11 E).
    + intros E. rewrite E in El. cbn in El. rewrite H4 in El. done.
    + by rewrite El.
Qed.
End unchanged.

(** ** Properties *)

(** C32. The second validation agrees with the first: a rule the HTTP layer
    accepted is accepted by the service and passes through unchanged, so the
    stored rule is the validated one.  Lower-casing must leave the stored tags
    and server name alone, as it does for every text it has produced from
    letters with one lower-case form. *)
Theorem validated_input_unchanged `{UnicodeTables} request r :
  RuleValidator.ValidateRuleRequest request = Ok r →
  Forall (λ v, lowerTrim v = v)
    (RuleValidator.match_SNIHostname (RuleValidator.rr_Match r) :: RuleValidator.rr_Tags r) →
  validateRuleMutationInput (decodeRuleInput r) = Ok (decodeRuleInput r).
Proof.
  intros Hr Hl. apply validateRuleMutationInput_settled. constructor.
  - by apply RuleValidator.ValidateRuleRequest_rule_stored in Hr.
  - apply RuleValidator.ValidateRuleRequest_iff in Hr as (_ & f & rs & _ & Hr).
    apply RuleValidator.validateRuleOptions_iff in Hr as [_ ->]. cbn. by repeat constructor; rewrite TrimSpace_idemp.
  - rewrite Forall_cons in Hl. destruct Hl as [_ Hl]. rewrite Forall_forall in Hl.
    apply RuleValidator.ValidateRuleRequest_iff in Hr as (_ & f & rs & _ & Hr).
    apply RuleValidator.validateRuleOptions_iff in Hr as [_ ->]. cbn in *.
    by apply dedupSorted_fixed.
  - by inversion Hl.
Qed.

Lemma validated_input_unchanged_witness :
  @validateRuleMutationInput ascii_tables (decodeRuleInput RuleValidator.example_stored_rule)
  = Ok (decodeRuleInput RuleValidator.example_stored_rule).
Proof.
  apply (@validated_input_unchanged ascii_tables RuleValidator.example_rule_request).
  - vm_compute. reflexivity.
  - repeat constructor.
Defined.

(** What the service accepts: on the trimmed input, exactly the names of 1
    to 120 bytes, present references, a literal send address or none, known
    options, a TLS_SNI rule only for TCP and with a host name, no proxy protocol
    for UDP, one upstream and at least one well-formed port; the ports come back
    in their canonical form and an ANY_INBOUND rule loses its host name. *)
Theorem validateRuleMutationInput_spec `{UnicodeTables} input j (i := trimRuleInput input) :
  validateRuleMutationInput input = Ok j ↔
  input_accepted i ∧ ∃ first rest,
    normalizeRulePortSegments (mi_Port i) (mi_PortSegments i) = first :: rest ∧
    j = normalizedInput i first (first :: rest).
Proof. apply validateRuleMutationInput_iff. Qed.
