(* ===== verification/TrafficLedger.v ===== *)
(** * The traffic ledger of the control plane

    What happens to a report after the agent has sent it: the metrics case of
    the agent connection (pkg/core/handler/agent_ws.go), [RecordNodeTrafficReport]
    (pkg/core/service/control_rule_traffic.go) and the statements of
    pkg/core/repo/targets_rules.go over the tables of
    migrations/core/00001_core.sql and 00002_rule_traffic_reports.sql.

    The second half composes it with the agent's spool (TrafficSpool.v) over a
    network that may lose, repeat, delay and reorder reports and
    acknowledgements. *)

From S2P Require Import Prelude GoString GoInt Agent Traffic TrafficSpool Domain ValidatorBase ServiceErrors.
#[local] Open Scope Z_scope.

(** ** Tables

    The columns that are read back: row identifiers and time stamps are not.
    A statement that breaks a constraint of the tables fails, and so does an
    addition that leaves the range of a bigint. *)

Record RuleTrafficRecord := {
  traffic_UploadBytes : Z; traffic_DownloadBytes : Z; traffic_TCPConnections : Z; traffic_UDPPackets : Z }.
#[export] Instance RuleTrafficRecord_eq_dec : EqDecision RuleTrafficRecord.
Proof. solve_decision. Defined.

(** The struct is copied field by field from [agent.RuleTrafficDelta]. *)
Definition RuleTrafficDeltaRecord : Type := RuleTrafficDelta.

Record RuleTrafficReportRecord := {
  rep_OrganizationID : string; rep_AgentID : string; rep_ReportID : string }.

Record counterRow := { counter_OrganizationID : string; counter_Traffic : RuleTrafficRecord }.

(** [ledger_Rules] gives the organization of each row of forwarding_rules,
    [ledger_Nodes] the rows of nodes, by organization and id, and whether they
    are deleted. *)
Record ledger := {
  ledger_Rules : gmap string string;
  ledger_Nodes : gmap (string * string) bool;
  ledger_Reports : gset (string * string * string);
  ledger_Assignments : gset (string * string * string);
  ledger_Counters : gmap string counterRow }.

Definition with_reports (l : ledger) (reports : gset (string * string * string)) : ledger := {|
  ledger_Rules := ledger_Rules l; ledger_Nodes := ledger_Nodes l; ledger_Reports := reports;
  ledger_Assignments := ledger_Assignments l; ledger_Counters := ledger_Counters l |}.
Definition with_assignments (l : ledger) (assignments : gset (string * string * string)) : ledger := {|
  ledger_Rules := ledger_Rules l; ledger_Nodes := ledger_Nodes l; ledger_Reports := ledger_Reports l;
  ledger_Assignments := assignments; ledger_Counters := ledger_Counters l |}.
Definition with_counters (l : ledger) (counters : gmap string counterRow) : ledger := {|
  ledger_Rules := ledger_Rules l; ledger_Nodes := ledger_Nodes l; ledger_Reports := ledger_Reports l;
  ledger_Assignments := ledger_Assignments l; ledger_Counters := counters |}.

Definition errBigintRange : serviceError := OtherError "bigint out of range".

(** ** Statements *)

Definition positiveRuleTrafficDelta (value : Z) : Z := if value <? 0 then 0 else value.

Definition mergeRuleTrafficDeltas (deltas : list RuleTrafficDeltaRecord) : list RuleTrafficDeltaRecord :=
  List.filter (λ d, negb (delta_is_zero d))
    (merged_all (λ id, String.eqb (TrimSpace id) "") TrimSpace positiveRuleTrafficDelta deltas).

Definition zero_traffic : RuleTrafficRecord := {|
  traffic_UploadBytes := 0; traffic_DownloadBytes := 0; traffic_TCPConnections := 0; traffic_UDPPackets := 0 |}.

Definition SumRuleTraffic (organizationID ruleID : string) (l : ledger) : RuleTrafficRecord :=
  match ledger_Counters l !! ruleID with
  | Some row => if String.eqb (counter_OrganizationID row) organizationID then counter_Traffic row else zero_traffic
  | None => zero_traffic
  end.

Definition inserted_traffic (d : RuleTrafficDeltaRecord) : RuleTrafficRecord := {|
  traffic_UploadBytes := delta_UploadBytes d; traffic_DownloadBytes := delta_DownloadBytes d;
  traffic_TCPConnections := delta_TCPConnections d; traffic_UDPPackets := delta_UDPPackets d |}.
Definition added_traffic (t u : RuleTrafficRecord) : RuleTrafficRecord := {|
  traffic_UploadBytes := traffic_UploadBytes t + traffic_UploadBytes u;
  traffic_DownloadBytes := traffic_DownloadBytes t + traffic_DownloadBytes u;
  traffic_TCPConnections := traffic_TCPConnections t + traffic_TCPConnections u;
  traffic_UDPPackets := traffic_UDPPackets t + traffic_UDPPackets u |}.
Definition any_field (p : Z → bool) (t : RuleTrafficRecord) : bool :=
  p (traffic_UploadBytes t) || p (traffic_DownloadBytes t) || p (traffic_TCPConnections t) || p (traffic_UDPPackets t).

(** The INSERT ... SELECT ... WHERE EXISTS ... ON CONFLICT DO UPDATE of one delta. *)
Definition recordDelta (organizationID agentID : string) (l : ledger) (d : RuleTrafficDeltaRecord)
    : result serviceError ledger :=
  if negb (bool_decide ((organizationID, agentID, delta_RuleID d) ∈ ledger_Assignments l)) then Ok l
  else
    let new := inserted_traffic d in
    reject_if (any_field (λ z, z <? 0) new) RepoErrConflict;;
    match ledger_Counters l !! delta_RuleID d with
    | None =>
        Ok (with_counters l (<[delta_RuleID d := {| counter_OrganizationID := organizationID;
                                                     counter_Traffic := new |}]> (ledger_Counters l)))
    | Some row =>
        let sum := added_traffic (counter_Traffic row) new in
        reject_if (any_field (λ z, 2 ^ 63 <=? z) sum) errBigintRange;;
        Ok (with_counters l (<[delta_RuleID d := {| counter_OrganizationID := counter_OrganizationID row;
                                                     counter_Traffic := sum |}]> (ledger_Counters l)))
    end.

Definition RecordRuleTrafficReport (organizationID agentID : string) (report : RuleTrafficReportRecord)
    (deltas : list RuleTrafficDeltaRecord) (l : ledger) : result serviceError (bool * ledger) :=
  let reportID := TrimSpace (rep_ReportID report) in
  if String.eqb reportID "" || is_nil deltas then Ok (false, l)
  else
    let reportOrganization := if String.eqb (rep_OrganizationID report) "" then organizationID else rep_OrganizationID report in
    let reportAgent := if String.eqb (rep_AgentID report) "" then agentID else rep_AgentID report in
    let key := (reportOrganization, reportAgent, reportID) in
    if bool_decide (key ∈ ledger_Reports l) then Ok (false, l)
    else
      reject_if (negb (bool_decide (is_Some (ledger_Nodes l !! (reportOrganization, reportAgent))))) RepoErrConflict;;
      l ← fold_result (recordDelta organizationID agentID) (with_reports l ({[key]} ∪ ledger_Reports l))
            (mergeRuleTrafficDeltas deltas);
      Ok (true, l).

Definition assignStep (organizationID nodeID : string) (s : gset string * ledger) (ruleID : string)
    : result serviceError (gset string * ledger) :=
  let '(seen, l) := s in
  let ruleID := TrimSpace ruleID in
  if String.eqb ruleID "" || bool_decide (ruleID ∈ seen) then Ok s
  else
    reject_if (negb (bool_decide (ledger_Rules l !! ruleID = Some organizationID)
                     && bool_decide (is_Some (ledger_Nodes l !! (organizationID, nodeID))))) RepoErrConflict;;
    Ok ({[ruleID]} ∪ seen, with_assignments l ({[(organizationID, nodeID, ruleID)]} ∪ ledger_Assignments l)).

Definition RecordNodeRuleTrafficAssignments (organizationID nodeID : string) (ruleIDs : list string) (l : ledger)
    : result serviceError ledger :=
  '(_, l) ← fold_result (assignStep organizationID nodeID) (∅, l) ruleIDs; Ok l.

(** ** The service and the connection *)

(** [WithinTx] commits what the function did, or nothing when it failed. *)
Definition withinTx {A} (f : ledger → result serviceError (A * ledger)) (l : ledger)
    : result serviceError A * ledger :=
  match f l with Ok (a, l') => (Ok a, l') | Err e => (Err e, l) end.

Definition mapped {A} (r : result serviceError A) : result serviceError A :=
  map_err (λ e, default e (mapServiceError (Some e))) r.

Definition RecordNodeTrafficReport (organizationID nodeID reportID : string) (deltas : list RuleTrafficDelta)
    (l : ledger) : result serviceError bool * ledger :=
  if String.eqb reportID "" || is_nil deltas then (Ok false, l)
  else
    let '(r, l) := withinTx (λ l,
      match ledger_Nodes l !! (organizationID, nodeID) with
      | Some false =>
          RecordRuleTrafficReport organizationID nodeID
            {| rep_OrganizationID := organizationID; rep_AgentID := nodeID; rep_ReportID := reportID |} deltas l
      | _ => Err RepoErrNotFound
      end) l in
    (mapped r, l).

Inductive agentReply := MetricsAck (reportID : string) | AgentError (code : string) | StaleSession | NoReply.

(** The metrics case of the read loop; [current] is what
    [UpdateMetricsForConnection] says of the connection. *)
Definition handleMetrics (organizationID agentType agentID : string) (current : bool) (reportID : string)
    (deltas : list RuleTrafficDelta) (l : ledger) : agentReply * ledger :=
  if negb current then (StaleSession, l)
  else if String.eqb agentType "NODE" && negb (String.eqb reportID "") && negb (is_nil deltas) then
    let '(r, l) := RecordNodeTrafficReport organizationID agentID reportID deltas l in
    match r with
    | Ok _ => (MetricsAck reportID, l)
    | Err e => if errors_is is_not_found e then (StaleSession, l) else (AgentError "TRAFFIC_REPORT_FAILED", l)
    end
  else (NoReply, l).

(** The traffic part of [collectMetrics] of the agent
    (pkg/core/agent/runtime_client.go); the result is the report sent, if any. *)
Definition collectMetrics (writesQueue writesAttach : bool) (deltas : list RuleTrafficDelta) (newID : string) (s : spool)
    : spool * option (string * list RuleTrafficDelta) :=
  attachTrafficReport writesAttach newID (queueTrafficDeltas writesQueue deltas s).

(** ** One node, its connection and the ledger

    [w_sent] holds every report the node ever sent and [w_acks] every
    acknowledgement it was ever sent: any of them may arrive at any time, any
    number of times, or never.  The remaining fields are ghosts: the deltas
    the forwarder handed to the spool, the reports of this node that were
    recorded, and the deltas that other nodes had counted. *)

Record world := {
  w_spool : spool; w_ledger : ledger; w_sent : list (string * list RuleTrafficDelta); w_acks : list string;
  w_queued : list RuleTrafficDelta; w_counted : list RuleTrafficDelta; w_foreign : list RuleTrafficDelta }.

Definition start (path : bool) (l : ledger) : world := {|
  w_spool := spool_new path; w_ledger := l; w_sent := []; w_acks := []; w_queued := []; w_counted := [];
  w_foreign := [] |}.

Definition report_key (organizationID agentID reportID : string) : string * string * string :=
  (organizationID, agentID, TrimSpace reportID).

(** The deltas of a report that is recorded now, and those of them that count:
    the ones of rules assigned to the node. *)
Definition recorded_deltas (organizationID agentID reportID : string) (deltas : list RuleTrafficDelta) (l : ledger)
    : list RuleTrafficDelta :=
  match (RecordNodeTrafficReport organizationID agentID reportID deltas l).1 with
  | Ok true => mergeRuleTrafficDeltas deltas
  | _ => []
  end.
Definition assigned (organizationID agentID : string) (l : ledger) (d : RuleTrafficDelta) : bool :=
  bool_decide ((organizationID, agentID, delta_RuleID d) ∈ ledger_Assignments l).
Definition counted_deltas (organizationID agentID reportID : string) (deltas : list RuleTrafficDelta) (l : ledger)
    : list RuleTrafficDelta :=
  List.filter (assigned organizationID agentID l) (recorded_deltas organizationID agentID reportID deltas l).

Section protocol.
Context (organizationID agentID : string) (reliable : bool).

(** The agent runs its metrics tick. *)
Definition tick (writesQueue writesAttach : bool) (deltas : list RuleTrafficDelta) (newID : string) (w : world) : world :=
  let '(s, report) := collectMetrics writesQueue writesAttach deltas newID (w_spool w) in {|
  w_spool := s; w_ledger := w_ledger w; w_sent := option_list report ++ w_sent w; w_acks := w_acks w;
  w_queued := w_queued w ++ deltas; w_counted := w_counted w; w_foreign := w_foreign w |}.

(** A report of the node arrives. *)
Definition deliver (current : bool) (report : string * list RuleTrafficDelta) (w : world) : world :=
  let '(reply, l) := handleMetrics organizationID "NODE" agentID current report.1 report.2 (w_ledger w) in {|
  w_spool := w_spool w; w_ledger := l; w_sent := w_sent w;
  w_acks := match reply with MetricsAck id => id :: w_acks w | _ => w_acks w end; w_queued := w_queued w;
  w_counted := w_counted w ++
    (if current then recorded_deltas organizationID agentID report.1 report.2 (w_ledger w) else []);
  w_foreign := w_foreign w |}.

(** An acknowledgement arrives at the node. *)
Definition confirm (writes : bool) (id : string) (w : world) : world := {|
  w_spool := acknowledgeTrafficReport writes id (w_spool w); w_ledger := w_ledger w; w_sent := w_sent w;
  w_acks := w_acks w; w_queued := w_queued w; w_counted := w_counted w; w_foreign := w_foreign w |}.

(** The agent restarts. *)
Definition reboot (w : world) : world := {|
  w_spool := restart (w_spool w); w_ledger := w_ledger w; w_sent := w_sent w; w_acks := w_acks w;
  w_queued := w_queued w; w_counted := w_counted w; w_foreign := w_foreign w |}.

(** Rules are assigned to some node. *)
Definition assign (organizationID' nodeID : string) (ruleIDs : list string) (w : world) : world := {|
  w_spool := w_spool w;
  w_ledger := match RecordNodeRuleTrafficAssignments organizationID' nodeID ruleIDs (w_ledger w) with
              | Ok l => l | Err _ => w_ledger w end;
  w_sent := w_sent w; w_acks := w_acks w; w_queued := w_queued w; w_counted := w_counted w;
  w_foreign := w_foreign w |}.

(** Another node sends whatever it likes. *)
Definition other (organizationID' nodeID reportID : string) (deltas : list RuleTrafficDelta) (w : world) : world := {|
  w_spool := w_spool w;
  w_ledger := (handleMetrics organizationID' "NODE" nodeID true reportID deltas (w_ledger w)).2;
  w_sent := w_sent w; w_acks := w_acks w; w_queued := w_queued w; w_counted := w_counted w;
  w_foreign := w_foreign w ++ counted_deltas organizationID' nodeID reportID deltas (w_ledger w) |}.

(** An identifier that is new for the node, as 16 random bytes are. *)
Definition fresh (id : string) (w : world) : Prop :=
  TrimSpace id = id ∧ id ≠ "" ∧ (id ∉ map fst (w_sent w)) ∧ (organizationID, agentID, id) ∉ ledger_Reports (w_ledger w).

Inductive Reach (w0 : world) : world → Prop :=
| reach_start : Reach w0 w0
| reach_tick w writesQueue writesAttach deltas newID :
    Reach w0 w → (reliable = true → writesQueue = true ∧ writesAttach = true) → fresh newID w →
    (∀ f R, spool_total f R (w_queued w ++ deltas) < 2 ^ 63) →
    Reach w0 (tick writesQueue writesAttach deltas newID w)
| reach_deliver w current report :
    Reach w0 w → report ∈ w_sent w → Reach w0 (deliver current report w)
| reach_confirm w writes id :
    Reach w0 w → (reliable = true → writes = true) → id ∈ w_acks w → Reach w0 (confirm writes id w)
| reach_reboot w : Reach w0 w → reliable = true → Reach w0 (reboot w)
| reach_assign w organizationID' nodeID ruleIDs : Reach w0 w → Reach w0 (assign organizationID' nodeID ruleIDs w)
| reach_other w organizationID' nodeID reportID deltas :
    Reach w0 w → ((organizationID', nodeID) ≠ (organizationID, agentID)) → organizationID' ≠ "" → nodeID ≠ "" →
    Reach w0 (other organizationID' nodeID reportID deltas w).
End protocol.

(** ** The statements keep the tables consistent and add exactly what they say *)

Definition record_field (f : traffic_field) (t : RuleTrafficRecord) : Z :=
  match f with
  | FUpload => traffic_UploadBytes t | FDownload => traffic_DownloadBytes t
  | FConnections => traffic_TCPConnections t | FPackets => traffic_UDPPackets t
  end.
(** What the control plane shows for a rule. *)
Definition ledger_total (f : traffic_field) (organizationID R : string) (l : ledger) : Z :=
  record_field f (SumRuleTraffic organizationID R l).

Record ledger_wf (l : ledger) : Prop := {
  lw_assigned o n R : (o, n, R) ∈ ledger_Assignments l → ledger_Rules l !! R = Some o;
  lw_counter R row : ledger_Counters l !! R = Some row → ledger_Rules l !! R = Some (counter_OrganizationID row) }.

Lemma positive_max z : positiveRuleTrafficDelta z = maxInt64 z 0.
Proof. unfold positiveRuleTrafficDelta, maxInt64. destruct (Z.ltb_spec z 0), (Z.ltb_spec 0 z); lia. Qed.

Lemma mergeRule_eq deltas : mergeRuleTrafficDeltas deltas = mergeTrafficDeltas deltas.
Proof.
  unfold mergeRuleTrafficDeltas, mergeTrafficDeltas, merged_all, merge_loop. do 2 f_equal.
  assert (∀ s d, merge_step (λ id, String.eqb (TrimSpace id) "") TrimSpace positiveRuleTrafficDelta s d
    = merge_step (λ id, String.eqb (TrimSpace id) "") TrimSpace (λ z, maxInt64 z 0) s d) as H.
  { intros [byRule order] d. unfold merge_step, merge_add. by rewrite !positive_max. }
  by rewrite (foldl_step_ext _ _ _ _ H).
Qed.

Section totals.
Context (o : string) (R : string).

(** What a statement or an operation leaves alone: everything but the counters. *)
Definition same_tables (l l' : ledger) : Prop :=
  ledger_Rules l' = ledger_Rules l ∧ ledger_Nodes l' = ledger_Nodes l ∧ ledger_Assignments l' = ledger_Assignments l.

(** The totals of the observed rule grow by what a list of deltas says of it. *)
Definition grows (l l' : ledger) (deltas : list RuleTrafficDelta) : Prop :=
  ledger_Rules l !! R = Some o → ∀ f, ledger_total f o R l' = ledger_total f o R l + rule_total f R deltas.

Lemma write_counter_spec organizationID l d t
  (l' := with_counters l (<[delta_RuleID d := {| counter_OrganizationID := organizationID; counter_Traffic := t |}]>
                            (ledger_Counters l))) :
  ledger_wf l → ledger_Rules l !! delta_RuleID d = Some organizationID →
  (∀ f, record_field f t = ledger_total f organizationID (delta_RuleID d) l + delta_field f d) →
  ledger_wf l' ∧ grows l l' [d].
Proof.
  intros [Hwa Hwc] Hrule Ht. split.
  - constructor; [apply Hwa|]. cbn. intros R' row.
    destruct (decide (delta_RuleID d = R')) as [<-|]; [|rewrite lookup_insert_ne by done; apply Hwc].
    rewrite lookup_insert_eq. by intros [= <-].
  - intros HR f. unfold rule_total, Zsum, rule_amount. cbn [map foldr].
    destruct (String.eqb_spec (delta_RuleID d) R) as [E|E].
    + subst R. rewrite Hrule in HR. injection HR as ->. rewrite Z.add_0_r, <-Ht. unfold ledger_total, SumRuleTraffic, l'. cbn.
      by rewrite lookup_insert_eq, String.eqb_refl.
    + unfold ledger_total, SumRuleTraffic, l'. cbn. rewrite lookup_insert_ne by done. lia.
Qed.

Lemma grows_nil l : grows l l [].
Proof. intros _ f. change (rule_total f R []) with 0. lia. Qed.

(** One delta. *)
Lemma recordDelta_spec organizationID agentID l d l' :
  recordDelta organizationID agentID l d = Ok l' → ledger_wf l →
  ledger_wf l' ∧ same_tables l l' ∧ ledger_Reports l' = ledger_Reports l ∧
  grows l l' (List.filter (assigned organizationID agentID l) [d]).
Proof.
  unfold recordDelta, assigned. intros Hl Hwf. cbn [List.filter]. case_bool_decide as Ha; cbn [negb] in Hl.
  2: { injection Hl as <-. do 3 (split; [done|]). apply grows_nil. }
  apply reject_if_bind in Hl as [_ Hl]. pose proof (lw_assigned _ Hwf _ _ _ Ha) as Hrule.
  destruct (ledger_Counters l !! delta_RuleID d) as [row|] eqn:Er.
  - apply reject_if_bind in Hl as [_ Hl]. injection Hl as <-.
    pose proof (lw_counter _ Hwf _ _ Er) as Ho. rewrite Hrule in Ho. injection Ho as Ho. rewrite <-Ho.
    destruct (write_counter_spec organizationID l d (added_traffic (counter_Traffic row) (inserted_traffic d))) as [H1 H2];
      try done. intros f. unfold ledger_total, SumRuleTraffic. rewrite Er, <-Ho, String.eqb_refl. by destruct f.
  - injection Hl as <-. destruct (write_counter_spec organizationID l d (inserted_traffic d)) as [H1 H2]; try done.
    intros f. unfold ledger_total, SumRuleTraffic. rewrite Er. by destruct f.
Qed.

(** All deltas of a report. *)
Lemma recordDeltas_spec organizationID agentID deltas l l' :
  fold_result (recordDelta organizationID agentID) l deltas = Ok l' → ledger_wf l →
  ledger_wf l' ∧ same_tables l l' ∧ ledger_Reports l' = ledger_Reports l ∧
  grows l l' (List.filter (assigned organizationID agentID l) deltas).
Proof.
  intros Hl Hwf. revert l' Hl.
  apply (fold_result_ind _ (λ ds l', ledger_wf l' ∧ same_tables l l' ∧ ledger_Reports l' = ledger_Reports l ∧
    grows l l' (List.filter (assigned organizationID agentID l) ds))).
  - do 3 (split; [done|]). apply grows_nil.
  - intros ds d l1 l2 (Hw & (H1 & H2 & H3) & Hr & Hg) (Hw' & (H1' & H2' & H3') & Hr' & Hg')%recordDelta_spec; [|done].
    split; [done|]. split; [unfold same_tables; by rewrite H1', H2', H3'|]. split; [congruence|].
    intros HR f. rewrite List.filter_app, rule_total_app, Z.add_assoc, <-Hg by done.
    rewrite H1 in *. unfold grows in Hg'. rewrite H1 in Hg'. rewrite (Hg' HR f). unfold assigned. by rewrite H3.
Qed.

(** A report: recorded now, recorded before, or refused. *)
Lemma RecordNodeTrafficReport_spec organizationID nodeID reportID deltas l r l' :
  RecordNodeTrafficReport organizationID nodeID reportID deltas l = (r, l') → ledger_wf l →
  TrimSpace reportID ≠ "" → deltas ≠ [] → organizationID ≠ "" → nodeID ≠ "" →
  let key := report_key organizationID nodeID reportID in
  ledger_wf l' ∧ same_tables l l' ∧ grows l l' (counted_deltas organizationID nodeID reportID deltas l) ∧
  match r with
  | Ok true => (key ∉ ledger_Reports l) ∧ ledger_Reports l' = {[key]} ∪ ledger_Reports l
  | Ok false => key ∈ ledger_Reports l ∧ l' = l
  | Err _ => l' = l
  end.
Proof.
  intros Hr Hwf Hid Hds Ho Hn. cbv zeta. unfold counted_deltas, recorded_deltas. rewrite Hr. cbn [fst].
  unfold RecordNodeTrafficReport in Hr.
  destruct (String.eqb_spec reportID "") as [->|_]; [done|].
  destruct deltas as [|d ds]; [done|]. cbn [is_nil orb] in Hr. set (deltas := d :: ds) in *.
  assert (l' = l → ¬ (∃ b, r = Ok b) ∨ (r = Ok false ∧ report_key organizationID nodeID reportID ∈ ledger_Reports l) →
    ledger_wf l' ∧ same_tables l l' ∧ grows l l' (List.filter (assigned organizationID nodeID l)
      match r with Ok true => mergeRuleTrafficDeltas deltas | _ => [] end) ∧
    match r with
    | Ok true => (report_key organizationID nodeID reportID ∉ ledger_Reports l)
        ∧ ledger_Reports l' = {[report_key organizationID nodeID reportID]} ∪ ledger_Reports l
    | Ok false => report_key organizationID nodeID reportID ∈ ledger_Reports l ∧ l' = l
    | Err _ => l' = l end) as Hsame.
  { intros -> [Hno|[-> Hin]]; [|do 2 (split; [done|]); split; [apply grows_nil|done]].
    destruct r as [b|e]; [destruct Hno; by exists b|]. do 2 (split; [done|]). split; [apply grows_nil|done]. }
  unfold withinTx in Hr. destruct (ledger_Nodes l !! (organizationID, nodeID)) as [[]|] eqn:En;
    [injection Hr as <- <-; apply Hsame; [done|]; left; by intros [? ?]| |injection Hr as <- <-; apply Hsame; [done|]; left; by intros [? ?]].
  unfold RecordRuleTrafficReport in Hr. cbn [rep_ReportID rep_OrganizationID rep_AgentID] in Hr.
  rewrite !(proj2 (String.eqb_neq _ _)) in Hr by done. cbn [is_nil orb] in Hr. unfold deltas in Hr at 1. cbn [is_nil orb] in Hr.
  fold (report_key organizationID nodeID reportID) in Hr. case_bool_decide as Hk.
  { injection Hr as <- <-. apply Hsame; [done|]. by right. }
  rewrite En, bool_decide_true in Hr by eauto. cbn [negb reject_if mbind result_bind] in Hr.
  set (l1 := with_reports l _) in Hr.
  destruct (fold_result (recordDelta organizationID nodeID) l1 (mergeRuleTrafficDeltas deltas)) as [l2|e] eqn:Ef;
    cbn [mbind result_bind] in Hr; injection Hr as <- <-.
  - apply recordDeltas_spec in Ef as (Hw & Hs & Hrep & Hg); [|by destruct Hwf].
    split; [done|]. split; [done|]. split; [done|]. by rewrite Hrep.
  - apply Hsame; [done|]. left. by intros [? ?].
Qed.

(** The connection acknowledges exactly what the ledger holds. *)
Lemma handleMetrics_spec organizationID agentID current reportID deltas l reply l' :
  handleMetrics organizationID "NODE" agentID current reportID deltas l = (reply, l') → ledger_wf l →
  TrimSpace reportID ≠ "" → deltas ≠ [] → organizationID ≠ "" → agentID ≠ "" →
  let key := report_key organizationID agentID reportID in
  let recorded := if current then recorded_deltas organizationID agentID reportID deltas l else [] in
  ledger_wf l' ∧ same_tables l l' ∧ grows l l' (List.filter (assigned organizationID agentID l) recorded) ∧
  ((ledger_Reports l' = ledger_Reports l ∧ recorded = []) ∨
   ((key ∉ ledger_Reports l) ∧ ledger_Reports l' = {[key]} ∪ ledger_Reports l ∧ recorded = mergeRuleTrafficDeltas deltas)) ∧
  (∀ id, reply = MetricsAck id → id = reportID ∧ key ∈ ledger_Reports l').
Proof.
  intros Hh Hwf Hid Hds Ho Hn. cbv zeta. unfold handleMetrics in Hh. destruct current; cbn [negb] in Hh.
  2: { injection Hh as <- <-. do 2 (split; [done|]). split; [apply grows_nil|]. split; [by left|done]. }
  rewrite (proj2 (String.eqb_neq reportID "")) in Hh by (by intros ->).
  assert (is_nil deltas = false) as E by (by destruct deltas). rewrite E in Hh. cbn [negb andb String.eqb] in Hh.
  destruct (RecordNodeTrafficReport organizationID agentID reportID deltas l) as [r l1] eqn:Er.
  pose proof (RecordNodeTrafficReport_spec _ _ _ _ _ _ _ Er Hwf Hid Hds Ho Hn) as (Hw & Hs & Hg & Hr). cbv zeta in Hr.
  unfold counted_deltas, recorded_deltas in *. rewrite Er in *. cbn [fst] in *.
  assert (l' = l1) as -> by (cbn in Hh; destruct r as [|e]; [|destruct (errors_is is_not_found e)]; congruence).
  do 3 (split; [done|]). cbn in Hh. destruct r as [[]|e].
  - destruct Hr as [Hk Hrep]. split; [by right|]. intros id ->. injection Hh as <-. rewrite Hrep. set_solver.
  - destruct Hr as [Hk ->]. split; [by left|]. intros id ->. by injection Hh as <-.
  - subst l1. split; [by left|]. intros id ->. by destruct (errors_is is_not_found e).
Qed.
End totals.

Lemma handleMetrics_ignored organizationID agentID reportID deltas l :
  TrimSpace reportID = "" ∨ deltas = [] →
  (handleMetrics organizationID "NODE" agentID true reportID deltas l).2 = l ∧
  recorded_deltas organizationID agentID reportID deltas l = [].
Proof.
  intros H. unfold handleMetrics, recorded_deltas, RecordNodeTrafficReport. cbn [negb andb String.eqb].
  destruct (String.eqb_spec reportID "") as [->|]; [done|]. destruct deltas as [|d ds]; [done|].
  destruct H as [H|]; [|done]. cbn [is_nil orb negb andb]. unfold withinTx, RecordRuleTrafficReport.
  destruct (ledger_Nodes l !! (organizationID, agentID)) as [[]|]; [done| |done]. cbn [rep_ReportID]. by rewrite H.
Qed.

Lemma assign_spec organizationID nodeID ruleIDs l l' :
  RecordNodeRuleTrafficAssignments organizationID nodeID ruleIDs l = Ok l' → ledger_wf l →
  ledger_wf l' ∧ ledger_Rules l' = ledger_Rules l ∧ ledger_Reports l' = ledger_Reports l ∧
  ledger_Counters l' = ledger_Counters l ∧ ledger_Assignments l ⊆ ledger_Assignments l'.
Proof.
  unfold RecordNodeRuleTrafficAssignments. intros Hl Hwf.
  apply result_bind_ok in Hl as ([seen l1] & Hf & [= <-]). change l1 with (seen, l1).2. revert Hf.
  generalize (seen, l1) as s. intros s Hf. revert s Hf.
  apply (fold_result_ind _ (λ _ s, ledger_wf s.2 ∧ ledger_Rules s.2 = ledger_Rules l ∧ ledger_Reports s.2 = ledger_Reports l ∧
    ledger_Counters s.2 = ledger_Counters l ∧ ledger_Assignments l ⊆ ledger_Assignments s.2)); [done|].
  intros _ ruleID [seen' l2] s' (Hw & H1 & H2 & H3 & H4) Hs. cbn [snd] in *. unfold assignStep in Hs.
  destruct (_ || _); [by injection Hs as <-|]. apply reject_if_bind in Hs as [Hc [= <-]]. bool_hyps.
  cbn [snd with_assignments ledger_Rules ledger_Reports ledger_Counters ledger_Assignments].
  split; [|split_and!; done || set_solver]. constructor; [|apply Hw]. cbn.
  intros o n R [[= -> -> ->]%elem_of_singleton|Hin]%elem_of_union; [done|]. by apply (lw_assigned _ Hw) in Hin.
Qed.

(** ** The invariant of the composition *)

Section invariant.
Context (organizationID agentID : string) (reliable : bool).
Hypothesis organization_named : organizationID ≠ "".
Hypothesis agent_named : agentID ≠ "".

Definition is_recorded (w : world) (id : string) : bool :=
  bool_decide ((organizationID, agentID, id) ∈ ledger_Reports (w_ledger w)).

(** What the node holds although the ledger has it, its acknowledgement being
    under way, and what the ledger does not have yet. *)
Definition unconfirmed (f : traffic_field) (R : string) (w : world) : Z :=
  if is_recorded w (in_flight (w_spool w)).1 then rule_total f R (in_flight (w_spool w)).2 else 0.
Definition unrecorded (f : traffic_field) (R : string) (w : world) : Z := held f R (w_spool w) - unconfirmed f R w.

Record report_ok (report : string * list RuleTrafficDelta) : Prop := {
  ro_id : TrimSpace report.1 = report.1 ∧ report.1 ≠ "";
  ro_deltas : normal_deltas report.2 ∧ report.2 ≠ [] }.

Record world_inv (w0 w : world) : Prop := {
  wi_spool : spoolInv reliable (w_spool w);
  wi_ledger : ledger_wf (w_ledger w);
  wi_rules : ledger_Rules (w_ledger w) = ledger_Rules (w_ledger w0);
  wi_assigned : ledger_Assignments (w_ledger w0) ⊆ ledger_Assignments (w_ledger w);
  wi_sent report : report ∈ w_sent w → report_ok report;
  wi_same id ds ds' : (id, ds) ∈ w_sent w → (id, ds') ∈ w_sent w → ds = ds';
  wi_flight : (in_flight (w_spool w)).1 ≠ "" → in_flight (w_spool w) ∈ w_sent w;
  wi_settled id ds : (id, ds) ∈ w_sent w → id = (in_flight (w_spool w)).1 ∨ is_recorded w id = true;
  wi_acks id : id ∈ w_acks w → is_recorded w id = true ∧ TrimSpace id = id;
  wi_account f R : rule_total f R (w_counted w) + unrecorded f R w = spool_total f R (w_queued w);
  wi_totals f R : (organizationID, agentID, R) ∈ ledger_Assignments (w_ledger w0) →
    ledger_total f organizationID R (w_ledger w)
    = ledger_total f organizationID R (w_ledger w0) + rule_total f R (w_counted w) + rule_total f R (w_foreign w);
  wi_small f R : spool_total f R (w_queued w) < 2 ^ 63;
  wi_counted f R : 0 ≤ unconfirmed f R w ≤ rule_total f R (w_counted w) }.

(** *** The agent's tick *)

Lemma in_flight_queue writes deltas s : in_flight (queueTrafficDeltas writes deltas s) = in_flight s.
Proof.
  unfold queueTrafficDeltas. destruct (is_nil _); [done|].
  rewrite in_flight_persist by done. done.
Qed.

(** Attaching keeps the report in flight, or puts the pending deltas in flight. *)
Lemma attach_cases writes newID s :
  spoolInv reliable s → newID ≠ "" →
  let '(s', report) := attachTrafficReport writes newID s in
  (in_flight s' = in_flight s ∧ report = (if String.eqb (in_flight s).1 "" then None else Some (in_flight s))) ∨
  ((in_flight s).1 = "" ∧ (in_flight s).2 = [] ∧ ∃ ds, in_flight s' = (newID, ds) ∧ report = Some (newID, ds) ∧
    normal_deltas ds ∧ ds ≠ []).
Proof.
  intros Hinv Hid. pose proof (load_sets_loaded s) as Hl. unfold attachTrafficReport, in_flight at 3 4 5 6.
  set (l := loadTrafficSpoolLocked s) in *. pose proof (si_ok _ _ Hinv) as Hok. fold l in Hok.
  cbn [fst snd]. destruct (String.eqb_spec (trafficInFlightID l) "") as [E|E]; cbn [andb orb].
  - pose proof (proj1 (sp_empty _ Hok) E) as E2. destruct (trafficPending l) as [|d ds] eqn:Ep; cbn [is_nil negb].
    + rewrite E. cbn [String.eqb orb]. left. rewrite in_flight_loaded by done. unfold in_flight. fold l. by rewrite E, E2.
    + pose proof (in_flight_persist writes (with_traffic l [] newID (d :: ds)) eq_refl) as Hp.
      destruct (persist_fields writes (with_traffic l [] newID (d :: ds))) as (Ht & _).
      unfold traffic_of in Ht. cbn in Ht. injection Ht as E1 E3 E4. rewrite E3, E4, (proj2 (String.eqb_neq newID "")) by done.
      cbn [is_nil orb]. right. split; [done|]. split; [done|]. exists (d :: ds). rewrite Hp. do 2 (split; [done|]).
      rewrite <-Ep. split; [apply Hok|by rewrite Ep].
  - rewrite (proj2 (String.eqb_neq _ _)) by done. cbn [orb].
    destruct (trafficInFlight l) as [|d ds] eqn:Ei; [by apply (sp_empty _ Hok) in Ei|]. cbn [is_nil]. left.
    rewrite in_flight_loaded by done. unfold in_flight. fold l. by rewrite Ei.
Qed.

Lemma collect_conserves writesQueue writesAttach deltas newID s :
  spoolInv reliable s → (reliable = true → writesQueue = true ∧ writesAttach = true) →
  TrimSpace newID = newID → newID ≠ "" → (∀ f R, held f R s + spool_total f R deltas < 2 ^ 63) →
  let s1 := queueTrafficDeltas writesQueue deltas s in
  spoolInv reliable s1 ∧ spoolInv reliable (collectMetrics writesQueue writesAttach deltas newID s).1 ∧
  ∀ f R, held f R (collectMetrics writesQueue writesAttach deltas newID s).1 = held f R s + spool_total f R deltas.
Proof.
  intros Hinv Hw Ht Hne Hs s1. destruct (queue_conserves reliable s Hinv writesQueue deltas) as [H1 H2]; [intros; by apply Hw|done|].
  cbn [spoolStep acknowledged queued] in H1, H2. fold s1 in H1, H2.
  destruct (attach_conserves reliable s1 H1 writesAttach newID) as [H3 H4]; [split; [intros; by apply Hw|done]|].
  cbn [spoolStep acknowledged queued] in H3, H4. split; [done|]. split; [done|]. intros f R.
  specialize (H2 f R). specialize (H4 f R). unfold collectMetrics. fold s1. change (rule_total f R []) with 0 in *.
  change (spool_total f R []) with 0 in *. lia.
Qed.

(** *** Every step keeps the invariant *)

Lemma in_flight_normal w0 w : world_inv w0 w → normal_deltas (in_flight (w_spool w)).2.
Proof. intros Hw. apply (si_ok _ _ (wi_spool _ _ Hw)). Qed.

Lemma in_flight_none w0 w : world_inv w0 w → (in_flight (w_spool w)).1 = "" → (in_flight (w_spool w)).2 = [].
Proof. intros Hw. apply (si_ok _ _ (wi_spool _ _ Hw)). Qed.

Lemma unrecorded_nonneg w0 w f R : world_inv w0 w → 0 ≤ unrecorded f R w.
Proof.
  intros Hw. pose proof (si_ok _ _ (wi_spool _ _ Hw)) as [Hp Hi _ _].
  pose proof (rule_total_nonneg f R _ Hp). pose proof (rule_total_nonneg f R _ Hi).
  unfold unrecorded, unconfirmed, held, spool_amount, in_flight. cbn [fst snd]. destruct (is_recorded _ _); lia.
Qed.

Lemma start_inv path l : (reliable = true → path = true) → ledger_wf l → world_inv (start path l) (start path l).
Proof.
  intros Hp Hl. assert (in_flight (spool_new path) = ("", [])) as Hf by (by destruct path).
  assert (∀ f R, unconfirmed f R (start path l) = 0) as Hu.
  { intros f R. unfold unconfirmed. cbn [w_spool start]. rewrite Hf. by destruct (is_recorded _ _). }
  constructor; cbn [start w_spool w_ledger w_sent w_acks w_queued w_counted w_foreign]; try done.
  - by apply spool_new_inv.
  - intros ? H%elem_of_nil. done.
  - intros ??? H%elem_of_nil. done.
  - by rewrite Hf.
  - intros ?? H%elem_of_nil. done.
  - intros ? H%elem_of_nil. done.
  - intros f R. unfold unrecorded. rewrite Hu. cbn [w_spool start]. by rewrite held_new.
  - intros f R _. change (rule_total f R []) with 0. lia.
  - intros f R. rewrite Hu. done.
Qed.

Lemma tick_inv w0 w writesQueue writesAttach deltas newID :
  world_inv w0 w → (reliable = true → writesQueue = true ∧ writesAttach = true) → fresh organizationID agentID newID w →
  (∀ f R, spool_total f R (w_queued w ++ deltas) < 2 ^ 63) →
  world_inv w0 (tick writesQueue writesAttach deltas newID w).
Proof.
  intros Hw Hwr (Ht & Hne & Hns & Hnr) Hsmall.
  destruct (collect_conserves writesQueue writesAttach deltas newID (w_spool w)) as (H1 & H2 & H3); try done.
  { apply Hw. } 
  { intros f R. specialize (Hsmall f R). rewrite spool_total_app in Hsmall. pose proof (wi_account _ _ Hw f R) as Ha.
    unfold unrecorded in Ha. pose proof (wi_counted _ _ Hw f R). lia. }
  pose proof (attach_cases writesAttach newID _ H1 Hne) as Hc.
  unfold tick. unfold collectMetrics in *.
  destruct (attachTrafficReport writesAttach newID (queueTrafficDeltas writesQueue deltas (w_spool w))) as [s' report].
  cbn [fst] in *. rewrite in_flight_queue in Hc.
  set (w' := Build_world _ _ _ _ _ _ _).
  assert (∀ id, is_recorded w' id = is_recorded w id) as Hrec by done.
  assert (∀ f R, unconfirmed f R w' = unconfirmed f R w) as Hu.
  { intros f R. unfold unconfirmed. rewrite Hrec. cbn [w' w_spool].
    destruct Hc as [[-> _]|(E1 & E2 & ds & -> & _)]; [done|]. rewrite E2. cbn [fst snd].
    unfold is_recorded at 1. rewrite bool_decide_false by done. by destruct (is_recorded _ _). }
  assert (∀ r, r ∈ option_list report ++ w_sent w → r ∈ w_sent w ∨
    ((in_flight (w_spool w)).1 = "" ∧ ∃ ds, r = (newID, ds) ∧ in_flight s' = (newID, ds) ∧ normal_deltas ds ∧ ds ≠ [])) as Hsent.
  { intros r [Hr|Hr]%elem_of_app; [|by left]. destruct Hc as [[_ Er]|(E1 & _ & ds & E3 & Er & Hn & Hd)]; rewrite Er in Hr.
    - destruct (String.eqb_spec (in_flight (w_spool w)).1 ""); [by apply elem_of_nil in Hr|].
      apply list_elem_of_singleton in Hr as ->. left. by apply Hw.
    - apply list_elem_of_singleton in Hr as ->. right. split; [done|]. by exists ds. }
  assert (∀ ds, (newID, ds) ∉ w_sent w) as Hnew.
  { intros ds Hin. apply Hns. apply list_elem_of_In, in_map_iff. exists (newID, ds). split; [done|]. by apply list_elem_of_In. }
  destruct Hw as [Q1 Q2 Q3 Q4 Q5 Q6 Q7 Q8 Q9 Q10 Q11 Q12 Q13].
  constructor; try done; cbn [w' w_spool w_ledger w_sent w_acks w_queued w_counted w_foreign].
  - intros r [Hr|(_ & ds & -> & _ & Hn & Hd)]%Hsent; [by apply Q5|]. by constructor.
  - intros id ds ds' [Hr|(_ & x & Ex & Hx & _)]%Hsent [Hr'|(_ & x' & Ex' & Hx' & _)]%Hsent; [by eapply Q6| | |].
    + injection Ex' as -> ->. by apply Hnew in Hr.
    + injection Ex as -> ->. by apply Hnew in Hr'.
    + congruence.
  - destruct Hc as [[-> ->]|(E1 & _ & ds & -> & -> & _)]; [|intros _; by left].
    intros Hf. apply elem_of_app. right. by apply Q7.
  - intros id ds [Hr|(E1 & x & [= -> ->] & -> & _)]%Hsent; [|by left].
    destruct (Q8 _ _ Hr) as [E|]; [|by right]. destruct Hc as [[-> _]|(E1 & _)]; [by left|].
    destruct (Q5 _ Hr) as [[_ Hid] _]. cbn in Hid. congruence.
  - intros f R. unfold unrecorded. rewrite Hu. cbn [w' w_spool]. rewrite H3, spool_total_app, <-Q10. unfold unrecorded. lia.
  - intros f R. rewrite Hu. apply Q13.
Qed.

(** Steps that leave the spool and the history of reports alone. *)
Lemma ledger_step_inv w0 w w' :
  world_inv w0 w → w_spool w' = w_spool w → w_sent w' = w_sent w → w_queued w' = w_queued w →
  ledger_wf (w_ledger w') → ledger_Rules (w_ledger w') = ledger_Rules (w_ledger w) →
  ledger_Assignments (w_ledger w) ⊆ ledger_Assignments (w_ledger w') →
  (∀ id, is_recorded w id = true → is_recorded w' id = true) →
  (∀ id, id ∈ w_acks w' → id ∈ w_acks w ∨ (is_recorded w' id = true ∧ TrimSpace id = id)) →
  (∀ f R, rule_total f R (w_counted w') + unrecorded f R w' = rule_total f R (w_counted w) + unrecorded f R w) →
  (∀ f R, 0 ≤ unconfirmed f R w' ≤ rule_total f R (w_counted w')) →
  (∀ f R, (organizationID, agentID, R) ∈ ledger_Assignments (w_ledger w) → ∀ total,
     ledger_total f organizationID R (w_ledger w) = total + rule_total f R (w_counted w) + rule_total f R (w_foreign w) →
     ledger_total f organizationID R (w_ledger w') = total + rule_total f R (w_counted w') + rule_total f R (w_foreign w')) →
  world_inv w0 w'.
Proof.
  intros Hw E1 E2 E3 H4 H5 H6 H7 H8 H9 H10 H11. destruct Hw as [Q1 Q2 Q3 Q4 Q5 Q6 Q7 Q8 Q9 Q10 Q11 Q12 Q13].
  constructor; rewrite ?E1, ?E2, ?E3; try done.
  - congruence.
  - set_solver.
  - intros id ds Hin. destruct (Q8 _ _ Hin); [by left|right; by apply H7].
  - intros id [Hin|Hin]%H8; [|done]. apply Q9 in Hin as [? ?]. split; [by apply H7|done].
  - intros f R. by rewrite H9.
  - intros f R Ha. apply H11; [by apply Q4|]. by apply Q11.
Qed.

Lemma rules_of w0 w R : world_inv w0 w → (organizationID, agentID, R) ∈ ledger_Assignments (w_ledger w) →
  ledger_Rules (w_ledger w) !! R = Some organizationID.
Proof. intros Hw Ha. by apply (lw_assigned _ (wi_ledger _ _ Hw)) in Ha. Qed.

Lemma filter_assigned_total f R l deltas :
  (organizationID, agentID, R) ∈ ledger_Assignments l →
  rule_total f R (List.filter (assigned organizationID agentID l) deltas) = rule_total f R deltas.
Proof.
  intros Ha. induction deltas as [|d deltas IH]; [done|]. cbn [List.filter].
  change (d :: deltas) with ([d] ++ deltas). rewrite (rule_total_app f R [d]), <-IH.
  unfold assigned at 1. case_bool_decide as Hd.
  - by rewrite <-(rule_total_app f R [d]).
  - enough (rule_total f R [d] = 0) as ->; [done|]. apply rule_total_absent. cbn [map].
    intros E%list_elem_of_singleton. by rewrite E in Ha.
Qed.

Lemma deliver_inv w0 w current report :
  world_inv w0 w → report ∈ w_sent w → world_inv w0 (deliver organizationID agentID current report w).
Proof.
  intros Hw Hin. destruct report as [id ds]. destruct (wi_sent _ _ Hw _ Hin) as [[Htrim Hne] [Hn Hd]]. cbn [fst snd] in *.
  unfold deliver. cbn [fst snd].
  destruct (handleMetrics organizationID "NODE" agentID current id ds (w_ledger w)) as [reply l'] eqn:Eh.
  assert (TrimSpace id ≠ "") as Hid by (by rewrite Htrim).
  pose proof (λ R, handleMetrics_spec organizationID R _ _ _ _ _ _ _ _ Eh (wi_ledger _ _ Hw) Hid Hd organization_named
    agent_named) as Hspec.
  cbv zeta in Hspec. unfold report_key in Hspec. rewrite Htrim in Hspec.
  set (recorded := if current then _ else _) in *. 
  set (w' := Build_world _ _ _ _ _ _ _). pose proof (Hspec "") as (Hwf & (HR & _ & HA) & _ & Hcase & Hack).
  assert (∀ id', is_recorded w' id' = is_recorded w id' ∨ (id' = id ∧ is_recorded w' id' = true)) as Hrec.
  { intros id'. unfold is_recorded. cbn [w' w_ledger]. destruct Hcase as [[-> _]|(_ & -> & _)]; [by left|].
    destruct (decide (id' = id)) as [->|]; [right; split; [done|]; apply bool_decide_true; set_solver|].
    left. apply bool_decide_ext. set_solver. }
  assert (is_recorded w id = false → recorded ≠ [] → in_flight (w_spool w) = (id, ds)) as Hfl.
  { intros Hr Hrd. destruct (wi_settled _ _ Hw _ _ Hin) as [E|]; [|congruence].
    assert (in_flight (w_spool w) ∈ w_sent w) as Hf by (apply (wi_flight _ _ Hw); congruence).
    destruct (in_flight (w_spool w)) as [id' ds'] eqn:E'. cbn in E. subst id'. f_equal. by eapply (wi_same _ _ Hw). }
  assert (recorded = [] ∨ (recorded = ds ∧ is_recorded w id = false)) as Hrd.
  { destruct Hcase as [[_ ->]|(Hk & _ & ->)]; [by left|]. right. rewrite mergeRule_eq, mergeTrafficDeltas_normal by done.
    split; [done|]. unfold is_recorded. by apply bool_decide_false. }
  assert (∀ f R, unconfirmed f R w' = unconfirmed f R w + rule_total f R recorded) as Hu.
  { intros f R. unfold unconfirmed. cbn [w' w_spool]. destruct Hcase as [[Hr Er]|(Hk & Hr & Er)].
    - rewrite Er. change (rule_total f R []) with 0. rewrite Z.add_0_r. unfold is_recorded. cbn [w' w_ledger]. by rewrite Hr.
    - destruct Hrd as [E|[E Hrw]]; [rewrite Er, mergeRule_eq, mergeTrafficDeltas_normal in E by done; congruence|].
      rewrite (Hfl Hrw) by (by rewrite E). cbn [fst snd]. rewrite Hrw, E.
      unfold is_recorded. cbn [w' w_ledger]. rewrite Hr, bool_decide_true by set_solver. lia. }
  apply (ledger_step_inv w0 w); try done; cbn [w' w_spool w_ledger w_sent w_acks w_queued w_counted w_foreign].
  - by rewrite HA.
  - intros id' Hr. destruct (Hrec id') as [->|[_ ?]]; done.
  - intros id'. destruct reply as [id''| | |]; [|by left..]. intros [->|?]%elem_of_cons; [|by left].
    destruct (Hack _ eq_refl) as [-> Hk]. right. split; [|done]. by apply bool_decide_true.
  - intros f R. unfold unrecorded. rewrite Hu, rule_total_app. cbn [w' w_spool]. lia.
  - intros f R. rewrite Hu, rule_total_app. pose proof (wi_counted _ _ Hw f R).
    assert (0 ≤ rule_total f R recorded); [|lia].
    destruct Hrd as [->|[-> _]]; [done|]. by apply rule_total_nonneg.
  - intros f R Ha total Ht. destruct (Hspec R) as (_ & _ & Hg & _).
    rewrite (Hg (rules_of _ _ _ Hw Ha) f), Ht, filter_assigned_total, rule_total_app by done. lia.
Qed.

Lemma confirm_inv w0 w writes id :
  world_inv w0 w → (reliable = true → writes = true) → id ∈ w_acks w → world_inv w0 (confirm writes id w).
Proof.
  intros Hw Hwr Hack. destruct (wi_acks _ _ Hw _ Hack) as [Hrec Htrim].
  destruct (ack_conserves reliable _ (wi_spool _ _ Hw) writes id Hwr) as [Hinv Hheld].
  cbn [spoolStep] in Hinv, Hheld. set (w' := confirm writes id w).
  assert ((in_flight (w_spool w') = in_flight (w_spool w) ∧ ∀ f R, held f R (w_spool w') = held f R (w_spool w)) ∨
    ((in_flight (w_spool w)).1 = id ∧ in_flight (w_spool w') = ("", []) ∧
     ∀ f R, held f R (w_spool w') = held f R (w_spool w) - rule_total f R (in_flight (w_spool w)).2)) as Hcase.
  { cbn [acknowledged queued] in Hheld. unfold w', confirm. cbn [w_spool]. rewrite Htrim in *.
    unfold acknowledgeTrafficReport in *. rewrite Htrim in *.
    destruct (String.eqb_spec id "") as [->|Hne]; [by left|]. cbn [negb andb] in *.
    destruct (String.eqb_spec id (trafficInFlightID (loadTrafficSpoolLocked (w_spool w)))) as [E|E]; cbn [negb] in *.
    - right. split; [by rewrite E|]. split; [by rewrite in_flight_persist|].
      intros f R. specialize (Hheld f R). change (spool_total f R []) with 0 in Hheld.
      unfold in_flight at 1. cbn [snd]. lia.
    - left. split; [|intros f R; by rewrite held_load]. unfold in_flight. by rewrite load_idemp. }
  assert (∀ id', is_recorded w' id' = is_recorded w id') as Hr by done.
  assert (∀ f R, unrecorded f R w' = unrecorded f R w ∧ (unconfirmed f R w' = unconfirmed f R w ∨ unconfirmed f R w' = 0)) as Hu.
  { intros f R. unfold unrecorded, unconfirmed. rewrite !Hr. destruct Hcase as [[-> ->]|(E & -> & ->)]; [split; [done|by left]|].
    cbn [fst snd]. rewrite E, Hrec. change (rule_total f R []) with 0. destruct (is_recorded w ""); split; lia. }
  destruct Hw as [Q1 Q2 Q3 Q4 Q5 Q6 Q7 Q8 Q9 Q10 Q11 Q12 Q13].
  constructor; try done; cbn [w' confirm w_sent w_acks w_queued w_counted w_foreign w_ledger].
  - change (acknowledgeTrafficReport writes id (w_spool w)) with (w_spool w').
    destruct Hcase as [[-> _]|(_ & -> & _)]; [done|]. done.
  - intros id' ds Hin. destruct (Q8 _ _ Hin) as [E|]; [|by right].
    change (acknowledgeTrafficReport writes id (w_spool w)) with (w_spool w').
    destruct Hcase as [[-> _]|(E' & _)]; [by left|]. right. change (is_recorded w id' = true). congruence.
  - intros f R. change (confirm writes id w) with w'. by rewrite (proj1 (Hu f R)).
  - intros f R. change (confirm writes id w) with w'. specialize (Q13 f R). destruct (Hu f R) as [_ [-> | ->]]; lia.
Qed.

Lemma reboot_inv w0 w : world_inv w0 w → reliable = true → world_inv w0 (reboot w).
Proof.
  intros Hw Hr. destruct (restart_conserves reliable _ (wi_spool _ _ Hw) Hr) as [Hinv Hheld].
  cbn [spoolStep acknowledged queued] in *.
  assert (in_flight (restart (w_spool w)) = in_flight (w_spool w)) as Hf.
  { pose proof (si_disk _ _ (wi_spool _ _ Hw) Hr) as Hd. unfold reloaded, traffic_of in Hd.
    unfold in_flight. by injection Hd as _ -> ->. }
  assert (∀ f R, unconfirmed f R (reboot w) = unconfirmed f R w) as Hu.
  { intros f R. unfold unconfirmed. cbn [reboot w_spool]. by rewrite Hf. }
  destruct Hw as [Q1 Q2 Q3 Q4 Q5 Q6 Q7 Q8 Q9 Q10 Q11 Q12 Q13].
  constructor; try done; cbn [reboot w_spool w_sent w_acks w_queued w_counted w_foreign w_ledger]; rewrite ?Hf; try done.
  - intros f R. rewrite <-Q10. unfold unrecorded. rewrite Hu. specialize (Hheld f R). cbn [reboot w_spool].
    change (rule_total f R []) with 0 in Hheld. change (spool_total f R []) with 0 in Hheld. lia.
  - intros f R. rewrite Hu. apply Q13.
Qed.

Lemma assign_inv w0 w organizationID' nodeID ruleIDs :
  world_inv w0 w → world_inv w0 (assign organizationID' nodeID ruleIDs w).
Proof.
  intros Hw. unfold assign. destruct (RecordNodeRuleTrafficAssignments organizationID' nodeID ruleIDs (w_ledger w)) as [l|e] eqn:E.
  2: { by destruct w. }
  apply assign_spec in E as (H1 & H2 & H3 & H4 & H5); [|apply Hw].
  assert (∀ id, is_recorded (Build_world (w_spool w) l (w_sent w) (w_acks w) (w_queued w) (w_counted w) (w_foreign w)) id
    = is_recorded w id) as Hrec by (intros id; unfold is_recorded; cbn [w_ledger]; by rewrite H3).
  apply (ledger_step_inv w0 w); try done; cbn [w_spool w_ledger w_sent w_acks w_queued w_counted w_foreign].
  - intros id. by rewrite Hrec.
  - by left.
  - intros f R. unfold unrecorded, unconfirmed. by rewrite Hrec.
  - intros f R. unfold unconfirmed. rewrite Hrec. apply Hw.
  - intros f R _ total <-. unfold ledger_total, SumRuleTraffic. by rewrite H4.
Qed.

Lemma other_inv w0 w organizationID' nodeID reportID deltas :
  world_inv w0 w → (organizationID', nodeID) ≠ (organizationID, agentID) → organizationID' ≠ "" → nodeID ≠ "" →
  world_inv w0 (other organizationID' nodeID reportID deltas w).
Proof.
  intros Hw Hne Ho Hn. unfold other, counted_deltas.
  destruct (decide (TrimSpace reportID = "" ∨ deltas = [])) as [Hi|Hi].
  { destruct (handleMetrics_ignored organizationID' nodeID reportID deltas (w_ledger w) Hi) as [-> ->].
    cbn [List.filter]. rewrite app_nil_r. by destruct w. }
  destruct (handleMetrics organizationID' "NODE" nodeID true reportID deltas (w_ledger w)) as [reply l'] eqn:Eh. cbn [snd].
  assert (TrimSpace reportID ≠ "" ∧ deltas ≠ []) as [Hid Hd] by (split; intros E; apply Hi; auto).
  pose proof (λ R, handleMetrics_spec organizationID R _ _ _ _ _ _ _ _ Eh (wi_ledger _ _ Hw) Hid Hd Ho Hn) as Hspec.
  cbv zeta in Hspec. destruct (Hspec "") as (Hwf & (HR & _ & HA) & _ & Hcase & _).
  set (w' := Build_world _ _ _ _ _ _ _).
  assert (∀ id, is_recorded w' id = is_recorded w id) as Hrec.
  { intros id. unfold is_recorded. cbn [w' w_ledger]. apply bool_decide_ext. unfold report_key in Hcase.
    destruct Hcase as [[-> _]|(_ & -> & _)]; [done|]. rewrite elem_of_union, elem_of_singleton. naive_solver. }
  apply (ledger_step_inv w0 w); try done; cbn [w' w_spool w_ledger w_sent w_acks w_queued w_counted w_foreign].
  - by rewrite HA.
  - intros id. by rewrite Hrec.
  - by left.
  - intros f R. unfold unrecorded, unconfirmed. by rewrite Hrec.
  - intros f R. unfold unconfirmed. rewrite Hrec. apply Hw.
  - intros f R Ha total Ht. destruct (Hspec R) as (_ & _ & Hg & _).
    rewrite (Hg (rules_of _ _ _ Hw Ha) f), Ht, rule_total_app. lia.
Qed.

Lemma Reach_inv path l w :
  (reliable = true → path = true) → ledger_wf l → Reach organizationID agentID reliable (start path l) w →
  world_inv (start path l) w.
Proof.
  intros Hp Hl. induction 1; [by apply start_inv|..].
  - by apply tick_inv.
  - by apply deliver_inv.
  - by apply confirm_inv.
  - by apply reboot_inv.
  - by apply assign_inv.
  - by apply other_inv.
Qed.
End invariant.

(** ** Properties *)

(** C5. Traffic is counted exactly once.  Whatever the network does to the
    reports and acknowledgements of a node - losing, repeating, delaying and
    reordering them -, whatever the control plane refuses or the database
    fails, and across restarts of the agent, the total shown for a rule that
    was assigned to the node from the start is at every moment its former
    total, plus what other nodes had counted for it, plus everything the
    forwarder handed to the spool except what the ledger has not recorded yet;
    that is never negative and is held by the spool, so once the spool is
    empty nothing is missing and nothing was counted twice.  Restarts are
    covered when the writes of the spool file succeed. *)
Theorem traffic_counted_once organizationID agentID reliable path l w f R :
  organizationID ≠ "" → agentID ≠ "" → (reliable = true → path = true) → ledger_wf l →
  Reach organizationID agentID reliable (start path l) w →
  (organizationID, agentID, R) ∈ ledger_Assignments l →
  ledger_total f organizationID R (w_ledger w)
  = ledger_total f organizationID R l + rule_total f R (w_foreign w)
    + spool_total f R (w_queued w) - unrecorded organizationID agentID f R w ∧
  0 ≤ unrecorded organizationID agentID f R w ≤ held f R (w_spool w).
Proof.
  intros Ho Ha Hp Hl Hr HR. apply Reach_inv in Hr; [|done..]. split.
  - pose proof (wi_totals _ _ _ _ _ Hr f R HR) as Ht. cbn [start w_ledger] in Ht. rewrite Ht.
    pose proof (wi_account _ _ _ _ _ Hr f R). lia.
  - pose proof (wi_counted _ _ _ _ _ Hr f R). unfold unrecorded in *. split; [|lia].
    by eapply unrecorded_nonneg.
Qed.

(** A report is delivered twice, its acknowledgement is lost, the agent
    restarts and sends it again; the second acknowledgement arrives. *)
Definition ledger_example_deltas : list RuleTrafficDelta :=
  [{| delta_RuleID := "r1"; delta_UploadBytes := 7; delta_DownloadBytes := 5; delta_TCPConnections := 1;
      delta_UDPPackets := 0 |}].
Definition example_ledger : ledger := {|
  ledger_Rules := {["r1" := "o"]}; ledger_Nodes := {[("o", "n") := false]}; ledger_Reports := ∅;
  ledger_Assignments := {[("o", "n", "r1")]};
  ledger_Counters := {["r1" := {| counter_OrganizationID := "o"; counter_Traffic :=
    {| traffic_UploadBytes := 100; traffic_DownloadBytes := 0; traffic_TCPConnections := 0; traffic_UDPPackets := 0 |} |}]} |}.
Definition example_report : string * list RuleTrafficDelta := ("a1", ledger_example_deltas).
Definition example_world1 : world := tick true true ledger_example_deltas "a1" (start true example_ledger).
Definition example_world2 : world :=
  reboot (deliver "o" "n" true example_report (deliver "o" "n" true example_report example_world1)).
Definition example_world3 : world := tick true true ledger_example_deltas "a2" example_world2.
Definition example_world : world := confirm true "a1" (deliver "o" "n" true example_report example_world3).

Lemma example_ledger_wf : ledger_wf example_ledger.
Proof.
  constructor; cbn.
  - intros o n R [= -> -> ->]%elem_of_singleton. done.
  - intros R row [<- <-]%lookup_singleton_Some. done.
Qed.

Lemma example_small n f R : (n < 10)%nat → spool_total f R (concat (repeat ledger_example_deltas n)) < 2 ^ 63.
Proof.
  intros Hn. assert (spool_total f R (concat (repeat ledger_example_deltas n)) ≤ 7 * Z.of_nat n) as H; [|lia].
  clear Hn. induction n as [|n IH]; [done|]. cbn [repeat concat]. rewrite spool_total_app.
  assert (spool_total f R ledger_example_deltas ≤ 7) as H1; [|lia].
  unfold spool_total, contributions, ledger_example_deltas, contribution, Zsum. cbn [map foldr delta_RuleID].
  destruct (_ && _), f; vm_compute; done.
Qed.

Lemma example_fresh id w :
  bool_decide (TrimSpace id = id) && bool_decide (id ≠ "") && bool_decide (id ∉ map fst (w_sent w))
  && bool_decide (("o", "n", id) ∉ ledger_Reports (w_ledger w)) = true → fresh "o" "n" id w.
Proof. rewrite !andb_true_iff, !bool_decide_eq_true. intros [[[? ?] ?] ?]. by repeat split. Qed.

Lemma example_reach : Reach "o" "n" true (start true example_ledger) example_world.
Proof.
  apply reach_confirm; [|done|vm_compute; by left].
  apply reach_deliver; [|vm_compute; by left].
  apply reach_tick; [|done|apply example_fresh; vm_compute; reflexivity|intros f R; exact (example_small 2 f R ltac:(lia))].
  apply reach_reboot; [|done].
  apply reach_deliver; [|vm_compute; by left]. apply reach_deliver; [|vm_compute; by left].
  apply reach_tick; [constructor|done|apply example_fresh; vm_compute; reflexivity|intros f R; exact (example_small 1 f R ltac:(lia))].
Qed.

Lemma traffic_counted_once_witness :
  ledger_total FUpload "o" "r1" (w_ledger example_world) = 107 ∧
  unrecorded "o" "n" FUpload "r1" example_world = 7.
Proof.
  destruct (traffic_counted_once "o" "n" true true example_ledger example_world FUpload "r1") as [-> _];
    [done|done|done|apply example_ledger_wf|apply example_reach|apply (bool_decide_unpack _); vm_compute; exact I|].
  split; vm_compute; reflexivity.
Defined.
