(* ===== verification/Transaction.v ===== *)
(** * Transactions

    The services work inside [store.WithinTx]: a function that reads and writes
    the repositories and returns an error to roll everything back.  [tx S A]
    is such a function over a store [S]; [triple] and [keeps] are the two forms
    in which the statements and the service functions promise something about
    the stores before and after, both about the runs that succeed. *)

From S2P Require Import Prelude GoString Domain ServiceErrors.
#[local] Open Scope Z_scope.

Definition tx (S A : Type) : Type := S → result serviceError (A * S).

#[export] Instance tx_ret {S} : MRet (tx S) := λ A a s, Ok (a, s).
#[export] Instance tx_bind {S} : MBind (tx S) := λ A B f m s,
  match m s with Ok (a, s') => f a s' | Err e => Err e end.

(** [return err] *)
Definition fail {S A} (e : serviceError) : tx S A := λ _, Err e.
(** A read of the store. *)
Definition reads {S A} (f : S → A) : tx S A := λ s, Ok (f s, s).
(** A call that does not use the store. *)
Definition pure {S A} (r : result serviceError A) : tx S A := λ s,
  match r with Ok a => Ok (a, s) | Err e => Err e end.
(** [if cond { return err }] *)
Definition reject {S} (cond : bool) (e : serviceError) : tx S () := if cond then fail e else mret tt.
(** [for _, x := range l { if err := f(x); err != nil { return err } }] *)
Fixpoint each {S A} (f : A → tx S ()) (l : list A) : tx S () :=
  match l with [] => mret tt | x :: l => f x;; each f l end.

(** [if err := m; err != nil && !errors.Is(err, repo.ErrNotFound) { return err }]:
    a statement that finds no row has changed nothing. *)
Definition attempt {S A} (m : tx S A) : tx S (option A) := λ s,
  match m s with
  | Ok (a, s') => Ok (Some a, s')
  | Err e => if errors_is is_repo_not_found e then Ok (None, s) else Err e
  end.

(** What a transaction leaves when it is over: what the function did, or
    nothing when it returned an error. *)
Definition WithinTx {S A} (m : tx S A) (s : S) : result serviceError A * S :=
  match m s with Ok (a, s') => (Ok a, s') | Err e => (Err e, s) end.

(** ** Runs that succeed *)

Section runs.
Context {S : Type}.
Implicit Types (s : S).

Lemma bind_ok {A B} (m : tx S A) (f : A → tx S B) s b s' :
  (m ≫= f) s = Ok (b, s') ↔ ∃ a s1, m s = Ok (a, s1) ∧ f a s1 = Ok (b, s').
Proof.
  unfold mbind, tx_bind. destruct (m s) as [[a s1]|e]; split.
  - eauto.
  - by intros (? & ? & [= <- <-] & ?).
  - done.
  - by intros (? & ? & ? & ?).
Qed.
Lemma ret_ok {A} (a b : A) s s' : (mret a : tx S A) s = Ok (b, s') ↔ a = b ∧ s' = s.
Proof. unfold mret, tx_ret. split; [by intros [= -> ->]|by intros [-> ->]]. Qed.
Lemma reads_ok {A} (f : S → A) b s s' : reads f s = Ok (b, s') ↔ f s = b ∧ s' = s.
Proof. unfold reads. split; [by intros [= -> ->]|by intros [-> ->]]. Qed.
Lemma pure_ok {A} (r : result serviceError A) b s s' : (pure r : tx S A) s = Ok (b, s') ↔ r = Ok b ∧ s' = s.
Proof. unfold pure. destruct r; (split; [by intros [= -> ->]|by intros [[= ->] ->]]) || by split; [|intros [? _]]. Qed.
Lemma attempt_ok {A} (m : tx S A) o s s' :
  attempt m s = Ok (o, s') ↔
  (∃ a, o = Some a ∧ m s = Ok (a, s')) ∨ (o = None ∧ s' = s ∧ ∃ e, m s = Err e ∧ errors_is is_repo_not_found e = true).
Proof.
  unfold attempt. destruct (m s) as [[a s1]|e]; [|destruct (errors_is _ e) eqn:E]; split.
  - intros [= <- <-]. left. by exists a.
  - by intros [(b & -> & [= -> ->])|(_ & _ & ? & ? & _)].
  - intros [= <- <-]. right. eauto.
  - by intros [(b & _ & ?)|(-> & -> & _)].
  - done.
  - intros [(b & _ & ?)|(_ & _ & ? & [= <-] & ?)]; congruence.
Qed.
Lemma reject_ok cond e u s s' : reject cond e s = Ok (u, s') ↔ cond = false ∧ s' = s.
Proof. destruct u. unfold reject. destruct cond; cbn; split; try done; [by intros [? _]|by intros [= ->]|by intros [_ ->]]. Qed.

(** *** Triples *)

Definition triple {A} (P : S → Prop) (m : tx S A) (Q : A → S → Prop) : Prop :=
  ∀ s a s', P s → m s = Ok (a, s') → Q a s'.

Lemma triple_bind {A B} P (m : tx S A) (f : A → tx S B) Q R :
  triple P m Q → (∀ a, triple (Q a) (f a) R) → triple P (m ≫= f) R.
Proof. intros Hm Hf s b s' Hs (a & s1 & E1 & E2)%bind_ok. by eapply Hf, E2; eapply Hm. Qed.
Lemma triple_consequence {A} (P P' : S → Prop) (m : tx S A) (Q Q' : A → S → Prop) :
  triple P' m Q' → (∀ s, P s → P' s) → (∀ a s, Q' a s → Q a s) → triple P m Q.
Proof. intros Hm HP HQ s a s' Hs E. eapply HQ, Hm; [by apply HP|done]. Qed.
Lemma triple_each {A} (P : S → Prop) (f : A → tx S ()) l :
  (∀ x, x ∈ l → triple P (f x) (λ _, P)) → triple P (each f l) (λ _, P).
Proof.
  induction l as [|x l IH]; intros Hf s u s' Hs; cbn.
  - by intros [_ ->]%ret_ok.
  - intros (? & s1 & E1 & E2)%bind_ok. eapply IH; [|eapply Hf; [left|done..]|done]. intros y Hy. apply Hf. by right.
Qed.

(** *** Relations kept along a run *)

Definition keeps {A} (R : S → S → Prop) (m : tx S A) : Prop := ∀ s a s', m s = Ok (a, s') → R s s'.

Context (R : S → S → Prop) `{!PreOrder R}.

Lemma keeps_ret {A} (a : A) : keeps R (mret a).
Proof. by intros s b s' [_ ->]%ret_ok. Qed.
Lemma keeps_fail {A} e : keeps R (fail e : tx S A).
Proof. done. Qed.
Lemma keeps_reads {A} (f : S → A) : keeps R (reads f).
Proof. by intros s b s' [_ ->]%reads_ok. Qed.
Lemma keeps_pure {A} (r : result serviceError A) : keeps R (pure r).
Proof. by intros s b s' [_ ->]%pure_ok. Qed.
Lemma keeps_reject cond e : keeps R (reject cond e).
Proof. by intros s b s' [_ ->]%reject_ok. Qed.
Lemma keeps_bind {A B} (m : tx S A) (f : A → tx S B) : keeps R m → (∀ a, keeps R (f a)) → keeps R (m ≫= f).
Proof. intros Hm Hf s b s' (a & s1 & E1 & E2)%bind_ok. etrans; [by eapply Hm|by eapply Hf]. Qed.
Lemma keeps_attempt {A} (m : tx S A) : keeps R m → keeps R (attempt m).
Proof. intros Hm s o s' [(a & _ & E)|(_ & -> & _)]%attempt_ok; [by eapply Hm|done]. Qed.
Lemma keeps_each {A} (f : A → tx S ()) l : (∀ x, keeps R (f x)) → keeps R (each f l).
Proof.
  intros Hf. induction l as [|x l IH]; cbn; [apply keeps_ret|]. apply keeps_bind; [apply Hf|done].
Qed.
End runs.

Create HintDb keeps discriminated.
#[export] Hint Resolve keeps_ret keeps_fail keeps_reads keeps_pure keeps_reject keeps_bind keeps_each keeps_attempt : keeps.

(** Take a successful run apart. *)
Ltac tx_step :=
  match goal with
  | H : (_ ≫= _) _ = Ok _ |- _ =>
      let a := fresh "a" in let s := fresh "s" in let E := fresh "E" in
      apply bind_ok in H as (a & s & E & H)
  | H : mret _ _ = Ok _ |- _ => apply ret_ok in H as [? ?]; subst
  | H : reads _ _ = Ok _ |- _ => apply reads_ok in H as [? ?]; subst
  | H : pure _ _ = Ok _ |- _ => apply pure_ok in H as [? ?]; subst
  | H : reject _ _ _ = Ok _ |- _ => apply reject_ok in H as [? ?]; subst
  | H : fail _ _ = Ok _ |- _ => discriminate H
  end.
Ltac tx_inv := repeat tx_step.

(** The relation is kept because every part keeps it.  [reads] holds the
    statements that only read, by their definition. *)
Create HintDb reads.
Ltac keeps_step :=
  cbv zeta;
  match goal with
  | |- keeps _ (_ ≫= _) => apply keeps_bind; [apply _| |intros ?]
  | |- keeps _ (mret _) => apply keeps_ret, _
  | |- keeps _ (reads _) => apply keeps_reads, _
  | |- keeps _ (pure _) => apply keeps_pure, _
  | |- keeps _ (reject _ _) => apply keeps_reject, _
  | |- keeps _ (fail _) => apply keeps_fail
  | |- keeps _ (each _ _) => apply keeps_each; [apply _|intros ?]
  | |- keeps _ (attempt _) => apply keeps_attempt; [apply _|]
  | |- keeps _ (if ?b then _ else _) => destruct b
  | |- keeps _ (match ?x with _ => _ end) => destruct x
  | |- keeps _ _ => solve [eauto with keeps]
  | |- keeps _ _ => progress autounfold with reads
  end.
Ltac keeps_tac := repeat keeps_step.

(** The steps at the end of an operation, from the last to the first: [tail]
    says that what a relation keeps is kept by a step that keeps the relation. *)
Tactic Notation "keeps_rest" uconstr(tail) :=
  repeat match goal with
  | H : ?m ?db = Ok (_, ?db') |- _ ?db' => eapply tail; [|exact H|]; [solve [keeps_tac]|]; clear H
  end.

(** The database refuses a statement, or ends the connection, on conditions of
    its own: its constraints and triggers, locks, failures.  [refuse s s'] says
    with which error it answers a statement that would turn [s] into [s']. *)
Definition exec {S} (refuse : S → S → option serviceError) (f : S → S) : tx S () := λ s,
  match refuse s (f s) with Some e => Err e | None => Ok (tt, f s) end.

Lemma exec_ok {S} refuse (f : S → S) s u s' : exec refuse f s = Ok (u, s') → s' = f s.
Proof. unfold exec. destruct (refuse _ _); [done|by intros [= _ ->]]. Qed.

(** ** Rows of a table that belong to another row

    [DELETE ... WHERE own] followed by one [INSERT] for each new row. *)

Definition replaceRows {A} (own : A → bool) (rows table : list A) : list A :=
  List.filter (λ r, negb (own r)) table ++ rows.

#[global] Arguments replaceRows : simpl never.

Lemma select_replaced {A} (own : A → bool) rows table :
  (∀ r, r ∈ rows → own r = true) → List.filter own (replaceRows own rows table) = rows.
Proof.
  intros Hr. unfold replaceRows. rewrite List.filter_app, (filterb_all own rows) by done.
  rewrite filterb_none; [done|]. intros r [_ Ho]%elem_of_filterb. by apply negb_true_iff.
Qed.
Lemma select_other {A} (own other : A → bool) rows table :
  (∀ r, own r = true → other r = false) → (∀ r, r ∈ rows → own r = true) →
  List.filter other (replaceRows own rows table) = List.filter other table.
Proof.
  intros Ho Hr. unfold replaceRows. rewrite List.filter_app, (filterb_none other rows), app_nil_r by auto.
  induction table as [|x l IH]; cbn; [done|]. destruct (own x) eqn:E; cbn.
  - by rewrite (Ho x E).
  - destruct (other x); [by rewrite IH|done].
Qed.
