(* ===== verification/Authorizer.v ===== *)
(** * Authorization (pkg/core/service/control_authorizer.go)

    The services ask an [Authorizer] what an identity may do; the guards of
    this file are written against that interface.  [singleUserAuthorizer] is
    the implementation of the open-source edition (control_authorizer_oss.go):
    its single user holds every permission on every node group, which
    [single_user_allowed] states of all guards. *)

From S2P Require Import Prelude GoString ServiceErrors Records ValidatorBase.
#[local] Open Scope Z_scope.

Record ResourceScopePayload := {
  scope_ResourceType : string; scope_ResourceID : string; scope_AccessLevel : string }.
Record InternalIdentity := {
  id_UserID : string; id_OrganizationID : string; id_MemberID : string; id_Roles : list string;
  id_Permissions : list string; id_ResourceScopes : list ResourceScopePayload; id_SourceIP : string }.

(** ** Permissions (pkg/core/domain/permissions.go) *)

Definition PermissionOrganizationRead : string := "organization.read".
Definition PermissionOrganizationUpdate : string := "organization.update".
Definition PermissionQuotasManage : string := "quotas.manage".
Definition PermissionNodesRead : string := "nodes.read".
Definition PermissionNodesManage : string := "nodes.manage".
Definition PermissionMonitorsRead : string := "monitors.read".
Definition PermissionMonitorsManage : string := "monitors.manage".
Definition PermissionHealthChecksRead : string := "health_checks.read".
Definition PermissionHealthChecksManage : string := "health_checks.manage".
Definition PermissionDNSRead : string := "dns.read".
Definition PermissionDNSManage : string := "dns.manage".
Definition PermissionTargetsRead : string := "targets.read".
Definition PermissionTargetsManage : string := "targets.manage".
Definition PermissionRulesReadOwn : string := "rules.read_own".
Definition PermissionRulesManageOwn : string := "rules.manage_own".
Definition PermissionRulesReadAll : string := "rules.read_all".
Definition PermissionRulesManageAll : string := "rules.manage_all".
Definition PermissionTrafficReadOwn : string := "traffic.read_own".
Definition PermissionTrafficReadAll : string := "traffic.read_all".
Definition PermissionAuditLogsRead : string := "audit_logs.read".
Definition AccessLevelUse : string := "USE".
Definition AccessLevelManage : string := "MANAGE".

(** ** The interface *)

Class Authorizer := {
  HasPermission : InternalIdentity → string → bool;
  AllowedNodeGroupIDs : InternalIdentity → string → gmap string bool }.

(** [m[k]] of a Go map: false for a key that is absent. *)
Definition holds (m : gmap string bool) (k : string) : bool := default false (m !! k).

Section guards.
Context `{Authorizer}.
Implicit Types identity : InternalIdentity.

Definition hasPermission identity (permission : string) : bool := HasPermission identity permission.
Definition allowedNodeGroupIDs identity (requestedAccess : string) : gmap string bool :=
  AllowedNodeGroupIDs identity requestedAccess.

Definition canManageAllNodeGroups identity : bool :=
  if negb (hasPermission identity PermissionNodesManage) then false
  else holds (allowedNodeGroupIDs identity AccessLevelManage) "*".

Definition canManageNodeGroup identity (nodeGroupID : string) : bool :=
  if negb (hasPermission identity PermissionNodesManage) then false
  else let allowed := allowedNodeGroupIDs identity AccessLevelManage in
       holds allowed "*" || holds allowed nodeGroupID.

Definition canUseAnyNodeGroup identity (groupIDs : list string) : bool :=
  let allowed := allowedNodeGroupIDs identity AccessLevelUse in
  if holds allowed "*" then true else existsb (holds allowed) groupIDs.

Definition canUseNodeGroup identity (nodeGroupID : string) : bool := canUseAnyNodeGroup identity [nodeGroupID].

Definition ensureAllowed (allowed : gmap string bool) (groupIDs : list string) : result serviceError () :=
  if holds allowed "*" then Ok tt
  else reject_if ((Nat.eqb (length groupIDs) 0) || negb (forallb (holds allowed) groupIDs)) ErrForbidden.

Definition ensureCanManageNodeGroups identity (groupIDs : list string) : result serviceError () :=
  ensureAllowed (allowedNodeGroupIDs identity AccessLevelManage) groupIDs.
Definition ensureCanUseNodeGroups identity (groupIDs : list string) : result serviceError () :=
  ensureAllowed (allowedNodeGroupIDs identity AccessLevelUse) groupIDs.

Definition canListUseNodeGroupOptions identity : bool :=
  hasPermission identity PermissionRulesManageOwn || hasPermission identity PermissionRulesManageAll
  || hasPermission identity PermissionDNSRead || hasPermission identity PermissionDNSManage
  || hasPermission identity PermissionNodesManage.

(** ** Rules (control_rule_helpers.go) *)

Definition canReadRule identity (rule : RuleRecord) : bool :=
  if negb (canUseNodeGroup identity (bind_NodeGroupID (rrec_Binding rule))) then false
  else hasPermission identity PermissionRulesReadAll || hasPermission identity PermissionRulesManageAll
       || ((hasPermission identity PermissionRulesReadOwn || hasPermission identity PermissionRulesManageOwn)
           && String.eqb (rrec_OwnerUserID rule) (id_UserID identity)).

Definition hasRuleReadOrManagePermission identity : bool :=
  hasPermission identity PermissionRulesReadOwn || hasPermission identity PermissionRulesReadAll
  || hasPermission identity PermissionRulesManageOwn || hasPermission identity PermissionRulesManageAll.

Definition canManageRule identity (rule : RuleRecord) : bool :=
  if negb (canUseNodeGroup identity (bind_NodeGroupID (rrec_Binding rule))) then false
  else hasPermission identity PermissionRulesManageAll
       || (hasPermission identity PermissionRulesManageOwn
           && String.eqb (rrec_OwnerUserID rule) (id_UserID identity)).

Definition canReadRuleDeploymentNodes identity (nodeGroupID : string) : bool :=
  if negb (canUseNodeGroup identity nodeGroupID) then false
  else hasPermission identity PermissionNodesRead || hasPermission identity PermissionNodesManage.

(** ** What the guards promise *)

(** Access to a list of groups is access to each of them, and an identity
    without access to all groups must name one. *)
Lemma ensureAllowed_ok allowed groupIDs :
  ensureAllowed allowed groupIDs = Ok tt ↔
  holds allowed "*" = true ∨ (groupIDs ≠ [] ∧ ∀ g, g ∈ groupIDs → holds allowed g = true).
Proof.
  unfold ensureAllowed. destruct (holds allowed "*"); [by split; [left|]|].
  unfold reject_if. rewrite <-forallb_elem_of. destruct groupIDs; cbn [length Nat.eqb orb]; [by split; [|intros [?|[? _]]]|].
  destruct (forallb _ _); split; try done; [by right|by intros [?|[_ ?]]].
Qed.

(** Whoever may manage a rule may read it. *)
Lemma canManageRule_canReadRule identity rule : canManageRule identity rule = true → canReadRule identity rule = true.
Proof.
  unfold canManageRule, canReadRule. destruct (negb _); [done|].
  intros [->|[-> ->]%andb_true_iff]%orb_true_iff; by rewrite ?orb_true_r.
Qed.
End guards.

(** ** The open-source edition *)

Definition stringSliceHas (values : list string) (expected : string) : bool := existsb (λ v, String.eqb v expected) values.

Definition singleUserPermissions : list string := [
  PermissionAuditLogsRead; PermissionDNSManage; PermissionDNSRead; PermissionHealthChecksManage;
  PermissionHealthChecksRead; PermissionMonitorsManage; PermissionMonitorsRead; PermissionNodesManage;
  PermissionNodesRead; PermissionOrganizationRead; PermissionOrganizationUpdate; PermissionQuotasManage;
  PermissionRulesManageAll; PermissionRulesManageOwn; PermissionRulesReadAll; PermissionRulesReadOwn;
  PermissionTargetsManage; PermissionTargetsRead; PermissionTrafficReadAll; PermissionTrafficReadOwn].

Definition singleUserAuthorizer : Authorizer := {|
  HasPermission := λ _ permission, stringSliceHas singleUserPermissions permission;
  AllowedNodeGroupIDs := λ _ requestedAccess,
    if String.eqb requestedAccess AccessLevelUse || String.eqb requestedAccess AccessLevelManage
    then {["*" := true]} else ∅ |}.

(** The guards never stop the single user. *)
Lemma single_user_allowed identity groupIDs rule :
  let _ := singleUserAuthorizer in
  (∀ p, p ∈ singleUserPermissions → hasPermission identity p = true) ∧
  canManageAllNodeGroups identity = true ∧ canUseAnyNodeGroup identity groupIDs = true ∧
  ensureCanManageNodeGroups identity groupIDs = Ok tt ∧ ensureCanUseNodeGroups identity groupIDs = Ok tt ∧
  canReadRule identity rule = true ∧ canManageRule identity rule = true.
Proof.
  split; [|vm_compute; done].
  intros p Hp. apply existsb_elem_of. exists p. split; [done|apply String.eqb_refl].
Qed.
