(* ===== verification/Database.v ===== *)
(** * The database of the control plane (pkg/core/repo)

    The tables that the services for nodes, targets and rules use, and the
    statements of [PostgresStore] on them (nodes.go, targets_rules.go,
    identity.go, agents_audit.go).  A statement is a transaction on
    [database]; a row is the record it is scanned into, where the fields that
    other tables or joins fill are not read.  Text is ordered bytewise; no
    theorem depends on the order in which rows are listed.

    What the statements cannot decide is the environment of a call
    ([callEnv]): the clock, the identifiers that are generated and what the
    database refuses: its constraints, its triggers and its failures. *)

From S2P Require Import Prelude GoString GoInt GoSort Domain ServiceErrors Records ValidatorBase NodeCoverage TrafficLedger Transaction.
From coqutil Require Import Datatypes.RecordSetters.
Import TriangleBracketNotations.
#[local] Open Scope Z_scope.

(** ** Tables *)

Record memberRow := { mem_OrganizationID : string; mem_NodeID : string; mem_NodeGroupID : string }.
Record tagRow := { tag_OrganizationID : string; tag_RuleID : string; tag_Tag : string }.

Record nodeTables := {
  t_node_groups : gmap string NodeGroupRecord;
  t_nodes : gmap string NodeRecord;
  t_node_group_members : list memberRow;
  t_node_listen_ips : list NodeListenIPRecord;
  t_node_send_ips : list NodeSendIPRecord;
  t_node_port_ranges : list NodePortRangeRecord;
  t_dns_publish_addresses : list NodeDNSPublishAddressRecord }.
Record targetTables := {
  t_targets : gmap string TargetRecord;
  t_target_groups : gmap string TargetGroupRecord;
  t_target_group_members : list TargetGroupMemberRecord }.
(** Bindings and deployments are keyed by their unique constraints. *)
Record ruleTables := {
  t_inbound_bindings : gmap (string * string) InboundBindingRecord;
  t_binding_port_segments : list InboundBindingPortSegmentRecord;
  t_forwarding_rules : gmap string RuleRecord;
  t_rule_tags : list tagRow;
  t_rule_deployments : gmap (string * string * string) RuleDeploymentRecord }.
Record monitorMemberRow := { mm_OrganizationID : string; mm_MonitorID : string; mm_MonitorGroupID : string }.
Record monitorTables := {
  t_monitor_groups : gmap string MonitorGroupRecord;
  t_monitors : gmap string MonitorRecord;
  t_monitor_group_members : list monitorMemberRow;
  t_health_checks : gmap string HealthCheckRecord;
  t_health_check_targets : list HealthCheckTargetRecord;
  t_health_check_monitor_scopes : list HealthCheckMonitorScopeRecord }.
Record agentTables := {
  t_registration_tokens : gmap string AgentRegistrationTokenRecord;
  t_credentials : gmap string AgentCredentialRecord;
  t_enrollment_profiles : gmap string NodeEnrollmentProfileRecord;
  t_enrollment_events : list NodeEnrollmentEventRecord }.
Record dnsTables := {
  t_dns_managed_records : gmap string DNSManagedRecordRecord;
  t_dns_instances : gmap string DNSInstanceRecord }.
(** What TrafficLedger.v models; only the assignments are written here. *)
Record trafficTables := {
  t_rule_traffic_reports : gset (string * string * string);
  t_rule_traffic_assignments : gset (string * string * string);
  t_rule_traffic_counters : gmap string counterRow }.
Record database := {
  db_nodes : nodeTables; db_targets : targetTables; db_rules : ruleTables;
  db_monitors : monitorTables; db_agents : agentTables; db_dns : dnsTables; db_traffic : trafficTables;
  db_organizations : gmap string OrganizationRecord; db_quotas : list QuotaRecord;
  db_audit_logs : list AuditLogRecord }.

Definition with_nodes (f : nodeTables → nodeTables) (db : database) : database := {|
  db_nodes := f (db_nodes db); db_targets := db_targets db; db_rules := db_rules db;
  db_monitors := db_monitors db; db_agents := db_agents db; db_dns := db_dns db; db_traffic := db_traffic db;
  db_organizations := db_organizations db; db_quotas := db_quotas db; db_audit_logs := db_audit_logs db |}.
Definition with_targets (f : targetTables → targetTables) (db : database) : database := {|
  db_nodes := db_nodes db; db_targets := f (db_targets db); db_rules := db_rules db;
  db_monitors := db_monitors db; db_agents := db_agents db; db_dns := db_dns db; db_traffic := db_traffic db;
  db_organizations := db_organizations db; db_quotas := db_quotas db; db_audit_logs := db_audit_logs db |}.
Definition with_rules (f : ruleTables → ruleTables) (db : database) : database := {|
  db_nodes := db_nodes db; db_targets := db_targets db; db_rules := f (db_rules db);
  db_monitors := db_monitors db; db_agents := db_agents db; db_dns := db_dns db; db_traffic := db_traffic db;
  db_organizations := db_organizations db; db_quotas := db_quotas db; db_audit_logs := db_audit_logs db |}.
Definition with_monitors (f : monitorTables → monitorTables) (db : database) : database := {|
  db_nodes := db_nodes db; db_targets := db_targets db; db_rules := db_rules db;
  db_monitors := f (db_monitors db); db_agents := db_agents db; db_dns := db_dns db; db_traffic := db_traffic db;
  db_organizations := db_organizations db; db_quotas := db_quotas db; db_audit_logs := db_audit_logs db |}.
Definition with_agents (f : agentTables → agentTables) (db : database) : database := {|
  db_nodes := db_nodes db; db_targets := db_targets db; db_rules := db_rules db;
  db_monitors := db_monitors db; db_agents := f (db_agents db); db_dns := db_dns db; db_traffic := db_traffic db;
  db_organizations := db_organizations db; db_quotas := db_quotas db; db_audit_logs := db_audit_logs db |}.
Definition with_dns (f : dnsTables → dnsTables) (db : database) : database := {|
  db_nodes := db_nodes db; db_targets := db_targets db; db_rules := db_rules db;
  db_monitors := db_monitors db; db_agents := db_agents db; db_dns := f (db_dns db); db_traffic := db_traffic db;
  db_organizations := db_organizations db; db_quotas := db_quotas db; db_audit_logs := db_audit_logs db |}.
Definition with_traffic (f : trafficTables → trafficTables) (db : database) : database := {|
  db_nodes := db_nodes db; db_targets := db_targets db; db_rules := db_rules db;
  db_monitors := db_monitors db; db_agents := db_agents db; db_dns := db_dns db; db_traffic := f (db_traffic db);
  db_organizations := db_organizations db; db_quotas := db_quotas db; db_audit_logs := db_audit_logs db |}.
Definition with_audit_logs (f : list AuditLogRecord → list AuditLogRecord) (db : database) : database := {|
  db_nodes := db_nodes db; db_targets := db_targets db; db_rules := db_rules db;
  db_monitors := db_monitors db; db_agents := db_agents db; db_dns := db_dns db; db_traffic := db_traffic db;
  db_organizations := db_organizations db; db_quotas := db_quotas db; db_audit_logs := f (db_audit_logs db) |}.

(** The rows of a table with a primary key. *)
Definition rows {A} (table : gmap string A) : list A := (map_to_list table).*2.
Definition text2 {A} (f g : A → string) (x y : A) : bool :=
  if String.eqb (f x) (f y) then String.ltb (g x) (g y) else String.ltb (f x) (f y).

(** [WHERE id = ? AND organization_id = ? AND deleted_at IS NULL] *)
Definition findRow {A} (owner deleted : A → string) (table : gmap string A) (organizationID id : string) : option A :=
  row ← table !! id;
  if String.eqb (owner row) organizationID && String.eqb (deleted row) "" then Some row else None.
(** [WHERE organization_id = ? AND deleted_at IS NULL] *)
Definition liveRows {A} (owner deleted : A → string) (table : gmap string A) (organizationID : string) : list A :=
  List.filter (λ row, String.eqb (owner row) organizationID && String.eqb (deleted row) "") (rows table).

(** ** The environment of a call *)

Record callEnv := {
  env_now : string; env_newID : string; env_auditID : string; env_auditNow : string;
  env_nextID : string → nat → string;
  env_refuse : database → database → option serviceError }.

(** The identifier that [uuid.NewHash] derives from a text. *)
Class UUIDHash := uuidHash : string → string.
(** The texts that are hashed, and that no two of them collide. *)
Class HashedTexts := hashed : string → Prop.
Class NoCollision `{UUIDHash, HashedTexts} : Prop :=
  no_collision x y : hashed x → hashed y → uuidHash x = uuidHash y → x = y.

(** The text in which the database answers a time that was written as a text. *)
Class TimestampColumn := timestampText : string → string.

(** [sql.ErrNoRows] becomes [ErrNotFound]. *)
Definition found {A} (o : option A) : tx database A := match o with Some a => mret a | None => fail RepoErrNotFound end.

(** ** Tables with a primary key *)

Record table (A : Type) := Table {
  tbl_rows : database → gmap string A;
  tbl_with : (gmap string A → gmap string A) → database → database;
  tbl_owner : A → string;
  tbl_deleted : A → string }.
Arguments Table {A}. Arguments tbl_rows {A}. Arguments tbl_with {A}. Arguments tbl_owner {A}. Arguments tbl_deleted {A}.

Definition live {A} (T : table A) (organizationID id : string) (db : database) : option A :=
  findRow (tbl_owner T) (tbl_deleted T) (tbl_rows T db) organizationID id.
Definition lives {A} (T : table A) (organizationID : string) (db : database) : list A :=
  liveRows (tbl_owner T) (tbl_deleted T) (tbl_rows T db) organizationID.

(** [INSERT]: the key must be new. *)
Definition insertRow {A} (T : table A) (E : callEnv) (id : string) (row : A) : tx database () :=
  exists_ ← reads (λ db, isSome (tbl_rows T db !! id));
  reject exists_ RepoErrConflict;;
  exec (env_refuse E) (tbl_with T <[id := row]>).
(** [UPDATE ... WHERE organization_id = ? AND id = ? AND deleted_at IS NULL]
    with [requireAffected]. *)
Definition updateRow {A} (T : table A) (E : callEnv) (organizationID id : string) (f : A → A) : tx database () :=
  row ← reads (live T organizationID id);
  match row with
  | None => fail RepoErrNotFound
  | Some row => exec (env_refuse E) (tbl_with T <[id := f row]>)
  end.
(** The same without [requireAffected]: no row is no error. *)
Definition updateRowIfAny {A} (T : table A) (E : callEnv) (organizationID id : string) (f : A → A) : tx database () :=
  row ← reads (live T organizationID id);
  match row with
  | None => mret tt
  | Some row => exec (env_refuse E) (tbl_with T <[id := f row]>)
  end.

Definition nodeGroupsTable : table NodeGroupRecord := Table (λ db, t_node_groups (db_nodes db))
  (λ f, with_nodes (λ t, {| t_node_groups := f (t_node_groups t); t_nodes := t_nodes t;
    t_node_group_members := t_node_group_members t; t_node_listen_ips := t_node_listen_ips t;
    t_node_send_ips := t_node_send_ips t; t_node_port_ranges := t_node_port_ranges t;
    t_dns_publish_addresses := t_dns_publish_addresses t |})) ngrp_OrganizationID ngrp_DeletedAt.
Definition nodesTable : table NodeRecord := Table (λ db, t_nodes (db_nodes db))
  (λ f, with_nodes (λ t, {| t_node_groups := t_node_groups t; t_nodes := f (t_nodes t);
    t_node_group_members := t_node_group_members t; t_node_listen_ips := t_node_listen_ips t;
    t_node_send_ips := t_node_send_ips t; t_node_port_ranges := t_node_port_ranges t;
    t_dns_publish_addresses := t_dns_publish_addresses t |})) node_OrganizationID node_DeletedAt.
Definition targetsTable : table TargetRecord := Table (λ db, t_targets (db_targets db))
  (λ f, with_targets (λ t, {| t_targets := f (t_targets t); t_target_groups := t_target_groups t;
    t_target_group_members := t_target_group_members t |})) trec_OrganizationID trec_DeletedAt.
Definition targetGroupsTable : table TargetGroupRecord := Table (λ db, t_target_groups (db_targets db))
  (λ f, with_targets (λ t, {| t_targets := t_targets t; t_target_groups := f (t_target_groups t);
    t_target_group_members := t_target_group_members t |})) grec_OrganizationID grec_DeletedAt.
Definition rulesTable : table RuleRecord := Table (λ db, t_forwarding_rules (db_rules db))
  (λ f, with_rules (λ t, {| t_inbound_bindings := t_inbound_bindings t;
    t_binding_port_segments := t_binding_port_segments t; t_forwarding_rules := f (t_forwarding_rules t);
    t_rule_tags := t_rule_tags t; t_rule_deployments := t_rule_deployments t |})) rrec_OrganizationID rrec_DeletedAt.

(** The tables without: each is replaced through a function of its own. *)
Definition with_bindings f := with_rules (λ t, {| t_inbound_bindings := f (t_inbound_bindings t);
  t_binding_port_segments := t_binding_port_segments t; t_forwarding_rules := t_forwarding_rules t;
  t_rule_tags := t_rule_tags t; t_rule_deployments := t_rule_deployments t |}).
Definition with_segments f := with_rules (λ t, {| t_inbound_bindings := t_inbound_bindings t;
  t_binding_port_segments := f (t_binding_port_segments t); t_forwarding_rules := t_forwarding_rules t;
  t_rule_tags := t_rule_tags t; t_rule_deployments := t_rule_deployments t |}).
Definition with_tags f := with_rules (λ t, {| t_inbound_bindings := t_inbound_bindings t;
  t_binding_port_segments := t_binding_port_segments t; t_forwarding_rules := t_forwarding_rules t;
  t_rule_tags := f (t_rule_tags t); t_rule_deployments := t_rule_deployments t |}).
Definition with_deployments f := with_rules (λ t, {| t_inbound_bindings := t_inbound_bindings t;
  t_binding_port_segments := t_binding_port_segments t; t_forwarding_rules := t_forwarding_rules t;
  t_rule_tags := t_rule_tags t; t_rule_deployments := f (t_rule_deployments t) |}).
Definition with_members f := with_nodes (λ t, {| t_node_groups := t_node_groups t; t_nodes := t_nodes t;
  t_node_group_members := f (t_node_group_members t); t_node_listen_ips := t_node_listen_ips t;
  t_node_send_ips := t_node_send_ips t; t_node_port_ranges := t_node_port_ranges t;
  t_dns_publish_addresses := t_dns_publish_addresses t |}).
Definition with_listen_ips f := with_nodes (λ t, {| t_node_groups := t_node_groups t; t_nodes := t_nodes t;
  t_node_group_members := t_node_group_members t; t_node_listen_ips := f (t_node_listen_ips t);
  t_node_send_ips := t_node_send_ips t; t_node_port_ranges := t_node_port_ranges t;
  t_dns_publish_addresses := t_dns_publish_addresses t |}).
Definition with_send_ips f := with_nodes (λ t, {| t_node_groups := t_node_groups t; t_nodes := t_nodes t;
  t_node_group_members := t_node_group_members t; t_node_listen_ips := t_node_listen_ips t;
  t_node_send_ips := f (t_node_send_ips t); t_node_port_ranges := t_node_port_ranges t;
  t_dns_publish_addresses := t_dns_publish_addresses t |}).
Definition with_port_ranges f := with_nodes (λ t, {| t_node_groups := t_node_groups t; t_nodes := t_nodes t;
  t_node_group_members := t_node_group_members t; t_node_listen_ips := t_node_listen_ips t;
  t_node_send_ips := t_node_send_ips t; t_node_port_ranges := f (t_node_port_ranges t);
  t_dns_publish_addresses := t_dns_publish_addresses t |}).
Definition with_publish_addresses f := with_nodes (λ t, {| t_node_groups := t_node_groups t; t_nodes := t_nodes t;
  t_node_group_members := t_node_group_members t; t_node_listen_ips := t_node_listen_ips t;
  t_node_send_ips := t_node_send_ips t; t_node_port_ranges := t_node_port_ranges t;
  t_dns_publish_addresses := f (t_dns_publish_addresses t) |}).
Definition with_group_members f := with_targets (λ t, {| t_targets := t_targets t;
  t_target_groups := t_target_groups t; t_target_group_members := f (t_target_group_members t) |}).

(** ** Shared statements *)

Definition FindOrganizationByID (organizationID : string) : tx database OrganizationRecord :=
  row ← reads (λ db, db_organizations db !! organizationID);
  found (o ← row; if String.eqb (org_DeletedAt o) "" then Some o else None).
Definition ListQuotasByOrganization (organizationID : string) : tx database (list QuotaRecord) :=
  reads (λ db, sort_stable (text2 quo_Scope quo_ID)
                 (List.filter (λ q, String.eqb (quo_OrganizationID q) organizationID) (db_quotas db))).
Definition CreateAuditLog (E : callEnv) (audit : AuditLogRecord) : tx database () :=
  exec (env_refuse E) (with_audit_logs (λ logs, logs ++ [audit])).

(** ** Node groups and nodes (repo/nodes.go) *)

Definition ListNodeGroupsByOrganization (organizationID : string) : tx database (list NodeGroupRecord) :=
  reads (λ db, sort_stable (text2 ngrp_Name ngrp_ID) (lives nodeGroupsTable organizationID db)).
Definition FindNodeGroupByID (organizationID nodeGroupID : string) : tx database NodeGroupRecord :=
  row ← reads (live nodeGroupsTable organizationID nodeGroupID); found row.
Definition CreateNodeGroup (E : callEnv) (nodeGroup : NodeGroupRecord) : tx database () :=
  insertRow nodeGroupsTable E (ngrp_ID nodeGroup) (nodeGroup <| ngrp_DeletedAt := "" |>).
Definition UpdateNodeGroup (E : callEnv) (nodeGroup : NodeGroupRecord) : tx database () :=
  updateRow nodeGroupsTable E (ngrp_OrganizationID nodeGroup) (ngrp_ID nodeGroup) (λ row,
    row <| ngrp_Name := ngrp_Name nodeGroup |> <| ngrp_Description := ngrp_Description nodeGroup |>
        <| ngrp_UpdatedAt := ngrp_UpdatedAt nodeGroup |>).
Definition DeleteNodeGroup (E : callEnv) (organizationID nodeGroupID deletedAt : string) : tx database () :=
  updateRow nodeGroupsTable E organizationID nodeGroupID (λ row,
    row <| ngrp_DeletedAt := deletedAt |> <| ngrp_UpdatedAt := deletedAt |>).

(** The rows of a node in the tables that list its parts. *)
Definition ofNode (organizationID nodeID owner node : string) : bool :=
  String.eqb owner organizationID && String.eqb node nodeID.

Definition listNodeGroupIDs (organizationID nodeID : string) (db : database) : list string :=
  sort_stable String.ltb (map mem_NodeGroupID (List.filter (λ m,
    ofNode organizationID nodeID (mem_OrganizationID m) (mem_NodeID m)
    && isSome (live nodeGroupsTable organizationID (mem_NodeGroupID m) db)) (t_node_group_members (db_nodes db)))).
Definition listNodeListenIPs (organizationID nodeID : string) (db : database) : list NodeListenIPRecord :=
  sort_stable (text2 nlip_ListenIP nlip_ID) (List.filter (λ r,
    ofNode organizationID nodeID (nlip_OrganizationID r) (nlip_NodeID r)) (t_node_listen_ips (db_nodes db))).
Definition listNodeSendIPs (organizationID nodeID : string) (db : database) : list NodeSendIPRecord :=
  sort_stable (text2 nsip_SendIP nsip_ID) (List.filter (λ r,
    ofNode organizationID nodeID (nsip_OrganizationID r) (nsip_NodeID r)) (t_node_send_ips (db_nodes db))).
Definition portRangeBefore (x y : NodePortRangeRecord) : bool :=
  if negb (String.eqb (nrange_Protocol x) (nrange_Protocol y)) then String.ltb (nrange_Protocol x) (nrange_Protocol y)
  else if negb (nrange_StartPort x =? nrange_StartPort y) then nrange_StartPort x <? nrange_StartPort y
  else if negb (nrange_EndPort x =? nrange_EndPort y) then nrange_EndPort x <? nrange_EndPort y
  else String.ltb (nrange_ID x) (nrange_ID y).
Definition listNodePortRanges (organizationID nodeID : string) (db : database) : list NodePortRangeRecord :=
  sort_stable portRangeBefore (List.filter (λ r,
    ofNode organizationID nodeID (nrange_OrganizationID r) (nrange_NodeID r)) (t_node_port_ranges (db_nodes db))).
Definition publishAddressBefore (x y : NodeDNSPublishAddressRecord) : bool :=
  if negb (String.eqb (ndns_Source x) (ndns_Source y)) then String.ltb (ndns_Source x) (ndns_Source y)
  else if negb (String.eqb (ndns_AddressType x) (ndns_AddressType y)) then String.ltb (ndns_AddressType x) (ndns_AddressType y)
  else text2 ndns_Address ndns_ID x y.
Definition ListNodeDNSPublishAddresses (organizationID nodeID : string) (db : database) : list NodeDNSPublishAddressRecord :=
  sort_stable publishAddressBefore (List.filter (λ r,
    ofNode organizationID nodeID (ndns_OrganizationID r) (ndns_NodeID r)) (t_dns_publish_addresses (db_nodes db))).

Definition loadNodeDetails (db : database) (node : NodeRecord) : NodeRecord :=
  node <| node_GroupIDs := listNodeGroupIDs (node_OrganizationID node) (node_ID node) db |>
       <| node_ListenIPs := listNodeListenIPs (node_OrganizationID node) (node_ID node) db |>
       <| node_SendIPs := listNodeSendIPs (node_OrganizationID node) (node_ID node) db |>
       <| node_PortRanges := listNodePortRanges (node_OrganizationID node) (node_ID node) db |>
       <| node_DNSPublishAddresses := ListNodeDNSPublishAddresses (node_OrganizationID node) (node_ID node) db |>.

Definition ListNodesByOrganization (organizationID : string) : tx database (list NodeRecord) :=
  reads (λ db, map (loadNodeDetails db) (sort_stable (text2 node_Name node_ID) (lives nodesTable organizationID db))).
Definition FindNodeByID (organizationID nodeID : string) : tx database NodeRecord :=
  row ← reads (λ db, loadNodeDetails db <$> live nodesTable organizationID nodeID db); found row.

Section statements.
Context `{UnicodeTables}.

(** repo/dataplane.go *)
Definition normalizeNodeDataplaneMode (value : string) : string :=
  let v := ToUpper (TrimSpace value) in
  if bool_decide (v ∈ ["NATIVE"; "HAPROXY"; "NFTABLES"]) then v else "AUTO".
Definition normalizeNodeDataplaneConflictPolicy (value : string) : string := "FAIL_FAST".
Definition normalizeRuleDataplanePreference (value : string) : string :=
  let v := ToUpper (TrimSpace value) in
  if bool_decide (v ∈ ["NATIVE"; "HAPROXY"; "NFTABLES"]) then v else "AUTO".

(** *** Writing nodes *)

Definition rowID (E : callEnv) (id kind : string) (i : nat) : string :=
  if String.eqb id "" then env_nextID E kind i else id.

Definition replaceNodeGroups (E : callEnv) (organizationID nodeID : string) (groupIDs : list string) : tx database () :=
  exec (env_refuse E) (with_members (replaceRows
    (λ m, ofNode organizationID nodeID (mem_OrganizationID m) (mem_NodeID m))
    (map (λ g, {| mem_OrganizationID := organizationID; mem_NodeID := nodeID; mem_NodeGroupID := g |}) groupIDs))).

Definition replaceNodeListenIPs (E : callEnv) (organizationID nodeID : string) (listenIPs : list NodeListenIPRecord)
    (now : string) : tx database () :=
  exec (env_refuse E) (with_listen_ips (replaceRows
    (λ r, ofNode organizationID nodeID (nlip_OrganizationID r) (nlip_NodeID r))
    (imap (λ i r, {| nlip_ID := rowID E (nlip_ID r) "listen_ip" i; nlip_OrganizationID := organizationID;
       nlip_NodeID := nodeID; nlip_ListenIP := nlip_ListenIP r; nlip_DisplayName := nlip_DisplayName r;
       nlip_Enabled := nlip_Enabled r; nlip_CreatedAt := now; nlip_UpdatedAt := now |}) listenIPs))).

Definition replaceNodeSendIPs (E : callEnv) (organizationID nodeID : string) (sendIPs : list NodeSendIPRecord)
    (now : string) : tx database () :=
  exec (env_refuse E) (with_send_ips (replaceRows
    (λ r, ofNode organizationID nodeID (nsip_OrganizationID r) (nsip_NodeID r))
    (imap (λ i r, {| nsip_ID := rowID E (nsip_ID r) "send_ip" i; nsip_OrganizationID := organizationID;
       nsip_NodeID := nodeID; nsip_SendIP := nsip_SendIP r; nsip_DisplayName := nsip_DisplayName r;
       nsip_Enabled := nsip_Enabled r; nsip_CreatedAt := now; nsip_UpdatedAt := now |}) sendIPs))).

Definition replaceNodePortRanges (E : callEnv) (organizationID nodeID : string) (portRanges : list NodePortRangeRecord)
    (now : string) : tx database () :=
  exec (env_refuse E) (with_port_ranges (replaceRows
    (λ r, ofNode organizationID nodeID (nrange_OrganizationID r) (nrange_NodeID r))
    (imap (λ i r, {| nrange_ID := rowID E (nrange_ID r) "port_range" i; nrange_OrganizationID := organizationID;
       nrange_NodeID := nodeID; nrange_Protocol := nrange_Protocol r; nrange_StartPort := nrange_StartPort r;
       nrange_EndPort := nrange_EndPort r; nrange_Enabled := nrange_Enabled r; nrange_CreatedAt := now;
       nrange_UpdatedAt := now |}) portRanges))).

Definition manualAddress (organizationID nodeID : string) (r : NodeDNSPublishAddressRecord) : bool :=
  ofNode organizationID nodeID (ndns_OrganizationID r) (ndns_NodeID r) && String.eqb (ndns_Source r) "MANUAL".
Definition ReplaceManualNodeDNSPublishAddresses (E : callEnv) (organizationID nodeID : string)
    (addresses : list NodeDNSPublishAddressRecord) (now : string) : tx database () :=
  exec (env_refuse E) (with_publish_addresses (replaceRows (manualAddress organizationID nodeID)
    (imap (λ i r, {| ndns_ID := rowID E (ndns_ID r) "dns_publish_address" i; ndns_OrganizationID := organizationID;
       ndns_NodeID := nodeID; ndns_AddressType := ndns_AddressType r; ndns_Address := ndns_Address r;
       ndns_Source := "MANUAL"; ndns_Enabled := ndns_Enabled r; ndns_ObservedAt := ndns_ObservedAt r;
       ndns_CreatedAt := now; ndns_UpdatedAt := now |}) addresses))).

(** The columns that [INSERT INTO nodes] does not name take their defaults. *)
Definition insertedNode (node : NodeRecord) : NodeRecord := {|
  node_ID := node_ID node; node_OrganizationID := node_OrganizationID node; node_Name := node_Name node;
  node_Status := node_Status node; node_PublicDescription := node_PublicDescription node;
  node_DesiredConfigVersion := node_DesiredConfigVersion node;
  node_AppliedConfigVersion := node_AppliedConfigVersion node; node_ConfigStatus := node_ConfigStatus node;
  node_ConfigErrorMessage := node_ConfigErrorMessage node; node_ConfigStatusConfigVersion := 0;
  node_ConfigRetryCount := 0; node_ConfigNextRetryAt := "";
  node_ConfigStatusUpdatedAt := node_ConfigStatusUpdatedAt node; node_LastSeenAt := ""; node_RegisteredAt := "";
  node_AgentVersion := ""; node_AgentCommit := ""; node_AgentBuildTime := "";
  node_AgentAutoUpdateEnabled := node_AgentAutoUpdateEnabled node; node_DesiredAgentVersion := "";
  node_AgentUpdateStatus := "IDLE"; node_AgentUpdateError := ""; node_AgentUpdateStartedAt := "";
  node_AgentUpdateFinishedAt := ""; node_DataplaneMode := normalizeNodeDataplaneMode (node_DataplaneMode node);
  node_DataplaneConflictPolicy := normalizeNodeDataplaneConflictPolicy (node_DataplaneConflictPolicy node);
  node_DataplaneInstanceID := ""; node_DataplaneStatus := "UNKNOWN"; node_DataplaneError := "";
  node_DataplaneLastHash := ""; node_DataplaneLastAppliedAt := "";
  node_EnrollmentProfileID := node_EnrollmentProfileID node;
  node_EnrollmentProfileName := node_EnrollmentProfileName node; node_CreatedAt := node_CreatedAt node;
  node_UpdatedAt := node_UpdatedAt node; node_DeletedAt := ""; node_GroupIDs := []; node_ListenIPs := [];
  node_SendIPs := []; node_PortRanges := []; node_DNSPublishAddresses := [];
  node_MaxRulePorts := defaultMaxRulePorts (node_MaxRulePorts node) |}.

Definition CreateNode (E : callEnv) (node : NodeRecord) (groupIDs : list string) (listenIPs : list NodeListenIPRecord)
    (portRanges : list NodePortRangeRecord) (now : string) : tx database () :=
  insertRow nodesTable E (node_ID node) (insertedNode node);;
  replaceNodeGroups E (node_OrganizationID node) (node_ID node) groupIDs;;
  replaceNodeListenIPs E (node_OrganizationID node) (node_ID node) listenIPs now;;
  replaceNodeSendIPs E (node_OrganizationID node) (node_ID node) (node_SendIPs node) now;;
  replaceNodePortRanges E (node_OrganizationID node) (node_ID node) portRanges now.

Definition when (b : bool) (m : tx database ()) : tx database () := if b then m else mret tt.

Definition updatedNode (node row : NodeRecord) : NodeRecord :=
  row <| node_Name := node_Name node |> <| node_PublicDescription := node_PublicDescription node |>
      <| node_DataplaneMode := normalizeNodeDataplaneMode (node_DataplaneMode node) |>
      <| node_DataplaneConflictPolicy := normalizeNodeDataplaneConflictPolicy (node_DataplaneConflictPolicy node) |>
      <| node_MaxRulePorts := defaultMaxRulePorts (node_MaxRulePorts node) |>
      <| node_UpdatedAt := node_UpdatedAt node |>.
Definition UpdateNode (E : callEnv) (node : NodeRecord) (replaceGroups : bool) (groupIDs : list string)
    (replaceListenIPs : bool) (listenIPs : list NodeListenIPRecord) (replacePortRanges : bool)
    (portRanges : list NodePortRangeRecord) (now : string) : tx database () :=
  updateRow nodesTable E (node_OrganizationID node) (node_ID node) (updatedNode node);;
  when replaceGroups (replaceNodeGroups E (node_OrganizationID node) (node_ID node) groupIDs);;
  when replaceListenIPs (replaceNodeListenIPs E (node_OrganizationID node) (node_ID node) listenIPs now);;
  replaceNodeSendIPs E (node_OrganizationID node) (node_ID node) (node_SendIPs node) now;;
  when replacePortRanges (replaceNodePortRanges E (node_OrganizationID node) (node_ID node) portRanges now).

Definition DeleteNode (E : callEnv) (organizationID nodeID deletedAt : string) : tx database () :=
  updateRow nodesTable E organizationID nodeID (λ row,
    row <| node_DeletedAt := deletedAt |> <| node_UpdatedAt := deletedAt |>).

(** *** Configuration versions *)

Definition bumpedNode (now : string) (row : NodeRecord) : NodeRecord :=
  let version := if node_AppliedConfigVersion row <=? node_DesiredConfigVersion row
                 then node_DesiredConfigVersion row + 1 else node_AppliedConfigVersion row + 1 in
  row <| node_DesiredConfigVersion := version |> <| node_ConfigStatus := "PENDING" |>
      <| node_ConfigErrorMessage := "" |> <| node_ConfigStatusConfigVersion := version |>
      <| node_ConfigRetryCount := 0 |> <| node_ConfigNextRetryAt := "" |>
      <| node_ConfigStatusUpdatedAt := now |> <| node_UpdatedAt := now |>.

Definition IncrementDesiredConfigForNode (E : callEnv) (organizationID nodeID now : string) : tx database () :=
  updateRow nodesTable E organizationID nodeID (bumpedNode now).

(** [id IN (SELECT node_id FROM node_group_members ...)] *)
Definition isMember (organizationID nodeGroupID nodeID : string) (db : database) : bool :=
  existsb (λ m, String.eqb (mem_OrganizationID m) organizationID && String.eqb (mem_NodeGroupID m) nodeGroupID
                && String.eqb (mem_NodeID m) nodeID) (t_node_group_members (db_nodes db)).
Definition IncrementDesiredConfigForNodeGroup (E : callEnv) (organizationID nodeGroupID now : string) : tx database () :=
  exec (env_refuse E) (λ db, tbl_with nodesTable (fmap (λ row,
    if String.eqb (node_OrganizationID row) organizationID && String.eqb (node_DeletedAt row) ""
       && isMember organizationID nodeGroupID (node_ID row) db
    then bumpedNode now row else row)) db).

Definition EnsureDesiredConfigVersionAtLeast (E : callEnv) (organizationID nodeID : string) (configVersion : Z)
    (now : string) : tx database () :=
  updateRowIfAny nodesTable E organizationID nodeID (λ row,
    if node_DesiredConfigVersion row <? configVersion then
      row <| node_DesiredConfigVersion := configVersion |> <| node_ConfigStatus := "PENDING" |>
          <| node_ConfigErrorMessage := "" |> <| node_ConfigStatusConfigVersion := configVersion |>
          <| node_ConfigRetryCount := 0 |> <| node_ConfigNextRetryAt := "" |>
          <| node_ConfigStatusUpdatedAt := now |> <| node_UpdatedAt := now |>
    else row).

Definition appliedNode (ack : NodeConfigAckRecord) (now : string) (row : NodeRecord) : NodeRecord :=
  let current := node_DesiredConfigVersion row <=? ack_ConfigVersion ack in
  row <| node_AppliedConfigVersion := ack_ConfigVersion ack |>
      <| node_ConfigStatus := if current then "APPLIED" else "PENDING" |>
      <| node_ConfigErrorMessage := "" |> <| node_ConfigStatusConfigVersion := ack_ConfigVersion ack |>
      <| node_ConfigRetryCount := 0 |> <| node_ConfigNextRetryAt := "" |> <| node_ConfigStatusUpdatedAt := now |>
      <| node_DataplaneStatus := if current then ack_DataplaneStatus ack else node_DataplaneStatus row |>
      <| node_DataplaneError := if current then "" else node_DataplaneError row |>
      <| node_DataplaneLastHash := if current then ack_DataplaneLastHash ack else node_DataplaneLastHash row |>
      <| node_DataplaneLastAppliedAt := if current then now else node_DataplaneLastAppliedAt row |>
      <| node_LastSeenAt := now |> <| node_UpdatedAt := now |>.
Context {TT : TimestampColumn}.
Definition failedNode (ack : NodeConfigAckRecord) (now : string) (row : NodeRecord) : NodeRecord :=
  let current := node_DesiredConfigVersion row <=? ack_ConfigVersion ack in
  row <| node_ConfigStatus := if current then "FAILED" else "PENDING" |>
      <| node_ConfigErrorMessage := if current then ack_ErrorMessage ack else "" |>
      <| node_ConfigStatusConfigVersion := ack_ConfigVersion ack |>
      <| node_ConfigRetryCount := ack_RetryCount ack |> <| node_ConfigNextRetryAt := timestampText (ack_NextRetryAt ack) |>
      <| node_ConfigStatusUpdatedAt := now |>
      <| node_DataplaneStatus := if current then ack_DataplaneStatus ack else node_DataplaneStatus row |>
      <| node_DataplaneError := if current then ack_DataplaneError ack else node_DataplaneError row |>
      <| node_LastSeenAt := now |> <| node_UpdatedAt := now |>.

Definition RecordNodeConfigAck (E : callEnv) (organizationID nodeID : string) (ack : NodeConfigAckRecord)
    (now : string) : tx database () :=
  updateRowIfAny nodesTable E organizationID nodeID (λ row,
    if (node_AppliedConfigVersion row <=? ack_ConfigVersion ack)
       && (ack_ConfigVersion ack <=? node_DesiredConfigVersion row)
    then (if String.eqb (ack_Status ack) "APPLIED" then appliedNode ack now row else failedNode ack now row)
    else row).
End statements.
