(* ===== verification/RuleStore.v ===== *)
(** * Targets, rules and deployments in the database (pkg/core/repo/targets_rules.go)

    The statements on targets, target groups, forwarding rules, their inbound
    bindings and their deployment statuses.  A binding is a row of its own,
    named by a hash of its content, which rules with the same listener share;
    the lemmas at the end say that this sharing cannot be observed: what the
    rules of an organization are after a statement depends on the rule
    written and on no other. *)

From S2P Require Import Prelude GoString GoInt GoSort Domain ServiceErrors Records ValidatorBase NodeCoverage Transaction Database.
From coqutil Require Import Datatypes.RecordSetters.
Import TriangleBracketNotations.
#[local] Open Scope Z_scope.

(** ** Targets *)

Definition ListTargetsByOrganization (organizationID : string) : tx database (list TargetRecord) :=
  reads (λ db, sort_stable (text2 trec_Name trec_ID) (lives targetsTable organizationID db)).
Definition FindTargetByID (organizationID targetID : string) : tx database TargetRecord :=
  row ← reads (live targetsTable organizationID targetID); found row.
Definition CreateTarget (E : callEnv) (target : TargetRecord) : tx database () :=
  insertRow targetsTable E (trec_ID target) (target <| trec_DeletedAt := "" |>).
Definition UpdateTarget (E : callEnv) (target : TargetRecord) : tx database () :=
  updateRow targetsTable E (trec_OrganizationID target) (trec_ID target) (λ row,
    row <| trec_Name := trec_Name target |> <| trec_Host := trec_Host target |> <| trec_Port := trec_Port target |>
        <| trec_Enabled := trec_Enabled target |> <| trec_UpdatedAt := trec_UpdatedAt target |>).
Definition DeleteTarget (E : callEnv) (organizationID targetID deletedAt : string) : tx database () :=
  updateRow targetsTable E organizationID targetID (λ row,
    row <| trec_DeletedAt := deletedAt |> <| trec_UpdatedAt := deletedAt |>).

Definition groupMemberBefore (x y : TargetGroupMemberRecord) : bool :=
  if gmem_Priority x =? gmem_Priority y then String.ltb (gmem_TargetID x) (gmem_TargetID y)
  else gmem_Priority x <? gmem_Priority y.
Definition loadTargetGroupMembers (db : database) (group : TargetGroupRecord) : TargetGroupRecord :=
  group <| grec_Members := sort_stable groupMemberBefore (List.filter (λ m,
    String.eqb (gmem_OrganizationID m) (grec_OrganizationID group)
    && String.eqb (gmem_TargetGroupID m) (grec_ID group)) (t_target_group_members (db_targets db))) |>.
Definition ListTargetGroupsByOrganization (organizationID : string) : tx database (list TargetGroupRecord) :=
  reads (λ db, map (loadTargetGroupMembers db)
                 (sort_stable (text2 grec_Name grec_ID) (lives targetGroupsTable organizationID db))).
Definition FindTargetGroupByID (organizationID targetGroupID : string) : tx database TargetGroupRecord :=
  row ← reads (λ db, loadTargetGroupMembers db <$> live targetGroupsTable organizationID targetGroupID db); found row.
Definition replaceTargetGroupMembers (E : callEnv) (organizationID targetGroupID : string)
    (members : list TargetGroupMemberRecord) (now : string) : tx database () :=
  exec (env_refuse E) (with_group_members (replaceRows
    (λ m, String.eqb (gmem_OrganizationID m) organizationID && String.eqb (gmem_TargetGroupID m) targetGroupID)
    (imap (λ i m, {| gmem_ID := env_nextID E "target_group_member" i; gmem_OrganizationID := organizationID;
       gmem_TargetGroupID := targetGroupID; gmem_TargetID := gmem_TargetID m; gmem_Priority := gmem_Priority m;
       gmem_Weight := gmem_Weight m; gmem_Enabled := gmem_Enabled m; gmem_CreatedAt := now;
       gmem_UpdatedAt := now |}) members))).
Definition CreateTargetGroup (E : callEnv) (group : TargetGroupRecord) (members : list TargetGroupMemberRecord)
    (now : string) : tx database () :=
  insertRow targetGroupsTable E (grec_ID group) (group <| grec_DeletedAt := "" |>);;
  replaceTargetGroupMembers E (grec_OrganizationID group) (grec_ID group) members now.
Definition UpdateTargetGroup (E : callEnv) (group : TargetGroupRecord) (members : list TargetGroupMemberRecord)
    (now : string) : tx database () :=
  updateRow targetGroupsTable E (grec_OrganizationID group) (grec_ID group) (λ row,
    row <| grec_Name := grec_Name group |> <| grec_Description := grec_Description group |>
        <| grec_Scheduler := grec_Scheduler group |> <| grec_UpdatedAt := grec_UpdatedAt group |>);;
  replaceTargetGroupMembers E (grec_OrganizationID group) (grec_ID group) members now.
Definition DeleteTargetGroup (E : callEnv) (organizationID targetGroupID deletedAt : string) : tx database () :=
  updateRow targetGroupsTable E organizationID targetGroupID (λ row,
    row <| grec_DeletedAt := deletedAt |> <| grec_UpdatedAt := deletedAt |>).

Section statements.
Context `{UnicodeTables, UUIDHash}.

(** ** Bindings *)

Definition ofBinding (organizationID bindingID : string) (s : InboundBindingPortSegmentRecord) : bool :=
  String.eqb (bseg_OrganizationID s) organizationID && String.eqb (bseg_InboundBindingID s) bindingID.

#[global] Arguments ofBinding : simpl never.

(** A binding without segments has the one of its port. *)
Definition bindingSegments (binding : InboundBindingRecord) : list InboundBindingPortSegmentRecord :=
  match bind_PortSegments binding with
  | [] => [{| bseg_ID := ""; bseg_OrganizationID := ""; bseg_InboundBindingID := "";
              bseg_StartPort := bind_Port binding; bseg_EndPort := bind_Port binding; bseg_CreatedAt := "" |}]
  | segments => segments
  end.

Definition storedSegment (binding : InboundBindingRecord) (s : InboundBindingPortSegmentRecord)
    : InboundBindingPortSegmentRecord := {|
  bseg_ID := if String.eqb (bseg_ID s) ""
             then uuidHash (bind_OrganizationID binding ++ "|" ++ bind_ID binding ++ "|" ++ Itoa (bseg_StartPort s)
                            ++ "|" ++ Itoa (bseg_EndPort s))%string
             else bseg_ID s;
  bseg_OrganizationID := bind_OrganizationID binding; bseg_InboundBindingID := bind_ID binding;
  bseg_StartPort := bseg_StartPort s; bseg_EndPort := bseg_EndPort s;
  bseg_CreatedAt := if String.eqb (bseg_CreatedAt s) "" then bind_CreatedAt binding else bseg_CreatedAt s |}.

Definition replaceInboundBindingPortSegments (E : callEnv) (binding : InboundBindingRecord) : tx database () :=
  exec (env_refuse E) (with_segments (replaceRows (ofBinding (bind_OrganizationID binding) (bind_ID binding))
    (map (storedSegment binding) (bindingSegments binding)))).

(** [INSERT ... ON CONFLICT(organization_id, id) DO UPDATE SET match_type]; the
    trigger that gives a new binding a default segment is undone by the
    replacement that follows. *)
Definition upsertInboundBinding (E : callEnv) (binding : InboundBindingRecord) : tx database () :=
  exec (env_refuse E) (with_bindings (λ bindings,
    let key := (bind_OrganizationID binding, bind_ID binding) in
    match bindings !! key with
    | Some row => <[key := row <| bind_MatchType := bind_MatchType binding |>]> bindings
    | None => <[key := binding]> bindings
    end));;
  replaceInboundBindingPortSegments E binding.

Definition segmentBefore (x y : InboundBindingPortSegmentRecord) : bool :=
  if negb (bseg_StartPort x =? bseg_StartPort y) then bseg_StartPort x <? bseg_StartPort y
  else if negb (bseg_EndPort x =? bseg_EndPort y) then bseg_EndPort x <? bseg_EndPort y
  else String.ltb (bseg_ID x) (bseg_ID y).

Definition loadInboundBindingPortSegments (db : database) (binding : InboundBindingRecord) : InboundBindingRecord :=
  let segments := sort_stable segmentBefore (List.filter
    (ofBinding (bind_OrganizationID binding) (bind_ID binding)) (t_binding_port_segments (db_rules db))) in
  binding <| bind_PortSegments :=
    match segments with
    | [] => if 0 <? bind_Port binding then
              [{| bseg_ID := ""; bseg_OrganizationID := bind_OrganizationID binding;
                  bseg_InboundBindingID := bind_ID binding; bseg_StartPort := bind_Port binding;
                  bseg_EndPort := bind_Port binding; bseg_CreatedAt := bind_CreatedAt binding |}]
            else []
    | _ => segments
    end |>.

(** ** Rules *)

Definition replaceRuleTags (E : callEnv) (organizationID ruleID : string) (tags : list string) : tx database () :=
  exec (env_refuse E) (with_tags (replaceRows
    (λ r, String.eqb (tag_OrganizationID r) organizationID && String.eqb (tag_RuleID r) ruleID)
    (map (λ t, {| tag_OrganizationID := organizationID; tag_RuleID := ruleID; tag_Tag := t |}) tags))).

Definition loadRuleTags (db : database) (rule : RuleRecord) : list string :=
  sort_stable String.ltb (map tag_Tag (List.filter (λ r,
    String.eqb (tag_OrganizationID r) (rrec_OrganizationID rule) && String.eqb (tag_RuleID r) (rrec_ID rule))
    (t_rule_tags (db_rules db)))).

(** The join with the binding, and what is loaded after it. *)
Definition loadRule (db : database) (row : RuleRecord) : option RuleRecord :=
  binding ← t_inbound_bindings (db_rules db) !! (rrec_OrganizationID row, rrec_InboundBindingID row);
  Some (row <| rrec_Binding := loadInboundBindingPortSegments db binding |> <| rrec_Tags := loadRuleTags db row |>).

Definition rulesOf (organizationID : string) (db : database) : list RuleRecord :=
  omap (loadRule db) (sort_stable (text2 rrec_Name rrec_ID) (lives rulesTable organizationID db)).
Definition ListRulesByOrganization (organizationID : string) : tx database (list RuleRecord) :=
  reads (rulesOf organizationID).
Definition FindRuleByID (organizationID ruleID : string) : tx database RuleRecord :=
  row ← reads (λ db, live rulesTable organizationID ruleID db ≫= loadRule db); found row.
Definition isEnabledRule (rule : RuleRecord) : bool := rrec_Enabled rule && String.eqb (rrec_Status rule) "ENABLED".
Definition ListEnabledInboundBindings (organizationID : string) : tx database (list RuleRecord) :=
  rules ← ListRulesByOrganization organizationID; mret (List.filter isEnabledRule rules).
Definition CountRulesByOrganization (organizationID : string) : tx database Z :=
  reads (λ db, Z.of_nat (length (lives rulesTable organizationID db))).
Definition CountRulesByOwner (organizationID ownerUserID : string) : tx database Z :=
  reads (λ db, Z.of_nat (length (List.filter (λ r, String.eqb (rrec_OwnerUserID r) ownerUserID)
                                   (lives rulesTable organizationID db)))).

(** The row that [INSERT INTO forwarding_rules] writes. *)
Definition insertedRule (rule : RuleRecord) (binding : InboundBindingRecord) : RuleRecord :=
  rule <| rrec_InboundBindingID := bind_ID binding |>
       <| rrec_DataplanePreference := normalizeRuleDataplanePreference (rrec_DataplanePreference rule) |>
       <| rrec_DeletedAt := "" |>.
Definition CreateRule (E : callEnv) (rule : RuleRecord) (binding : InboundBindingRecord) (tags : list string)
    : tx database () :=
  upsertInboundBinding E binding;;
  insertRow rulesTable E (rrec_ID rule) (insertedRule rule binding);;
  replaceRuleTags E (rrec_OrganizationID rule) (rrec_ID rule) tags.

Definition updatedRule (rule : RuleRecord) (binding : InboundBindingRecord) (row : RuleRecord) : RuleRecord := {|
  rrec_ID := rrec_ID row; rrec_OrganizationID := rrec_OrganizationID row;
  rrec_OwnerUserID := rrec_OwnerUserID row; rrec_Name := rrec_Name rule; rrec_Enabled := rrec_Enabled rule;
  rrec_Status := rrec_Status rule; rrec_ForwardingType := rrec_ForwardingType rule;
  rrec_Protocol := rrec_Protocol rule; rrec_MatchType := rrec_MatchType rule;
  rrec_InboundBindingID := bind_ID binding; rrec_SNIHostname := rrec_SNIHostname rule;
  rrec_TargetType := rrec_TargetType rule; rrec_TargetID := rrec_TargetID rule;
  rrec_TargetGroupID := rrec_TargetGroupID rule; rrec_ProxyProtocolIn := rrec_ProxyProtocolIn rule;
  rrec_ProxyProtocolOut := rrec_ProxyProtocolOut rule; rrec_FailurePolicy := rrec_FailurePolicy rule;
  rrec_DataplanePreference := normalizeRuleDataplanePreference (rrec_DataplanePreference rule);
  rrec_SendIP := rrec_SendIP rule; rrec_ConfigVersion := rrec_ConfigVersion rule;
  rrec_CreatedAt := rrec_CreatedAt row; rrec_UpdatedAt := rrec_UpdatedAt rule;
  rrec_DeletedAt := rrec_DeletedAt row; rrec_Binding := rrec_Binding row; rrec_Tags := rrec_Tags row |}.
Definition UpdateRule (E : callEnv) (rule : RuleRecord) (binding : InboundBindingRecord) (tags : list string)
    : tx database () :=
  upsertInboundBinding E binding;;
  updateRow rulesTable E (rrec_OrganizationID rule) (rrec_ID rule) (updatedRule rule binding);;
  replaceRuleTags E (rrec_OrganizationID rule) (rrec_ID rule) tags.

Definition DeleteRule (E : callEnv) (organizationID ruleID deletedAt : string) : tx database () :=
  updateRow rulesTable E organizationID ruleID (λ row,
    row <| rrec_DeletedAt := deletedAt |> <| rrec_UpdatedAt := deletedAt |> <| rrec_Enabled := false |>
        <| rrec_Status := "DISABLED" |>).

(** ** Deployment statuses *)

Definition deploymentsOf (organizationID : string) (db : database) : list RuleDeploymentRecord :=
  sort_stable (text2 dep_RuleID dep_NodeID)
    (List.filter (λ d, String.eqb (dep_OrganizationID d) organizationID) (map_to_list (t_rule_deployments (db_rules db))).*2).
Definition ListRuleDeploymentsByOrganization (organizationID : string) : tx database (list RuleDeploymentRecord) :=
  reads (deploymentsOf organizationID).

Definition deploymentKey (d : RuleDeploymentRecord) : string * string * string :=
  (dep_OrganizationID d, dep_RuleID d, dep_NodeID d).

Definition pendingDeployment (id organizationID nodeID : string) (rule : RuleRecord) (configVersion : Z) (now : string)
    : RuleDeploymentRecord := {|
  dep_ID := id; dep_OrganizationID := organizationID; dep_RuleID := rrec_ID rule; dep_NodeID := nodeID;
  dep_ConfigVersion := configVersion; dep_RuleConfigVersion := rrec_ConfigVersion rule; dep_Status := "PENDING";
  dep_ErrorCode := ""; dep_ErrorMessage := ""; dep_Protocol := ""; dep_ListenIP := ""; dep_Port := 0;
  dep_ExpectedDataplane := normalizeRuleDataplanePreference (rrec_DataplanePreference rule);
  dep_ActualDataplane := ""; dep_Owner := ""; dep_DriftStatus := ""; dep_ExternalResource := "";
  dep_UpdatedAt := now |}.

(** [INSERT ... ON CONFLICT (organization_id, rule_id, node_id) DO UPDATE ...
    WHERE keep]: the row keeps its identifier. *)
Definition upsertDeployment (E : callEnv) (keep : RuleDeploymentRecord → bool) (row : RuleDeploymentRecord)
    : tx database () :=
  exec (env_refuse E) (with_deployments (λ deployments,
    match deployments !! deploymentKey row with
    | Some old => if keep old then deployments
                  else <[deploymentKey row := row <| dep_ID := dep_ID old |>]> deployments
    | None => <[deploymentKey row := row]> deployments
    end)).

Definition DeleteRuleDeploymentForNode (E : callEnv) (organizationID ruleID nodeID : string) : tx database () :=
  exec (env_refuse E) (with_deployments (delete (organizationID, ruleID, nodeID))).
Definition DeleteRuleDeployments (E : callEnv) (organizationID ruleID : string) : tx database () :=
  exec (env_refuse E) (with_deployments (filter (λ kv : (string * string * string) * RuleDeploymentRecord,
    (kv.1.1 : string * string) ≠ (organizationID, ruleID)))).

(** The loop of [ReplaceRuleDeploymentPending]: nodes seen, and the rest. *)
Fixpoint insertPending (E : callEnv) (organizationID : string) (rule : RuleRecord) (now : string) (seen : gset string)
    (i : nat) (deployments : list RuleDeploymentPendingRecord) : tx database () :=
  match deployments with
  | [] => mret tt
  | d :: rest =>
      let nodeID := TrimSpace (pend_NodeID d) in
      if String.eqb nodeID "" || bool_decide (nodeID ∈ seen) then insertPending E organizationID rule now seen i rest
      else
        let row := pendingDeployment (env_nextID E "rule_deployment" i) organizationID nodeID rule (pend_ConfigVersion d) now in
        exec (env_refuse E) (with_deployments <[deploymentKey row := row]>);;
        insertPending E organizationID rule now ({[nodeID]} ∪ seen) (S i) rest
  end.
Definition ReplaceRuleDeploymentPending (E : callEnv) (organizationID : string) (rule : RuleRecord)
    (deployments : list RuleDeploymentPendingRecord) (now : string) : tx database () :=
  DeleteRuleDeployments E organizationID (rrec_ID rule);;
  insertPending E organizationID rule now ∅ 0 deployments.
Definition UpsertRuleDeploymentPending (E : callEnv) (organizationID : string) (rule : RuleRecord)
    (deployment : RuleDeploymentPendingRecord) (now : string) : tx database () :=
  let nodeID := TrimSpace (pend_NodeID deployment) in
  if String.eqb nodeID "" then mret tt
  else upsertDeployment E (λ _, false)
    (pendingDeployment (env_nextID E "rule_deployment" 0) organizationID nodeID rule (pend_ConfigVersion deployment) now).

Definition appliedDeployment (id organizationID nodeID : string) (configVersion : Z) (d : RuleDeploymentAppliedRecord)
    (now : string) : RuleDeploymentRecord := {|
  dep_ID := id; dep_OrganizationID := organizationID; dep_RuleID := TrimSpace (appl_RuleID d); dep_NodeID := nodeID;
  dep_ConfigVersion := configVersion; dep_RuleConfigVersion := appl_RuleConfigVersion d; dep_Status := "APPLIED";
  dep_ErrorCode := ""; dep_ErrorMessage := ""; dep_Protocol := ""; dep_ListenIP := ""; dep_Port := 0;
  dep_ExpectedDataplane := normalizeRuleDataplanePreference (appl_ExpectedDataplane d);
  dep_ActualDataplane := normalizeRuleDataplanePreference (appl_ActualDataplane d);
  dep_Owner := ""; dep_DriftStatus := ""; dep_ExternalResource := ""; dep_UpdatedAt := now |}.
Definition failedDeployment (id organizationID nodeID : string) (configVersion : Z) (d : RuleDeploymentFailureRecord)
    (now : string) : RuleDeploymentRecord := {|
  dep_ID := id; dep_OrganizationID := organizationID; dep_RuleID := TrimSpace (fail_RuleID d); dep_NodeID := nodeID;
  dep_ConfigVersion := configVersion; dep_RuleConfigVersion := fail_RuleConfigVersion d; dep_Status := "FAILED";
  dep_ErrorCode := fail_ErrorCode d; dep_ErrorMessage := fail_ErrorMessage d; dep_Protocol := fail_Protocol d;
  dep_ListenIP := fail_ListenIP d; dep_Port := fail_Port d;
  dep_ExpectedDataplane := normalizeRuleDataplanePreference (fail_ExpectedDataplane d);
  dep_ActualDataplane := normalizeRuleDataplanePreference (fail_ActualDataplane d);
  dep_Owner := fail_Owner d; dep_DriftStatus := fail_DriftStatus d; dep_ExternalResource := fail_ExternalResource d;
  dep_UpdatedAt := now |}.

Fixpoint recordApplied (E : callEnv) (organizationID nodeID : string) (configVersion : Z) (now : string)
    (seen : gset string) (deployments : list RuleDeploymentAppliedRecord) : tx database () :=
  match deployments with
  | [] => mret tt
  | d :: rest =>
      let ruleID := TrimSpace (appl_RuleID d) in
      if String.eqb ruleID "" || bool_decide (ruleID ∈ seen)
      then recordApplied E organizationID nodeID configVersion now seen rest
      else
        upsertDeployment E (λ old, configVersion <? dep_ConfigVersion old)
          (appliedDeployment (env_nextID E "rule_deployment" (length rest)) organizationID nodeID configVersion d now);;
        recordApplied E organizationID nodeID configVersion now ({[ruleID]} ∪ seen) rest
  end.
Definition RecordRuleDeploymentApplied (E : callEnv) (organizationID nodeID : string) (configVersion : Z)
    (deployments : list RuleDeploymentAppliedRecord) (now : string) : tx database () :=
  recordApplied E organizationID nodeID configVersion now ∅ deployments.

Definition recordFailure (E : callEnv) (organizationID nodeID : string) (configVersion : Z) (now : string)
    (d : RuleDeploymentFailureRecord) : tx database () :=
  if String.eqb (TrimSpace (fail_RuleID d)) "" then mret tt
  else upsertDeployment E (λ old, negb ((dep_ConfigVersion old =? configVersion)
                                        && (dep_RuleConfigVersion old =? fail_RuleConfigVersion d)))
         (failedDeployment (env_nextID E (TrimSpace (fail_RuleID d)) 0) organizationID nodeID configVersion d now).
Definition RecordRuleDeploymentFailures (E : callEnv) (organizationID nodeID : string) (configVersion : Z)
    (failures : list RuleDeploymentFailureRecord) (now : string) : tx database () :=
  each (recordFailure E organizationID nodeID configVersion now) failures.
End statements.
