(* ===== verification/AgentStore.v ===== *)
(** * Agents and their enrollment in the database (repo/agents_audit.go, repo/node_enrollment_profiles.go)

    Registration tokens, credentials, enrollment profiles and enrollment
    events.  The hashes of tokens and credentials are unique columns, so a
    search by hash finds at most one row. *)

From S2P Require Import Prelude GoString GoSort Domain ServiceErrors Records ValidatorBase NodeCoverage Transaction Database.
From coqutil Require Import Datatypes.RecordSetters.
Import TriangleBracketNotations.
#[local] Open Scope Z_scope.

Definition with_agent_tokens f := with_agents (λ t, {| t_registration_tokens := f (t_registration_tokens t);
  t_credentials := t_credentials t; t_enrollment_profiles := t_enrollment_profiles t;
  t_enrollment_events := t_enrollment_events t |}).
Definition with_credentials f := with_agents (λ t, {| t_registration_tokens := t_registration_tokens t;
  t_credentials := f (t_credentials t); t_enrollment_profiles := t_enrollment_profiles t;
  t_enrollment_events := t_enrollment_events t |}).
Definition with_profiles f := with_agents (λ t, {| t_registration_tokens := t_registration_tokens t;
  t_credentials := t_credentials t; t_enrollment_profiles := f (t_enrollment_profiles t);
  t_enrollment_events := t_enrollment_events t |}).
Definition with_events f := with_agents (λ t, {| t_registration_tokens := t_registration_tokens t;
  t_credentials := t_credentials t; t_enrollment_profiles := t_enrollment_profiles t;
  t_enrollment_events := f (t_enrollment_events t) |}).

(** Tokens and credentials are never deleted. *)
Definition tokensTable : table AgentRegistrationTokenRecord :=
  Table (λ db, t_registration_tokens (db_agents db)) with_agent_tokens rtok_OrganizationID (λ _, "").
Definition credentialsTable : table AgentCredentialRecord :=
  Table (λ db, t_credentials (db_agents db)) with_credentials cred_OrganizationID (λ _, "").
Definition profilesTable : table NodeEnrollmentProfileRecord :=
  Table (λ db, t_enrollment_profiles (db_agents db)) with_profiles prof_OrganizationID prof_DeletedAt.

(** [UPDATE ... WHERE organization_id = ? AND id = ? AND cond] with [requireAffected]. *)
Definition updateRowWhen {A} (T : table A) (E : callEnv) (organizationID id : string) (cond : A → bool) (f : A → A)
    : tx database () :=
  row ← reads (live T organizationID id);
  match row with
  | Some row => if cond row then exec (env_refuse E) (tbl_with T <[id := f row]>) else fail RepoErrNotFound
  | None => fail RepoErrNotFound
  end.

(** ** Registration tokens *)

(** [ORDER BY created_at DESC, id DESC] *)
Definition newestFirst {A} (created id : A → string) (x y : A) : bool := text2 created id y x.

Definition ListRegistrationTokens (organizationID agentType agentID : string) : tx database (list AgentRegistrationTokenRecord) :=
  reads (λ db, sort_stable (newestFirst rtok_CreatedAt rtok_ID) (List.filter (λ t,
    String.eqb (rtok_OrganizationID t) organizationID && String.eqb (rtok_AgentType t) agentType
    && String.eqb (rtok_AgentID t) agentID) (rows (t_registration_tokens (db_agents db))))).
Definition FindRegistrationTokenByHash (tokenHash : string) : tx database AgentRegistrationTokenRecord :=
  row ← reads (λ db, List.find (λ t, String.eqb (rtok_TokenHash t) tokenHash) (rows (t_registration_tokens (db_agents db))));
  found row.
Definition CreateRegistrationToken (E : callEnv) (token : AgentRegistrationTokenRecord) : tx database () :=
  insertRow tokensTable E (rtok_ID token) (token <| rtok_UsedAt := "" |> <| rtok_RevokedAt := "" |>).

Definition unused (t : AgentRegistrationTokenRecord) : bool := String.eqb (rtok_UsedAt t) "".
Definition unrevoked (t : AgentRegistrationTokenRecord) : bool := String.eqb (rtok_RevokedAt t) "".

(** [expires_at > claimedAt] is decided by [later]. *)
Class Timestamps := later : string → string → bool.
Definition ClaimRegistrationToken `{Timestamps} (E : callEnv) (organizationID tokenID claimedAt : string) : tx database () :=
  updateRowWhen tokensTable E organizationID tokenID
    (λ t, unused t && unrevoked t && later (rtok_ExpiresAt t) claimedAt) (λ t, t <| rtok_UsedAt := claimedAt |>).
Definition ReleaseRegistrationTokenUse (E : callEnv) (organizationID tokenID : string) : tx database () :=
  updateRowWhen tokensTable E organizationID tokenID (λ t, negb (unused t) && unrevoked t) (λ t, t <| rtok_UsedAt := "" |>).

Definition ofAgent (organizationID agentType agentID : string) (t : AgentRegistrationTokenRecord) : bool :=
  String.eqb (rtok_OrganizationID t) organizationID && String.eqb (rtok_AgentType t) agentType
  && String.eqb (rtok_AgentID t) agentID.
Definition RevokeActiveUnusedRegistrationTokens (E : callEnv) (organizationID agentType agentID revokedAt : string)
    : tx database () :=
  exec (env_refuse E) (with_agent_tokens (fmap (λ t,
    if ofAgent organizationID agentType agentID t && unused t && unrevoked t then t <| rtok_RevokedAt := revokedAt |> else t))).
Definition RevokeRegistrationToken (E : callEnv) (organizationID agentType agentID tokenID revokedAt : string) : tx database () :=
  updateRowWhen tokensTable E organizationID tokenID (λ t, ofAgent organizationID agentType agentID t && unrevoked t)
    (λ t, t <| rtok_RevokedAt := revokedAt |>).

(** ** Credentials *)

Definition pendingCredential (c : AgentCredentialRecord) : bool :=
  String.eqb (cred_ActivatedAt c) "" && String.eqb (cred_RevokedAt c) "".

Definition FindCredentialByHash (credentialHash : string) : tx database AgentCredentialRecord :=
  row ← reads (λ db, List.find (λ c, String.eqb (cred_CredentialHash c) credentialHash) (rows (t_credentials (db_agents db))));
  found row.
Definition FindPendingCredentialByRegistrationToken (organizationID registrationTokenID : string)
    : tx database AgentCredentialRecord :=
  row ← reads (λ db, hd_error (sort_stable (newestFirst cred_CreatedAt cred_ID) (List.filter (λ c,
    String.eqb (cred_OrganizationID c) organizationID && String.eqb (cred_RegistrationTokenID c) registrationTokenID
    && pendingCredential c) (rows (t_credentials (db_agents db))))));
  found row.
Definition ListPendingCredentialsByEnrollmentProfile (organizationID enrollmentProfileID : string)
    : tx database (list AgentCredentialRecord) :=
  reads (λ db, sort_stable (text2 cred_CreatedAt cred_ID) (List.filter (λ c,
    String.eqb (cred_OrganizationID c) organizationID && String.eqb (cred_EnrollmentProfileID c) enrollmentProfileID
    && pendingCredential c) (rows (t_credentials (db_agents db))))).
Definition CreateCredential (E : callEnv) (credential : AgentCredentialRecord) : tx database () :=
  insertRow credentialsTable E (cred_ID credential) (credential <| cred_RevokedAt := "" |>).
Definition ActivateCredential (E : callEnv) (organizationID credentialID activatedAt : string) : tx database () :=
  updateRowWhen credentialsTable E organizationID credentialID pendingCredential (λ c, c <| cred_ActivatedAt := activatedAt |>).
Definition revokedCredential (revokedAt : string) (c : AgentCredentialRecord) : AgentCredentialRecord :=
  c <| cred_RevokedAt := revokedAt |> <| cred_RotatedAt := revokedAt |>.
Definition RevokeActiveCredentialsExcept (E : callEnv) (organizationID agentType agentID keepCredentialID revokedAt : string)
    : tx database () :=
  exec (env_refuse E) (with_credentials (map_imap (λ id c, Some (
    if String.eqb (cred_OrganizationID c) organizationID && String.eqb (cred_AgentType c) agentType
       && String.eqb (cred_AgentID c) agentID && negb (String.eqb id keepCredentialID)
       && String.eqb (cred_RevokedAt c) ""
    then revokedCredential revokedAt c else c)))).
Definition RevokeCredential (E : callEnv) (organizationID credentialID revokedAt : string) : tx database () :=
  updateRowWhen credentialsTable E organizationID credentialID pendingCredential (revokedCredential revokedAt).

(** ** Enrollment profiles *)

Definition ListNodeEnrollmentProfiles (organizationID : string) : tx database (list NodeEnrollmentProfileRecord) :=
  reads (λ db, sort_stable (text2 prof_Name prof_ID) (lives profilesTable organizationID db)).
(** The variant [FOR UPDATE] reads the same row. *)
Definition FindNodeEnrollmentProfileByID (organizationID profileID : string) : tx database NodeEnrollmentProfileRecord :=
  row ← reads (live profilesTable organizationID profileID); found row.
Definition FindNodeEnrollmentProfileByTokenHash (tokenHash : string) : tx database NodeEnrollmentProfileRecord :=
  row ← reads (λ db, List.find (λ p, String.eqb (prof_TokenHash p) tokenHash && String.eqb (prof_DeletedAt p) "")
                       (rows (t_enrollment_profiles (db_agents db))));
  found row.
Definition CreateNodeEnrollmentProfile (E : callEnv) (profile : NodeEnrollmentProfileRecord) : tx database () :=
  insertRow profilesTable E (prof_ID profile)
    (profile <| prof_MaxRulePorts := defaultMaxRulePorts (prof_MaxRulePorts profile) |>
             <| prof_RevokedAt := "" |> <| prof_DeletedAt := "" |>).
Definition updatedProfile (profile : NodeEnrollmentProfileRecord) (replaceToken : bool)
    (row : NodeEnrollmentProfileRecord) : NodeEnrollmentProfileRecord := {|
  prof_ID := prof_ID row; prof_OrganizationID := prof_OrganizationID row; prof_Name := prof_Name profile;
  prof_Description := prof_Description profile;
  prof_TokenHash := if replaceToken then prof_TokenHash profile else prof_TokenHash row;
  prof_Enabled := prof_Enabled profile; prof_ExpiresAt := prof_ExpiresAt profile; prof_MaxUses := prof_MaxUses profile;
  prof_UsedCount := if replaceToken then 0 else prof_UsedCount row;
  prof_NodeNameTemplate := prof_NodeNameTemplate profile; prof_GroupIDsJSON := prof_GroupIDsJSON profile;
  prof_ListenIPsJSON := prof_ListenIPsJSON profile; prof_SendIPsJSON := prof_SendIPsJSON profile;
  prof_PortRangesJSON := prof_PortRangesJSON profile; prof_MaxRulePorts := defaultMaxRulePorts (prof_MaxRulePorts profile);
  prof_DNSPublishAddressesJSON := prof_DNSPublishAddressesJSON profile; prof_DataplaneMode := prof_DataplaneMode profile;
  prof_DataplaneConflictPolicy := prof_DataplaneConflictPolicy profile;
  prof_AutoUpdateEnabled := prof_AutoUpdateEnabled profile; prof_AllowedCIDRsJSON := prof_AllowedCIDRsJSON profile;
  prof_MetadataJSON := prof_MetadataJSON profile; prof_CreatedByUserID := prof_CreatedByUserID row;
  prof_CreatedAt := prof_CreatedAt row; prof_UpdatedAt := prof_UpdatedAt profile; prof_RevokedAt := prof_RevokedAt profile;
  prof_DeletedAt := prof_DeletedAt row |}.
Definition UpdateNodeEnrollmentProfile (E : callEnv) (profile : NodeEnrollmentProfileRecord) (replaceToken : bool)
    : tx database () :=
  updateRow profilesTable E (prof_OrganizationID profile) (prof_ID profile) (updatedProfile profile replaceToken).
Definition IncrementNodeEnrollmentProfileUsedCount (E : callEnv) (organizationID profileID now : string) : tx database () :=
  updateRow profilesTable E organizationID profileID (λ p,
    p <| prof_UsedCount := prof_UsedCount p + 1 |> <| prof_UpdatedAt := now |>).
Definition DecrementNodeEnrollmentProfileUsedCount (E : callEnv) (organizationID profileID now : string) : tx database () :=
  updateRow profilesTable E organizationID profileID (λ p,
    p <| prof_UsedCount := Z.max (prof_UsedCount p - 1) 0 |> <| prof_UpdatedAt := now |>).
Definition DeleteNodeEnrollmentProfile (E : callEnv) (organizationID profileID deletedAt : string) : tx database () :=
  updateRow profilesTable E organizationID profileID (λ p,
    p <| prof_DeletedAt := deletedAt |>
      <| prof_RevokedAt := if String.eqb (prof_RevokedAt p) "" then deletedAt else prof_RevokedAt p |>
      <| prof_Enabled := false |> <| prof_UpdatedAt := deletedAt |>).

Definition ListNodeEnrollmentEvents (organizationID profileID : string) (limit : Z) : tx database (list NodeEnrollmentEventRecord) :=
  let limit := if (limit <=? 0) || (200 <? limit) then 50 else limit in
  reads (λ db, take (Z.to_nat limit) (sort_stable (newestFirst enev_CreatedAt enev_ID) (List.filter (λ e,
    String.eqb (enev_OrganizationID e) organizationID && String.eqb (enev_EnrollmentProfileID e) profileID)
    (t_enrollment_events (db_agents db))))).
Definition CreateNodeEnrollmentEvent (E : callEnv) (event : NodeEnrollmentEventRecord) : tx database () :=
  exec (env_refuse E) (with_events (λ events, events ++ [event])).

#[export] Hint Unfold ListRegistrationTokens FindRegistrationTokenByHash FindCredentialByHash
  FindPendingCredentialByRegistrationToken ListPendingCredentialsByEnrollmentProfile ListNodeEnrollmentProfiles
  FindNodeEnrollmentProfileByID FindNodeEnrollmentProfileByTokenHash ListNodeEnrollmentEvents : reads.
