(* ===== verification/DnsStore.v ===== *)
(** * DNS policies in the database (repo/dns_policy.go)

    The managed records with their instances, and the statements with which
    the node and target services ask for a new evaluation of them. *)

From S2P Require Import Prelude GoString GoSort Domain ServiceErrors Records ValidatorBase NodeCoverage Transaction Database.
From coqutil Require Import Datatypes.RecordSetters.
Import TriangleBracketNotations.
#[local] Open Scope Z_scope.

Definition dnsRecordsTable : table DNSManagedRecordRecord :=
  Table (λ db, t_dns_managed_records (db_dns db))
    (λ f, with_dns (λ t, {| t_dns_managed_records := f (t_dns_managed_records t); t_dns_instances := t_dns_instances t |}))
    drec_OrganizationID drec_DeletedAt.
Definition dnsInstancesTable : table DNSInstanceRecord :=
  Table (λ db, t_dns_instances (db_dns db))
    (λ f, with_dns (λ t, {| t_dns_managed_records := t_dns_managed_records t; t_dns_instances := f (t_dns_instances t) |}))
    inst_OrganizationID inst_DeletedAt.

(** ** Instances: those of live records *)

Definition instanceBefore (x y : DNSInstanceRecord) : bool :=
  if negb (inst_Priority x =? inst_Priority y) then inst_Priority x <? inst_Priority y else text2 inst_Name inst_ID x y.
Definition dnsInstances (organizationID : string) (db : database) : list DNSInstanceRecord :=
  sort_stable instanceBefore (List.filter (λ i, isSome (live dnsRecordsTable organizationID (inst_ManagedRecordID i) db))
                               (lives dnsInstancesTable organizationID db)).
Definition ListDNSInstancesByOrganization (organizationID : string) : tx database (list DNSInstanceRecord) :=
  reads (dnsInstances organizationID).
Definition ListDNSInstancesByManagedRecord (organizationID recordID : string) (db : database) : list DNSInstanceRecord :=
  List.filter (λ i, String.eqb (inst_ManagedRecordID i) recordID) (dnsInstances organizationID db).
Definition dnsInstance (organizationID instanceID : string) (db : database) : option DNSInstanceRecord :=
  i ← live dnsInstancesTable organizationID instanceID db;
  if isSome (live dnsRecordsTable organizationID (inst_ManagedRecordID i) db) then Some i else None.
Definition FindDNSInstanceByID (organizationID instanceID : string) : tx database DNSInstanceRecord :=
  row ← reads (dnsInstance organizationID instanceID); found row.

(** ** Managed records *)

Definition dnsRecordBefore (x y : DNSManagedRecordRecord) : bool :=
  if negb (String.eqb (drec_ZoneName x) (drec_ZoneName y)) then String.ltb (drec_ZoneName x) (drec_ZoneName y)
  else text2 drec_RecordName drec_RecordType x y.
Definition loadDNSInstances (organizationID : string) (db : database) (record : DNSManagedRecordRecord) : DNSManagedRecordRecord :=
  record <| drec_Instances := ListDNSInstancesByManagedRecord organizationID (drec_ID record) db |>.
Definition dnsManagedRecords (organizationID : string) (db : database) : list DNSManagedRecordRecord :=
  map (loadDNSInstances organizationID db) (sort_stable dnsRecordBefore (lives dnsRecordsTable organizationID db)).
Definition ListDNSManagedRecordsByOrganization (organizationID : string) : tx database (list DNSManagedRecordRecord) :=
  reads (dnsManagedRecords organizationID).
Definition dnsManagedRecord (organizationID recordID : string) (db : database) : option DNSManagedRecordRecord :=
  loadDNSInstances organizationID db <$> live dnsRecordsTable organizationID recordID db.
Definition FindDNSManagedRecordByID (organizationID recordID : string) : tx database DNSManagedRecordRecord :=
  row ← reads (dnsManagedRecord organizationID recordID); found row.

(** An advisory lock changes no row. *)
Definition LockDNSManagedRecordEvaluation (E : callEnv) (organizationID recordID : string) : tx database () :=
  exec (env_refuse E) (λ db, db).

Definition evaluatedRecord (record row : DNSManagedRecordRecord) : DNSManagedRecordRecord :=
  row <| drec_ActiveInstanceID := drec_ActiveInstanceID record |>
      <| drec_LastAppliedValuesJSON := drec_LastAppliedValuesJSON record |>
      <| drec_ProviderRetirementsJSON := drec_ProviderRetirementsJSON record |>
      <| drec_LastEvaluationStatus := drec_LastEvaluationStatus record |>
      <| drec_LastEvaluationError := drec_LastEvaluationError record |>
      <| drec_LastDiagnosticsJSON := drec_LastDiagnosticsJSON record |>
      <| drec_LastEvaluatedAt := drec_LastEvaluatedAt record |>
      <| drec_LastAppliedAt := drec_LastAppliedAt record |> <| drec_UpdatedAt := drec_UpdatedAt record |>.
Definition UpdateDNSManagedRecordEvaluation (E : callEnv) (record : DNSManagedRecordRecord) : tx database () :=
  updateRow dnsRecordsTable E (drec_OrganizationID record) (drec_ID record) (evaluatedRecord record).

#[export] Hint Unfold ListDNSInstancesByOrganization FindDNSInstanceByID ListDNSManagedRecordsByOrganization
  FindDNSManagedRecordByID : reads.
