(* ===== verification/DnsMarking.v ===== *)
(** * Asking for DNS policies to be evaluated again (control_dns_policy_runtime.go)

    A change of a node or a target marks the managed records that depend on it
    as pending.  A record depends on a node group through its instances, and on
    other records through the instances whose output it uses. *)

From S2P Require Import Prelude GoString GoSort Domain ServiceErrors Records ValidatorBase NodeCoverage Transaction Database DnsStore.
From coqutil Require Import Datatypes.RecordSetters.
Import TriangleBracketNotations.
#[local] Open Scope Z_scope.

Section marking.
Context `{UnicodeTables}.

Definition normalizeDNSActionType (actionType : string) : string := ToUpper (TrimSpace actionType).

Definition sortedStringSetKeys (values : gset string) : list string :=
  sort_stable String.ltb (List.filter (λ v, negb (String.eqb (TrimSpace v) "")) (elements values)).

Definition trimmedSet (recordIDs : list string) : gset string :=
  list_to_set (List.filter (λ v, negb (String.eqb v "")) (map TrimSpace recordIDs)).

Definition lockDNSManagedRecords (E : callEnv) (organizationID : string) (recordIDs : list string) : tx database () :=
  each (LockDNSManagedRecordEvaluation E organizationID) (sort_stable String.ltb (elements (trimmedSet recordIDs))).

Definition pendingMessage : string := "DNS policy changed; re-evaluation is required.".
Definition pendingRecord (updatedAt code : string) (record : DNSManagedRecordRecord) : DNSManagedRecordRecord :=
  record <| drec_LastEvaluationStatus := "PENDING" |> <| drec_LastEvaluationError := "" |>
         <| drec_LastDiagnosticsJSON := [{| diag_Code := code; diag_Message := pendingMessage; diag_Details := ∅ |}] |>
         <| drec_UpdatedAt := updatedAt |>.
Definition deletePending (record : DNSManagedRecordRecord) : bool :=
  String.eqb (ToUpper (TrimSpace (drec_LastEvaluationStatus record))) "DELETE_PENDING".
Definition inputChanged (code : string) : string := if String.eqb code "" then "DNS_POLICY_INPUT_CHANGED" else code.

Definition markRecord (E : callEnv) (organizationID updatedAt code recordID : string) : tx database () :=
  record ← FindDNSManagedRecordByID organizationID recordID;
  if deletePending record then mret tt
  else UpdateDNSManagedRecordEvaluation E (pendingRecord updatedAt (inputChanged code) record).

Definition markDNSManagedRecordPending (E : callEnv) (organizationID recordID updatedAt code : string) : tx database bool :=
  if String.eqb (TrimSpace recordID) "" then mret false
  else
    LockDNSManagedRecordEvaluation E organizationID recordID;;
    markRecord E organizationID updatedAt code recordID;;
    mret true.

Definition markDNSManagedRecordsPending (E : callEnv) (organizationID : string) (recordIDs : list string)
    (updatedAt code : string) : tx database (list string) :=
  let ordered := sortedStringSetKeys (trimmedSet recordIDs) in
  if Nat.eqb (length ordered) 0 then mret []
  else
    lockDNSManagedRecords E organizationID ordered;;
    each (markRecord E organizationID updatedAt code) ordered;;
    mret ordered.

(** ** References between instances *)

(** The action of an instance uses the output of another. *)
Definition usesInstance (instanceID : string) (candidate : DNSInstanceRecord) : bool :=
  match inst_ActionJSON candidate with
  | Ok action => String.eqb (normalizeDNSActionType (act_Type action)) "USE_INSTANCE_OUTPUT"
                   && String.eqb (TrimSpace (act_InstanceID action)) instanceID
  | Err _ => false
  end.

(** [depth] grows up to 8 and [seen] is shared by all turns; every turn lists
    the same instances. *)
Fixpoint collectReferencing (instances : list DNSInstanceRecord) (fuel : nat) (instanceID : string) (seen : gset string)
    : gset string * gset string :=
  match fuel with
  | O => (∅, seen)
  | S fuel =>
      if bool_decide (instanceID ∈ seen) then (∅, seen)
      else
        foldl (λ '(affected, seen) candidate,
          if negb (usesInstance instanceID candidate) then (affected, seen)
          else
            let '(childAffected, seen) := collectReferencing instances fuel (inst_ID candidate) seen in
            ({[inst_ManagedRecordID candidate]} ∪ affected ∪ childAffected, seen)) (∅, {[instanceID]} ∪ seen) instances
  end.
Definition collectDNSRecordsReferencingInstance (organizationID instanceID : string) (seen : gset string)
    : tx database (gset string * gset string) :=
  instances ← ListDNSInstancesByOrganization organizationID;
  mret (collectReferencing instances 9 instanceID seen).

Definition markDNSRecordsReferencingInstancePending (E : callEnv) (organizationID instanceID updatedAt : string)
    : tx database (list string) :=
  '(affected, _) ← collectDNSRecordsReferencingInstance organizationID instanceID ∅;
  markDNSManagedRecordsPending E organizationID (sortedStringSetKeys affected) updatedAt "REFERENCED_DNS_INSTANCE_CHANGED".

(** ** Node groups *)

Definition dnsInstanceDependsOnNodeGroups (instance : DNSInstanceRecord) (groupIDs : gset string) : bool :=
  Nat.eqb (length (inst_NodeGroupIDsJSON instance)) 0
  || existsb (λ g, bool_decide (g ∈ groupIDs)) (inst_NodeGroupIDsJSON instance).

Definition dependingInstances (changed : gset string) (record : DNSManagedRecordRecord) : list DNSInstanceRecord :=
  List.filter (λ i, inst_Enabled i && String.eqb (inst_DeletedAt i) "" && dnsInstanceDependsOnNodeGroups i changed)
    (drec_Instances record).

(** The records that the loop over the records collects, and the instances seen. *)
Fixpoint collectForInstances (organizationID recordID : string) (instances : list DNSInstanceRecord)
    (affected seen : gset string) : tx database (gset string * gset string) :=
  match instances with
  | [] => mret (affected, seen)
  | i :: rest =>
      '(referenced, seen) ← collectDNSRecordsReferencingInstance organizationID (inst_ID i) seen;
      collectForInstances organizationID recordID rest ({[recordID]} ∪ affected ∪ referenced) seen
  end.
Fixpoint collectForRecords (organizationID : string) (changed : gset string) (records : list DNSManagedRecordRecord)
    (affected seen : gset string) : tx database (gset string) :=
  match records with
  | [] => mret affected
  | record :: rest =>
      '(affected, seen) ← collectForInstances organizationID (drec_ID record) (dependingInstances changed record) affected seen;
      collectForRecords organizationID changed rest affected seen
  end.

Definition markDNSRecordsDependingOnNodeGroupsPending (E : callEnv) (organizationID : string) (groupIDs : list string)
    (updatedAt : string) : tx database (list string) :=
  records ← ListDNSManagedRecordsByOrganization organizationID;
  affected ← collectForRecords organizationID (list_to_set groupIDs) records ∅ ∅;
  markDNSManagedRecordsPending E organizationID (sortedStringSetKeys affected) updatedAt "NODE_DNS_INPUT_CHANGED".

End marking.
