(* ===== verification/DnsEvaluation.v ===== *)
(** * What DNS policies want (control_dns_policy_evaluation.go, control_dns_policy_helpers.go)

    A managed record has instances with priorities and conditions on the nodes
    of their groups.  The evaluation selects the instance that applies and
    computes the addresses or the name that its action asks for, perhaps those
    of another instance.  It only reads: the functions take the database. *)

From S2P Require Import Prelude GoString GoFloat GoJson GoSort GoNet Domain ServiceErrors Records ValidatorBase NodeCoverage Transaction Database DnsStore DnsMarking.
From Stdlib Require Import Floats.SpecFloat.
From coqutil Require Import Datatypes.RecordSetters.
Import TriangleBracketNotations.
#[local] Open Scope Z_scope.

Section evaluation.
Context `{UnicodeTables}.

Definition diagnostic (code message : string) : DNSDiagnosticPayload :=
  {| diag_Code := code; diag_Message := message; diag_Details := ∅ |}.

(** ** Nodes and values *)

Definition nodeMatchesGroupSet (node : NodeRecord) (groupSet : gset string) : bool :=
  bool_decide (groupSet = ∅) || existsb (λ g, bool_decide (g ∈ groupSet)) (node_GroupIDs node).

Definition limitDNSAnswers (values : list string) (answerCount : Z) : list string :=
  if (answerCount =? -1) || (Z.of_nat (length values) <=? answerCount) then values
  else if answerCount <=? 0 then [] else take (Z.to_nat answerCount) values.

Definition cleanDNSValue (value : string) : string := Trim (TrimSpace value) ".".
Definition normalizeDNSValues (values : list string) : list string :=
  sort_stable String.ltb (foldl (λ normalized value,
    let value := cleanDNSValue value in
    if String.eqb value "" || bool_decide (value ∈ normalized) then normalized else normalized ++ [value]) [] values).

Definition dnsValuesMatchRecordType (values : list string) (recordType : string) : bool :=
  forallb (λ value,
    match ParseAddr value with
    | None => false
    | Some family =>
        if String.eqb recordType "A" then match family with Is4 => true | Is6 => false end
        else if String.eqb recordType "AAAA" then match family with Is6 => true | Is4 => false end
        else false
    end) values.

(** The list that [stringListJSON] encodes. *)
Definition stringListJSON (values : list string) : list string :=
  sort_stable String.ltb (List.filter (λ v, negb (String.eqb v "")) (map TrimSpace values)).

(** The nodes of the organization as they are listed. *)
Definition listedNodes (organizationID : string) (db : database) : list NodeRecord :=
  map (loadNodeDetails db) (sort_stable (text2 node_Name node_ID) (lives nodesTable organizationID db)).
Definition upperStatus (node : NodeRecord) : string := ToUpper (TrimSpace (node_Status node)).

(** ** Conditions *)

Record dnsConditionContext := { dcc_TotalNodes : Z; dcc_OnlineNodes : Z; dcc_OfflineNodes : Z }.

Definition countDNSNode (groupSet : gset string) (result : dnsConditionContext) (node : NodeRecord) : dnsConditionContext :=
  if negb (nodeMatchesGroupSet node groupSet) then result
  else {| dcc_TotalNodes := dcc_TotalNodes result + 1;
          dcc_OnlineNodes := dcc_OnlineNodes result + Z.b2z (String.eqb (upperStatus node) "ONLINE");
          dcc_OfflineNodes := dcc_OfflineNodes result + Z.b2z (String.eqb (upperStatus node) "OFFLINE") |}.
Definition conditionContext (organizationID : string) (instance : DNSInstanceRecord) (db : database) : dnsConditionContext :=
  foldl (countDNSNode (list_to_set (inst_NodeGroupIDsJSON instance)))
    {| dcc_TotalNodes := 0; dcc_OnlineNodes := 0; dcc_OfflineNodes := 0 |} (listedNodes organizationID db).

Definition stringValue (value : jsonValue) : string := match value with JString s => s | _ => "" end.
Definition numericValue (value : jsonValue) : option spec_float := match value with JNumber f => Some f | _ => None end.

Definition dnsConditionMetric (metric : string) (context : dnsConditionContext) : option spec_float :=
  let percent count := f64_div (f64_mul (f64_of_Z count) (f64_of_Z 100)) (f64_of_Z (dcc_TotalNodes context)) in
  if String.eqb metric "offline_node_count" then Some (f64_of_Z (dcc_OfflineNodes context))
  else if String.eqb metric "online_node_count" then Some (f64_of_Z (dcc_OnlineNodes context))
  else if String.eqb metric "offline_node_percent" then Some (percent (dcc_OfflineNodes context))
  else if String.eqb metric "online_node_percent" then Some (percent (dcc_OnlineNodes context))
  else None.

Definition compareDNSMetric (comparator : string) (actual expected : spec_float) : bool * list DNSDiagnosticPayload :=
  if String.eqb comparator ">" then (SFltb expected actual, [])
  else if String.eqb comparator "<" then (SFltb actual expected, [])
  else if String.eqb comparator ">=" then (SFleb expected actual, [])
  else if String.eqb comparator "<=" then (SFleb actual expected, [])
  else if String.eqb comparator "=" then (SFeqb actual expected, [])
  else (false, [diagnostic "UNSUPPORTED_CONDITION_COMPARATOR" "Condition comparator is not supported."]).

Definition invalidCondition (message : string) : list DNSDiagnosticPayload := [diagnostic "INVALID_CONDITION" message].

(** The loop over the children of a group, which ends with the first child
    that decides: one that does not match for AND, one that does for OR.  A
    child that is no object is [None]. *)
Fixpoint evalDNSChildren (isAnd : bool) (children : list (option (bool * list DNSDiagnosticPayload)))
    (diagnostics : list DNSDiagnosticPayload) : bool * list DNSDiagnosticPayload :=
  match children with
  | [] => (isAnd, diagnostics)
  | None :: _ => (false, diagnostics ++ invalidCondition "Condition child is invalid.")
  | Some (matched, childDiagnostics) :: rest =>
      let diagnostics := diagnostics ++ childDiagnostics in
      if Bool.eqb matched isAnd then evalDNSChildren isAnd rest diagnostics else (matched, diagnostics)
  end.

(** [null] decodes to a map without fields, as at the top. *)
Fixpoint evalDNSConditionNode (context : dnsConditionContext) (node : jsonValue) : bool * list DNSDiagnosticPayload :=
  let fields := match node with JObject fields => fields | _ => [] end in
  let op := ToUpper (TrimSpace (stringValue (field "op" fields))) in
  if String.eqb op "AND" || String.eqb op "OR" then
    let children := match node with
                    | JObject fields =>
                        (fix find fields := match fields with
                         | [] => []
                         | (k, v) :: fields =>
                             if String.eqb k "children" then
                               match v with
                               | JArray l => map (λ child, match child with
                                                           | JObject _ => Some (evalDNSConditionNode context child)
                                                           | _ => None
                                                           end) l
                               | _ => []
                               end
                             else find fields
                         end) fields
                    | _ => []
                    end in
    if Nat.eqb (length children) 0
    then (false, [diagnostic "EMPTY_CONDITION_GROUP" "Condition group has no children."])
    else evalDNSChildren (String.eqb op "AND") children []
  else
    let metric := ToLower (TrimSpace (stringValue (field "metric" fields))) in
    match dnsConditionMetric metric context with
    | None => (false, [{| diag_Code := "UNSUPPORTED_CONDITION_METRIC"; diag_Message := "Condition metric is not supported.";
                          diag_Details := {["metric" := DString metric]} |}])
    | Some actual =>
        match numericValue (field "value" fields) with
        | None => (false, [diagnostic "INVALID_CONDITION_VALUE" "Condition value must be numeric."])
        | Some expected => compareDNSMetric (TrimSpace (stringValue (field "comparator" fields))) actual expected
        end
    end.

(** The text of an empty object in a jsonb column is "{}"; no text is blank. *)
Definition evaluateDNSCondition (raw : option jsonValue) (context : dnsConditionContext) : bool * list DNSDiagnosticPayload :=
  match raw with
  | Some (JObject []) => (true, [])
  | Some (JObject _ as expression) | Some (JNull as expression) =>
      if dcc_TotalNodes context =? 0
      then (false, [diagnostic "NO_NODE_GROUP_MEMBERS" "Bound node groups have no nodes."])
      else evalDNSConditionNode context expression
  | _ => (false, invalidCondition "Condition JSON is invalid.")
  end.

(** ** Actions *)

(** Diagnostics, and the values or the error. *)
Definition dnsOutput : Type := list DNSDiagnosticPayload * result serviceError (list string).
Definition refused (code message : string) : dnsOutput := ([diagnostic code message], Err ErrInvalidInput).

Definition publishedAddresses (recordType : string) (node : NodeRecord) : list string :=
  map ndns_Address (List.filter (λ a, ndns_Enabled a && String.eqb (ndns_AddressType a) recordType)
                      (node_DNSPublishAddresses node)).
Definition dnsOnlineNodeValues (organizationID recordType : string) (instance : DNSInstanceRecord) (db : database) : dnsOutput :=
  let groupSet := list_to_set (inst_NodeGroupIDsJSON instance) in
  let values := normalizeDNSValues (flat_map (publishedAddresses recordType)
    (List.filter (λ node, String.eqb (upperStatus node) "ONLINE" && nodeMatchesGroupSet node groupSet)
       (listedNodes organizationID db))) in
  match values with
  | [] => refused "NO_ONLINE_NODE_ADDRESSES" "No online nodes have usable DNS publish addresses."
  | _ => ([], Ok values)
  end.

(** [fuel] is the number of references that may still be followed: the depth
    grows up to 8. *)
Fixpoint evaluateDNSAction (organizationID recordType : string) (db : database) (fuel : nat) (instance : DNSInstanceRecord)
    (seen : gset string) : dnsOutput :=
  match fuel with
  | O => refused "INSTANCE_REFERENCE_DEPTH_EXCEEDED" "DNS instance reference depth exceeded."
  | S fuel =>
      if bool_decide (inst_ID instance ∈ seen)
      then refused "INSTANCE_REFERENCE_CYCLE" "DNS instance references form a cycle."
      else
        let seen := {[inst_ID instance]} ∪ seen in
        match inst_ActionJSON instance with
        | Err text => ([diagnostic "INVALID_ACTION" "DNS action JSON is invalid."], Err (OtherError text))
        | Ok action =>
            let type := normalizeDNSActionType (act_Type action) in
            if String.eqb type "ROTATE_ONLINE_NODES" then
              let '(diagnostics, output) := dnsOnlineNodeValues organizationID recordType instance db in
              (diagnostics, values ← output; Ok (limitDNSAnswers values (inst_AnswerCount instance)))
            else if bool_decide (type ∈ ["SET_STATIC_A"; "SET_STATIC_AAAA"; "SET_STATIC_ADDRESSES"]) then
              let values := normalizeDNSValues (act_Values action) in
              if Nat.eqb (length values) 0 || negb (dnsValuesMatchRecordType values recordType)
              then refused "INVALID_STATIC_DNS_VALUES" "Static DNS values are invalid for this record type."
              else ([], Ok values)
            else if String.eqb type "SET_STATIC_CNAME" then
              let value := cleanDNSValue (act_Value action) in
              if String.eqb value "" then ([], Err ErrInvalidInput) else ([], Ok [value])
            else if String.eqb type "USE_INSTANCE_OUTPUT" then
              match dnsInstance organizationID (act_InstanceID action) db with
              | None => ([], Err RepoErrNotFound)
              | Some target =>
                  if negb (inst_Enabled target)
                  then refused "REFERENCED_INSTANCE_DISABLED" "Referenced DNS instance is disabled."
                  else
                    match dnsManagedRecord organizationID (inst_ManagedRecordID target) db with
                    | None => ([], Err RepoErrNotFound)
                    | Some targetRecord =>
                        if deletePending targetRecord
                        then refused "REFERENCED_INSTANCE_DELETE_PENDING" "Referenced DNS instance output is being deleted."
                        else if negb (String.eqb (drec_RecordType targetRecord) recordType)
                        then refused "REFERENCED_INSTANCE_RECORD_TYPE_MISMATCH"
                               "Referenced DNS instance output is not compatible with this managed record type."
                        else evaluateDNSAction organizationID recordType db fuel target seen
                    end
              end
            else refused "UNSUPPORTED_ACTION" "DNS action is not supported."
        end
  end.

(** ** Records *)

Record dnsPolicyEvaluation := {
  ev_Status : string; ev_ErrorMessage : string; ev_Diagnostics : list DNSDiagnosticPayload; ev_Values : list string;
  ev_ApplyProvider : bool; ev_ActiveInstance : option DNSInstanceRecord }.

Definition byPriority (x y : DNSInstanceRecord) : bool :=
  if inst_Priority x =? inst_Priority y then String.ltb (inst_ID x) (inst_ID y) else inst_Priority x <? inst_Priority y.
Definition activeInstances (record : DNSManagedRecordRecord) : list DNSInstanceRecord :=
  sort_stable byPriority (List.filter (λ i, inst_Enabled i && String.eqb (inst_DeletedAt i) "") (drec_Instances record)).

(** The loop over the instances by priority; it fails with the diagnostics of
    a conflict. *)
Fixpoint selectDNSInstance (organizationID : string) (db : database) (selected : option DNSInstanceRecord)
    (diagnostics : list DNSDiagnosticPayload) (instances : list DNSInstanceRecord)
    : result (list DNSDiagnosticPayload) (option DNSInstanceRecord * list DNSDiagnosticPayload) :=
  match instances with
  | [] => Ok (selected, diagnostics)
  | instance :: rest =>
      let '(matched, conditionDiagnostics) :=
        evaluateDNSCondition (inst_ConditionJSON instance) (conditionContext organizationID instance db) in
      let diagnostics := diagnostics ++ conditionDiagnostics in
      if negb matched then selectDNSInstance organizationID db selected diagnostics rest
      else
        match selected with
        | Some s =>
            if inst_Priority s =? inst_Priority instance
            then Err (diagnostics ++ [diagnostic "AMBIGUOUS_PRIORITY" "Multiple DNS instances matched at the same priority."])
            else if inst_Priority s <? inst_Priority instance then Ok (selected, diagnostics)
            else selectDNSInstance organizationID db (Some instance) diagnostics rest
        | None => selectDNSInstance organizationID db (Some instance) diagnostics rest
        end
  end.

Definition appliedBefore (record : DNSManagedRecordRecord) : bool :=
  String.eqb (ToUpper (drec_LastEvaluationStatus record)) "APPLIED".

Definition evaluateDNSManagedRecord (organizationID : string) (record : DNSManagedRecordRecord) (db : database)
    : dnsPolicyEvaluation :=
  match selectDNSInstance organizationID db None [] (activeInstances record) with
  | Err diagnostics =>
      {| ev_Status := "CONFLICT"; ev_ErrorMessage := ""; ev_Diagnostics := diagnostics; ev_Values := [];
         ev_ApplyProvider := false; ev_ActiveInstance := None |}
  | Ok (None, diagnostics) =>
      {| ev_Status := "NO_MATCH"; ev_ErrorMessage := "";
         ev_Diagnostics := diagnostics ++ [diagnostic "NO_MATCHED_INSTANCE" "No DNS instance matched this record."];
         ev_Values := drec_LastAppliedValuesJSON record; ev_ApplyProvider := false; ev_ActiveInstance := None |}
  | Ok (Some selected, diagnostics) =>
      let '(actionDiagnostics, output) := evaluateDNSAction organizationID (drec_RecordType record) db 9 selected ∅ in
      let diagnostics := diagnostics ++ actionDiagnostics in
      match output with
      | Err err =>
          {| ev_Status := "FAILED"; ev_ErrorMessage := Error err; ev_Diagnostics := diagnostics; ev_Values := [];
             ev_ApplyProvider := false; ev_ActiveInstance := Some selected |}
      | Ok values =>
          {| ev_Status := "APPLIED"; ev_ErrorMessage := ""; ev_Diagnostics := diagnostics; ev_Values := values;
             ev_ApplyProvider := negb (bool_decide (stringListJSON (drec_LastAppliedValuesJSON record) = stringListJSON values))
                                 || negb (appliedBefore record);
             ev_ActiveInstance := Some selected |}
      end
  end.

(** ** Notifications *)

Record dnsPolicyPreviousState := { prev_ActiveInstanceID : string; prev_Status : string; prev_ValuesJSON : list string }.

Definition dnsPolicyNotificationEventType (evaluation : dnsPolicyEvaluation) (previous : dnsPolicyPreviousState) : string :=
  let activeInstanceID := match ev_ActiveInstance evaluation with Some i => inst_ID i | None => "" end in
  if negb (String.eqb activeInstanceID (prev_ActiveInstanceID previous)) then "DNS_ACTIVE_INSTANCE_CHANGED"
  else if String.eqb (ev_Status evaluation) "FAILED" && negb (String.eqb (prev_Status previous) "FAILED") then "DNS_POLICY_FAILED"
  else if negb (String.eqb (ev_Status evaluation) "FAILED") && String.eqb (prev_Status previous) "FAILED" then "DNS_POLICY_RECOVERED"
  else if negb (bool_decide (stringListJSON (ev_Values evaluation) = prev_ValuesJSON previous)) then "DNS_OUTPUT_CHANGED"
  else "".

(** ** The instance that applies *)

Definition matches (organizationID : string) (db : database) (instance : DNSInstanceRecord) : bool :=
  (evaluateDNSCondition (inst_ConditionJSON instance) (conditionContext organizationID instance db)).1.
Definition matching (organizationID : string) (record : DNSManagedRecordRecord) (db : database) : list DNSInstanceRecord :=
  List.filter (matches organizationID db)
    (List.filter (λ i, inst_Enabled i && String.eqb (inst_DeletedAt i) "") (drec_Instances record)).

#[local] Instance byPriority_weak : StrictWeak byPriority.
Proof. exact (lex_strict_weak inst_Priority (λ x y, String.ltb (inst_ID x) (inst_ID y))). Qed.
Lemma byPriority_le x y : not_after byPriority x y → inst_Priority x ≤ inst_Priority y.
Proof. unfold not_after, byPriority. destruct (Z.eqb_spec (inst_Priority y) (inst_Priority x)); [lia|]. intros ?%Z.ltb_ge. lia. Qed.

Definition ascending : list DNSInstanceRecord → Prop := StronglySorted (λ x y, inst_Priority x ≤ inst_Priority y).
Lemma ascending_sorted l : StronglySorted (not_after byPriority) l → ascending l.
Proof.
  induction 1 as [|x l Hl IH Hx]; constructor; try done. eapply Forall_impl; [exact Hx|]. intros y. apply byPriority_le.
Qed.
Lemma ascending_active record : ascending (activeInstances record).
Proof. apply ascending_sorted, sort_sorted, _. Qed.
Lemma matching_sorted org record db :
  ∃ l, List.filter (matches org db) (activeInstances record) = l ∧ l ≡ₚ matching org record db ∧ ascending l.
Proof.
  eexists. split; [done|]. split.
  - unfold activeInstances, matching. apply filterb_perm, sort_perm.
  - apply StronglySorted_filterb, ascending_active.
Qed.

(** What the loop answers, by the matching instances in their order. *)
Lemma select_after org db s d l :
  ascending (s :: l) →
  match List.filter (matches org db) l with
  | [] => ∃ d', selectDNSInstance org db (Some s) d l = Ok (Some s, d')
  | j :: _ => if inst_Priority s =? inst_Priority j then (∃ d', selectDNSInstance org db (Some s) d l = Err d')
              else (∃ d', selectDNSInstance org db (Some s) d l = Ok (Some s, d'))
  end.
Proof.
  revert d. induction l as [|i l IH]; intros d Hs; cbn; [by eexists|]. apply StronglySorted_inv in Hs as [Hl Hs].
  apply Forall_cons in Hs as [Hi Hs]. unfold matches at 1. destruct (evaluateDNSCondition _ _) as [[|] c]; cbn [fst negb].
  - destruct (Z.eqb_spec (inst_Priority s) (inst_Priority i)); [by eexists|].
    assert ((inst_Priority s <? inst_Priority i) = true) as -> by (apply Z.ltb_lt; lia). by eexists.
  - apply IH. apply StronglySorted_inv in Hl as [Hl _]. by constructor.
Qed.
Lemma select_spec org db d l :
  ascending l →
  match List.filter (matches org db) l with
  | [] => ∃ d', selectDNSInstance org db None d l = Ok (None, d')
  | [i] => ∃ d', selectDNSInstance org db None d l = Ok (Some i, d')
  | i :: j :: _ => if inst_Priority i =? inst_Priority j then (∃ d', selectDNSInstance org db None d l = Err d')
                   else (∃ d', selectDNSInstance org db None d l = Ok (Some i, d'))
  end.
Proof.
  revert d. induction l as [|i l IH]; intros d Hs; cbn; [by eexists|]. unfold matches at 1.
  destruct (evaluateDNSCondition _ _) as [[|] c]; cbn [fst negb].
  - pose proof (select_after org db i (d ++ c) l Hs) as Ha. by destruct (List.filter _ l) as [|j k].
  - apply IH. by apply StronglySorted_inv in Hs as [Hl _].
Qed.

(** The evaluation when an instance was selected. *)
Lemma evaluate_selected org record db i d :
  selectDNSInstance org db None [] (activeInstances record) = Ok (Some i, d) →
  let e := evaluateDNSManagedRecord org record db in
  ev_ActiveInstance e = Some i ∧
  match (evaluateDNSAction org (drec_RecordType record) db 9 i ∅).2 with
  | Ok values =>
      ev_Status e = "APPLIED" ∧ ev_Values e = values ∧
      (ev_ApplyProvider e = false ↔
       appliedBefore record = true ∧ stringListJSON values = stringListJSON (drec_LastAppliedValuesJSON record))
  | Err err => ev_Status e = "FAILED" ∧ ev_ErrorMessage e = Error err ∧ ev_ApplyProvider e = false
  end.
Proof.
  intros E e. unfold e, evaluateDNSManagedRecord. rewrite E. destruct (evaluateDNSAction _ _ _ _ _ _) as [ad [values|err]]; cbn; [|done].
  split_and!; [done..|]. rewrite orb_false_iff, !negb_false_iff, bool_decide_eq_true. naive_solver.
Qed.

(** C15. The evaluation of a managed record: without an enabled instance that matches the answer is NO_MATCH and keeps the
    values; when the least priority is that of one matching instance, this one is active and its action gives the
    values, which the provider is asked to apply unless they are applied already, or the failure; when two share
    it the answer is CONFLICT, without values. *)
Theorem evaluateDNSManagedRecord_spec org record db :
  let e := evaluateDNSManagedRecord org record db in
  let M := matching org record db in
  (M = [] ∧ ev_Status e = "NO_MATCH" ∧ ev_ActiveInstance e = None ∧ ev_Values e = drec_LastAppliedValuesJSON record ∧
   ev_ApplyProvider e = false) ∨
  (∃ i rest, M ≡ₚ i :: rest ∧ Forall (λ j, inst_Priority i < inst_Priority j) rest ∧ ev_ActiveInstance e = Some i ∧
   match (evaluateDNSAction org (drec_RecordType record) db 9 i ∅).2 with
   | Ok values =>
       ev_Status e = "APPLIED" ∧ ev_Values e = values ∧
       (ev_ApplyProvider e = false ↔
        appliedBefore record = true ∧ stringListJSON values = stringListJSON (drec_LastAppliedValuesJSON record))
   | Err err => ev_Status e = "FAILED" ∧ ev_ErrorMessage e = Error err ∧ ev_ApplyProvider e = false
   end) ∨
  (∃ i j rest, M ≡ₚ i :: j :: rest ∧ inst_Priority i = inst_Priority j ∧ Forall (λ k, inst_Priority i ≤ inst_Priority k) rest ∧
   ev_Status e = "CONFLICT" ∧ ev_ActiveInstance e = None ∧ ev_Values e = [] ∧ ev_ApplyProvider e = false).
Proof.
  intros e M. destruct (matching_sorted org record db) as (l & El & Hp & Hs). fold M in Hp.
  pose proof (select_spec org db [] _ (ascending_active record)) as Hsel. rewrite El in Hsel. destruct l as [|i l].
  { left. destruct Hsel as (d & Hd). apply Permutation_nil in Hp. unfold e, evaluateDNSManagedRecord. by rewrite Hd. }
  right. apply StronglySorted_inv in Hs as [Hl Hi]. destruct l as [|j l].
  - left. destruct Hsel as (d & Hd). exists i, []. split; [done|]. split; [done|]. by eapply evaluate_selected.
  - pose proof Hi as [Hj _]%Forall_cons. destruct (Z.eqb_spec (inst_Priority i) (inst_Priority j)) as [Hij|Hij].
    + right. destruct Hsel as (d & Hd). exists i, j, l. split; [done|]. split; [done|].
      split; [by apply Forall_cons in Hi as [_ ?]|]. unfold e, evaluateDNSManagedRecord. by rewrite Hd.
    + left. destruct Hsel as (d & Hd). exists i, (j :: l). split; [done|]. split; [|by eapply evaluate_selected].
      apply StronglySorted_inv in Hl as [_ Hl]. constructor; [lia|]. eapply Forall_impl; [exact Hl|]. cbn. lia.
Qed.
End evaluation.
