(* ===== verification/MonitorStore.v ===== *)
(** * Monitors and health checks in the database (repo/nodes.go, repo/health_dns.go)

    The statements on monitor groups and monitors, and the listing of health
    checks with their targets and monitor scopes, which the services ask
    before they delete what a check needs. *)

From S2P Require Import Prelude GoString GoSort Domain ServiceErrors Records ValidatorBase NodeCoverage Transaction Database.
From coqutil Require Import Datatypes.RecordSetters.
Import TriangleBracketNotations.
#[local] Open Scope Z_scope.

Definition monitorGroupsTable : table MonitorGroupRecord := Table (λ db, t_monitor_groups (db_monitors db))
  (λ f, with_monitors (λ t, {| t_monitor_groups := f (t_monitor_groups t); t_monitors := t_monitors t;
    t_monitor_group_members := t_monitor_group_members t; t_health_checks := t_health_checks t;
    t_health_check_targets := t_health_check_targets t;
    t_health_check_monitor_scopes := t_health_check_monitor_scopes t |})) mgrp_OrganizationID mgrp_DeletedAt.
Definition monitorsTable : table MonitorRecord := Table (λ db, t_monitors (db_monitors db))
  (λ f, with_monitors (λ t, {| t_monitor_groups := t_monitor_groups t; t_monitors := f (t_monitors t);
    t_monitor_group_members := t_monitor_group_members t; t_health_checks := t_health_checks t;
    t_health_check_targets := t_health_check_targets t;
    t_health_check_monitor_scopes := t_health_check_monitor_scopes t |})) mon_OrganizationID mon_DeletedAt.
Definition healthChecksTable : table HealthCheckRecord := Table (λ db, t_health_checks (db_monitors db))
  (λ f, with_monitors (λ t, {| t_monitor_groups := t_monitor_groups t; t_monitors := t_monitors t;
    t_monitor_group_members := t_monitor_group_members t; t_health_checks := f (t_health_checks t);
    t_health_check_targets := t_health_check_targets t;
    t_health_check_monitor_scopes := t_health_check_monitor_scopes t |})) hchk_OrganizationID hchk_DeletedAt.
Definition with_monitor_members f := with_monitors (λ t, {| t_monitor_groups := t_monitor_groups t;
  t_monitors := t_monitors t; t_monitor_group_members := f (t_monitor_group_members t);
  t_health_checks := t_health_checks t; t_health_check_targets := t_health_check_targets t;
  t_health_check_monitor_scopes := t_health_check_monitor_scopes t |}).

(** ** Monitor groups *)

Definition ListMonitorGroupsByOrganization (organizationID : string) : tx database (list MonitorGroupRecord) :=
  reads (λ db, sort_stable (text2 mgrp_Name mgrp_ID) (lives monitorGroupsTable organizationID db)).
Definition FindMonitorGroupByID (organizationID monitorGroupID : string) : tx database MonitorGroupRecord :=
  row ← reads (live monitorGroupsTable organizationID monitorGroupID); found row.
Definition CreateMonitorGroup (E : callEnv) (group : MonitorGroupRecord) : tx database () :=
  insertRow monitorGroupsTable E (mgrp_ID group) (group <| mgrp_DeletedAt := "" |>).
Definition UpdateMonitorGroup (E : callEnv) (group : MonitorGroupRecord) : tx database () :=
  updateRow monitorGroupsTable E (mgrp_OrganizationID group) (mgrp_ID group) (λ row,
    row <| mgrp_Name := mgrp_Name group |> <| mgrp_Description := mgrp_Description group |>
        <| mgrp_UpdatedAt := mgrp_UpdatedAt group |>).
Definition DeleteMonitorGroup (E : callEnv) (organizationID monitorGroupID deletedAt : string) : tx database () :=
  updateRow monitorGroupsTable E organizationID monitorGroupID (λ row,
    row <| mgrp_DeletedAt := deletedAt |> <| mgrp_UpdatedAt := deletedAt |>).

(** ** Monitors *)

Definition listMonitorGroupIDs (organizationID monitorID : string) (db : database) : list string :=
  sort_stable String.ltb (map mm_MonitorGroupID (List.filter (λ m,
    ofNode organizationID monitorID (mm_OrganizationID m) (mm_MonitorID m)
    && isSome (live monitorGroupsTable organizationID (mm_MonitorGroupID m) db)) (t_monitor_group_members (db_monitors db)))).
Definition loadMonitorGroups (db : database) (monitor : MonitorRecord) : MonitorRecord :=
  monitor <| mon_GroupIDs := listMonitorGroupIDs (mon_OrganizationID monitor) (mon_ID monitor) db |>.
Definition ListMonitorsByOrganization (organizationID : string) : tx database (list MonitorRecord) :=
  reads (λ db, map (loadMonitorGroups db) (sort_stable (text2 mon_Name mon_ID) (lives monitorsTable organizationID db))).
Definition FindMonitorByID (organizationID monitorID : string) : tx database MonitorRecord :=
  row ← reads (λ db, loadMonitorGroups db <$> live monitorsTable organizationID monitorID db); found row.
Definition replaceMonitorGroups (E : callEnv) (organizationID monitorID : string) (groupIDs : list string) : tx database () :=
  exec (env_refuse E) (with_monitor_members (replaceRows
    (λ m, ofNode organizationID monitorID (mm_OrganizationID m) (mm_MonitorID m))
    (map (λ g, {| mm_OrganizationID := organizationID; mm_MonitorID := monitorID; mm_MonitorGroupID := g |}) groupIDs))).
Definition CreateMonitor (E : callEnv) (monitor : MonitorRecord) (groupIDs : list string) : tx database () :=
  insertRow monitorsTable E (mon_ID monitor)
    (monitor <| mon_LastSeenAt := "" |> <| mon_RegisteredAt := "" |> <| mon_DeletedAt := "" |> <| mon_GroupIDs := [] |>);;
  replaceMonitorGroups E (mon_OrganizationID monitor) (mon_ID monitor) groupIDs.
Definition UpdateMonitor (E : callEnv) (monitor : MonitorRecord) (replaceGroups : bool) (groupIDs : list string)
    : tx database () :=
  updateRow monitorsTable E (mon_OrganizationID monitor) (mon_ID monitor) (λ row,
    row <| mon_Name := mon_Name monitor |> <| mon_UpdatedAt := mon_UpdatedAt monitor |>);;
  when replaceGroups (replaceMonitorGroups E (mon_OrganizationID monitor) (mon_ID monitor) groupIDs).
Definition DeleteMonitor (E : callEnv) (organizationID monitorID deletedAt : string) : tx database () :=
  updateRow monitorsTable E organizationID monitorID (λ row,
    row <| mon_DeletedAt := deletedAt |> <| mon_UpdatedAt := deletedAt |>).

(** ** Health checks *)

(** The join with [targets]: a row with a target that is gone is left out. *)
Definition joinTarget (db : database) (r : HealthCheckTargetRecord) : option HealthCheckTargetRecord :=
  if String.eqb (hct_TargetID r) "" then Some (r <| hct_TargetName := "" |> <| hct_TargetHost := "" |> <| hct_TargetPort := 0 |>)
  else match live targetsTable (hct_OrganizationID r) (hct_TargetID r) db with
       | Some t => Some (r <| hct_TargetName := trec_Name t |> <| hct_TargetHost := trec_Host t |>
                           <| hct_TargetPort := trec_Port t |>)
       | None => None
       end.
Definition listHealthCheckTargets (organizationID healthCheckID : string) (db : database) : list HealthCheckTargetRecord :=
  sort_stable (text2 hct_TargetName hct_TargetID) (omap (joinTarget db) (List.filter (λ r,
    ofNode organizationID healthCheckID (hct_OrganizationID r) (hct_HealthCheckID r)) (t_health_check_targets (db_monitors db)))).
Definition scopeBefore (x y : HealthCheckMonitorScopeRecord) : bool :=
  if negb (String.eqb (hcm_ScopeType x) (hcm_ScopeType y)) then String.ltb (hcm_ScopeType x) (hcm_ScopeType y)
  else text2 hcm_MonitorID hcm_MonitorGroupID x y.
Definition listHealthCheckMonitorScopes (organizationID healthCheckID : string) (db : database)
    : list HealthCheckMonitorScopeRecord :=
  sort_stable scopeBefore (List.filter (λ r,
    ofNode organizationID healthCheckID (hcm_OrganizationID r) (hcm_HealthCheckID r)) (t_health_check_monitor_scopes (db_monitors db))).
Definition attachHealthCheckChildren (db : database) (check : HealthCheckRecord) : HealthCheckRecord :=
  check <| hchk_Targets := listHealthCheckTargets (hchk_OrganizationID check) (hchk_ID check) db |>
        <| hchk_MonitorScopes := listHealthCheckMonitorScopes (hchk_OrganizationID check) (hchk_ID check) db |>.
Definition ListHealthChecksByOrganization (organizationID : string) : tx database (list HealthCheckRecord) :=
  reads (λ db, map (attachHealthCheckChildren db)
                 (sort_stable (λ x y, String.ltb (hchk_Name x) (hchk_Name y)) (lives healthChecksTable organizationID db))).

#[export] Hint Unfold ListMonitorGroupsByOrganization FindMonitorGroupByID ListMonitorsByOrganization FindMonitorByID
  ListHealthChecksByOrganization : reads.
