(* ===== verification/PresenceStore.v ===== *)
(** * What agents report, in the database (repo/nodes.go, repo/targets_rules.go)

    The statements that an agent's connection runs on its own row: its
    presence, its version, the progress of its update, the addresses it is
    seen at, and the rules whose traffic it may report. *)

From S2P Require Import Prelude GoString GoSort Domain ServiceErrors Records ValidatorBase NodeCoverage TrafficLedger Transaction Database MonitorStore.
From coqutil Require Import Datatypes.RecordSetters.
Import TriangleBracketNotations.
#[local] Open Scope Z_scope.

(** [COALESCE(column, now)]: NULL is read as the empty text. *)
Definition coalesce (column now : string) : string := if String.eqb column "" then now else column.

(** ** Presence and versions *)

Definition MarkNodeAgentConnected (E : callEnv) (organizationID nodeID now : string) : tx database () :=
  updateRow nodesTable E organizationID nodeID (λ row,
    row <| node_Status := "ONLINE" |> <| node_LastSeenAt := now |>
        <| node_RegisteredAt := coalesce (node_RegisteredAt row) now |> <| node_UpdatedAt := now |>).
Definition MarkNodeAgentDisconnected (E : callEnv) (organizationID nodeID now : string) : tx database () :=
  updateRow nodesTable E organizationID nodeID (λ row,
    row <| node_Status := "OFFLINE" |> <| node_LastSeenAt := now |> <| node_UpdatedAt := now |>).

Record NodeAgentVersionRecord := { nver_Version : string; nver_Commit : string; nver_BuildTime : string }.
Definition UpdateNodeAgentVersion (E : callEnv) (organizationID nodeID : string) (version : NodeAgentVersionRecord)
    (now : string) : tx database () :=
  updateRow nodesTable E organizationID nodeID (λ row,
    row <| node_AgentVersion := nver_Version version |> <| node_AgentCommit := nver_Commit version |>
        <| node_AgentBuildTime := nver_BuildTime version |> <| node_LastSeenAt := now |> <| node_UpdatedAt := now |>).
Definition UpdateNodeAgentUpdatePolicy (E : callEnv) (organizationID nodeID : string) (enabled : bool) (now : string)
    : tx database () :=
  updateRow nodesTable E organizationID nodeID (λ row,
    row <| node_AgentAutoUpdateEnabled := enabled |> <| node_UpdatedAt := now |>).
Definition MarkNodeAgentUpdateRequested (E : callEnv) (organizationID nodeID targetVersion now : string) : tx database () :=
  updateRow nodesTable E organizationID nodeID (λ row,
    row <| node_DesiredAgentVersion := targetVersion |> <| node_AgentUpdateStatus := "PENDING" |>
        <| node_AgentUpdateError := "" |> <| node_AgentUpdateStartedAt := now |>
        <| node_AgentUpdateFinishedAt := "" |> <| node_UpdatedAt := now |>).
Definition MarkNodeAgentUpdateSatisfied (E : callEnv) (organizationID nodeID targetVersion now : string) : tx database () :=
  updateRow nodesTable E organizationID nodeID (λ row,
    row <| node_DesiredAgentVersion := targetVersion |> <| node_AgentUpdateStatus := "SUCCEEDED" |>
        <| node_AgentUpdateError := "" |>
        <| node_AgentUpdateStartedAt := coalesce (node_AgentUpdateStartedAt row) now |>
        <| node_AgentUpdateFinishedAt := now |> <| node_UpdatedAt := now |>).
Definition RecordNodeAgentUpdateResult (E : callEnv) (organizationID nodeID status errorMessage now : string)
    : tx database () :=
  updateRow nodesTable E organizationID nodeID (λ row,
    row <| node_AgentUpdateStatus := status |> <| node_AgentUpdateError := errorMessage |>
        <| node_AgentUpdateFinishedAt := if String.eqb status "RUNNING" then "" else now |> <| node_UpdatedAt := now |>).

Definition MarkMonitorAgentConnected (E : callEnv) (organizationID monitorID now : string) : tx database () :=
  updateRow monitorsTable E organizationID monitorID (λ row,
    row <| mon_Status := "ONLINE" |> <| mon_LastSeenAt := now |>
        <| mon_RegisteredAt := coalesce (mon_RegisteredAt row) now |> <| mon_UpdatedAt := now |>).
Definition MarkMonitorAgentDisconnected (E : callEnv) (organizationID monitorID now : string) : tx database () :=
  updateRow monitorsTable E organizationID monitorID (λ row,
    row <| mon_Status := "OFFLINE" |> <| mon_LastSeenAt := now |> <| mon_UpdatedAt := now |>).
Definition RecordMonitorConfigAck (E : callEnv) (organizationID monitorID : string) (configVersion : Z) (now : string)
    : tx database () :=
  updateRow monitorsTable E organizationID monitorID (λ row,
    row <| mon_AppliedConfigVersion := configVersion |> <| mon_UpdatedAt := now |>).

(** ** The addresses an agent is seen at

    They are unique by organization, node, source, type and address. *)

Definition autoAddress (organizationID nodeID : string) (r : NodeDNSPublishAddressRecord) : bool :=
  ofNode organizationID nodeID (ndns_OrganizationID r) (ndns_NodeID r) && String.eqb (ndns_Source r) "AUTO".
Definition disabledAddress (now : string) (r : NodeDNSPublishAddressRecord) : NodeDNSPublishAddressRecord :=
  r <| ndns_Enabled := false |> <| ndns_UpdatedAt := now |>.
Definition seenAddress (now : string) (r : NodeDNSPublishAddressRecord) : NodeDNSPublishAddressRecord :=
  r <| ndns_Enabled := true |> <| ndns_ObservedAt := now |> <| ndns_UpdatedAt := now |>.

Definition replaceSeen (organizationID nodeID addressType address now : string) (row : NodeDNSPublishAddressRecord)
    (table : list NodeDNSPublishAddressRecord) : list NodeDNSPublishAddressRecord :=
  let same r := autoAddress organizationID nodeID r && String.eqb (ndns_AddressType r) addressType
                && String.eqb (ndns_Address r) address in
  if existsb same table then map (λ r, if same r then seenAddress now r else r) table else table ++ [row].

Definition UpsertAutoNodeDNSPublishAddress (E : callEnv) (organizationID nodeID addressType address now : string)
    : tx database () :=
  exec (env_refuse E) (with_publish_addresses (map (λ r,
    if autoAddress organizationID nodeID r && String.eqb (ndns_AddressType r) addressType
       && negb (String.eqb (ndns_Address r) address) && ndns_Enabled r
    then disabledAddress now r else r)));;
  exec (env_refuse E) (with_publish_addresses (replaceSeen organizationID nodeID addressType address now
    {| ndns_ID := env_nextID E "dns_publish_address" 0; ndns_OrganizationID := organizationID; ndns_NodeID := nodeID;
       ndns_AddressType := addressType; ndns_Address := address; ndns_Source := "AUTO"; ndns_Enabled := true;
       ndns_ObservedAt := now; ndns_CreatedAt := now; ndns_UpdatedAt := now |})).
Definition DisableAutoNodeDNSPublishAddresses (E : callEnv) (organizationID nodeID now : string) : tx database () :=
  exec (env_refuse E) (with_publish_addresses (map (λ r,
    if autoAddress organizationID nodeID r && ndns_Enabled r then disabledAddress now r else r))).

(** ** Traffic assignments *)

(** The tables that TrafficLedger.v works on. *)
Definition ledgerOf (db : database) : ledger := {|
  ledger_Rules := rrec_OrganizationID <$> t_forwarding_rules (db_rules db);
  ledger_Nodes := list_to_map (map (λ kv : string * NodeRecord,
    ((node_OrganizationID kv.2, kv.1), negb (String.eqb (node_DeletedAt kv.2) ""))) (map_to_list (t_nodes (db_nodes db))));
  ledger_Reports := t_rule_traffic_reports (db_traffic db);
  ledger_Assignments := t_rule_traffic_assignments (db_traffic db);
  ledger_Counters := t_rule_traffic_counters (db_traffic db) |}.
Definition with_traffic_of (l : ledger) : database → database := with_traffic (λ _, {|
  t_rule_traffic_reports := ledger_Reports l; t_rule_traffic_assignments := ledger_Assignments l;
  t_rule_traffic_counters := ledger_Counters l |}).

Definition RecordNodeRuleTrafficAssignments (E : callEnv) (organizationID nodeID : string) (ruleIDs : list string)
    : tx database () :=
  l ← reads (λ db, TrafficLedger.RecordNodeRuleTrafficAssignments organizationID nodeID ruleIDs (ledgerOf db));
  match l with Ok l => exec (env_refuse E) (with_traffic_of l) | Err e => fail e end.
