(* ===== verification/NodePayload.v ===== *)
(** * Nodes as the API shows them (control_nodes.go, control_geoip.go, control_dataplane.go)

    The inputs of a node become rows, and the rows of a node become the
    payload that the API answers with, with the country of its published
    addresses.  The country database (maxminddb) is a parameter of the
    resolver. *)

From S2P Require Import Prelude GoString GoNet Domain ServiceErrors Records ValidatorBase NodeCoverage ConfigCompiler.
Import Domain.Errors Domain.Rules.
#[local] Open Scope Z_scope.

(** ** Inputs *)

Record GroupMutationInput := { gin_Name : string; gin_Description : string }.
Record NodeMutationInput := {
  nin_Name : string; nin_NameProvided : bool; nin_GroupIDs : list string; nin_GroupIDsProvided : bool;
  nin_ListenIPs : list NodeListenIPInput; nin_ListenIPsProvided : bool; nin_SendIPs : list NodeSendIPInput;
  nin_SendIPsProvided : bool; nin_PortRanges : list NodePortRangeInput; nin_PortRangesProvided : bool;
  nin_MaxRulePorts : Z; nin_MaxRulePortsProvided : bool;
  nin_DNSPublishAddresses : list NodeDNSPublishAddressInput; nin_DNSPublishAddressesProvided : bool;
  nin_PublicDescription : string; nin_PublicDescriptionProvided : bool; nin_DataplaneMode : string;
  nin_DataplaneModeProvided : bool; nin_DataplaneConflictPolicy : string;
  nin_DataplaneConflictPolicyProvided : bool }.

Definition toNodeListenIPRecords (inputs : list NodeListenIPInput) : list NodeListenIPRecord :=
  map (λ i, {| nlip_ID := ""; nlip_OrganizationID := ""; nlip_NodeID := ""; nlip_ListenIP := lipi_ListenIP i;
    nlip_DisplayName := lipi_DisplayName i; nlip_Enabled := true; nlip_CreatedAt := ""; nlip_UpdatedAt := "" |}) inputs.
Definition toNodeSendIPRecords (inputs : list NodeSendIPInput) : list NodeSendIPRecord :=
  map (λ i, {| nsip_ID := ""; nsip_OrganizationID := ""; nsip_NodeID := ""; nsip_SendIP := sipi_SendIP i;
    nsip_DisplayName := sipi_DisplayName i; nsip_Enabled := true; nsip_CreatedAt := ""; nsip_UpdatedAt := "" |}) inputs.
Definition defaultPortRanges : list NodePortRangeInput := [
  {| rngi_Protocol := ProtocolTCP; rngi_StartPort := 1; rngi_EndPort := 65535 |};
  {| rngi_Protocol := ProtocolUDP; rngi_StartPort := 1; rngi_EndPort := 65535 |}].
Definition toNodePortRangeRecords (inputs : list NodePortRangeInput) : list NodePortRangeRecord :=
  let inputs := if Nat.eqb (length inputs) 0 then defaultPortRanges else inputs in
  map (λ i, {| nrange_ID := ""; nrange_OrganizationID := ""; nrange_NodeID := ""; nrange_Protocol := rngi_Protocol i;
    nrange_StartPort := rngi_StartPort i; nrange_EndPort := rngi_EndPort i; nrange_Enabled := true;
    nrange_CreatedAt := ""; nrange_UpdatedAt := "" |}) inputs.
Definition toNodeDNSPublishAddressRecords (inputs : list NodeDNSPublishAddressInput) : list NodeDNSPublishAddressRecord :=
  map (λ i, {| ndns_ID := ""; ndns_OrganizationID := ""; ndns_NodeID := ""; ndns_AddressType := pubi_AddressType i;
    ndns_Address := pubi_Address i; ndns_Source := "MANUAL"; ndns_Enabled := pubi_Enabled i; ndns_ObservedAt := "";
    ndns_CreatedAt := ""; ndns_UpdatedAt := "" |}) inputs.

(** The first occurrences of the values of both lists. *)
Fixpoint firstOccurrences (seen : gset string) (values : list string) : list string :=
  match values with
  | [] => []
  | v :: rest => if bool_decide (v ∈ seen) then firstOccurrences seen rest
                 else v :: firstOccurrences ({[v]} ∪ seen) rest
  end.
Definition mergeStringSets (left right : list string) : list string := firstOccurrences ∅ (left ++ right).

Lemma elem_of_firstOccurrences seen values v : v ∈ firstOccurrences seen values ↔ v ∈ values ∧ v ∉ seen.
Proof.
  revert seen. induction values as [|w l IH]; intros seen; cbn; [by split; [intros ?%not_elem_of_nil|intros [?%not_elem_of_nil _]]|].
  case_bool_decide as Hw; rewrite ?elem_of_cons, IH.
  - split; [naive_solver|]. intros [[->|?] ?]; [done|by split].
  - rewrite elem_of_union, elem_of_singleton. destruct (decide (v = w)) as [->|]; naive_solver.
Qed.
Lemma elem_of_mergeStringSets left right v : v ∈ mergeStringSets left right ↔ v ∈ left ∨ v ∈ right.
Proof. unfold mergeStringSets. rewrite elem_of_firstOccurrences, elem_of_app. pose proof (not_elem_of_empty (C := gset string) v). naive_solver. Qed.

(** ** Payloads *)

Record NodeGroupPayload := { gpay_ID : string; gpay_Name : string; gpay_Description : string }.
Record NodeEnrollmentProfileRef := { eref_ID : string; eref_Name : string }.
Record NodeGeoIPPayload := {
  geo_IP : string; geo_Source : string; geo_CountryCode : string; geo_CountryName : string;
  geo_FlagEmoji : string; geo_Attribution : string }.
Record NodeListenIPPayload := { lipp_ID : string; lipp_ListenIP : string; lipp_DisplayName : string; lipp_Enabled : bool }.
Record NodeSendIPPayload := { sipp_ID : string; sipp_SendIP : string; sipp_DisplayName : string; sipp_Enabled : bool }.
Record NodePortRangePayload := {
  rngp_ID : string; rngp_Protocol : string; rngp_StartPort : Z; rngp_EndPort : Z; rngp_Enabled : bool }.
Record NodeDNSPublishAddressPayload := {
  pubp_ID : string; pubp_AddressType : string; pubp_Address : string; pubp_Source : string; pubp_Enabled : bool;
  pubp_ObservedAt : string; pubp_GeoIP : NodeGeoIPPayload }.
Record NodePayload := {
  npay_ID : string; npay_Name : string; npay_Status : string; npay_PublicDescription : string;
  npay_DesiredConfigVersion : Z; npay_AppliedConfigVersion : Z; npay_ConfigStatus : string;
  npay_ConfigErrorMessage : string; npay_ConfigStatusUpdatedAt : string; npay_LastSeenAt : string;
  npay_RegisteredAt : string; npay_AgentVersion : string; npay_AgentCommit : string; npay_AgentBuildTime : string;
  npay_AgentAutoUpdateEnabled : bool; npay_DesiredAgentVersion : string; npay_AgentUpdateStatus : string;
  npay_AgentUpdateError : string; npay_AgentUpdateStartedAt : string; npay_AgentUpdateFinishedAt : string;
  npay_DataplaneMode : string; npay_DataplaneConflictPolicy : string; npay_DataplaneInstanceID : string;
  npay_DataplaneStatus : string; npay_DataplaneError : string; npay_DataplaneLastHash : string;
  npay_DataplaneLastAppliedAt : string; npay_RegistrationSource : string;
  npay_EnrollmentProfile : option NodeEnrollmentProfileRef; npay_GeoIP : NodeGeoIPPayload;
  npay_GroupIDs : list string; npay_ListenIPs : list NodeListenIPPayload; npay_SendIPs : list NodeSendIPPayload;
  npay_PortRanges : list NodePortRangePayload; npay_MaxRulePorts : Z;
  npay_DNSPublishAddresses : list NodeDNSPublishAddressPayload }.

Definition toNodeGroupPayload (g : NodeGroupRecord) : NodeGroupPayload :=
  {| gpay_ID := ngrp_ID g; gpay_Name := ngrp_Name g; gpay_Description := ngrp_Description g |}.

(** ** Countries of addresses *)

Record GeoIPResult := { res_CountryCode : string; res_CountryName : string; res_Attribution : string }.
(** [GeoIPResolver]: the service may have none. *)
Class GeoIPResolver := Lookup : option (bytes → GeoIPResult).

Definition dbIPCountryAttribution : string := "IP geolocation by DB-IP (db-ip.com), CC BY 4.0".
Definition noGeoIP : NodeGeoIPPayload := {|
  geo_IP := ""; geo_Source := ""; geo_CountryCode := ""; geo_CountryName := ""; geo_FlagEmoji := ""; geo_Attribution := "" |}.
Definition onlyAttribution : NodeGeoIPPayload := {|
  geo_IP := ""; geo_Source := ""; geo_CountryCode := ""; geo_CountryName := ""; geo_FlagEmoji := "";
  geo_Attribution := dbIPCountryAttribution |}.

Definition isCarrierGradeNATIP (ip : bytes) : bool :=
  match To4 ip with Some v4 => (octet v4 0 =? 100) && (Z.land (octet v4 1) 0xc0 =? 0x40) | None => false end.
Definition publicGeoIPLookupIP (ip : option bytes) : bool :=
  match ip with
  | None => false
  | Some ip => IsGlobalUnicast ip && negb (IsPrivate ip) && negb (IsLoopback ip) && negb (IsLinkLocalUnicast ip)
               && negb (IsLinkLocalMulticast ip) && negb (IsMulticast ip) && negb (IsUnspecified ip)
               && negb (isCarrierGradeNATIP ip)
  end.

(** The two letters of a country as regional indicators: U+1F1E6 is the letter A. *)
Definition regionalIndicator (letter : Z) : bytes := [xf0; x9f; x87; z2b (0xa6 + (letter - 65))].

Section payload.
Context `{UnicodeTables}.

Definition countryFlagEmoji (countryCode : string) : string :=
  match bytes_of (ToUpper (TrimSpace countryCode)) with
  | [x; y] =>
      let first := b2z x in
      let second := b2z y in
      if (first <? 65) || (90 <? first) || (second <? 65) || (90 <? second) then ""
      else string_of (regionalIndicator first ++ regionalIndicator second)
  | _ => ""
  end.

(** [mmdbGeoIPResolver.Lookup]: the reader fails to open, or answers with an
    error or with the ISO code and the names of a country. *)
Definition mmdbLookup (reader : option (bytes → option (string * gmap string string))) (ip : bytes) : GeoIPResult :=
  let unknown := {| res_CountryCode := ""; res_CountryName := ""; res_Attribution := dbIPCountryAttribution |} in
  if negb (publicGeoIPLookupIP (Some ip)) then {| res_CountryCode := ""; res_CountryName := ""; res_Attribution := "" |}
  else match reader with
       | None => unknown
       | Some lookup =>
           match lookup ip with
           | None => unknown
           | Some (ISOCode, names) =>
               let code := ToUpper (TrimSpace ISOCode) in
               if String.eqb code "" then unknown
               else
                 let name := TrimSpace (default "" (names !! "en")) in
                 let name := if String.eqb name "" then TrimSpace (default "" (names !! "zh-CN")) else name in
                 {| res_CountryCode := code; res_CountryName := name; res_Attribution := dbIPCountryAttribution |}
           end
       end.

Definition geoIPPayloadForAddress (rawIP source : string) (resolver : option (bytes → GeoIPResult)) : NodeGeoIPPayload :=
  match ParseIP (TrimSpace rawIP) with
  | None => onlyAttribution
  | Some ip =>
      if negb (publicGeoIPLookupIP (Some ip)) then onlyAttribution
      else
        match resolver with
        | None => {| geo_IP := ip_string ip; geo_Source := ToUpper (TrimSpace source); geo_CountryCode := "";
                     geo_CountryName := ""; geo_FlagEmoji := ""; geo_Attribution := dbIPCountryAttribution |}
        | Some lookup =>
            let result := lookup ip in
            let code := ToUpper (TrimSpace (res_CountryCode result)) in
            {| geo_IP := ip_string ip; geo_Source := ToUpper (TrimSpace source); geo_CountryCode := code;
               geo_CountryName := TrimSpace (res_CountryName result); geo_FlagEmoji := countryFlagEmoji code;
               geo_Attribution := if String.eqb (TrimSpace (res_Attribution result)) "" then dbIPCountryAttribution
                                  else TrimSpace (res_Attribution result) |}
        end
  end.

Definition toNodeDNSPublishAddressPayload (a : NodeDNSPublishAddressRecord) (geoIP : NodeGeoIPPayload)
    : NodeDNSPublishAddressPayload := {|
  pubp_ID := ndns_ID a; pubp_AddressType := ndns_AddressType a; pubp_Address := ndns_Address a;
  pubp_Source := ndns_Source a; pubp_Enabled := ndns_Enabled a; pubp_ObservedAt := ndns_ObservedAt a;
  pubp_GeoIP := geoIP |}.
Definition toNodeDNSPublishAddressPayloadsWithGeoIP (addresses : list NodeDNSPublishAddressRecord)
    (resolver : option (bytes → GeoIPResult)) : list NodeDNSPublishAddressPayload :=
  map (λ a, toNodeDNSPublishAddressPayload a
    (if ndns_Enabled a then geoIPPayloadForAddress (ndns_Address a) (ndns_Source a) resolver else noGeoIP)) addresses.

Definition selectNodeGeoIP (addresses : list NodeDNSPublishAddressPayload) : NodeGeoIPPayload :=
  let of_source source := List.find (λ a, pubp_Enabled a && EqualFold (pubp_Source a) source
                                          && negb (String.eqb (geo_IP (pubp_GeoIP a)) "")) addresses in
  match of_source "MANUAL", of_source "AUTO" with
  | Some a, _ | None, Some a => pubp_GeoIP a
  | None, None => onlyAttribution
  end.

(** ** The dataplane of a node (control_dataplane.go) *)

Definition defaultNodeDataplaneStatus (value : string) : string :=
  let v := ToUpper (TrimSpace value) in
  if bool_decide (v ∈ ["HEALTHY"; "FAILED"; "DRIFTED"]) then v else "UNKNOWN".
Definition validateNodeDataplaneMode (value : string) : result serviceError () :=
  reject_if (negb (bool_decide (ToUpper (TrimSpace value) ∈
    [""; NodeDataplaneModeAuto; NodeDataplaneModeNative; NodeDataplaneModeHAProxy; NodeDataplaneModeNFTables])))
    (validationFieldError "dataplane_mode" "Unsupported node dataplane mode." {["actual" := DString value]}).
Definition normalizeNodeDataplaneModeForMutation (value : string) : result serviceError string :=
  let value := ToUpper (TrimSpace value) in
  validateNodeDataplaneMode value;;
  Ok (if String.eqb value "" then NodeDataplaneModeAuto else value).
Definition validateNodeDataplaneConflictPolicy (value : string) : result serviceError () :=
  reject_if (negb (bool_decide (ToUpper (TrimSpace value) ∈ [""; NodeDataplaneConflictPolicyFailFast])))
    (validationFieldError "dataplane_conflict_policy" "Unsupported node dataplane conflict policy."
       {["actual" := DString value]}).

(** ** The payload of a node *)

Definition nodeRegistrationSource (node : NodeRecord) : string :=
  if String.eqb (TrimSpace (node_EnrollmentProfileID node)) "" then "MANUAL" else "ENROLLMENT_PROFILE".
Definition nodeEnrollmentProfileRef (node : NodeRecord) : option NodeEnrollmentProfileRef :=
  if String.eqb (TrimSpace (node_EnrollmentProfileID node)) "" then None
  else Some {| eref_ID := node_EnrollmentProfileID node; eref_Name := node_EnrollmentProfileName node |}.
Definition toNodeListenIPPayloads (listenIPs : list NodeListenIPRecord) : list NodeListenIPPayload :=
  map (λ r, {| lipp_ID := nlip_ID r; lipp_ListenIP := nlip_ListenIP r; lipp_DisplayName := nlip_DisplayName r;
               lipp_Enabled := nlip_Enabled r |}) listenIPs.
Definition toNodeSendIPPayloads (sendIPs : list NodeSendIPRecord) : list NodeSendIPPayload :=
  map (λ r, {| sipp_ID := nsip_ID r; sipp_SendIP := nsip_SendIP r; sipp_DisplayName := nsip_DisplayName r;
               sipp_Enabled := nsip_Enabled r |}) sendIPs.
Definition toNodePortRangePayloads (portRanges : list NodePortRangeRecord) : list NodePortRangePayload :=
  map (λ r, {| rngp_ID := nrange_ID r; rngp_Protocol := nrange_Protocol r; rngp_StartPort := nrange_StartPort r;
               rngp_EndPort := nrange_EndPort r; rngp_Enabled := nrange_Enabled r |}) portRanges.

(** [nodePayloadWithoutGeoIP] and the two fields that [nodePayloadWithGeoIP] replaces. *)
Definition toNodePayload (resolver : option (bytes → GeoIPResult)) (node : NodeRecord) : NodePayload :=
  let addresses := toNodeDNSPublishAddressPayloadsWithGeoIP (node_DNSPublishAddresses node) resolver in {|
  npay_ID := node_ID node; npay_Name := node_Name node; npay_Status := node_Status node;
  npay_PublicDescription := node_PublicDescription node; npay_DesiredConfigVersion := node_DesiredConfigVersion node;
  npay_AppliedConfigVersion := node_AppliedConfigVersion node; npay_ConfigStatus := node_ConfigStatus node;
  npay_ConfigErrorMessage := node_ConfigErrorMessage node;
  npay_ConfigStatusUpdatedAt := node_ConfigStatusUpdatedAt node; npay_LastSeenAt := node_LastSeenAt node;
  npay_RegisteredAt := node_RegisteredAt node; npay_AgentVersion := node_AgentVersion node;
  npay_AgentCommit := node_AgentCommit node; npay_AgentBuildTime := node_AgentBuildTime node;
  npay_AgentAutoUpdateEnabled := node_AgentAutoUpdateEnabled node;
  npay_DesiredAgentVersion := node_DesiredAgentVersion node; npay_AgentUpdateStatus := node_AgentUpdateStatus node;
  npay_AgentUpdateError := node_AgentUpdateError node; npay_AgentUpdateStartedAt := node_AgentUpdateStartedAt node;
  npay_AgentUpdateFinishedAt := node_AgentUpdateFinishedAt node;
  npay_DataplaneMode := defaultNodeDataplaneMode (node_DataplaneMode node);
  npay_DataplaneConflictPolicy := defaultNodeDataplaneConflictPolicy (node_DataplaneConflictPolicy node);
  npay_DataplaneInstanceID := node_DataplaneInstanceID node;
  npay_DataplaneStatus := defaultNodeDataplaneStatus (node_DataplaneStatus node);
  npay_DataplaneError := node_DataplaneError node; npay_DataplaneLastHash := node_DataplaneLastHash node;
  npay_DataplaneLastAppliedAt := node_DataplaneLastAppliedAt node;
  npay_RegistrationSource := nodeRegistrationSource node; npay_EnrollmentProfile := nodeEnrollmentProfileRef node;
  npay_GeoIP := selectNodeGeoIP addresses; npay_GroupIDs := node_GroupIDs node;
  npay_ListenIPs := toNodeListenIPPayloads (node_ListenIPs node);
  npay_SendIPs := toNodeSendIPPayloads (node_SendIPs node);
  npay_PortRanges := toNodePortRangePayloads (node_PortRanges node);
  npay_MaxRulePorts := defaultMaxRulePorts (node_MaxRulePorts node); npay_DNSPublishAddresses := addresses |}.

(** What a published address shows of its country: nothing of an address that
    is not public, and a flag only for two letters. *)
Lemma geoIP_public rawIP source resolver :
  geo_IP (geoIPPayloadForAddress rawIP source resolver) ≠ "" →
  ∃ ip, ParseIP (TrimSpace rawIP) = Some ip ∧ publicGeoIPLookupIP (Some ip) = true
    ∧ geo_IP (geoIPPayloadForAddress rawIP source resolver) = ip_string ip.
Proof.
  unfold geoIPPayloadForAddress. destruct (ParseIP _) as [ip|]; [|done].
  destruct (publicGeoIPLookupIP (Some ip)) eqn:E; cbn [negb]; [|done]. exists ip. by destruct resolver.
Qed.
End payload.
