(* ===== verification/Layout.v ===== *)
(** * Layouts: which node carries which listener

    The part of the database that decides whether rules can be served: what
    each node offers ([capacity]) and where each enabled rule listens
    ([placement]), without names, identifiers of rows, time stamps and order.
    A layout is [deployable] when every rule is carried by the nodes of its
    group and no two rules want the same traffic of a node.  It is what the
    check [validateEnabledRulesForNodeSet] decides
    ([validateEnabledRulesForNodeSet_deployable]), and the form in which the
    services keep it. *)

From S2P Require Import Prelude GoString GoInt Domain ServiceErrors Records NodeCoverage.
Import Domain.Rules.
#[local] Open Scope Z_scope.

(** Go's documentation of [strings.EqualFold]: equality under simple case
    folding, which is an equivalence. *)
Class FoldSymmetric `{UnicodeTables} := unicode_fold_sym : Symmetric (λ s t, unicode_equal_fold s t = true).

Record capacity := {
  cap_ID : string; cap_Groups : gset string; cap_ListenIPs : gset string; cap_SendIPs : gset string;
  cap_Ranges : gset (string * Z * Z); cap_MaxRulePorts : Z }.
#[export] Instance capacity_eq_dec : EqDecision capacity.
Proof. solve_decision. Defined.

Record placement := {
  pl_ID : string; pl_Group : string; pl_ListenIP : string; pl_Protocol : string; pl_Segments : gset (Z * Z);
  pl_Ports : Z; pl_MatchType : string; pl_SNI : string; pl_ProxyIn : string; pl_SendIP : string }.
#[export] Instance placement_eq_dec : EqDecision placement.
Proof. solve_decision. Defined.

Definition capacity_of (n : NodeRecord) : capacity := {|
  cap_ID := node_ID n; cap_Groups := list_to_set (node_GroupIDs n);
  cap_ListenIPs := list_to_set (map nlip_ListenIP (List.filter nlip_Enabled (node_ListenIPs n)));
  cap_SendIPs := list_to_set (map nsip_SendIP (List.filter nsip_Enabled (node_SendIPs n)));
  cap_Ranges := list_to_set (map (λ r, (nrange_Protocol r, nrange_StartPort r, nrange_EndPort r))
                               (List.filter nrange_Enabled (node_PortRanges n)));
  cap_MaxRulePorts := defaultMaxRulePorts (node_MaxRulePorts n) |}.

Definition segmentPairs (segments : list InboundBindingPortSegmentRecord) : list (Z * Z) :=
  map (λ s, (bseg_StartPort s, bseg_EndPort s)) segments.
Definition place (id group listenIP protocol : string) (segments : list InboundBindingPortSegmentRecord)
    (matchType sni proxyIn sendIP : string) : placement := {|
  pl_ID := id; pl_Group := group; pl_ListenIP := listenIP; pl_Protocol := protocol;
  pl_Segments := list_to_set (segmentPairs segments); pl_Ports := expandedPortCount segments;
  pl_MatchType := matchType; pl_SNI := sni; pl_ProxyIn := proxyIn; pl_SendIP := sendIP |}.
Definition placement_of (r : RuleRecord) : placement :=
  let b := rrec_Binding r in
  place (rrec_ID r) (bind_NodeGroupID b) (bind_ListenIP b) (rrec_Protocol r) (rulePortSegments b)
    (rrec_MatchType r) (rrec_SNIHostname r) (rrec_ProxyProtocolIn r) (rrec_SendIP r).

(** A node has what a placement needs. *)
Definition fits (c : capacity) (p : placement) : Prop :=
  pl_ListenIP p ∈ cap_ListenIPs c ∧
  (∀ seg port proto, seg ∈ pl_Segments p → seg.1 ≤ port ≤ seg.2 → proto ∈ sockets (pl_Protocol p) →
    ∃ r, r ∈ cap_Ranges c ∧ r.1.1 = proto ∧ r.1.2 ≤ port ≤ r.2) ∧
  pl_Ports p ≤ cap_MaxRulePorts c ∧
  (TrimSpace (pl_SendIP p) ≠ "" → pl_SendIP p ∈ cap_SendIPs c).

(** The binding that a segment makes on a node. *)
Definition boundAt (nodeID : string) (p : placement) (seg : Z * Z) : InboundBinding := {|
  NodeID := nodeID; ListenIP := pl_ListenIP p; Protocol := pl_Protocol p; Port := seg.1; StartPort := seg.1;
  EndPort := seg.2; MatchType := pl_MatchType p; SNI := pl_SNI p; ProxyProtocolIn := pl_ProxyIn p;
  ForwardRule := pl_ID p |}.

Section layout.
Context `{UnicodeTables}.

Definition sound (p : placement) : Prop := ∀ seg, seg ∈ pl_Segments p → well_formed (boundAt "" p seg).

(** No traffic is wanted by both, unless the server name tells it apart. *)
Definition apart (p q : placement) : Prop := ∀ s t, s ∈ pl_Segments p → t ∈ pl_Segments q →
  sameEndpoint (boundAt "" p s) (boundAt "" q t) = true → may_share (boundAt "" p s) (boundAt "" q t).

Definition carried_by (caps : list capacity) (p : placement) : Prop :=
  (∃ c, c ∈ caps ∧ pl_Group p ∈ cap_Groups c) ∧
  (∀ c, c ∈ caps → pl_Group p ∈ cap_Groups c → fits c p).
Definition meet_on (caps : list capacity) (p q : placement) : Prop :=
  ∃ c, c ∈ caps ∧ pl_Group p ∈ cap_Groups c ∧ pl_Group q ∈ cap_Groups c.

Definition deployable (caps : list capacity) (pls : list placement) : Prop :=
  (∀ p, p ∈ pls → carried_by caps p ∧ sound p) ∧
  (∀ p q, p ∈ pls → q ∈ pls → pl_ID p ≠ pl_ID q → meet_on caps p q → apart p q).

(** ** Growing and shrinking a layout *)

Definition same_elements {A} (l k : list A) : Prop := ∀ x, x ∈ l ↔ x ∈ k.

#[export] Instance same_elements_equiv {A} : Equivalence (@same_elements A).
Proof. split; unfold same_elements; [done|by intros l k Hl x|by intros l k m H1 H2 x; rewrite H1]. Qed.

#[export] Instance deployable_proper : Proper (same_elements ==> same_elements ==> iff) deployable.
Proof.
  intros caps caps' Hc pls pls' Hp. unfold deployable, carried_by, meet_on. unfold same_elements in *.
  by setoid_rewrite Hc; setoid_rewrite Hp.
Qed.

Lemma deployable_subset caps pls pls' : (∀ p, p ∈ pls' → p ∈ pls) → deployable caps pls → deployable caps pls'.
Proof. intros Hs [H1 H2]. split; [auto|]. intros p q Hp Hq. apply H2; auto. Qed.

(** A placement joins a layout when it is carried and apart from the others. *)
Lemma deployable_add caps pls pls' p :
  (∀ q, q ∈ pls' → q = p ∨ (q ∈ pls ∧ pl_ID q ≠ pl_ID p)) →
  deployable caps pls → carried_by caps p → sound p →
  (∀ q, q ∈ pls → pl_ID q ≠ pl_ID p → meet_on caps q p → apart q p) →
  (∀ q, q ∈ pls → pl_ID q ≠ pl_ID p → meet_on caps q p → apart p q) →
  deployable caps pls'.
Proof.
  intros Hsub [H1 H2] Hc Hs Ha Ha'. split.
  - intros q [->|[Hq _]]%Hsub; [done|by apply H1].
  - intros q r [->|[Hq Hqp]]%Hsub [->|[Hr Hrp]]%Hsub Hne (c & ? & ? & ?).
    + done.
    + apply Ha'; [done..|by exists c].
    + apply Ha; [done..|by exists c].
    + apply H2; [done..|by exists c].
Qed.
End layout.

(** ** Symmetry *)

Lemma bindings_listenIPsOverlap_sym x y : listenIPsOverlap x y = listenIPsOverlap y x.
Proof. unfold listenIPsOverlap. by rewrite String.eqb_sym, orb_comm. Qed.
Lemma protocolsOverlap_sym x y : protocolsOverlap x y = protocolsOverlap y x.
Proof. apply eq_true_iff_eq. rewrite !protocolsOverlap_spec. split; intros (p & ? & ?); by exists p. Qed.
Lemma portRangesOverlap_sym b c : portRangesOverlap b c = portRangesOverlap c b.
Proof.
  unfold portRangesOverlap. destruct (normalizedBindingPorts b), (normalizedBindingPorts c). by rewrite andb_comm.
Qed.
Lemma sameEndpoint_sym b c : sameEndpoint b c = sameEndpoint c b.
Proof.
  unfold sameEndpoint. by rewrite String.eqb_sym, bindings_listenIPsOverlap_sym, protocolsOverlap_sym, portRangesOverlap_sym.
Qed.

Section symmetry.
Context `{FoldSymmetric}.

Lemma EqualFold_sym s t : EqualFold s t = EqualFold t s.
Proof.
  unfold EqualFold. rewrite andb_comm. destruct (_ && _); [apply String.eqb_sym|].
  apply eq_true_iff_eq. split; apply unicode_fold_sym.
Qed.
Lemma may_share_sym b c : may_share b c → may_share c b.
Proof.
  intros (? & ? & Hip & ? & Hsni). split_and!; try done; [|by rewrite EqualFold_sym].
  by rewrite <-Hip; apply String.eqb_sym.
Qed.
Lemma apart_sym p q : apart p q → apart q p.
Proof. intros Ha s t Hs Ht He. apply may_share_sym, Ha; [done..|]. by rewrite sameEndpoint_sym. Qed.
End symmetry.

(** ** The check of a node set *)

Lemma elem_of_capacities (c : capacity) nodes : c ∈ map capacity_of nodes ↔ ∃ n, n ∈ nodes ∧ c = capacity_of n.
Proof. rewrite list_elem_of_fmap. split; intros (n & ? & ?); by exists n. Qed.

Lemma elem_of_groupNodes n nodes g : n ∈ nodesInGroupFromSet nodes g ↔ n ∈ nodes ∧ g ∈ node_GroupIDs n.
Proof.
  unfold nodesInGroupFromSet. rewrite elem_of_filterb, existsb_elem_of.
  split; (intros [? Hg]; split; [done|]).
  - destruct Hg as (g' & Hg' & ->%String.eqb_eq). done.
  - exists g. by rewrite String.eqb_refl.
Qed.

Lemma elem_of_segments seg segments :
  seg ∈ (list_to_set (segmentPairs segments) : gset (Z * Z)) ↔
  ∃ s, s ∈ segments ∧ seg = (bseg_StartPort s, bseg_EndPort s).
Proof. unfold segmentPairs. rewrite elem_of_list_to_set, list_elem_of_fmap. split; intros (s & ? & ?); by exists s. Qed.

Lemma elem_of_enabled {A} (enabled : A → bool) (f : A → string) l x :
  x ∈ (list_to_set (map f (List.filter enabled l)) : gset string) ↔ ∃ c, c ∈ l ∧ enabled c = true ∧ f c = x.
Proof.
  rewrite elem_of_list_to_set, list_elem_of_fmap. setoid_rewrite elem_of_filterb.
  split; [intros (c & -> & ? & ?)|intros (c & ? & ? & <-)]; by exists c.
Qed.

Lemma fits_spec n r :
  fits (capacity_of n) (placement_of r) ↔
  carries n (bind_ListenIP (rrec_Binding r)) (rrec_Protocol r) (rulePortSegments (rrec_Binding r)) ∧
  (TrimSpace (rrec_SendIP r) ≠ "" →
    ∃ c, c ∈ node_SendIPs n ∧ nsip_Enabled c = true ∧ nsip_SendIP c = rrec_SendIP r).
Proof.
  unfold fits, carries, placement_of, capacity_of. cbn. rewrite !elem_of_enabled.
  assert ((∀ seg port proto, seg ∈ (list_to_set (segmentPairs (rulePortSegments (rrec_Binding r))) : gset (Z * Z)) →
      seg.1 ≤ port ≤ seg.2 → proto ∈ sockets (rrec_Protocol r) →
      ∃ x : string * Z * Z, x ∈ (list_to_set (map (λ r, (nrange_Protocol r, nrange_StartPort r, nrange_EndPort r))
        (List.filter nrange_Enabled (node_PortRanges n))) : gset _) ∧ x.1.1 = proto ∧ x.1.2 ≤ port ≤ x.2) ↔
    ∀ seg port p, seg ∈ rulePortSegments (rrec_Binding r) → bseg_StartPort seg ≤ port ≤ bseg_EndPort seg →
      p ∈ sockets (rrec_Protocol r) → ∃ x, x ∈ node_PortRanges n ∧ nrange_Enabled x = true ∧ nrange_Protocol x = p ∧
        nrange_StartPort x ≤ port ≤ nrange_EndPort x) as ->; [|tauto].
  setoid_rewrite elem_of_segments. setoid_rewrite elem_of_list_to_set. setoid_rewrite list_elem_of_fmap.
  setoid_rewrite elem_of_filterb. split.
  - intros Hr seg port p Hseg Hport Hp.
    destruct (Hr (bseg_StartPort seg, bseg_EndPort seg) port p) as (? & (x & -> & Hx & ?) & ? & ?); [by exists seg|done..|].
    by exists x.
  - intros Hr ? port p (seg & Hseg & ->) Hport Hp. destruct (Hr seg port p) as (x & ? & ? & ? & ?); [done..|].
    eexists. split; [by exists x|]. done.
Qed.

Lemma carried_placement nodes r : carried nodes r ↔ carried_by (map capacity_of nodes) (placement_of r).
Proof.
  unfold carried, carried_by. cbn. setoid_rewrite elem_of_capacities. split.
  - intros [Hne Hall]. split.
    + destruct (nodesInGroupFromSet _ _) as [|n l] eqn:E; [done|].
      assert (n ∈ nodes ∧ bind_NodeGroupID (rrec_Binding r) ∈ node_GroupIDs n) as [? ?].
      { apply elem_of_groupNodes. rewrite E. left. }
      exists (capacity_of n). split; [by exists n|]. by apply elem_of_list_to_set.
    + intros ? (n & Hn & ->) Hg%elem_of_list_to_set. apply fits_spec, Hall. by apply elem_of_groupNodes.
  - intros [(? & (n & Hn & ->) & Hg%elem_of_list_to_set) Hall]. split.
    + intros E. apply (not_elem_of_nil n). rewrite <-E. by apply elem_of_groupNodes.
    + intros m [Hm Hgm]%elem_of_groupNodes. apply fits_spec, Hall; [by exists m|by apply elem_of_list_to_set].
Qed.

Lemma elem_of_ruleBindings b nodes r :
  b ∈ ruleBindings nodes r ↔ ∃ n seg, n ∈ nodes ∧ pl_Group (placement_of r) ∈ cap_Groups (capacity_of n) ∧
    seg ∈ pl_Segments (placement_of r) ∧ b = boundAt (node_ID n) (placement_of r) seg.
Proof.
  unfold ruleBindings, bindingsForNodes. rewrite elem_of_flat_map. setoid_rewrite list_elem_of_fmap.
  cbn. setoid_rewrite elem_of_segments. setoid_rewrite elem_of_list_to_set. setoid_rewrite elem_of_groupNodes. split.
  - intros (n & [Hn Hg] & s & -> & Hs). exists n, (bseg_StartPort s, bseg_EndPort s). split_and!; try done. by exists s.
  - intros (n & ? & Hn & Hg & (s & Hs & ->) & ->). exists n. split; [done|]. by exists s.
Qed.

Section check.
Context `{FoldSymmetric}.

Lemma boundAt_sameEndpoint n m p q s t :
  sameEndpoint (boundAt n p s) (boundAt m q t) = true ↔ n = m ∧ sameEndpoint (boundAt "" p s) (boundAt "" q t) = true.
Proof.
  unfold sameEndpoint, portRangesOverlap, normalizedBindingPorts. cbn. rewrite !andb_true_iff, String.eqb_eq. tauto.
Qed.

Lemma compatible_apart nodes before r :
  NoDup (map node_ID nodes) → carried nodes r →
  compatible_with nodes before r ↔
  sound (placement_of r) ∧
  ∀ q, q ∈ before → meet_on (map capacity_of nodes) (placement_of q) (placement_of r) →
    apart (placement_of q) (placement_of r).
Proof.
  intros Hnd Hcar. unfold compatible_with. setoid_rewrite elem_of_ruleBindings. split.
  - intros Hc. split.
    + apply carried_placement in Hcar as [(c & (n & Hn & ->)%elem_of_capacities & Hg) _]. intros seg Hseg.
      destruct (Hc (boundAt (node_ID n) (placement_of r) seg)) as [Hw _]; [by exists n, seg|]. exact Hw.
    + intros q Hq (c & (n & Hn & ->)%elem_of_capacities & Hgq & Hgr) s t Hs Ht He.
      destruct (Hc (boundAt (node_ID n) (placement_of r) t)) as [_ Hm]; [by exists n, t|].
      apply (Hm q (boundAt (node_ID n) (placement_of q) s)); [done|by exists n, s|].
      by apply boundAt_sameEndpoint.
  - intros [Hs Ha] c (n & t & Hn & Hg & Ht & ->). split; [apply (Hs t Ht)|].
    intros q b Hq (m & s & Hm & Hgm & Hsq & ->) [E He]%boundAt_sameEndpoint.
    refine (Ha q Hq _ s t Hsq Ht He). exists (capacity_of n). split_and!; [apply elem_of_capacities; by exists n| |done].
    assert (m = n) as <-; [|done].
    apply list_elem_of_lookup in Hn as [i Hi], Hm as [j Hj].
    assert (j = i) as ->; [|congruence]. eapply (NoDup_lookup (map node_ID nodes)); [done| |].
    + by rewrite list_lookup_fmap, Hj.
    + by rewrite list_lookup_fmap, Hi; cbn; rewrite E.
Qed.

(** The check of a node set accepts exactly the deployable layouts. *)
Lemma nodeSet_deployable rules nodes :
  NoDup (map rrec_ID rules) → NoDup (map node_ID nodes) →
  validateEnabledRulesForNodeSet rules nodes = None ↔
  deployable (map capacity_of nodes) (map placement_of rules).
Proof.
  intros Hr Hn. rewrite nodeSet_none. split.
  - intros Hall. split.
    + intros p (r & -> & (before & after & ->)%list_elem_of_split)%list_elem_of_fmap.
      destruct (Hall before r after eq_refl) as [Hc Hcomp]. split; [by apply carried_placement|].
      by apply compatible_apart in Hcomp as [? _].
    + assert (∀ before r after q, rules = before ++ r :: after → q ∈ before →
        meet_on (map capacity_of nodes) (placement_of q) (placement_of r) → apart (placement_of q) (placement_of r)) as Hlt.
      { intros before r after q -> Hq Hm. destruct (Hall before r after eq_refl) as [Hc Hcomp].
        apply compatible_apart in Hcomp as [_ Ha]; [|done..]. by apply Ha. }
      intros ? ? (q & -> & Hq)%list_elem_of_fmap (r & -> & Hr')%list_elem_of_fmap Hne Hm.
      apply list_elem_of_split in Hr' as (before & after & E). rewrite E in Hq.
      apply elem_of_app in Hq as [Hq|[->|Hq]%elem_of_cons]; [by eapply Hlt|done|].
      apply list_elem_of_split in Hq as (a1 & a2 & ->). apply apart_sym.
      eapply (Hlt (before ++ r :: a1) q a2).
      * rewrite E. by rewrite <-app_assoc.
      * rewrite elem_of_app. right. left.
      * destruct Hm as (c & ? & ? & ?). by exists c.
  - intros [H1 H2] before r after ->. assert (placement_of r ∈ map placement_of (before ++ r :: after)) as Hin.
    { apply list_elem_of_fmap. exists r. split; [done|]. rewrite elem_of_app. right. left. }
    destruct (H1 _ Hin) as [Hc%carried_placement Hs]. split; [done|].
    apply compatible_apart; [done..|]. split; [done|]. intros q Hq Hm. apply H2; [|done| |done].
    + apply list_elem_of_fmap. exists q. split; [done|]. rewrite elem_of_app. by left.
    + rewrite map_app in Hr. cbn in Hr. apply NoDup_app in Hr as (_ & Hd & _). intros E. apply (Hd (rrec_ID q)).
      * apply list_elem_of_fmap. by exists q.
      * change (rrec_ID q = rrec_ID r) in E. rewrite E. left.
Qed.
End check.
