(* ===== verification/Delimited.v ===== *)
(** * Text cut at delimiters

    A text that joins parts with a delimiter determines the parts, when the
    delimiter does not occur in them: the facts behind the identifiers that
    the program derives from several fields. *)

From S2P Require Import Prelude GoString.
#[local] Open Scope Z_scope.

(** The byte does not occur in the text. *)
Definition lacks (d : byte) (s : string) : Prop := d ∉ bytes_of s.

Lemma cut_inj (d : byte) (a b x y : bytes) :
  d ∉ a → d ∉ b → a ++ d :: x = b ++ d :: y → a = b ∧ x = y.
Proof.
  revert b. induction a as [|c a IH]; intros [|c' b] Ha Hb E; cbn in *; simplify_eq; [done|..].
  - by destruct Hb; left.
  - by destruct Ha; left.
  - rewrite not_elem_of_cons in Ha, Hb. destruct (IH b) as [-> ->]; [tauto..|done|done].
Qed.
Lemma cut_inj_r (d : byte) (a b x y : bytes) :
  d ∉ x → d ∉ y → a ++ d :: x = b ++ d :: y → a = b ∧ x = y.
Proof.
  intros Hx Hy E%(f_equal reverse). rewrite !reverse_app, !reverse_cons, <-!app_assoc in E. cbn in E.
  apply cut_inj in E as [->%(inj reverse) ->%(inj reverse)]; [done|by rewrite elem_of_reverse..].
Qed.

Lemma lacks_app d s t : lacks d (s ++ t) ↔ lacks d s ∧ lacks d t.
Proof. unfold lacks. rewrite bytes_of_app, elem_of_app. tauto. Qed.

Lemma append_assoc (a b c : string) : ((a ++ b) ++ c = a ++ b ++ c)%string.
Proof. apply (inj bytes_of). by rewrite !bytes_of_app, (assoc_L (++)). Qed.

(** Cutting strings, the delimiter being a string of one byte. *)
Lemma append_cut_inj d a b x y :
  lacks d a → lacks d b → (a ++ string_of [d] ++ x = b ++ string_of [d] ++ y)%string → a = b ∧ x = y.
Proof.
  intros Ha Hb E%(f_equal bytes_of). rewrite !bytes_of_app, !bytes_of_string_of in E. cbn in E.
  apply cut_inj in E as [->%(inj _) ->%(inj _)]; done.
Qed.
Lemma append_cut_inj_r d a b x y :
  lacks d x → lacks d y → (a ++ string_of [d] ++ x = b ++ string_of [d] ++ y)%string → a = b ∧ x = y.
Proof.
  intros Ha Hb E%(f_equal bytes_of). rewrite !bytes_of_app, !bytes_of_string_of in E. cbn in E.
  apply cut_inj_r in E as [->%(inj _) ->%(inj _)]; done.
Qed.

Lemma append_cut_inj_l d a b x y :
  lacks d x → lacks d y → ((a ++ string_of [d]) ++ x = (b ++ string_of [d]) ++ y)%string → a = b ∧ x = y.
Proof. rewrite !append_assoc. apply append_cut_inj_r. Qed.

(** A joined list determines its parts. *)
Lemma Join_cons2 x y l sep : Join (x :: y :: l) sep = (x ++ sep ++ Join (y :: l) sep)%string.
Proof. done. Qed.
Lemma lacks_Join d sep l : (∀ x, x ∈ l → lacks d x) → lacks d sep → lacks d (Join l sep).
Proof.
  intros Hl Hs. induction l as [|x [|y l] IH]; [by intros ?%not_elem_of_nil|apply Hl; left|].
  rewrite Join_cons2, !lacks_app. split_and!; [apply Hl; left|done|]. apply IH. intros z Hz. apply Hl. by right.
Qed.
Lemma Join_inj d l k :
  (∀ x, x ∈ l → lacks d x ∧ x ≠ "") → (∀ x, x ∈ k → lacks d x ∧ x ≠ "") →
  Join l (string_of [d]) = Join k (string_of [d]) → l = k.
Proof.
  revert k. induction l as [|x l IH]; intros [|y k] Hl Hk E; [done|..].
  - destruct (Hk y) as [_ Hy]; [left|]. destruct k; cbn in E; [done|]. by destruct y.
  - destruct (Hl x) as [_ Hx]; [left|]. destruct l; cbn in E; [done|]. by destruct x.
  - destruct (Hl x) as [Hx _]; [left|]. destruct (Hk y) as [Hy _]; [left|].
    destruct l as [|x' l], k as [|y' k].
    + cbn in E. by rewrite E.
    + rewrite Join_cons2 in E. cbn [Join String.concat] in E. exfalso. apply Hx. rewrite E.
      rewrite !bytes_of_app, bytes_of_string_of, !elem_of_app. right. left. by left.
    + rewrite Join_cons2 in E. cbn [Join String.concat] in E. exfalso. apply Hy. rewrite <-E.
      rewrite !bytes_of_app, bytes_of_string_of, !elem_of_app. right. left. by left.
    + rewrite !Join_cons2 in E. apply append_cut_inj in E as [-> E]; [|done..]. f_equal. apply IH; [..|done].
      * intros z Hz. apply Hl. by right.
      * intros z Hz. apply Hk. by right.
Qed.

(** Decimal numbers hold digits. *)
Lemma Itoa_digits z b : 0 ≤ z → b ∈ bytes_of (Itoa z) → is_digit b = true.
Proof.
  intros Hz. unfold Itoa. rewrite bytes_of_string_of. unfold itoa_bytes.
  destruct (Z.ltb_spec z 0); [lia|]. intros Hb.
  exact (proj1 (Forall_forall _ _) (digits_all _ _) b Hb).
Qed.
Lemma lacks_Itoa d z : 0 ≤ z → is_digit d = false → lacks d (Itoa z).
Proof. intros Hz Hd Hin. by rewrite (Itoa_digits z d Hz Hin) in Hd. Qed.
