(* ===== verification/StoreLayout.v ===== *)
(** * The layout of the database

    The layout of an organization as its tables hold it: [caps] are the
    capacities of its nodes, [pls] the placements of its enabled rules.  For
    every statement that writes, a lemma says what becomes of them.  Bindings
    are named by a hash of their content: under the invariant [well_named] a
    statement that writes the binding of one rule leaves the content of every
    other binding alone, also of those it shares. *)

From S2P Require Import Prelude GoString GoInt GoSort Domain ServiceErrors Records ValidatorBase NodeCoverage ConfigCompiler Transaction Database RuleStore Layout Delimited.
From coqutil Require Import Datatypes.RecordSetters.
Import TriangleBracketNotations.
#[local] Open Scope Z_scope.

(** ** The content of a binding *)

Record content := {
  con_Group : string; con_ListenIP : string; con_Protocol : string; con_Pairs : list (Z * Z);
  con_MatchType : string }.

Definition contentOf (b : InboundBindingRecord) : content := {|
  con_Group := bind_NodeGroupID b; con_ListenIP := bind_ListenIP b; con_Protocol := bind_Protocol b;
  con_Pairs := segmentPairs (rulePortSegments b); con_MatchType := bind_MatchType b |}.

Definition pairText (pair : Z * Z) : string := (Itoa pair.1 ++ "-" ++ Itoa pair.2)%string.
(** The text that [inboundBindingForRule] hashes. *)
Definition bindingSource (organizationID : string) (c : content) : string :=
  (organizationID ++ "|" ++ con_Group c ++ "|" ++ con_ListenIP c ++ "|" ++ con_Protocol c ++ "|"
   ++ Join (map pairText (con_Pairs c)) "," ++ "|" ++ con_MatchType c)%string.

Definition bar : byte := x7c.

Definition valid_pair (pair : Z * Z) : Prop := 1 ≤ pair.1 ≤ 65535 ∧ pair.1 ≤ pair.2 ≤ 65535.
Record valid_content (c : content) : Prop := {
  vc_group : lacks bar (con_Group c);
  vc_protocol : lacks bar (con_Protocol c);
  vc_match : lacks bar (con_MatchType c);
  vc_pairs : Forall valid_pair (con_Pairs c);
  vc_apart : StronglySorted (λ x y, x.2 < y.1) (con_Pairs c) }.
Lemma sorted_starts pairs :
  Forall valid_pair pairs → StronglySorted (λ x y, x.2 < y.1) pairs → StronglySorted (λ x y, x.1 < y.1) pairs.
Proof.
  intros Hv Hs. induction Hs as [|p l Hs IH Hp]; constructor; apply Forall_cons in Hv as [[_ Hv] Hl]; [by apply IH|].
  eapply Forall_impl; [exact Hp|]. intros q Hq. cbn in *. lia.
Qed.

Lemma pairText_inj p q : valid_pair p → valid_pair q → pairText p = pairText q → p = q.
Proof.
  destruct p as [s e], q as [s' e']. intros [Hs He] [Hs' He'] E. cbn in *.
  unfold pairText in E. cbn [fst snd] in E. change "-"%string with (string_of [x2d]) in E. apply append_cut_inj in E as [E1 E2].
  - apply Itoa_inj in E1, E2; [by subst|lia..].
  - apply lacks_Itoa; [lia|done].
  - apply lacks_Itoa; [lia|done].
Qed.
Lemma pairText_lacks p d : valid_pair p → is_digit d = false → d ≠ x2d → lacks d (pairText p).
Proof.
  intros [Hs He] Hd Hne. unfold pairText. rewrite !lacks_app. split_and!; [by apply lacks_Itoa; [lia|]| |by apply lacks_Itoa; [lia|]].
  by intros ->%list_elem_of_singleton.
Qed.
Lemma pairText_nonempty p : pairText p ≠ "".
Proof. unfold pairText. by destruct (Itoa p.1). Qed.

Lemma pairTexts_plain ps : Forall valid_pair ps → ∀ x, x ∈ map pairText ps → lacks x2c x ∧ x ≠ "".
Proof.
  intros Hps x (p & -> & Hp)%list_elem_of_fmap. split; [|apply pairText_nonempty].
  apply pairText_lacks; [|done..]. by eapply (proj1 (Forall_forall _ _) Hps).
Qed.
Lemma pairTexts_inj ps qs : Forall valid_pair ps → Forall valid_pair qs → map pairText ps = map pairText qs → ps = qs.
Proof.
  intros Hps. revert qs. induction Hps as [|p ps Hp Hps IH]; intros ? [|q qs Hq Hqs] E; cbn in E; simplify_eq; [done|].
  f_equal; [by apply pairText_inj|by apply IH].
Qed.

Lemma bindingSource_inj org c d :
  valid_content c → valid_content d → bindingSource org c = bindingSource org d → c = d.
Proof.
  intros [Hg Hp Hm Hps _] [Hg' Hp' Hm' Hps' _] E. unfold bindingSource in E.
  assert (∀ c, Forall valid_pair (con_Pairs c) → lacks bar (Join (map pairText (con_Pairs c)) ",")) as Hj.
  { intros e He. apply lacks_Join; [|by intros ?%list_elem_of_singleton].
    intros x (p & -> & Hp'')%list_elem_of_fmap. apply pairText_lacks; [|done..]. by eapply (proj1 (Forall_forall _ _) He). }
  change "|"%string with (string_of [bar]) in E.
  apply append_inj_r, (append_inj_r (string_of [bar])) in E.
  apply append_cut_inj in E as [Eg E]; [|done..].
  rewrite <-!append_assoc in E. apply append_cut_inj_l in E as [E Em]; [|done..].
  apply append_cut_inj_l in E as [E Ej]; [|by apply Hj..].
  apply append_cut_inj_l in E as [Ei Ep]; [|done..].
  destruct c as [g ip p ps m], d as [g' ip' p' ps' m']; cbn in *; subst. f_equal.
  apply (Join_inj x2c) in Ej; [|by apply pairTexts_plain..]. by apply pairTexts_inj.
Qed.

(** ** Rows *)

Lemma elem_of_rows {A} (m : gmap string A) x : x ∈ rows m ↔ ∃ k, m !! k = Some x.
Proof.
  unfold rows. rewrite list_elem_of_fmap. split.
  - intros ([k y] & -> & Hk%elem_of_map_to_list). by exists k.
  - intros [k Hk]. exists (k, x). split; [done|]. by apply elem_of_map_to_list.
Qed.

Lemma findRow_some {A} (owner deleted : A → string) m org id x :
  findRow owner deleted m org id = Some x ↔ m !! id = Some x ∧ owner x = org ∧ deleted x = "".
Proof.
  unfold findRow. destruct (m !! id) as [y|]; cbn; [|by split; intros E; destruct_and?].
  destruct (String.eqb_spec (owner y) org); destruct (String.eqb_spec (deleted y) ""); cbn;
    split; intros E; destruct_and?; simplify_eq; done.
Qed.
Lemma elem_of_liveRows {A} (owner deleted : A → string) m org x :
  x ∈ liveRows owner deleted m org ↔ ∃ id, findRow owner deleted m org id = Some x.
Proof.
  unfold liveRows. rewrite elem_of_filterb, elem_of_rows, andb_true_iff, !String.eqb_eq.
  setoid_rewrite findRow_some. naive_solver.
Qed.
Lemma live_owner {A} (T : table A) org id db x : live T org id db = Some x → tbl_owner T x = org.
Proof. by intros (_ & ? & _)%findRow_some. Qed.
Lemma elem_of_lives {A} (T : table A) org db x : x ∈ lives T org db ↔ ∃ id, live T org id db = Some x.
Proof. apply elem_of_liveRows. Qed.

(** The listed rows have distinct keys. *)
Lemma NoDup_filterb {A} (f : A → bool) l : NoDup l → NoDup (List.filter f l).
Proof.
  induction 1 as [|x l Hx Hl IH]; cbn; [constructor|]. destruct (f x); [|done].
  constructor; [|done]. by intros [? _]%elem_of_filterb.
Qed.
Lemma NoDup_lives {A} (T : table A) (key : A → string) org db :
  (∀ id x, tbl_rows T db !! id = Some x → key x = id) → NoDup (map key (lives T org db)).
Proof.
  intros Hk. unfold lives, liveRows, rows. set (m := tbl_rows T db) in *.
  assert (NoDup (map key (map_to_list m).*2)) as Hnd.
  { rewrite <-list_fmap_compose. erewrite list_fmap_ext; [apply NoDup_fst_map_to_list with (m := m)|].
    intros i [k x] Hi. cbn. apply Hk, elem_of_map_to_list. by eapply list_elem_of_lookup_2. }
  revert Hnd. generalize ((map_to_list m).*2) as l. induction l as [|x l IH]; cbn; [done|].
  intros [Hx Hl]%NoDup_cons. destruct (_ && _); cbn; [|by apply IH].
  apply NoDup_cons. split; [|by apply IH]. intros (y & E & [Hy _]%elem_of_filterb)%list_elem_of_fmap.
  apply Hx. rewrite E. apply list_elem_of_fmap. by exists y.
Qed.

(** ** Layouts of the tables *)

Section views.
Context `{UnicodeTables, UUIDHash, HT : HashedTexts}.

Definition nodesOf (organizationID : string) (db : database) : list NodeRecord :=
  map (loadNodeDetails db) (sort_stable (text2 node_Name node_ID) (lives nodesTable organizationID db)).
Definition enabledRulesOf (organizationID : string) (db : database) : list RuleRecord :=
  List.filter isEnabledRule (rulesOf organizationID db).
Definition caps (organizationID : string) (db : database) : list capacity := map capacity_of (nodesOf organizationID db).
Definition pls (organizationID : string) (db : database) : list placement :=
  map placement_of (enabledRulesOf organizationID db).

Definition bindingAt (db : database) (organizationID id : string) : option InboundBindingRecord :=
  loadInboundBindingPortSegments db <$> t_inbound_bindings (db_rules db) !! (organizationID, id).
Definition contentAt (db : database) (organizationID id : string) : option content :=
  contentOf <$> bindingAt db organizationID id.

Definition portCount (pairs : list (Z * Z)) : Z :=
  foldl (λ count p, add64 count (add64 (sub64 p.2 p.1) 1)) 0 pairs.
Lemma expandedPortCount_pairs segments : expandedPortCount segments = portCount (segmentPairs segments).
Proof.
  unfold expandedPortCount, portCount, segmentPairs. generalize 0 as z.
  induction segments as [|s l IH]; intros z; cbn; [done|]. apply IH.
Qed.

(** Where a rule with this row and this binding listens. *)
Definition placed (row : RuleRecord) (c : content) : placement := {|
  pl_ID := rrec_ID row; pl_Group := con_Group c; pl_ListenIP := con_ListenIP c; pl_Protocol := rrec_Protocol row;
  pl_Segments := list_to_set (con_Pairs c); pl_Ports := portCount (con_Pairs c);
  pl_MatchType := rrec_MatchType row; pl_SNI := rrec_SNIHostname row; pl_ProxyIn := rrec_ProxyProtocolIn row;
  pl_SendIP := rrec_SendIP row |}.

Lemma placement_of_loaded row tags b :
  placement_of (row <| rrec_Binding := b |> <| rrec_Tags := tags |>) = placed row (contentOf b).
Proof. unfold placement_of, placed, place. cbn. by rewrite expandedPortCount_pairs. Qed.

Lemma loadRule_some db row r :
  loadRule db row = Some r ↔
  ∃ b, bindingAt db (rrec_OrganizationID row) (rrec_InboundBindingID row) = Some b ∧
    r = row <| rrec_Binding := b |> <| rrec_Tags := loadRuleTags db row |>.
Proof.
  unfold loadRule, bindingAt. destruct (_ !! _) as [b|]; cbn; split; try done.
  - intros [= <-]. by exists (loadInboundBindingPortSegments db b).
  - by intros (? & [= <-] & ->).
  - by intros (? & ? & ?).
Qed.

Lemma elem_of_rulesOf org db r :
  r ∈ rulesOf org db ↔ ∃ id row, live rulesTable org id db = Some row ∧ loadRule db row = Some r.
Proof.
  unfold rulesOf. rewrite list_elem_of_omap. setoid_rewrite elem_of_sort. setoid_rewrite elem_of_lives. naive_solver.
Qed.

Lemma elem_of_caps org db c :
  c ∈ caps org db ↔ ∃ id row, live nodesTable org id db = Some row ∧ c = capacity_of (loadNodeDetails db row).
Proof.
  unfold caps, nodesOf. rewrite elem_of_capacities. setoid_rewrite list_elem_of_fmap.
  setoid_rewrite elem_of_sort. setoid_rewrite elem_of_lives. naive_solver.
Qed.

Lemma elem_of_pls org db p :
  p ∈ pls org db ↔ ∃ id row c, live rulesTable org id db = Some row ∧ isEnabledRule row = true ∧
    contentAt db org (rrec_InboundBindingID row) = Some c ∧ p = placed row c.
Proof.
  unfold pls, enabledRulesOf. rewrite list_elem_of_fmap. setoid_rewrite elem_of_filterb.
  setoid_rewrite elem_of_rulesOf. setoid_rewrite loadRule_some. unfold contentAt. split.
  - intros (r & -> & (id & row & Hl & b & Hb & ->) & He). exists id, row, (contentOf b).
    assert (rrec_OrganizationID row = org) as Ho by apply (live_owner rulesTable _ _ _ _ Hl).
    rewrite Ho in Hb. rewrite Hb. split_and!; [done|exact He|done|apply placement_of_loaded].
  - intros (id & row & c & Hl & He & Hc & ->). destruct (bindingAt _ _ _) as [b|] eqn:Hb; [|done].
    assert (rrec_OrganizationID row = org) as Ho by apply (live_owner rulesTable _ _ _ _ Hl). injection Hc as <-.
    eexists. rewrite <-(placement_of_loaded row (loadRuleTags db row)). split_and!; [done| |exact He].
    exists id, row. split; [done|]. exists b. by rewrite Ho.
Qed.

(** ** Bindings are named by their content *)

Definition named (organizationID id : string) (c : content) : Prop :=
  id = uuidHash (bindingSource organizationID c) ∧ hashed (bindingSource organizationID c) ∧ valid_content c.
Definition well_named_binding (b : InboundBindingRecord) : Prop :=
  named (bind_OrganizationID b) (bind_ID b) (contentOf b).

Record well_named (db : database) : Prop := {
  wn_nodes id n : t_nodes (db_nodes db) !! id = Some n → node_ID n = id;
  wn_groups id g : t_node_groups (db_nodes db) !! id = Some g → lacks bar id;
  wn_members m : m ∈ t_node_group_members (db_nodes db) → is_Some (t_node_groups (db_nodes db) !! mem_NodeGroupID m);
  wn_rules id r : t_forwarding_rules (db_rules db) !! id = Some r → rrec_ID r = id;
  wn_anonymous : t_forwarding_rules (db_rules db) !! "" = None;
  wn_bound id r : t_forwarding_rules (db_rules db) !! id = Some r →
    is_Some (t_inbound_bindings (db_rules db) !! (rrec_OrganizationID r, rrec_InboundBindingID r));
  wn_bindings org id b : t_inbound_bindings (db_rules db) !! (org, id) = Some b →
    bind_OrganizationID b = org ∧ bind_ID b = id ∧ well_named_binding (loadInboundBindingPortSegments db b) }.

Lemma NoDup_nodesOf org db : well_named db → NoDup (map node_ID (nodesOf org db)).
Proof.
  intros Hn. assert (map node_ID (nodesOf org db)
    = node_ID <$> sort_stable (text2 node_Name node_ID) (lives nodesTable org db)) as ->.
  { unfold nodesOf. rewrite map_map. by apply map_ext. }
  rewrite sort_perm. apply (NoDup_lives nodesTable node_ID org db), (wn_nodes _ Hn).
Qed.
Lemma named_inj `{!NoCollision} org id c d : named org id c → named org id d → c = d.
Proof.
  intros (E1 & Hh1 & Hc) (E2 & Hh2 & Hd). rewrite E1 in E2. apply no_collision in E2; [|done..]. by eapply bindingSource_inj.
Qed.

Lemma segmentPairs_stored b segments : segmentPairs (map (storedSegment b) segments) = segmentPairs segments.
Proof. unfold segmentPairs. rewrite map_map. by apply map_ext. Qed.

Lemma sort_segments_id segments :
  StronglySorted (λ x y, x.1 < y.1) (segmentPairs segments) → sort_stable segmentBefore segments = segments.
Proof.
  intros Hs. apply sort_id. unfold segmentPairs in Hs. induction segments as [|s l IH]; [constructor|].
  cbn in Hs. apply StronglySorted_inv in Hs as [Hl Hall]. constructor; [by apply IH|].
  apply Forall_forall. intros t Ht. rewrite Forall_forall in Hall.
  specialize (Hall (bseg_StartPort t, bseg_EndPort t)). cbn in Hall.
  unfold not_after, segmentBefore. destruct (Z.eqb_spec (bseg_StartPort t) (bseg_StartPort s)); cbn.
  - rewrite e in Hall. exfalso. assert (bseg_StartPort s < bseg_StartPort s); [|lia].
    apply Hall, list_elem_of_fmap. exists t. split; [by rewrite <-e|done].
  - apply Z.ltb_ge. apply Z.lt_le_incl, Hall, list_elem_of_fmap. by exists t.
Qed.

(** The database after [upsertInboundBinding]. *)
Definition upserted (b : InboundBindingRecord) (db : database) : database :=
  with_segments (replaceRows (ofBinding (bind_OrganizationID b) (bind_ID b)) (map (storedSegment b) (bindingSegments b)))
    (with_bindings (λ bindings,
       let key := (bind_OrganizationID b, bind_ID b) in
       match bindings !! key with
       | Some row => <[key := row <| bind_MatchType := bind_MatchType b |>]> bindings
       | None => <[key := b]> bindings
       end) db).
Lemma upsertInboundBinding_ok E b db u db' : upsertInboundBinding E b db = Ok (u, db') → db' = upserted b db.
Proof. unfold upsertInboundBinding. intros Hu. tx_inv. apply exec_ok in E0, Hu. by subst. Qed.

Lemma ofBinding_stored b s : ofBinding (bind_OrganizationID b) (bind_ID b) (storedSegment b s) = true.
Proof. unfold ofBinding. cbn. by rewrite !String.eqb_refl. Qed.
Lemma ofBinding_other org id org' id' s :
  (org, id) ≠ (org', id') → ofBinding org id s = true → ofBinding org' id' s = false.
Proof.
  unfold ofBinding. intros Hne [E1%String.eqb_eq E2%String.eqb_eq]%andb_true_iff.
  apply andb_false_iff. rewrite !String.eqb_neq. destruct (decide (org = org')); [right|left]; congruence.
Qed.

(** What is loaded for a binding row, given the segments of its name. *)
Lemma loaded_segments db b :
  segmentPairs (rulePortSegments (loadInboundBindingPortSegments db b)) =
  match sort_stable segmentBefore (List.filter (ofBinding (bind_OrganizationID b) (bind_ID b))
          (t_binding_port_segments (db_rules db))) with
  | [] => [(bind_Port b, bind_Port b)]
  | l => segmentPairs l
  end.
Proof.
  unfold loadInboundBindingPortSegments. destruct (sort_stable _ _) as [|s l]; cbn; [|done].
  unfold rulePortSegments. cbn. by destruct (0 <? bind_Port b).
Qed.

Lemma upserted_segments b db : t_binding_port_segments (db_rules (upserted b db)) =
  replaceRows (ofBinding (bind_OrganizationID b) (bind_ID b)) (map (storedSegment b) (bindingSegments b))
    (t_binding_port_segments (db_rules db)).
Proof. done. Qed.

Lemma upserted_same b row db :
  bind_OrganizationID row = bind_OrganizationID b → bind_ID row = bind_ID b →
  StronglySorted (λ x y, x.1 < y.1) (segmentPairs (rulePortSegments b)) →
  segmentPairs (rulePortSegments (loadInboundBindingPortSegments (upserted b db) row)) = segmentPairs (rulePortSegments b).
Proof.
  intros Ho Hi Hs. rewrite loaded_segments, Ho, Hi, upserted_segments.
  rewrite select_replaced by (intros r (s & -> & _)%list_elem_of_fmap; apply ofBinding_stored).
  change (bindingSegments b) with (rulePortSegments b). rewrite sort_segments_id by by rewrite segmentPairs_stored.
  rewrite <-(segmentPairs_stored b). destruct (rulePortSegments b) as [|s l] eqn:E; [|done].
  unfold rulePortSegments in E. by destruct (bind_PortSegments b).
Qed.
Lemma upserted_other b row db :
  (bind_OrganizationID b, bind_ID b) ≠ (bind_OrganizationID row, bind_ID row) →
  contentOf (loadInboundBindingPortSegments (upserted b db) row) = contentOf (loadInboundBindingPortSegments db row).
Proof.
  intros Hne. unfold contentOf. rewrite !loaded_segments, upserted_segments, select_other; [done| |].
  - intros r. by apply ofBinding_other.
  - intros r (s & -> & _)%list_elem_of_fmap. apply ofBinding_stored.
Qed.

Context {NC : NoCollision}.

Lemma upserted_contentAt b db :
  well_named db → well_named_binding b →
  contentAt (upserted b db) (bind_OrganizationID b) (bind_ID b) = Some (contentOf b) ∧
  (∀ org id, (bind_OrganizationID b, bind_ID b) ≠ (org, id) → contentAt (upserted b db) org id = contentAt db org id) ∧
  (∀ c, contentAt db (bind_OrganizationID b) (bind_ID b) = Some c → c = contentOf b).
Proof.
  intros Hwn Hb. destruct (proj2 (proj2 Hb)) as [_ _ _ Hv Hs]. pose proof (sorted_starts _ Hv Hs) as Hs'.
  clear Hs Hv. rename Hs' into Hs. split_and!.
  - unfold contentAt, bindingAt. cbn.
    destruct (t_inbound_bindings (db_rules db) !! (bind_OrganizationID b, bind_ID b)) as [row|] eqn:E;
      rewrite lookup_insert_eq; cbn; f_equal; unfold contentOf; f_equal; try by apply upserted_same.
    all: destruct (wn_bindings _ Hwn _ _ _ E) as (Ho & Hi & Hn).
    all: assert (contentOf (loadInboundBindingPortSegments db row) = contentOf b) as Ec
        by (eapply named_inj; [|exact Hb]; rewrite <-Ho, <-Hi; exact Hn); try by injection Ec.
    by apply upserted_same.
  - intros org id Hne. unfold contentAt, bindingAt. cbn.
    destruct (t_inbound_bindings (db_rules db) !! (bind_OrganizationID b, bind_ID b)) as [row|];
      rewrite lookup_insert_ne by done; (destruct (_ !! (org, id)) as [r|] eqn:E; cbn; [|done]);
      f_equal; apply upserted_other; destruct (wn_bindings _ Hwn _ _ _ E) as (-> & -> & _); done.
  - intros c. unfold contentAt, bindingAt. destruct (_ !! _) as [row|] eqn:E; cbn [fmap option_fmap option_map]; [|done].
    intros <-%(inj Some).
    destruct (wn_bindings _ Hwn _ _ _ E) as (Ho & Hi & Hn). eapply named_inj; [|exact Hb]. rewrite <-Ho, <-Hi. exact Hn.
Qed.

Lemma upserted_well_named b db : well_named db → well_named_binding b → well_named (upserted b db).
Proof.
  intros Hwn Hb. destruct (upserted_contentAt b db Hwn Hb) as (Hsame & Hother & _).
  split; [apply Hwn..| |].
  { intros id r Hr. apply (wn_bound _ Hwn) in Hr. cbn.
    destruct (t_inbound_bindings _ !! (bind_OrganizationID b, _)); apply lookup_insert_is_Some'; by right. }
  intros org id r Hr.
  assert (bind_OrganizationID r = org ∧ bind_ID r = id) as [Ho Hi].
  { cbn in Hr. destruct (t_inbound_bindings (db_rules db) !! (bind_OrganizationID b, bind_ID b)) as [row|] eqn:E.
    - apply lookup_insert_Some in Hr as [[[= <- <-] <-]|[Hne Hr]]; [|by edestruct (wn_bindings _ Hwn) as (? & ? & _)].
      cbn. by edestruct (wn_bindings _ Hwn) as (? & ? & _).
    - apply lookup_insert_Some in Hr as [[[= <- <-] <-]|[Hne Hr]]; [done|by edestruct (wn_bindings _ Hwn) as (? & ? & _)]. }
  split_and!; [done..|].
  assert (contentAt (upserted b db) org id = Some (contentOf (loadInboundBindingPortSegments (upserted b db) r))) as Hc
    by by unfold contentAt, bindingAt; rewrite Hr.
  change (named (bind_OrganizationID r) (bind_ID r) (contentOf (loadInboundBindingPortSegments (upserted b db) r))).
  rewrite Ho, Hi. destruct (decide ((bind_OrganizationID b, bind_ID b) = (org, id))) as [[= <- <-]|Hne].
  - rewrite Hsame in Hc. apply (inj Some) in Hc. rewrite <-Hc. exact Hb.
  - rewrite Hother in Hc by done. unfold contentAt, bindingAt in Hc.
    destruct (t_inbound_bindings (db_rules db) !! (org, id)) as [r'|] eqn:E; [|done].
    destruct (wn_bindings _ Hwn _ _ _ E) as (Ho' & Hi' & Hn). cbn [fmap option_fmap option_map] in Hc.
    apply (inj Some) in Hc. rewrite <-Hc, <-Ho', <-Hi'. exact Hn.
Qed.

(** *** Writing a rule *)

Lemma contentAt_bound db org id : is_Some (t_inbound_bindings (db_rules db) !! (org, id)) → is_Some (contentAt db org id).
Proof. unfold contentAt, bindingAt. intros [b ->]. by eexists. Qed.

Lemma pls_insert db db' id row org p :
  well_named db → rrec_ID row = id →
  t_forwarding_rules (db_rules db') = <[id := row]> (t_forwarding_rules (db_rules db)) →
  (∀ org id c, contentAt db org id = Some c → contentAt db' org id = Some c) →
  p ∈ pls org db' ↔
  (rrec_OrganizationID row = org ∧ rrec_DeletedAt row = "" ∧ isEnabledRule row = true ∧
   ∃ c, contentAt db' org (rrec_InboundBindingID row) = Some c ∧ p = placed row c) ∨
  (p ∈ pls org db ∧ pl_ID p ≠ id).
Proof.
  intros Hwn Hid Hrules Hc. rewrite !elem_of_pls. unfold live. setoid_rewrite findRow_some. cbn [tbl_rows rulesTable].
  rewrite Hrules. split.
  - intros (k & r & c & ([[<- <-]|[Hne Hr]]%lookup_insert_Some & Ho & Hd) & He & Hat & ->).
    + left. split_and!; [done..|]. by exists c.
    + right. pose proof (wn_rules _ Hwn _ _ Hr) as Hk. split; [|cbn; congruence].
      destruct (contentAt_bound db org (rrec_InboundBindingID r)) as [c' Hc'].
      { rewrite <-Ho. by eapply wn_bound. }
      exists k, r, c'. split_and!; [done..|]. apply Hc in Hc'. congruence.
  - intros [(Ho & Hd & He & c & Hat & ->)|[(k & r & c & (Hr & Ho & Hd) & He & Hat & ->) Hne]].
    + exists id, row, c. rewrite lookup_insert_eq. done.
    + pose proof (wn_rules _ Hwn _ _ Hr) as Hk. exists k, r, c. split_and!; [|done..|by apply Hc|done].
      rewrite lookup_insert_ne; [done|]. cbn in Hne. congruence.
Qed.

Definition same_bindings (db db' : database) : Prop :=
  t_inbound_bindings (db_rules db') = t_inbound_bindings (db_rules db) ∧
  t_binding_port_segments (db_rules db') = t_binding_port_segments (db_rules db).

Lemma contentAt_same db db' org id : same_bindings db db' → contentAt db' org id = contentAt db org id.
Proof. intros [E1 E2]. unfold contentAt, bindingAt, loadInboundBindingPortSegments. by rewrite E1, E2. Qed.

Lemma well_named_insert db db' id row :
  well_named db → rrec_ID row = id → id ≠ "" → same_bindings db db' → db_nodes db' = db_nodes db →
  t_forwarding_rules (db_rules db') = <[id := row]> (t_forwarding_rules (db_rules db)) →
  is_Some (t_inbound_bindings (db_rules db) !! (rrec_OrganizationID row, rrec_InboundBindingID row)) →
  well_named db'.
Proof.
  intros Hwn Hid Hne [Hb Hs] Hn Hr Hrow. split.
  - rewrite Hn. apply Hwn.
  - rewrite Hn. apply Hwn.
  - rewrite Hn. apply Hwn.
  - intros k r. rewrite Hr. intros [[<- <-]|[_ Hk]]%lookup_insert_Some; [done|by eapply wn_rules].
  - rewrite Hr, lookup_insert_ne by done. apply Hwn.
  - intros k r. rewrite Hr, Hb. intros [[<- <-]|[_ Hk]]%lookup_insert_Some; [done|by eapply wn_bound].
  - intros org k b. rewrite Hb. intros Hk. destruct (wn_bindings _ Hwn _ _ _ Hk) as (? & ? & ?). split_and!; [done..|].
    unfold loadInboundBindingPortSegments. by rewrite Hs.
Qed.

(** The effect of writing a rule [row] with binding [b] on a database. *)
Record writes_rule (row : RuleRecord) (b : InboundBindingRecord) (db db' : database) : Prop := {
  wr_named : well_named db';
  wr_nodes : db_nodes db' = db_nodes db;
  wr_targets : db_targets db' = db_targets db;
  wr_pls org p : p ∈ pls org db' ↔
    (rrec_OrganizationID row = org ∧ rrec_DeletedAt row = "" ∧ isEnabledRule row = true ∧ p = placed row (contentOf b))
    ∨ (p ∈ pls org db ∧ pl_ID p ≠ rrec_ID row) }.

Lemma write_rule row b db db' :
  well_named db → well_named_binding b → rrec_ID row ≠ "" →
  rrec_OrganizationID row = bind_OrganizationID b → rrec_InboundBindingID row = bind_ID b →
  same_bindings (upserted b db) db' → db_nodes db' = db_nodes db → db_targets db' = db_targets db →
  t_forwarding_rules (db_rules db') = <[rrec_ID row := row]> (t_forwarding_rules (db_rules db)) →
  writes_rule row b db db'.
Proof.
  intros Hwn Hb Hid Ho Hi Hsame Hnodes Htargets Hrules.
  destruct (upserted_contentAt b db Hwn Hb) as (Hat & Hother & Hold).
  pose proof (upserted_well_named b db Hwn Hb) as Hwn1.
  split; [|done..|].
  - eapply (well_named_insert (upserted b db)); [done..|].
    rewrite Ho, Hi. cbn. destruct (t_inbound_bindings _ !! _); rewrite lookup_insert_eq; by eexists.
  - intros org p. rewrite (pls_insert db db' (rrec_ID row) row); [|done..|].
    + setoid_rewrite (contentAt_same (upserted b db)); [|done]. split; (intros [Hl|Hr]; [left|by right]).
      * destruct Hl as (Hro & Hd & He & c & Hc & ->). split_and!; [done..|].
        rewrite <-Hro, Ho, Hi, Hat in Hc. by apply (inj Some) in Hc as <-.
      * destruct Hl as (Hro & Hd & He & ->). split_and!; [done..|]. exists (contentOf b). by rewrite <-Hro, Ho, Hi.
    + intros o k c Hc. rewrite (contentAt_same (upserted b db)) by done.
      destruct (decide ((bind_OrganizationID b, bind_ID b) = (o, k))) as [[= <- <-]|Hne]; [|by rewrite Hother].
      by rewrite Hat, (Hold c).
Qed.

(** ** Statements *)

Lemma insertRow_ok {A} (T : table A) E id row db u db' :
  insertRow T E id row db = Ok (u, db') →
  tbl_rows T db !! id = None ∧ db' = tbl_with T <[id := row]> db.
Proof.
  unfold insertRow. intros Hi. tx_inv. apply exec_ok in Hi as ->. split; [|done]. by destruct (tbl_rows T db !! id).
Qed.
Lemma updateRow_ok {A} (T : table A) E org id f db u db' :
  updateRow T E org id f db = Ok (u, db') →
  ∃ row, live T org id db = Some row ∧ db' = tbl_with T <[id := f row]> db.
Proof.
  unfold updateRow. intros Hu. tx_inv. destruct (live T org id db) as [row|] eqn:E1; [|done].
  apply exec_ok in Hu as ->. by exists row.
Qed.
Lemma updateRowIfAny_ok {A} (T : table A) E org id f db u db' :
  updateRowIfAny T E org id f db = Ok (u, db') →
  db' = db ∨ ∃ row, live T org id db = Some row ∧ db' = tbl_with T <[id := f row]> db.
Proof.
  unfold updateRowIfAny. intros Hu. tx_inv. destruct (live T org id db) as [row|] eqn:E1.
  - apply exec_ok in Hu as ->. right. by exists row.
  - tx_inv. by left.
Qed.

Lemma CreateRule_writes E rule b tags db u db' :
  well_named db → well_named_binding b → rrec_ID rule ≠ "" → bind_OrganizationID b = rrec_OrganizationID rule →
  CreateRule E rule b tags db = Ok (u, db') →
  writes_rule (insertedRule rule b) b db db' ∧ (∀ org p, p ∈ pls org db → pl_ID p ≠ rrec_ID rule).
Proof.
  intros Hwn Hb Hid Ho HC. unfold CreateRule in HC. tx_inv.
  apply upsertInboundBinding_ok in E0 as ->. apply insertRow_ok in E1 as [Hnew ->]. apply exec_ok in HC as ->.
  split.
  - by apply write_rule.
  - intros org p (id & r & c & (Hr & _)%findRow_some & _ & _ & ->)%elem_of_pls E0.
    pose proof (wn_rules _ Hwn _ _ Hr) as Hk. cbn in E0. rewrite <-E0, Hk in Hnew.
    change (tbl_rows rulesTable (upserted b db)) with (tbl_rows rulesTable db) in Hnew. congruence.
Qed.

Lemma UpdateRule_writes E rule b tags db u db' :
  well_named db → well_named_binding b → bind_OrganizationID b = rrec_OrganizationID rule →
  UpdateRule E rule b tags db = Ok (u, db') →
  ∃ row, live rulesTable (rrec_OrganizationID rule) (rrec_ID rule) db = Some row ∧
    writes_rule (updatedRule rule b row) b db db'.
Proof.
  intros Hwn Hb Ho HU. unfold UpdateRule in HU. tx_inv.
  apply upsertInboundBinding_ok in E0 as ->. apply updateRow_ok in E1 as (row & Hlive & ->). apply exec_ok in HU as ->.
  exists row. split; [exact Hlive|]. apply findRow_some in Hlive as (Hr & Hro & Hd).
  pose proof (wn_rules _ Hwn _ _ Hr) as Hk. apply write_rule; try done.
  - cbn. rewrite Hk. intros E0. rewrite E0 in Hr. cbn in Hr. by rewrite (wn_anonymous _ Hwn) in Hr.
  - rewrite Ho. exact Hro.
  - cbn. by rewrite Hk.
Qed.

Lemma DeleteRule_effect E org id at_ db u db' :
  well_named db → DeleteRule E org id at_ db = Ok (u, db') →
  well_named db' ∧ db_nodes db' = db_nodes db ∧ db_targets db' = db_targets db ∧
  ∀ o p, p ∈ pls o db' ↔ p ∈ pls o db ∧ pl_ID p ≠ id.
Proof.
  intros Hwn HD. apply updateRow_ok in HD as (row & (Hr & Hro & Hd)%findRow_some & ->).
  pose proof (wn_rules _ Hwn _ _ Hr) as Hk. split_and!; [|done..|].
  - assert (id ≠ "") by (intros ->; cbn in Hr; by rewrite (wn_anonymous _ Hwn) in Hr).
    eapply (well_named_insert db _ id); [done| |done|by split|done|by reflexivity|]; [exact Hk|exact (wn_bound _ Hwn id row Hr)].
  - intros o p. erewrite (pls_insert db _ id); [|done|..].
    3: reflexivity. 2: exact Hk. 2: by intros ? ? ? Hc; exact Hc.
    split; [intros [(_ & _ & He & _)|?]; [discriminate He|done]|]. by right.
Qed.

(** Statements that leave layouts alone. *)
Record quiet (db db' : database) : Prop := {
  q_named : well_named db → well_named db';
  q_caps org : same_elements (caps org db) (caps org db');
  q_pls org : same_elements (pls org db) (pls org db') }.

#[export] Instance quiet_preorder : PreOrder quiet.
Proof.
  split.
  - intros db. by split.
  - intros a b c [H1 H3 H4] [H1' H3' H4']. split; [auto|..].
    + intros org. by rewrite (H3 org).
    + intros org. by rewrite (H4 org).
Qed.

Lemma pls_same db db' org :
  t_forwarding_rules (db_rules db') = t_forwarding_rules (db_rules db) → same_bindings db db' →
  same_elements (pls org db) (pls org db').
Proof.
  intros Hr Hb p. rewrite !elem_of_pls. unfold live. cbn [tbl_rows rulesTable]. rewrite Hr.
  by setoid_rewrite (contentAt_same db db'); [|done].
Qed.

(** A table that layouts do not read. *)
Lemma quiet_same db db' :
  db_nodes db' = db_nodes db →
  t_forwarding_rules (db_rules db') = t_forwarding_rules (db_rules db) → same_bindings db db' → quiet db db'.
Proof.
  intros Hn Hr Hb. split.
  - intros Hwn. split; [rewrite Hn; apply Hwn..|rewrite Hr; apply Hwn|rewrite Hr; apply Hwn|rewrite Hr, (proj1 Hb); apply Hwn|].
    intros org id b. rewrite (proj1 Hb). intros Hk. destruct (wn_bindings _ Hwn _ _ _ Hk) as (? & ? & ?).
    split_and!; [done..|]. unfold loadInboundBindingPortSegments. by rewrite (proj2 Hb).
  - intros org c. rewrite !elem_of_caps. unfold live, loadNodeDetails, listNodeGroupIDs, listNodeListenIPs,
      listNodeSendIPs, listNodePortRanges, ListNodeDNSPublishAddresses, live. cbn [tbl_rows nodesTable nodeGroupsTable].
    by rewrite Hn.
  - intros org. by apply pls_same.
Qed.

(** The capacity that the tables give a node. *)
Definition capacityAt (db : database) (organizationID nodeID : string) (maxRulePorts : Z) : capacity := {|
  cap_ID := nodeID; cap_Groups := list_to_set (listNodeGroupIDs organizationID nodeID db);
  cap_ListenIPs := list_to_set (map nlip_ListenIP (List.filter nlip_Enabled (listNodeListenIPs organizationID nodeID db)));
  cap_SendIPs := list_to_set (map nsip_SendIP (List.filter nsip_Enabled (listNodeSendIPs organizationID nodeID db)));
  cap_Ranges := list_to_set (map (λ r, (nrange_Protocol r, nrange_StartPort r, nrange_EndPort r))
                               (List.filter nrange_Enabled (listNodePortRanges organizationID nodeID db)));
  cap_MaxRulePorts := maxRulePorts |}.
Lemma capacity_loaded db n :
  capacity_of (loadNodeDetails db n)
  = capacityAt db (node_OrganizationID n) (node_ID n) (defaultMaxRulePorts (node_MaxRulePorts n)).
Proof. reflexivity. Qed.

(** Rows of nodes that change in columns no layout reads. *)
Lemma quiet_nodes (f : gmap string NodeRecord → gmap string NodeRecord) (upd : string → NodeRecord → NodeRecord) db :
  (∀ id, f (t_nodes (db_nodes db)) !! id = upd id <$> t_nodes (db_nodes db) !! id) →
  (∀ id n, node_ID (upd id n) = node_ID n ∧ node_OrganizationID (upd id n) = node_OrganizationID n ∧
    node_DeletedAt (upd id n) = node_DeletedAt n ∧
    defaultMaxRulePorts (node_MaxRulePorts (upd id n)) = defaultMaxRulePorts (node_MaxRulePorts n)) →
  quiet db (tbl_with nodesTable f db).
Proof.
  intros Hf Hu. split.
  - intros Hwn. split; [|apply Hwn..]. intros id n. cbn. rewrite Hf. intros (m & Hm & ->)%fmap_Some.
    rewrite (proj1 (Hu id m)). by apply (wn_nodes _ Hwn).
  - intros org c. rewrite !elem_of_caps. unfold live. setoid_rewrite findRow_some. cbn [tbl_rows nodesTable tbl_with].
    assert (∀ id n, capacity_of (loadNodeDetails (tbl_with nodesTable f db) (upd id n)) = capacity_of (loadNodeDetails db n)) as Hcap.
    { intros id n. destruct (Hu id n) as (E1 & E2 & _ & E4). by rewrite !capacity_loaded, E1, E2, E4. }
    split.
    + intros (id & n & (Hn & Ho & Hd) & ->). exists id, (upd id n). destruct (Hu id n) as (E1 & E2 & E3 & _).
      cbn. rewrite Hf, Hn. split_and!; [done|by rewrite E2|by rewrite E3|]. symmetry. apply Hcap.
    + intros (id & n & (Hn & Ho & Hd) & ->). cbn in Hn. rewrite Hf in Hn. apply fmap_Some in Hn as (m & Hm & ->).
      exists id, m. destruct (Hu id m) as (E1 & E2 & E3 & _). cbn in Ho, Hd. rewrite E2 in Ho. rewrite E3 in Hd.
      split_and!; [done..|]. apply Hcap.
  - intros org. by apply pls_same.
Qed.

Lemma keeps_exec {S} (R : S → S → Prop) refuse f : (∀ s, R s (f s)) → keeps R (exec refuse f).
Proof. by intros Hf s u s' ->%exec_ok. Qed.

(** An update of one node row in columns no layout reads. *)
Definition same_offer (f : NodeRecord → NodeRecord) : Prop := ∀ n,
  node_ID (f n) = node_ID n ∧ node_OrganizationID (f n) = node_OrganizationID n ∧
  node_DeletedAt (f n) = node_DeletedAt n ∧
  defaultMaxRulePorts (node_MaxRulePorts (f n)) = defaultMaxRulePorts (node_MaxRulePorts n).

Lemma quiet_node_row f id row db :
  same_offer f → live nodesTable (node_OrganizationID row) id db = Some row → quiet db (tbl_with nodesTable <[id := f row]> db).
Proof.
  intros Hf (Hr & _)%findRow_some. apply (quiet_nodes _ (λ k n, if decide (k = id) then f n else n)).
  - intros k. destruct (decide (k = id)) as [->|Hne].
    + rewrite lookup_insert_eq. cbn in Hr. by rewrite Hr.
    + rewrite lookup_insert_ne by done. by destruct (_ !! k).
  - intros k n. destruct (decide _); [apply Hf|done].
Qed.
Lemma quiet_updateRow E org id f : same_offer f → keeps quiet (updateRow nodesTable E org id f).
Proof.
  intros Hf db u db' (row & Hl & ->)%updateRow_ok. apply quiet_node_row; [done|].
  pose proof (live_owner _ _ _ _ _ Hl) as Ho. cbn in Ho. by rewrite Ho.
Qed.
Lemma quiet_updateRowIfAny E org id f : same_offer f → keeps quiet (updateRowIfAny nodesTable E org id f).
Proof.
  intros Hf db u db' [->|(row & Hl & ->)]%updateRowIfAny_ok; [done|]. apply quiet_node_row; [done|].
  pose proof (live_owner _ _ _ _ _ Hl) as Ho. cbn in Ho. by rewrite Ho.
Qed.

Lemma same_offer_if (c : NodeRecord → bool) f g :
  same_offer f → same_offer g → same_offer (λ n, if c n then f n else g n).
Proof. intros Hf Hg n. destruct (c n); [apply Hf|apply Hg]. Qed.
Lemma same_offer_bumped now : same_offer (bumpedNode now).
Proof. by intros n. Qed.

Lemma quiet_audit E audit : keeps quiet (CreateAuditLog E audit).
Proof. apply keeps_exec. intros db. by apply quiet_same. Qed.
Lemma quiet_incrementNode E org id now : keeps quiet (IncrementDesiredConfigForNode E org id now).
Proof. apply quiet_updateRow, same_offer_bumped. Qed.
Lemma quiet_incrementGroup E org group now : keeps quiet (IncrementDesiredConfigForNodeGroup E org group now).
Proof.
  apply keeps_exec. intros db. apply (quiet_nodes _ (λ _ n, if String.eqb (node_OrganizationID n) org
    && String.eqb (node_DeletedAt n) "" && isMember org group (node_ID n) db then bumpedNode now n else n)).
  - intros id. apply lookup_fmap.
  - intros _ n. by destruct (_ && _).
Qed.
Lemma quiet_ensureDesired E org id version now : keeps quiet (EnsureDesiredConfigVersionAtLeast E org id version now).
Proof. apply quiet_updateRowIfAny, same_offer_if; by intros n. Qed.
Lemma quiet_configAck {TT : TimestampColumn} E org id ack now : keeps quiet (RecordNodeConfigAck E org id ack now).
Proof. apply quiet_updateRowIfAny, same_offer_if; [|by intros n]. destruct (String.eqb _ _); by intros n. Qed.

(** Tags and deployments. *)
Lemma quiet_deployments f db : quiet db (with_deployments f db).
Proof. by apply quiet_same. Qed.
Lemma quiet_upsertDeployment E keep row : keeps quiet (upsertDeployment E keep row).
Proof. apply keeps_exec. intros db. apply quiet_deployments. Qed.
Lemma quiet_deleteDeployments E org rule : keeps quiet (DeleteRuleDeployments E org rule).
Proof. apply keeps_exec. intros db. apply quiet_deployments. Qed.
Lemma quiet_deleteDeployment E org rule node : keeps quiet (DeleteRuleDeploymentForNode E org rule node).
Proof. apply keeps_exec. intros db. apply quiet_deployments. Qed.
Lemma quiet_insertPending E org rule now deployments : ∀ seen i, keeps quiet (insertPending E org rule now seen i deployments).
Proof.
  induction deployments as [|d l IH]; intros seen i; cbn; [apply keeps_ret, _|]. destruct (_ || _); [apply IH|].
  apply keeps_bind; [apply _|apply keeps_exec; intros db; apply quiet_deployments|intros _; apply IH].
Qed.
Lemma quiet_replacePending E org rule deployments now : keeps quiet (ReplaceRuleDeploymentPending E org rule deployments now).
Proof. apply keeps_bind; [apply _|apply quiet_deleteDeployments|intros _; apply quiet_insertPending]. Qed.
Lemma quiet_upsertPending E org rule deployment now : keeps quiet (UpsertRuleDeploymentPending E org rule deployment now).
Proof. unfold UpsertRuleDeploymentPending. destruct (String.eqb _ _); [apply keeps_ret, _|apply quiet_upsertDeployment]. Qed.
Lemma quiet_applied E org node version deployments now : keeps quiet (RecordRuleDeploymentApplied E org node version deployments now).
Proof.
  unfold RecordRuleDeploymentApplied. generalize (∅ : gset string) as seen.
  induction deployments as [|d l IH]; intros seen; cbn; [apply keeps_ret, _|]. destruct (_ || _); [apply IH|].
  apply keeps_bind; [apply _|apply quiet_upsertDeployment|intros _; apply IH].
Qed.
Lemma quiet_failures E org node version failures now : keeps quiet (RecordRuleDeploymentFailures E org node version failures now).
Proof.
  apply keeps_each; [apply _|]. intros d. unfold recordFailure.
  destruct (String.eqb _ _); [apply keeps_ret, _|apply quiet_upsertDeployment].
Qed.
End views.

#[export] Hint Resolve quiet_audit quiet_incrementNode quiet_incrementGroup quiet_ensureDesired quiet_configAck
  quiet_upsertDeployment quiet_deleteDeployments quiet_deleteDeployment quiet_replacePending quiet_upsertPending
  quiet_applied quiet_failures : keeps.
