(* ===== verification/DnsWalk.v ===== *)
(** * The walk along references of DNS policies (control_dns_policy_runtime.go)

    The instances that use the output of an instance, directly or through
    others, are found by a walk of bounded depth that skips what it has seen.
    The depth and the skipping, shared by all starts, lose nothing: every
    record that gets its output from a start over at most eight references is
    found. *)

From S2P Require Import Prelude GoString GoFloat GoJson GoSort GoNet Domain ServiceErrors Records ValidatorBase NodeCoverage Transaction Database RuleStore DnsStore DnsMarking DnsEvaluation Layout StoreLayout.
From coqutil Require Import Datatypes.RecordSetters.
Import TriangleBracketNotations.
#[local] Open Scope Z_scope.

(** ** What the walk along references collects *)

Section walk.
Context `{UnicodeTables}.
Context (instances : list DNSInstanceRecord).

(** The walk visits an instance with some fuel left; [visited] remembers how
    much.  Its domain is [seen]. *)
Implicit Types (visited : gmap string nat) (affected seen : gset string).

(** The instances that use the output of [id] are collected, and visited with
    one turn less. *)
Definition followed visited affected (id : string) (n : nat) : Prop :=
  ∀ c, c ∈ instances → usesInstance id c = true →
    inst_ManagedRecordID c ∈ affected ∧ (n = 1%nat ∨ ∃ m, visited !! inst_ID c = Some m ∧ (n - 1 ≤ m)%nat).
(** An instance was visited from the outside, or after the one that it uses. *)
Definition rooted visited (id : string) : Prop :=
  visited !! id = Some 9%nat ∨ ∃ c p, c ∈ instances ∧ inst_ID c = id ∧ usesInstance p c = true ∧ is_Some (visited !! p).

Lemma uses_unique p q c : usesInstance p c = true → usesInstance q c = true → p = q.
Proof.
  unfold usesInstance. destruct (inst_ActionJSON c) as [a|]; [|done].
  intros [_ E1%String.eqb_eq]%andb_true_iff [_ E2%String.eqb_eq]%andb_true_iff. congruence.
Qed.
Lemma followed_mono v v' a a' id n : v ⊆ v' → a ⊆ a' → followed v a id n → followed v' a' id n.
Proof.
  intros Hv Ha Hf c Hc Hu. destruct (Hf c Hc Hu) as [Hr Hn]. split; [by apply Ha|].
  destruct Hn as [->|(m & Hm & Hle)]; [by left|right]. exists m. split; [by eapply lookup_weaken|done].
Qed.
Lemma rooted_mono v v' id : v ⊆ v' → rooted v id → rooted v' id.
Proof.
  intros Hv [E|(c & p & Hc & Hi & Hu & [n Hn])]; [left; by eapply lookup_weaken|right].
  exists c, p. split_and!; [done..|]. exists n. by eapply lookup_weaken.
Qed.

(** One walk from [id] with [fuel] turns left. *)
Record walked (fuel : nat) (id : string) visited (result : gset string * gset string) visited' : Prop := {
  wk_grows : visited ⊆ visited';
  wk_seen : result.2 = dom visited';
  wk_start : fuel ≠ O → is_Some (visited' !! id) ∧ (visited !! id = None → visited' !! id = Some fuel);
  wk_new x n : visited' !! x = Some n → visited !! x = None →
    followed visited' result.1 x n ∧
    (x = id ∨ ∃ c p, c ∈ instances ∧ inst_ID c = x ∧ usesInstance p c = true ∧ is_Some (visited' !! p) ∧ visited !! p = None) }.

Context (unique : ∀ c d, c ∈ instances → d ∈ instances → inst_ID c = inst_ID d → c = d).

(** The loop over the instances that use [id]. *)
Record loop_inv (fuel : nat) (id : string) (done_ : list DNSInstanceRecord) visited0 (result : gset string * gset string) visited : Prop := {
  li_grows : visited0 ⊆ visited;
  li_seen : result.2 = dom visited;
  li_fresh : visited0 !! id = None;
  li_start : visited !! id = Some (S fuel);
  li_done c : c ∈ done_ → usesInstance id c = true →
    inst_ManagedRecordID c ∈ result.1 ∧ (fuel = O ∨ ∃ m, visited !! inst_ID c = Some m ∧ (fuel ≤ m)%nat);
  li_met c : c ∈ instances → usesInstance id c = true → is_Some (visited !! inst_ID c) →
    ∃ m, visited !! inst_ID c = Some m ∧ (fuel ≤ m)%nat;
  li_new x n : visited !! x = Some n → visited0 !! x = None → x ≠ id →
    followed visited result.1 x n ∧
    ∃ c p, c ∈ instances ∧ inst_ID c = x ∧ usesInstance p c = true ∧ is_Some (visited !! p) ∧ visited0 !! p = None }.

Definition visit (fuel : nat) (id : string) : gset string * gset string → DNSInstanceRecord → gset string * gset string :=
  λ '(affected, seen) candidate,
  if negb (usesInstance id candidate) then (affected, seen)
  else
    let '(childAffected, seen) := collectReferencing instances fuel (inst_ID candidate) seen in
    ({[inst_ManagedRecordID candidate]} ∪ affected ∪ childAffected, seen).

Definition all_rooted visited : Prop := ∀ x, is_Some (visited !! x) → rooted visited x.
Definition entered (fuel : nat) (id : string) visited : Prop :=
  fuel = 9%nat ∨ ∃ c p, c ∈ instances ∧ inst_ID c = id ∧ usesInstance p c = true ∧ is_Some (visited !! p).
Definition walks (fuel : nat) : Prop := ∀ id visited,
  all_rooted visited → entered fuel id visited →
  ∃ visited', walked fuel id visited (collectReferencing instances fuel id (dom visited)) visited'.

Lemma loop_rooted fuel id l visited0 result visited :
  loop_inv fuel id l visited0 result visited → all_rooted visited0 → entered (S fuel) id visited0 → all_rooted visited.
Proof.
  intros Hi H0 He x [n Hn]. destruct (visited0 !! x) as [m|] eqn:Ex.
  { eapply rooted_mono; [apply Hi|]. apply H0. by exists m. }
  destruct (decide (x = id)) as [->|Hne].
  - destruct He as [E9|(c & p & Hc & Hx & Hu & [k Hk])].
    + left. rewrite <-E9. apply Hi.
    + right. exists c, p. split_and!; [done..|]. exists k. eapply lookup_weaken; [exact Hk|apply Hi].
  - right. destruct (li_new _ _ _ _ _ _ Hi x n Hn Ex Hne) as (_ & c & p & Hc & Hx & Hu & Hp & _). by exists c, p.
Qed.

(** One turn of the loop. *)
Lemma visit_inv fuel id l c visited0 result visited :
  walks fuel → all_rooted visited0 → entered (S fuel) id visited0 → c ∈ instances →
  loop_inv fuel id l visited0 result visited →
  ∃ visited', loop_inv fuel id (l ++ [c]) visited0 (visit fuel id result c) visited'.
Proof.
  intros IH H0 He Hc Hi. destruct result as [affected seen]. unfold visit. destruct (usesInstance id c) eqn:Hu; cbn [negb].
  2:{ exists visited. destruct Hi as [H1 H2 Hfr H3 H4 H5 H6]. split; try done. intros d [Hd| ->%list_elem_of_singleton]%elem_of_app Hud; [by apply H4|].
      congruence. }
  pose proof (li_seen _ _ _ _ _ _ Hi) as Es. cbn [snd] in Es. subst seen.
  destruct (IH (inst_ID c) visited) as (v' & Hw); [by eapply loop_rooted|right; exists c, id; split_and!; try done; eexists; apply Hi|].
  destruct (collectReferencing instances fuel (inst_ID c) (dom visited)) as [child seen'] eqn:Ec. exists v'.
  destruct Hw as [Hg Hsn Hst Hnew], Hi as [H1 H2 Hfr H3 H4 H5 H6]. cbn [fst snd] in *.
  assert (∀ d, d ∈ instances → usesInstance id d = true → is_Some (v' !! inst_ID d) → ∃ m, v' !! inst_ID d = Some m ∧ (fuel ≤ m)%nat) as Hmet.
  { intros d Hd Hud [n Hn]. destruct (visited !! inst_ID d) as [m|] eqn:Em.
    - destruct (H5 d Hd Hud) as (m' & Em' & Hle); [by exists m|]. exists m'. split; [by eapply lookup_weaken|done].
    - destruct (Hnew _ _ Hn Em) as [_ [E|(c' & p & Hc' & Ei & Hu' & Hp & Hp0)]].
      + destruct (decide (fuel = 0%nat)) as [->|Hf]; [exists n; split; [done|lia]|]. exists fuel. split; [|lia].
        rewrite E. apply Hst; [done|]. by rewrite <-E.
      + rewrite (unique c' d Hc' Hd Ei) in Hu'. rewrite (uses_unique _ _ _ Hu' Hud), H3 in Hp0. done. }
  split; cbn [fst snd].
  - by etrans.
  - done.
  - exact Hfr.
  - by eapply lookup_weaken.
  - intros d [Hd| ->%list_elem_of_singleton]%elem_of_app Hud.
    + destruct (H4 d Hd Hud) as [Hr Hm]. split; [set_solver|]. destruct Hm as [?|(m & Hm & Hle)]; [by left|right].
      exists m. split; [by eapply lookup_weaken|done].
    + split; [set_solver|]. destruct (decide (fuel = 0%nat)) as [?|Hf]; [by left|right]. apply Hmet; [done..|]. by apply Hst.
  - exact Hmet.
  - intros x n Hn Hx Hne. destruct (visited !! x) as [m|] eqn:Em.
    + rewrite (lookup_weaken _ _ _ _ Em Hg) in Hn. apply (inj Some) in Hn as ->. destruct (H6 x n Em Hx Hne) as (Hf & d & p & Hd & Ed & Hud & [k Hp] & Hp0).
      split; [eapply followed_mono, Hf; [done|set_solver]|]. exists d, p. split_and!; [done..| |done]. exists k. by eapply lookup_weaken.
    + destruct (Hnew x n Hn Em) as [Hf Hor]. split; [eapply followed_mono, Hf; [done|set_solver]|].
      destruct Hor as [->|(d & p & Hd & Ed & Hud & Hp & Hp0)].
      * exists c, id. split_and!; [done..| |]; [by eexists; eapply lookup_weaken|].
        exact Hfr.
      * exists d, p. split_and!; [done..|]. by eapply lookup_weaken_None.
Qed.
Lemma visits_inv fuel id visited0 todo l result visited :
  walks fuel → all_rooted visited0 → entered (S fuel) id visited0 → instances = l ++ todo →
  loop_inv fuel id l visited0 result visited →
  ∃ visited', loop_inv fuel id instances visited0 (foldl (visit fuel id) result todo) visited'.
Proof.
  intros IH H0 He. revert l result visited. induction todo as [|c todo IHt]; intros l result visited El Hi; cbn.
  - exists visited. by rewrite El, app_nil_r.
  - destruct (visit_inv fuel id l c visited0 result visited) as (v' & Hi'); [done..| |done|].
    { rewrite El. apply elem_of_app. right. left. }
    apply (IHt (l ++ [c]) _ v'); [by rewrite <-app_assoc|done].
Qed.
Lemma collect_walks fuel : (fuel ≤ 9)%nat → walks fuel.
Proof.
  induction fuel as [|fuel IH]; intros Hle id visited H0 He.
  { exists visited. split; cbn; try done. congruence. }
  cbn [collectReferencing]. case_bool_decide as Hin.
  { exists visited. apply elem_of_dom in Hin as [n Hn]. split; cbn; [done|done| |congruence].
    intros _. split; [by exists n|congruence]. }
  apply not_elem_of_dom in Hin.
  destruct (visits_inv fuel id visited instances [] (∅, {[id]} ∪ dom visited) (<[id := S fuel]> visited)) as (v' & Hi);
    [apply IH; lia|done..| |].
  - split; cbn [fst snd].
    + by apply insert_subseteq.
    + by rewrite dom_insert_L.
    + exact Hin.
    + apply lookup_insert_eq.
    + by intros c ?%not_elem_of_nil.
    + intros c Hc Hu [m Hm]. destruct (decide (inst_ID c = id)) as [->|Hne].
      { exists (S fuel). split; [apply lookup_insert_eq|lia]. }
      rewrite lookup_insert_ne in * by done. exists m. split; [done|]. destruct (H0 (inst_ID c)) as [E|(d & p & Hd & Ed & Hu' & [k Hp])]; [by exists m| |].
      * rewrite Hm in E. apply (inj Some) in E. lia.
      * rewrite (unique d c Hd Hc Ed) in Hu'. by rewrite (uses_unique _ _ _ Hu' Hu), Hin in Hp.
    + intros x n. destruct (decide (x = id)) as [->|Hne]; [done|]. rewrite lookup_insert_ne by done. congruence.
  - exists v'. change (walked (S fuel) id visited (foldl (visit fuel id) (∅, {[id]} ∪ dom visited) instances) v').
    destruct Hi as [H1 H2 Hfr H3 H4 H5 H6]. split; [done|done|by split; [eexists|]|].
    intros x n Hn Hx. destruct (decide (x = id)) as [->|Hne].
    + split; [|by left]. rewrite H3 in Hn. apply (inj Some) in Hn as <-. intros c Hc Hu. destruct (H4 c Hc Hu) as [Hr Hm].
      split; [done|]. destruct Hm as [->|(m & Hm & Hle')]; [by left|right]. exists m. split; [done|lia].
    + destruct (H6 x n Hn Hx Hne) as [Hf Hp]. split; [done|by right].
Qed.
End walk.

(** *** Chains of references *)

Section chains.
Context `{UnicodeTables}.
Context (instances : list DNSInstanceRecord).
Context (unique : ∀ c d, c ∈ instances → d ∈ instances → inst_ID c = inst_ID d → c = d).

(** [i] gets its output from [x] over [k] references. *)
Inductive reaches : nat → DNSInstanceRecord → DNSInstanceRecord → Prop :=
  | reaches_refl i : i ∈ instances → reaches 0 i i
  | reaches_step k i t x : i ∈ instances → usesInstance (inst_ID t) i = true → reaches k t x → reaches (S k) i x.

Definition all_followed (visited : gmap string nat) (affected : gset string) : Prop :=
  ∀ x n, visited !! x = Some n → followed instances visited affected x n.

Lemma reached_collected visited affected k i x :
  all_followed visited affected → visited !! inst_ID x = Some 9%nat → reaches k i x → (k ≤ 8)%nat →
  (∃ m, visited !! inst_ID i = Some m ∧ (9 - k ≤ m)%nat) ∧ (k ≠ O → inst_ManagedRecordID i ∈ affected).
Proof.
  intros Hf Hx. induction 1 as [i _|k i t x Hi Hu Hr IH]; intros Hk; [split; [by exists 9%nat|done]|].
  destruct (IH Hx) as [(m & Hm & Hle) _]; [lia|]. destruct (Hf _ _ Hm i Hi Hu) as [Ha [->|(m' & Hm' & Hle')]]; [lia|].
  split; [|done]. exists m'. split; [done|lia].
Qed.

(** A start of the walk that uses no other instance was visited with all turns. *)
Lemma start_turns visited x :
  x ∈ instances → rooted instances visited (inst_ID x) → (∀ p, usesInstance p x = false) → visited !! inst_ID x = Some 9%nat.
Proof. intros Hx [?|(c & p & Hc & E & Hu & _)] Hno; [done|]. by rewrite (unique c x Hc Hx E), Hno in Hu. Qed.
End chains.

(** *** The walk over the records *)

Section records.
Context `{UnicodeTables}.

(** Identifiers are the keys of their rows, without space around. *)
Record dns_named (db : database) : Prop := {
  dn_instances id i : t_dns_instances (db_dns db) !! id = Some i → inst_ID i = id ∧ TrimSpace id = id;
  dn_records id r : t_dns_managed_records (db_dns db) !! id = Some r → drec_ID r = id ∧ TrimSpace id = id ∧ id ≠ "" }.

Lemma elem_of_dnsInstances org db i : dns_named db →
  i ∈ dnsInstances org db ↔ dnsInstance org (inst_ID i) db = Some i.
Proof.
  intros Hn. unfold dnsInstances, dnsInstance. rewrite elem_of_sort, elem_of_filterb, elem_of_lives. split.
  - intros [(id & Hl) Hr]. pose proof Hl as (Hk & _)%findRow_some. destruct (dn_instances _ Hn _ _ Hk) as [-> _].
    rewrite Hl. cbn. by rewrite Hr.
  - destruct (live dnsInstancesTable org (inst_ID i) db) as [j|] eqn:El; [|done]. cbn. destruct (isSome _) eqn:Er; [|done].
    intros [= ->]. split; [by eexists|done].
Qed.
Lemma dnsInstances_unique org db : dns_named db →
  ∀ c d, c ∈ dnsInstances org db → d ∈ dnsInstances org db → inst_ID c = inst_ID d → c = d.
Proof. intros Hn c d Hc%elem_of_dnsInstances Hd%elem_of_dnsInstances E; [|done..]. rewrite E in Hc. congruence. Qed.

Record collected (org : string) (db : database) (affected seen : gset string) (visited : gmap string nat) : Prop := {
  cl_seen : seen = dom visited;
  cl_rooted : all_rooted (dnsInstances org db) visited;
  cl_followed : all_followed (dnsInstances org db) visited affected }.

Lemma collect_start org db id affected seen visited :
  dns_named db → collected org db affected seen visited →
  let result := collectReferencing (dnsInstances org db) 9 id seen in
  ∃ visited', collected org db (affected ∪ result.1) result.2 visited' ∧ visited ⊆ visited' ∧ is_Some (visited' !! id).
Proof.
  intros Hn [-> Hr Hf] result. destruct (collect_walks (dnsInstances org db) (dnsInstances_unique _ _ Hn) 9 (le_n 9) id visited)
    as (v' & [Hg Hs Hst Hnew]); [done|by left|]. fold result in Hs, Hnew. exists v'. destruct Hst as [Hid H9]; [done|]. split; [|done].
  split; [done| |].
  - intros x [n Hx]. destruct (visited !! x) as [m|] eqn:Em; [eapply rooted_mono; [done|]; apply Hr; by exists m|].
    destruct (Hnew x n Hx Em) as [_ [->|(c & p & Hc & E & Hu & Hp & _)]]; [left; by apply H9|right; by exists c, p].
  - intros x n Hx. destruct (visited !! x) as [m|] eqn:Em.
    + rewrite (lookup_weaken _ _ _ _ Em Hg) in Hx. apply (inj Some) in Hx as ->. eapply followed_mono, Hf; [done|set_solver|done].
    + eapply followed_mono, Hnew; [done|set_solver|done..].
Qed.

Lemma collectForInstances_ok org rid l affected seen db result db' visited :
  dns_named db → collected org db affected seen visited →
  collectForInstances org rid l affected seen db = Ok (result, db') →
  db' = db ∧ ∃ visited', collected org db result.1 result.2 visited' ∧ visited ⊆ visited' ∧ affected ⊆ result.1 ∧
  ∀ i, i ∈ l → rid ∈ result.1 ∧ is_Some (visited' !! inst_ID i).
Proof.
  intros Hn. revert affected seen visited. induction l as [|i l IH]; intros affected seen visited Hc; cbn.
  { intros Hr. tx_inv. split; [done|]. exists visited. split; [done|]. split; [done|]. split; [done|]. by intros i ?%not_elem_of_nil. }
  intros Hr. apply bind_ok in Hr as ([ref seen'] & s & E & Hr). unfold collectDNSRecordsReferencingInstance, ListDNSInstancesByOrganization in E.
  tx_inv. rename select (collectReferencing _ _ _ _ = _) into E.
  destruct (collect_start org db (inst_ID i) ({[rid]} ∪ affected) seen visited Hn) as (v1 & Hc1 & Hg1 & Hi).
  { destruct Hc as [? ? Hf]. split; [done..|]. intros x n Hx. eapply followed_mono, Hf; [done|set_solver|done]. }
  rewrite E in Hc1. cbn [fst snd] in Hc1. destruct (IH _ _ _ Hc1 Hr) as (-> & v2 & Hc2 & Hg2 & Ha & Hl). split; [done|]. exists v2.
  split; [done|]. split; [by etrans|]. split; [set_solver|]. intros j [->|Hj]%elem_of_cons; [|by apply Hl].
  split; [set_solver|]. destruct Hi as [n Hn']. exists n. by eapply lookup_weaken.
Qed.
Lemma collectForRecords_ok org changed records affected seen db result db' visited :
  dns_named db → collected org db affected seen visited →
  collectForRecords org changed records affected seen db = Ok (result, db') →
  db' = db ∧ ∃ seen' visited', collected org db result seen' visited' ∧ visited ⊆ visited' ∧ affected ⊆ result ∧
  ∀ r i, r ∈ records → i ∈ dependingInstances changed r → drec_ID r ∈ result ∧ is_Some (visited' !! inst_ID i).
Proof.
  intros Hn. revert affected seen visited. induction records as [|r l IH]; intros affected seen visited Hc; cbn.
  { intros Hr. tx_inv. split; [done|]. exists seen, visited. split; [done|]. split; [done|]. split; [done|]. by intros r i ?%not_elem_of_nil. }
  intros Hr. apply bind_ok in Hr as ([a1 s1] & d1 & E & Hr). destruct (collectForInstances_ok _ _ _ _ _ _ _ _ _ Hn Hc E) as (-> & v1 & Hc1 & Hg1 & Ha1 & Hi1).
  cbn [fst snd] in *. destruct (IH _ _ _ Hc1 Hr) as (-> & s2 & v2 & Hc2 & Hg2 & Ha2 & Hi2). split; [done|]. exists s2, v2.
  split; [done|]. split; [by etrans|]. split; [set_solver|]. intros q i [->|Hq]%elem_of_cons Hi; [|by eapply Hi2].
  destruct (Hi1 i Hi) as [Hr1 [n Hn1]]. split; [set_solver|]. exists n. by eapply lookup_weaken.
Qed.

Lemma elem_of_recordInstances org db r i :
  i ∈ ListDNSInstancesByManagedRecord org (drec_ID r) db ↔ i ∈ dnsInstances org db ∧ inst_ManagedRecordID i = drec_ID r.
Proof. unfold ListDNSInstancesByManagedRecord. by rewrite elem_of_filterb, String.eqb_eq. Qed.
Lemma elem_of_dnsManagedRecords org db r :
  r ∈ dnsManagedRecords org db ↔ ∃ id, dnsManagedRecord org id db = Some r.
Proof.
  unfold dnsManagedRecords, dnsManagedRecord. rewrite list_elem_of_fmap. setoid_rewrite elem_of_sort. setoid_rewrite elem_of_lives. split.
  - intros (row & -> & id & Hl). exists id. by rewrite Hl.
  - intros (id & (row & Hl & ->)%fmap_Some). exists row. split; [done|by exists id].
Qed.
Lemma instance_record org db i : dns_named db → i ∈ dnsInstances org db →
  inst_DeletedAt i = "" ∧
  ∃ r, r ∈ dnsManagedRecords org db ∧ drec_ID r = inst_ManagedRecordID i ∧ i ∈ drec_Instances r.
Proof.
  intros Hn Hi. pose proof Hi as Hd. apply elem_of_dnsInstances in Hd; [|done]. unfold dnsInstance in Hd.
  destruct (live dnsInstancesTable _ _ _) as [j|] eqn:El; [|done]. cbn in Hd. destruct (live dnsRecordsTable _ _ _) as [row|] eqn:Er; [|done].
  apply (inj Some) in Hd as ->. split; [by apply findRow_some in El as (_ & _ & ?)|].
  pose proof Er as (Hrow & _)%findRow_some. destruct (dn_records _ Hn _ _ Hrow) as [Eid _].
  exists (loadDNSInstances org db row). split; [apply elem_of_dnsManagedRecords; eexists; unfold dnsManagedRecord; by rewrite Er|].
  split; [done|]. exact (proj2 (elem_of_recordInstances org db row i) (conj Hi (eq_sym Eid))).
Qed.

(** What marking finds: every record that gets its output from an instance
    that depends on the groups. *)
Lemma collected_reached org changed db affected db' :
  dns_named db → collectForRecords org changed (dnsManagedRecords org db) ∅ ∅ db = Ok (affected, db') →
  db' = db ∧
  ∀ k i x, reaches (dnsInstances org db) k i x → (k ≤ 8)%nat →
    inst_Enabled x = true → dnsInstanceDependsOnNodeGroups x changed = true →
    (k = O ∨ ∀ p, usesInstance p x = false) → inst_ManagedRecordID i ∈ affected.
Proof.
  intros Hn Hc. destruct (collectForRecords_ok org changed (dnsManagedRecords org db) ∅ ∅ db affected db' ∅ Hn)
    as (-> & s & v & [_ Hr Hf] & _ & _ & Hall); [|done|].
  { split; [by rewrite dom_empty_L|intros x [n Hx]; by rewrite lookup_empty in Hx|intros x n Hx; by rewrite lookup_empty in Hx]. }
  split; [done|]. intros k i x Hreach Hk He Hd Hx.
  assert (x ∈ dnsInstances org db) as Hxin by (clear -Hreach; induction Hreach; done).
  destruct (instance_record org db x Hn Hxin) as (Hdel & r & Hr' & Er & Hxr).
  destruct (Hall r x Hr') as [Ha Hv].
  { unfold dependingInstances. apply elem_of_filterb. split; [done|]. by rewrite He, Hdel, Hd. }
  inversion Hreach as [? ? E1 E2|k' ? t ? Hi Hu Hreach' E1 E2]; subst; [by rewrite <-Er|].
  destruct Hx as [?|Hx]; [done|].
  eapply (reached_collected (dnsInstances org db) v affected (S k') i x); [done| |done..].
  eapply start_turns; [by apply dnsInstances_unique|done|by apply Hr|done].
Qed.
End records.
