(* ===== verification/DnsFreshness.v ===== *)
(** * DNS policies follow the nodes

    A change of a node marks the managed records that depend on its groups as
    pending, so that they are evaluated again.  Whatever is served, a record
    that is not pending afterwards evaluates to what it did before. *)

From S2P Require Import Prelude GoString GoFloat GoJson GoSort GoNet Domain ServiceErrors Records ValidatorBase NodeCoverage Transaction Database RuleStore DnsStore DnsMarking DnsEvaluation Layout StoreLayout DnsWalk.
From coqutil Require Import Datatypes.RecordSetters.
Import TriangleBracketNotations.
#[local] Open Scope Z_scope.

Section inputs.
Context `{UnicodeTables}.

(** ** What an evaluation sees of the nodes *)

(** The status, the groups, and the enabled addresses with their types. *)
Definition nodeInput : Type := string * gset string * gset (string * string).
Definition inputOf (node : NodeRecord) : nodeInput :=
  (upperStatus node, list_to_set (node_GroupIDs node),
   list_to_set (map (λ a, (ndns_AddressType a, ndns_Address a)) (List.filter ndns_Enabled (node_DNSPublishAddresses node)))).
Definition dnsInputs (org : string) (db : database) : gmap string nodeInput :=
  omap (λ row, if String.eqb (node_OrganizationID row) org && String.eqb (node_DeletedAt row) ""
               then Some (inputOf (loadNodeDetails db row)) else None) (t_nodes (db_nodes db)).
Definition inGroups (groupSet : gset string) (x : nodeInput) : bool :=
  bool_decide (groupSet = ∅) || negb (bool_decide (groupSet ## x.1.2)).
Definition inputsFor (groupSet : gset string) (org : string) (db : database) : list nodeInput :=
  List.filter (inGroups groupSet) (map inputOf (listedNodes org db)).

Lemma matches_inGroups node groupSet : nodeMatchesGroupSet node groupSet = inGroups groupSet (inputOf node).
Proof.
  unfold nodeMatchesGroupSet, inGroups. f_equal. apply eq_true_iff_eq. rewrite existsb_elem_of, negb_true_iff, bool_decide_eq_false.
  cbn. split.
  - intros (g & Hg & Hin%bool_decide_eq_true) Hd. apply (Hd g); [done|by apply elem_of_list_to_set].
  - intros Hd. destruct (decide (Exists (λ g, g ∈ groupSet) (node_GroupIDs node))) as [He|Hno].
    + apply Exists_exists in He as (g & Hg & Hin). exists g. by rewrite bool_decide_eq_true.
    + destruct Hd. intros g Hg Hin%elem_of_list_to_set. apply Hno, Exists_exists. by exists g.
Qed.

Definition countInput (c : dnsConditionContext) (x : nodeInput) : dnsConditionContext :=
  {| dcc_TotalNodes := dcc_TotalNodes c + 1;
     dcc_OnlineNodes := dcc_OnlineNodes c + Z.b2z (String.eqb x.1.1 "ONLINE");
     dcc_OfflineNodes := dcc_OfflineNodes c + Z.b2z (String.eqb x.1.1 "OFFLINE") |}.
Lemma count_inputs groupSet nodes c :
  foldl (countDNSNode groupSet) c nodes = foldl countInput c (List.filter (inGroups groupSet) (map inputOf nodes)).
Proof.
  revert c. induction nodes as [|n l IH]; intros c; cbn; [done|]. rewrite IH. unfold countDNSNode. rewrite matches_inGroups.
  by destruct (inGroups groupSet (inputOf n)).
Qed.
Lemma count_perm l k c : l ≡ₚ k → foldl countInput c l = foldl countInput c k.
Proof.
  intros Hp. revert c. induction Hp as [|x l k _ IH|x y l|l k m _ IH1 _ IH2]; intros c; cbn; [done|by rewrite IH| |by rewrite IH1].
  f_equal. unfold countInput. cbn. f_equal; lia.
Qed.
Lemma conditionContext_inputs org instance db db' :
  let groupSet := list_to_set (inst_NodeGroupIDsJSON instance) in
  inputsFor groupSet org db ≡ₚ inputsFor groupSet org db' →
  conditionContext org instance db = conditionContext org instance db'.
Proof. intros groupSet Hp. unfold conditionContext. rewrite !count_inputs. by apply count_perm. Qed.

(** *** Values *)

Definition cleaned (values : list string) (v : string) : Prop := v ≠ "" ∧ ∃ w, w ∈ values ∧ v = cleanDNSValue w.
Lemma normalize_loop values : ∃ l, normalizeDNSValues values = sort_stable String.ltb l ∧ NoDup l ∧ ∀ v, v ∈ l ↔ cleaned values v.
Proof.
  unfold normalizeDNSValues. eexists. split; [done|].
  apply (foldl_ind _ (λ done_ l, NoDup l ∧ ∀ v, v ∈ l ↔ cleaned done_ v)).
  { split; [constructor|]. intros v. unfold cleaned. split; [by intros ?%not_elem_of_nil|by intros (_ & w & ?%not_elem_of_nil & _)]. }
  intros done_ w l [Hd Hl]. cbv zeta. destruct (String.eqb_spec (cleanDNSValue w) "") as [Ew|Ew]; cbn [orb].
  { split; [done|]. intros v. rewrite Hl. unfold cleaned. setoid_rewrite elem_of_app. setoid_rewrite list_elem_of_singleton. naive_solver congruence. }
  case_bool_decide as Hin.
  - split; [done|]. intros v. rewrite Hl. apply Hl in Hin as (_ & w' & Hw' & Ew'). unfold cleaned. setoid_rewrite elem_of_app.
    setoid_rewrite list_elem_of_singleton. naive_solver congruence.
  - split.
    + apply NoDup_app. split_and!; [done| |apply NoDup_singleton]. by intros x Hx ->%list_elem_of_singleton.
    + intros v. rewrite elem_of_app, list_elem_of_singleton, Hl. unfold cleaned. setoid_rewrite elem_of_app.
      setoid_rewrite list_elem_of_singleton. naive_solver congruence.
Qed.
Lemma normalize_ext l k : (∀ v, v ∈ l ↔ v ∈ k) → normalizeDNSValues l = normalizeDNSValues k.
Proof.
  intros Hlk. destruct (normalize_loop l) as (l' & -> & Hl & Hl'), (normalize_loop k) as (k' & -> & Hk & Hk').
  apply sort_unique; [apply _|intros x y _ _; apply str_ltb_total|]. apply NoDup_Permutation; [done..|]. intros v. rewrite Hl', Hk'.
  unfold cleaned. by setoid_rewrite Hlk.
Qed.

Lemma dnsOnlineNodeValues_inputs org recordType instance db db' :
  let groupSet := list_to_set (inst_NodeGroupIDsJSON instance) in
  inputsFor groupSet org db ≡ₚ inputsFor groupSet org db' →
  dnsOnlineNodeValues org recordType instance db = dnsOnlineNodeValues org recordType instance db'.
Proof.
  intros groupSet Hp. unfold dnsOnlineNodeValues. fold groupSet.
  assert (∀ d v, v ∈ flat_map (publishedAddresses recordType) (List.filter (λ node,
    String.eqb (upperStatus node) "ONLINE" && nodeMatchesGroupSet node groupSet) (listedNodes org d)) ↔
    ∃ x, x ∈ inputsFor groupSet org d ∧ x.1.1 = "ONLINE" ∧ (recordType, v) ∈ x.2) as Hv.
  { intros d v. unfold inputsFor. rewrite elem_of_flat_map. split.
    - intros (n & [Hn [Hs%String.eqb_eq Hg]%andb_true_iff]%elem_of_filterb & Ha). exists (inputOf n).
      rewrite elem_of_filterb, <-matches_inGroups. split_and!; [by apply list_elem_of_fmap_2|done|done|].
      unfold publishedAddresses in Ha. apply elem_of_map in Ha as (a & -> & [Ha [He Ht%String.eqb_eq]%andb_true_iff]%elem_of_filterb).
      apply elem_of_list_to_set, elem_of_map. exists a. rewrite <-Ht. split; [done|]. by apply elem_of_filterb.
    - intros (x & [(n & -> & Hn)%elem_of_map Hg]%elem_of_filterb & Hs & Ha). exists n. rewrite <-matches_inGroups in Hg. split.
      + apply elem_of_filterb. cbn in Hs. by rewrite Hs, Hg.
      + cbn in Ha. apply elem_of_list_to_set, elem_of_map in Ha as (a & [= -> ->] & [Ha He]%elem_of_filterb).
        apply elem_of_map. exists a. split; [done|]. apply elem_of_filterb. by rewrite He, String.eqb_refl. }
  rewrite (normalize_ext _ (flat_map (publishedAddresses recordType) (List.filter (λ node,
    String.eqb (upperStatus node) "ONLINE" && nodeMatchesGroupSet node groupSet) (listedNodes org db')))); [done|].
  intros v. rewrite !Hv. by setoid_rewrite Hp.
Qed.
End inputs.

(** *** The values of a map that is filtered *)

Lemma values_omap {A B} (f : A → option B) (m : gmap string A) : (map_to_list (omap f m)).*2 ≡ₚ omap f (map_to_list m).*2.
Proof.
  induction m as [|i x m Hi IH] using map_ind; [by rewrite omap_empty, !map_to_list_empty|].
  assert (omap f m !! i = None) as Hi' by (by rewrite lookup_omap, Hi). rewrite omap_insert. destruct (f x) as [y|] eqn:E.
  - rewrite !map_to_list_insert by done. cbn. rewrite E. by constructor.
  - rewrite delete_id, map_to_list_insert by done. cbn. by rewrite E.
Qed.
Lemma filterb_omap {A} (f : A → bool) l : List.filter f l = omap (λ x, if f x then Some x else None) l.
Proof. induction l as [|x l IH]; cbn; [done|]. destruct (f x); by rewrite IH. Qed.

Section changes.
Context `{UnicodeTables}.

Lemma inputs_listed org db : map inputOf (listedNodes org db) ≡ₚ (map_to_list (dnsInputs org db)).*2.
Proof.
  unfold listedNodes, dnsInputs. rewrite sort_perm, values_omap. unfold lives, liveRows, rows. cbn [tbl_rows tbl_owner tbl_deleted nodesTable].
  induction (map_to_list (t_nodes (db_nodes db))) as [|[id row] l IH]; cbn; [done|].
  destruct (_ && _); cbn; [by constructor|done].
Qed.

(** The nodes of some groups changed: what is seen of any other node is the same. *)
Definition within (changed : gset string) (o : option nodeInput) : Prop :=
  match o with Some x => x.1.2 ⊆ changed | None => True end.
Definition changes (changed : gset string) (org : string) (db db' : database) : Prop :=
  ∀ id, dnsInputs org db !! id = dnsInputs org db' !! id ∨
        (within changed (dnsInputs org db !! id) ∧ within changed (dnsInputs org db' !! id)).

Lemma within_other changed groupSet o :
  groupSet ≠ ∅ → groupSet ## changed → within changed o → (o ≫= λ x, if inGroups groupSet x then Some x else None) = None.
Proof.
  intros Hne Hd. destruct o as [x|]; cbn; [|done]. intros Hx. unfold inGroups. rewrite bool_decide_eq_false_2 by done.
  rewrite bool_decide_eq_true_2; [done|set_solver].
Qed.
Lemma changes_inputs changed org db db' groupSet :
  changes changed org db db' → groupSet ≠ ∅ → groupSet ## changed → inputsFor groupSet org db ≡ₚ inputsFor groupSet org db'.
Proof.
  intros Hc Hne Hd. unfold inputsFor. rewrite (filterb_perm _ _ _ (inputs_listed org db)), (filterb_perm _ _ _ (inputs_listed org db')).
  rewrite !filterb_omap, <-!values_omap. f_equiv.
  assert (omap (λ x, if inGroups groupSet x then Some x else None) (dnsInputs org db) =
    omap (λ x, if inGroups groupSet x then Some x else None) (dnsInputs org db')) as ->; [|done].
  apply map_eq. intros id. rewrite !lookup_omap. destruct (Hc id) as [E|[W W']]; [by rewrite E|].
  by rewrite (within_other changed groupSet _ Hne Hd W), (within_other changed groupSet _ Hne Hd W').
Qed.

Lemma independent_inputs org changed db db' i : 
  changes changed org db db' → dnsInstanceDependsOnNodeGroups i changed = false →
  let groupSet := list_to_set (inst_NodeGroupIDsJSON i) in inputsFor groupSet org db ≡ₚ inputsFor groupSet org db'.
Proof.
  intros Hc [Hne Hd]%orb_false_iff groupSet. apply (changes_inputs changed); [done| |].
  - unfold groupSet. destruct (inst_NodeGroupIDsJSON i) as [|g l]; [done|]. cbn. set_solver.
  - intros g Hg%elem_of_list_to_set Hin. rewrite existsb_false in Hd. specialize (Hd g Hg). by rewrite bool_decide_eq_false in Hd.
Qed.

(** ** Records that marking touches *)

(** Marking changes nothing that other records see. *)
Record sameRecord (row row' : DNSManagedRecordRecord) : Prop := {
  sr_org : drec_OrganizationID row' = drec_OrganizationID row;
  sr_id : drec_ID row' = drec_ID row;
  sr_deleted : drec_DeletedAt row' = drec_DeletedAt row;
  sr_type : drec_RecordType row' = drec_RecordType row;
  sr_pending : deletePending row' = deletePending row }.
#[export] Instance sameRecord_preorder : PreOrder sameRecord.
Proof. split; [done|]. intros a b c [] []. split; congruence. Qed.

Record marked (db db' : database) : Prop := {
  mk_instances : t_dns_instances (db_dns db') = t_dns_instances (db_dns db);
  mk_records id : option_Forall2 sameRecord
    (t_dns_managed_records (db_dns db) !! id) (t_dns_managed_records (db_dns db') !! id) }.

Lemma live_marked org id db db' : marked db db' →
  option_Forall2 sameRecord (live dnsRecordsTable org id db) (live dnsRecordsTable org id db').
Proof.
  intros [_ Hr]. unfold live, findRow. cbn [tbl_rows tbl_owner tbl_deleted dnsRecordsTable].
  destruct (Hr id) as [row row' Hrow|]; cbn; [|constructor]. rewrite (sr_org _ _ Hrow), (sr_deleted _ _ Hrow).
  destruct (_ && _); [by constructor|constructor].
Qed.
Lemma isSome_live_marked org id db db' : marked db db' →
  isSome (live dnsRecordsTable org id db') = isSome (live dnsRecordsTable org id db).
Proof. intros Hm. by destruct (live_marked org id db db' Hm) as [? ? _|]. Qed.
Lemma dnsInstance_marked org id db db' : marked db db' → dnsInstance org id db' = dnsInstance org id db.
Proof.
  intros Hm. unfold dnsInstance.
  assert (live dnsInstancesTable org id db' = live dnsInstancesTable org id db) as ->.
  { unfold live. cbn [tbl_rows dnsInstancesTable]. by rewrite (mk_instances _ _ Hm). }
  destruct (live dnsInstancesTable org id db) as [i|]; cbn; [|done]. by rewrite (isSome_live_marked _ _ db db').
Qed.
Lemma dnsInstances_marked org db db' : marked db db' → dnsInstances org db' = dnsInstances org db.
Proof.
  intros Hm. unfold dnsInstances, lives. cbn [tbl_rows dnsInstancesTable]. rewrite (mk_instances _ _ Hm). f_equal.
  apply List.filter_ext. intros i. by apply isSome_live_marked.
Qed.
Lemma loadDNSInstances_marked org db db' row : marked db db' → loadDNSInstances org db' row = loadDNSInstances org db row.
Proof. intros Hm. unfold loadDNSInstances, ListDNSInstancesByManagedRecord. by rewrite (dnsInstances_marked org db db' Hm). Qed.
End changes.

(** ** A record that was not found evaluates to the same *)

Section same.
Context `{UnicodeTables}.
Context (org : string) (db db' : database) (named : dns_named db) (Hm : marked db db').
(** An instance that does not depend on what changed sees the same. *)
Context (depends : DNSInstanceRecord → bool).
Context (independent : ∀ i, depends i = false →
  let groupSet := list_to_set (inst_NodeGroupIDsJSON i) in inputsFor groupSet org db ≡ₚ inputsFor groupSet org db').

(** The addresses of nodes are the output. *)
Definition rotates (i : DNSInstanceRecord) : Prop :=
  ∃ a, inst_ActionJSON i = Ok a ∧ normalizeDNSActionType (act_Type a) = "ROTATE_ONLINE_NODES".
Lemma rotates_root i p : rotates i → usesInstance p i = false.
Proof. intros (a & Ea & Et). unfold usesInstance. by rewrite Ea, Et. Qed.

Lemma found_instance id i : dnsInstance org id db = Some i → i ∈ dnsInstances org db ∧ inst_ID i = id ∧ TrimSpace id = id.
Proof.
  intros E. assert (inst_ID i = id ∧ TrimSpace id = id) as [Ei Ht].
  { unfold dnsInstance in E. destruct (live dnsInstancesTable org id db) as [j|] eqn:El; [|done]. cbn in E.
    destruct (isSome _); [|done]. apply (inj Some) in E as ->. apply findRow_some in El as (Hk & _). by eapply dn_instances. }
  split; [|done]. apply elem_of_dnsInstances; [done|]. by rewrite Ei.
Qed.

Lemma action_same recordType fuel i seen :
  i ∈ dnsInstances org db → inst_Enabled i = true →
  (∀ k x, reaches (dnsInstances org db) k i x → (k < fuel)%nat → inst_Enabled x = true → rotates x →
     depends x = false) →
  evaluateDNSAction org recordType db' fuel i seen = evaluateDNSAction org recordType db fuel i seen.
Proof.
  revert i seen. induction fuel as [|fuel IH]; intros i seen Hi He Hr; cbn [evaluateDNSAction]; [done|].
  destruct (bool_decide _); [done|]. destruct (inst_ActionJSON i) as [a|] eqn:Ea; [|done].
  destruct (String.eqb_spec (normalizeDNSActionType (act_Type a)) "ROTATE_ONLINE_NODES") as [Et|_].
  { rewrite (dnsOnlineNodeValues_inputs org recordType i db db'); [done|]. apply independent.
    apply (Hr 0%nat); [by constructor|lia|done|by exists a]. }
  destruct (bool_decide _); [done|]. destruct (String.eqb _ "SET_STATIC_CNAME"); [done|].
  destruct (String.eqb_spec (normalizeDNSActionType (act_Type a)) "USE_INSTANCE_OUTPUT") as [Et|_]; [|done].
  rewrite (dnsInstance_marked org _ db db') by done. destruct (dnsInstance org (act_InstanceID a) db) as [t|] eqn:El; [|done].
  destruct (found_instance _ _ El) as (Ht & Eid & Etrim). destruct (inst_Enabled t) eqn:Het; cbn [negb]; [|done].
  unfold dnsManagedRecord. destruct (live_marked org (inst_ManagedRecordID t) db db' Hm) as [row row' Hrow|]; cbn [fmap option_fmap option_map]; [|done].
  change (deletePending (loadDNSInstances org db row)) with (deletePending row).
  change (deletePending (loadDNSInstances org db' row')) with (deletePending row').
  change (drec_RecordType (loadDNSInstances org db row)) with (drec_RecordType row).
  change (drec_RecordType (loadDNSInstances org db' row')) with (drec_RecordType row').
  rewrite (sr_pending _ _ Hrow), (sr_type _ _ Hrow). destruct (deletePending row); [done|]. destruct (negb _); [done|].
  apply IH; [done..|]. intros k x Hreach Hk. apply (Hr (S k)); [|lia]. econstructor; [done| |exact Hreach].
  unfold usesInstance. by rewrite Ea, Et, Eid, Etrim, !String.eqb_refl.
Qed.

Context (affected : gset string).
Context (found_all : ∀ k i x, reaches (dnsInstances org db) k i x → (k ≤ 8)%nat → inst_Enabled x = true →
  depends x = true → (k = O ∨ ∀ p, usesInstance p x = false) → inst_ManagedRecordID i ∈ affected).

(** The evaluation of a row of the table. *)
Definition evaluation (org : string) (row : DNSManagedRecordRecord) (db : database) : dnsPolicyEvaluation :=
  evaluateDNSManagedRecord org (loadDNSInstances org db row) db.

Lemma select_same l selected diagnostics :
  (∀ i, i ∈ l → conditionContext org i db' = conditionContext org i db) →
  selectDNSInstance org db' selected diagnostics l = selectDNSInstance org db selected diagnostics l.
Proof.
  revert selected diagnostics. induction l as [|i l IH]; intros s d Hl; cbn; [done|]. rewrite Hl by left.
  assert (∀ s d, selectDNSInstance org db' s d l = selectDNSInstance org db s d l) as IH'.
  { intros s' d'. apply IH. intros j Hj. apply Hl. by right. }
  destruct (evaluateDNSCondition _ _) as [b c]. destruct (negb b); [done|]. destruct s as [s|]; [|done].
  destruct (_ =? _); [done|]. by destruct (_ <? _).
Qed.
Lemma selected_among l s d r :
  selectDNSInstance org db s d l = Ok r → ∀ i, r.1 = Some i → s = Some i ∨ i ∈ l.
Proof.
  revert s d. induction l as [|j l IH]; intros s d; cbn.
  { intros [= <-] i E. by left. }
  destruct (evaluateDNSCondition _ _) as [b c]. destruct (negb b).
  { intros Hr i E. destruct (IH _ _ Hr i E) as [?|?]; [by left|right; by right]. }
  assert (∀ d, selectDNSInstance org db (Some j) d l = Ok r → ∀ i, r.1 = Some i → s = Some i ∨ i ∈ j :: l) as Hj.
  { intros d' Hr i E. destruct (IH _ _ Hr i E) as [[= ->]|?]; [right; left|right; by right]. }
  destruct s as [s|]; [|apply Hj]. destruct (_ =? _); [done|]. destruct (_ <? _); [|apply Hj].
  intros [= <-] i E. by left.
Qed.

Lemma evaluation_same id row :
  live dnsRecordsTable org id db = Some row → id ∉ affected → evaluation org row db' = evaluation org row db.
Proof.
  intros Hl Hid. apply findRow_some in Hl as (Hrow & _). destruct (dn_records _ named _ _ Hrow) as [Eid _].
  unfold evaluation. rewrite (loadDNSInstances_marked org db db') by done. set (record := loadDNSInstances org db row).
  assert (∀ i, i ∈ activeInstances record → i ∈ dnsInstances org db ∧ inst_ManagedRecordID i = id ∧ inst_Enabled i = true) as Hact.
  { intros i [Hi [He _]%andb_true_iff]%elem_of_sort%elem_of_filterb.
    apply (elem_of_recordInstances org db row) in Hi as [Hi Er]. split; [done|]. by rewrite Er. }
  unfold evaluateDNSManagedRecord. rewrite select_same.
  2:{ intros i Hi. destruct (Hact i Hi) as (Hin & Er & He). symmetry. apply conditionContext_inputs, independent.
      destruct (depends i) eqn:Ed; [|done]. destruct Hid. rewrite <-Er.
      apply (found_all 0 i i); [by constructor|lia|done|done|by left]. }
  destruct (selectDNSInstance org db None [] (activeInstances record)) as [[[i|] d]|] eqn:Es; [|done..].
  destruct (selected_among (activeInstances record) None [] (Some i, d) Es i eq_refl) as [?|Hi]; [discriminate|]. destruct (Hact i Hi) as (Hin & Er & He).
  rewrite action_same; [reflexivity|exact Hin|exact He|]. intros k x Hreach Hk Hex Hrot. destruct (depends x) eqn:Ed; [|done].
  destruct Hid. rewrite <-Er. apply (found_all k i x); [done|lia|done|done|]. right. intros p. by apply rotates_root.
Qed.
End same.

(** ** Marking *)

Section marking.
Context `{UnicodeTables}.

(** The record is to be evaluated again, or to be deleted. *)
Definition isPending (row : DNSManagedRecordRecord) : Prop :=
  drec_LastEvaluationStatus row = "PENDING" ∨ deletePending row = true.

Lemma marked_refl db : marked db db.
Proof. split; [done|]. intros id. by destruct (_ !! id); constructor. Qed.
Lemma marked_trans a b c : marked a b → marked b c → marked a c.
Proof.
  intros [H1 H2] [H1' H2']. split; [congruence|]. intros id. specialize (H2 id). specialize (H2' id).
  destruct H2 as [x y Hxy|]; inversion H2'; subst; constructor. by etrans.
Qed.
Lemma marked_named db db' : marked db db' → dns_named db → dns_named db'.
Proof.
  intros [Hi Hr] [Ni Nr]. split; [by rewrite Hi|]. intros id r Hrow. specialize (Hr id). rewrite Hrow in Hr.
  inversion Hr as [row row' Hs E1 E2|]; subst. destruct (Nr id row) as (? & ? & ?); [done|]. by rewrite (sr_id _ _ Hs).
Qed.

(** The records [ids] were marked, and nothing else happened. *)
Record marks (org : string) (ids : list string) (db db' : database) : Prop := {
  ms_nodes : db_nodes db' = db_nodes db;
  ms_marked : marked db db';
  ms_pending id row : id ∈ ids → live dnsRecordsTable org id db' = Some row → isPending row;
  ms_other id : id ∉ ids → t_dns_managed_records (db_dns db') !! id = t_dns_managed_records (db_dns db) !! id;
  ms_still id row' : live dnsRecordsTable org id db' = Some row' →
    live dnsRecordsTable org id db = Some row' ∨ isPending row';
  ms_foreign o id : o ≠ org → live dnsRecordsTable o id db' = live dnsRecordsTable o id db }.

Lemma dnsRecord_written id row db :
  let db' := tbl_with dnsRecordsTable <[id := row]> db in
  db_nodes db' = db_nodes db ∧ t_dns_instances (db_dns db') = t_dns_instances (db_dns db) ∧
  t_dns_managed_records (db_dns db') = <[id := row]> (t_dns_managed_records (db_dns db)).
Proof. done. Qed.
Lemma markRecord_marks E org updatedAt code id db u db' :
  dns_named db → markRecord E org updatedAt code id db = Ok (u, db') → marks org [id] db db'.
Proof.
  intros Hn Hr. unfold markRecord, FindDNSManagedRecordByID, dnsManagedRecord in Hr. tx_inv.
  destruct (live dnsRecordsTable org id _) as [row|] eqn:El; cbn [found fmap option_fmap option_map] in *; [|discriminate].
  tx_inv. pose proof El as (Hrow & Ho & Hd)%findRow_some. destruct (dn_records _ Hn _ _ Hrow) as [Eid _].
  match type of Hr with (if deletePending (loadDNSInstances ?o ?d ?r) then _ else _) _ = _ =>
    change (deletePending (loadDNSInstances o d r)) with (deletePending r) in Hr end.
  destruct (deletePending row) eqn:Ep.
  { tx_inv. split; [done|apply marked_refl| |done|by left|done]. intros k r ->%list_elem_of_singleton E'. right. congruence. }
  unfold UpdateDNSManagedRecordEvaluation in Hr. apply updateRow_ok in Hr as (row0 & El0 & ->).
  change (live dnsRecordsTable (drec_OrganizationID row) (drec_ID row) db = Some row0) in El0. rewrite Eid in El0.
  change (tbl_owner dnsRecordsTable row = org) in Ho. cbn in Ho. rewrite Ho, El in El0. apply (inj Some) in El0 as <-.
  match goal with |- marks _ _ _ (tbl_with _ (<[ _ := ?r ]>) _) => set (row' := r) end.
  change (drec_ID (pendingRecord updatedAt (inputChanged code) (loadDNSInstances org db row))) with (drec_ID row). rewrite Eid.
  assert (sameRecord row row') as Hsame by (split; try done; cbn; by rewrite Ep).
  assert (isPending row') as Hpend by (left; done).
  destruct (dnsRecord_written id row' db) as (H1 & H2 & H3). set (db' := tbl_with _ _ _) in *.
  split; [done| | | |..].
  - split; [done|]. intros k. rewrite H3. destruct (decide (k = id)) as [->|Hne].
    + rewrite lookup_insert_eq. cbn in Hrow. rewrite Hrow. by constructor.
    + rewrite lookup_insert_ne by done. by destruct (_ !! k); constructor.
  - intros k r ->%list_elem_of_singleton (Hk & _)%findRow_some. cbn [tbl_rows dnsRecordsTable] in Hk.
    rewrite H3, lookup_insert_eq in Hk. by apply (inj Some) in Hk as <-.
  - intros k Hk. rewrite H3, lookup_insert_ne; [done|]. intros ->. apply Hk. left.
  - intros k r. unfold live, findRow. cbn [tbl_rows dnsRecordsTable]. rewrite H3. destruct (decide (k = id)) as [->|Hne].
    + rewrite lookup_insert_eq. cbn. destruct (_ && _); [|done]. intros [= <-]. by right.
    + rewrite lookup_insert_ne by done. by left.
  - intros o k Hno. apply option_eq. intros x. unfold live. rewrite !findRow_some. cbn [tbl_rows dnsRecordsTable]. rewrite H3.
    destruct (decide (k = id)) as [->|Hne]; [|by rewrite lookup_insert_ne]. rewrite lookup_insert_eq. cbn in Hrow. rewrite Hrow.
    split; intros ([= <-] & Hox & _); destruct Hno; rewrite <-Hox; [exact Ho|exact Ho].
Qed.
Lemma marks_nil org db : marks org [] db db.
Proof. split; [done|apply marked_refl|by intros ? ? ?%not_elem_of_nil|done|by left|done]. Qed.
Lemma marks_app org ids ids' a b c : marks org ids a b → marks org ids' b c → marks org (ids ++ ids') a c.
Proof.
  intros [N M P O S F] [N' M' P' O' S' F']. split; [congruence|by eapply marked_trans| | | |].
  - intros id row [Hi|Hi]%elem_of_app Hl; [|by eapply P']. destruct (S' _ _ Hl) as [Hb|?]; [by eapply P|done].
  - intros id [Hi Hi']%not_elem_of_app. rewrite O' by done. by apply O.
  - intros id row Hl. destruct (S' _ _ Hl) as [Hb|?]; [by apply S|by right].
  - intros o id Ho. rewrite F' by done. by apply F.
Qed.
Lemma marks_each E org updatedAt code ids db u db' :
  dns_named db → each (markRecord E org updatedAt code) ids db = Ok (u, db') → marks org ids db db'.
Proof.
  revert db. induction ids as [|id l IH]; intros db Hn; cbn; intros Hr; tx_inv; [apply marks_nil|].
  match goal with X : markRecord _ _ _ _ _ _ = _ |- _ => apply markRecord_marks in X; [|done] end.
  eapply (marks_app org [id] l); [done|]. apply IH; [|done]. by eapply marked_named, Hn; apply E0 || eauto using ms_marked.
Qed.

Lemma elem_of_sortedKeys s v : v ∈ sortedStringSetKeys s ↔ v ∈ s ∧ TrimSpace v ≠ "".
Proof. unfold sortedStringSetKeys. by rewrite elem_of_sort, elem_of_filterb, elem_of_elements, negb_true_iff, String.eqb_neq. Qed.
Lemma elem_of_trimmedSet l v : v ∈ trimmedSet l ↔ v ≠ "" ∧ ∃ w, w ∈ l ∧ v = TrimSpace w.
Proof.
  unfold trimmedSet. rewrite elem_of_list_to_set, elem_of_filterb, negb_true_iff, String.eqb_neq, elem_of_map. naive_solver.
Qed.

Lemma locks_same E org ids db u db' : lockDNSManagedRecords E org ids db = Ok (u, db') → db' = db.
Proof.
  unfold lockDNSManagedRecords. generalize (sort_stable String.ltb (elements (trimmedSet ids))). intros l. revert db.
  induction l as [|id l IH]; intros db; cbn; intros Hr; tx_inv; [done|].
  match goal with X : LockDNSManagedRecordEvaluation _ _ _ _ = _ |- _ => apply exec_ok in X as -> end. by apply IH.
Qed.
Lemma markRecords_marks E org recs updatedAt code db ids db' :
  dns_named db → markDNSManagedRecordsPending E org recs updatedAt code db = Ok (ids, db') →
  ids = sortedStringSetKeys (trimmedSet recs) ∧ marks org ids db db'.
Proof.
  intros Hn. unfold markDNSManagedRecordsPending. cbv zeta. set (l := sortedStringSetKeys (trimmedSet recs)).
  destruct (Nat.eqb_spec (length l) 0) as [El|_]; intros Hr; tx_inv.
  - apply nil_length_inv in El. rewrite El. split; [done|apply marks_nil].
  - split; [done|]. match goal with X : lockDNSManagedRecords _ _ _ _ = _ |- _ => apply locks_same in X as -> end.
    by eapply marks_each.
Qed.

Lemma markGroups_marks E org groups now db ids db' :
  dns_named db → markDNSRecordsDependingOnNodeGroupsPending E org groups now db = Ok (ids, db') →
  marks org ids db db' ∧
  ∀ k i x, reaches (dnsInstances org db) k i x → (k ≤ 8)%nat → inst_Enabled x = true →
    dnsInstanceDependsOnNodeGroups x (list_to_set groups) = true → (k = O ∨ ∀ p, usesInstance p x = false) →
    inst_ManagedRecordID i ∈ ids.
Proof.
  intros Hn Hr. unfold markDNSRecordsDependingOnNodeGroupsPending, ListDNSManagedRecordsByOrganization in Hr. tx_inv.
  match goal with X : collectForRecords _ _ _ _ _ _ = _ |- _ => destruct (collected_reached _ _ _ _ _ Hn X) as [-> Hall] end.
  apply markRecords_marks in Hr as [-> Hm]; [|done]. split; [done|]. intros k i x Hreach Hk He Hd Hx.
  pose proof (Hall k i x Hreach Hk He Hd Hx) as Ha.
  assert (i ∈ dnsInstances org db) as Hi by (by inversion Hreach).
  destruct (instance_record org db i Hn Hi) as (_ & r & (id & Hrec)%elem_of_dnsManagedRecords & Er & _).
  unfold dnsManagedRecord in Hrec. destruct (live dnsRecordsTable org id db) as [row|] eqn:El; [|done]. apply (inj Some) in Hrec as <-.
  change (drec_ID row = inst_ManagedRecordID i) in Er. apply findRow_some in El as (Hrow & _).
  destruct (dn_records _ Hn _ _ Hrow) as (Ek & E2 & E3). rewrite Ek in Er. subst id.
  apply elem_of_sortedKeys. split; [|by rewrite E2]. apply elem_of_trimmedSet. split; [done|]. eexists. split; [|symmetry; exact E2].
  apply elem_of_sortedKeys. split; [done|by rewrite E2].
Qed.

(** ** What is not pending is up to date *)

(** Every record is pending, or as before with the same evaluation. *)
Definition fresh (db db' : database) : Prop := ∀ org id row,
  live dnsRecordsTable org id db' = Some row →
  isPending row ∨ (live dnsRecordsTable org id db = Some row ∧ evaluation org row db' = evaluation org row db).
#[export] Instance fresh_preorder : PreOrder fresh.
Proof.
  split; [by right|]. intros a b c Hab Hbc org id row Hl. destruct (Hbc org id row Hl) as [?|[Hb E]]; [by left|].
  destruct (Hab org id row Hb) as [?|[Ha E']]; [by left|right]. split; [done|congruence].
Qed.

(** Nothing that evaluations see. *)
Record unseen (db db' : database) : Prop := {
  un_dns : db_dns db' = db_dns db;
  un_inputs org : dnsInputs org db' = dnsInputs org db }.
#[export] Instance unseen_preorder : PreOrder unseen.
Proof.
  split; [by intros db|]. intros a b c [D I] [D' I']. split; [congruence|]. intros org. by rewrite I', I.
Qed.
Lemma same_dns_marked db db' : db_dns db' = db_dns db → marked db db'.
Proof. intros E. split; rewrite E; [done|]. intros id. by destruct (_ !! id); constructor. Qed.
Lemma same_inputs org db db' groupSet : dnsInputs org db' = dnsInputs org db → inputsFor groupSet org db ≡ₚ inputsFor groupSet org db'.
Proof. intros E. unfold inputsFor. apply filterb_perm. by rewrite !inputs_listed, E. Qed.
Lemma evaluation_inputs org db db' id row :
  dns_named db → marked db db' → dnsInputs org db' = dnsInputs org db → live dnsRecordsTable org id db = Some row →
  evaluation org row db' = evaluation org row db.
Proof.
  intros Hn Hm Hi Hl. eapply (evaluation_same org db db' Hn Hm (λ _, false)); [|done|exact Hl|apply not_elem_of_empty].
  intros i _. by apply same_inputs.
Qed.
Lemma unseen_fresh db db' : dns_named db → unseen db db' → fresh db db'.
Proof.
  intros Hn [Hd Hi] org id row Hl. right. unfold live in Hl. cbn [tbl_rows dnsRecordsTable] in Hl. rewrite Hd in Hl. split; [done|].
  by eapply evaluation_inputs; [|apply same_dns_marked| |exact Hl].
Qed.

(** A change of the nodes of some groups, followed by marking what depends on them. *)
Lemma marked_fresh E org groups now db db1 ids db2 :
  dns_named db → db_dns db1 = db_dns db → (∀ o, o ≠ org → dnsInputs o db1 = dnsInputs o db) →
  changes (list_to_set groups) org db db1 →
  markDNSRecordsDependingOnNodeGroupsPending E org groups now db1 = Ok (ids, db2) → fresh db db2.
Proof.
  intros Hn Hd Ho Hc Hr. assert (dns_named db1) as Hn1 by (by eapply marked_named, Hn; apply same_dns_marked).
  destruct (markGroups_marks _ _ _ _ _ _ _ Hn1 Hr) as [[N M P O S F] Hall].
  assert (marked db db2) as Hm by (by eapply marked_trans, M; apply same_dns_marked).
  assert (∀ o, dnsInputs o db2 = dnsInputs o db1) as Hi.
  { intros o. unfold dnsInputs, loadNodeDetails, listNodeGroupIDs, listNodeListenIPs, listNodeSendIPs, listNodePortRanges, ListNodeDNSPublishAddresses, live.
    cbn [tbl_rows nodeGroupsTable]. by rewrite N. }
  assert (∀ o id, live dnsRecordsTable o id db1 = live dnsRecordsTable o id db) as Hl1.
  { intros o id. unfold live. cbn [tbl_rows dnsRecordsTable]. by rewrite Hd. }
  intros o id row Hl. destruct (decide (o = org)) as [->|Hne].
  - destruct (decide (id ∈ ids)) as [Hin|Hnot]; [left; by eapply P|]. destruct (S id row Hl) as [Hs|?]; [right|by left].
    rewrite Hl1 in Hs. split; [done|].
    refine (evaluation_same org db db2 Hn Hm (λ i, dnsInstanceDependsOnNodeGroups i (list_to_set groups)) _ (list_to_set ids) _ id row Hs _).
    + intros i Hind. eapply independent_inputs; [|done]. intros k. rewrite Hi. apply Hc.
    + intros k i x. rewrite <-(dnsInstances_marked org db db1) by (by apply same_dns_marked).
      intros Hreach Hk He Hdep Hx. apply elem_of_list_to_set. by eapply Hall.
    + by rewrite elem_of_list_to_set.
  - right. rewrite F, Hl1 in Hl by done. split; [done|]. eapply evaluation_inputs; [done|done| |exact Hl]. by rewrite Hi, Ho.
Qed.
End marking.
