(* ===== verification/NodeLayout.v ===== *)
(** * What the statements on nodes do to the layouts

    Writing a node gives the organization's layout one other capacity, and
    deleting one takes it away; all other nodes offer what they did.  A node
    group that is created or deleted changes nothing, as long as no node
    belongs to it. *)

From S2P Require Import Prelude GoString GoInt GoSort Domain ServiceErrors Records ValidatorBase NodeCoverage ConfigCompiler Transaction Database RuleStore AgentStore DnsStore Layout Delimited StoreLayout.
From coqutil Require Import Datatypes.RecordSetters.
Import TriangleBracketNotations.
#[local] Open Scope Z_scope.

(** ** The rows of a node *)

Lemma ofNode_true org id o k : ofNode org id o k = true ↔ o = org ∧ k = id.
Proof. unfold ofNode. by rewrite andb_true_iff, !String.eqb_eq. Qed.

Section parts.
Context {A : Type} (owner nodeID : A → string) (org id : string).

Lemma part_written rows table :
  (∀ r, r ∈ rows → owner r = org ∧ nodeID r = id) →
  List.filter (λ r, ofNode org id (owner r) (nodeID r)) (replaceRows (λ r, ofNode org id (owner r) (nodeID r)) rows table) = rows.
Proof. intros Hr. apply select_replaced. intros r Hin. by apply ofNode_true, Hr. Qed.
Lemma part_other rows table o k :
  (∀ r, r ∈ rows → owner r = org ∧ nodeID r = id) → k ≠ id →
  List.filter (λ r, ofNode o k (owner r) (nodeID r)) (replaceRows (λ r, ofNode org id (owner r) (nodeID r)) rows table)
  = List.filter (λ r, ofNode o k (owner r) (nodeID r)) table.
Proof.
  intros Hr Hne. apply select_other; [|intros r Hin; by apply ofNode_true, Hr].
  intros r [_ E]%ofNode_true. apply not_true_is_false. intros [_ E']%ofNode_true. congruence.
Qed.
End parts.

(** What is offered does not depend on the order of the rows, nor on their identifiers. *)
Lemma offered_sort {A B} `{Countable B} (e : A → bool) (k : A → B) lt l :
  (list_to_set (map k (List.filter e (sort_stable lt l))) : gset B) = list_to_set (map k (List.filter e l)).
Proof.
  apply set_eq. intros x. rewrite !elem_of_list_to_set, !list_elem_of_fmap.
  setoid_rewrite elem_of_filterb. by setoid_rewrite elem_of_sort.
Qed.
Lemma offered_imap {A B} (e : A → bool) (k : A → B) (f : nat → A → A) l :
  (∀ i x, e (f i x) = e x ∧ k (f i x) = k x) → map k (List.filter e (imap f l)) = map k (List.filter e l).
Proof.
  revert f. induction l as [|x l IH]; intros f Hf; [done|]. rewrite imap_cons. cbn.
  destruct (Hf O x) as [-> Hk]. pose proof (IH (f ∘ S) ltac:(intros i y; apply Hf)) as E.
  destruct (e x); cbn; [by rewrite Hk, E|exact E].
Qed.
Lemma elem_of_imap {A B} (f : nat → A → B) l y : y ∈ imap f l → ∃ i x, x ∈ l ∧ y = f i x.
Proof.
  intros (i & Hi)%list_elem_of_lookup. rewrite list_lookup_imap in Hi. apply fmap_Some in Hi as (x & Hx & ->).
  exists i, x. split; [by eapply list_elem_of_lookup_2|done].
Qed.

Section views.
Context `{UnicodeTables, UUIDHash, HT : HashedTexts}.

Definition same_rules (db db' : database) : Prop :=
  t_forwarding_rules (db_rules db') = t_forwarding_rules (db_rules db) ∧ same_bindings db db'.

Lemma well_named_nodes db db' :
  well_named db → same_rules db db' →
  (∀ id n, t_nodes (db_nodes db') !! id = Some n → node_ID n = id) →
  (∀ id g, t_node_groups (db_nodes db') !! id = Some g → lacks bar id) →
  (∀ m, m ∈ t_node_group_members (db_nodes db') → is_Some (t_node_groups (db_nodes db') !! mem_NodeGroupID m)) →
  well_named db'.
Proof.
  intros Hwn [Hr Hb] Hn Hg Hm. split; [done..| | | |].
  - rewrite Hr. apply Hwn.
  - rewrite Hr. apply Hwn.
  - rewrite Hr, (proj1 Hb). apply Hwn.
  - intros org id b. rewrite (proj1 Hb). intros Hk. destruct (wn_bindings _ Hwn _ _ _ Hk) as (? & ? & ?).
    split_and!; [done..|]. unfold loadInboundBindingPortSegments. by rewrite (proj2 Hb).
Qed.

(** ** The effect of writing one node: [offer] is what it offers now *)

Record writes_node (org id : string) (offer : option capacity) (db db' : database) : Prop := {
  wnode_named : well_named db';
  wnode_targets : db_targets db' = db_targets db;
  wnode_pls o : same_elements (pls o db) (pls o db');
  wnode_caps o c : c ∈ caps o db' ↔ (o = org ∧ offer = Some c) ∨ (c ∈ caps o db ∧ (o = org → cap_ID c ≠ id)) }.

(** The row is written, all other nodes keep their parts. *)
Lemma write_node row offer db db' :
  well_named db → same_rules db db' → db_targets db' = db_targets db →
  t_nodes (db_nodes db') = <[node_ID row := row]> (t_nodes (db_nodes db)) →
  (∀ n, t_nodes (db_nodes db) !! node_ID row = Some n → node_OrganizationID n = node_OrganizationID row) →
  t_node_groups (db_nodes db') = t_node_groups (db_nodes db) →
  (∀ m, m ∈ t_node_group_members (db_nodes db') → is_Some (t_node_groups (db_nodes db) !! mem_NodeGroupID m)) →
  (∀ o k ports, k ≠ node_ID row → capacityAt db' o k ports = capacityAt db o k ports) →
  offer = (if String.eqb (node_DeletedAt row) "" then
             Some (capacityAt db' (node_OrganizationID row) (node_ID row) (defaultMaxRulePorts (node_MaxRulePorts row)))
           else None) →
  writes_node (node_OrganizationID row) (node_ID row) offer db db'.
Proof.
  intros Hwn Hr Ht Hn Hown Hg Hm Hother ->. split; [|done|intros o; apply pls_same; apply Hr|].
  - apply (well_named_nodes db); [done..| | |].
    + intros k n. rewrite Hn. intros [[<- <-]|[_ Hk]]%lookup_insert_Some; [done|by apply (wn_nodes _ Hwn)].
    + rewrite Hg. apply Hwn.
    + by rewrite Hg.
  - intros o c. rewrite !elem_of_caps. unfold live. setoid_rewrite findRow_some. cbn [tbl_rows nodesTable tbl_owner tbl_deleted].
    rewrite Hn. setoid_rewrite capacity_loaded. split.
    + intros (k & n & ([[<- <-]|[Hne Hk]]%lookup_insert_Some & Ho & Hd) & ->).
      * left. split; [done|]. by rewrite Hd, Ho.
      * right. pose proof (wn_nodes _ Hwn _ _ Hk) as Hid. split; [|intros _; cbn; congruence].
        exists k, n. split; [done|]. apply Hother. congruence.
    + intros [(-> & Hc)|[(k & n & (Hk & Ho & Hd) & ->) Hne]].
      * destruct (String.eqb_spec (node_DeletedAt row) ""); [|done]. injection Hc as <-.
        exists (node_ID row), row. by rewrite lookup_insert_eq.
      * cbn in Hne. pose proof (wn_nodes _ Hwn _ _ Hk) as Hid.
        assert (k ≠ node_ID row) as Hkid.
        { intros ->. apply Hne; [|done]. rewrite <-Ho. by apply Hown. }
        exists k, n. rewrite lookup_insert_ne by done. split; [done|]. symmetry. apply Hother. congruence.
Qed.

(** *** The parts of a node

    The parts that a statement replaced at a node are what it wrote; it leaves
    the parts of all other nodes. *)

Lemma filterb_andb {A} (f g : A → bool) l : List.filter (λ x, f x && g x) l = List.filter g (List.filter f l).
Proof. induction l as [|x l IH]; cbn; [done|]. destruct (f x); cbn; by rewrite IH. Qed.

Definition memberOf (org id g : string) : memberRow := {| mem_OrganizationID := org; mem_NodeID := id; mem_NodeGroupID := g |}.

Record wrote_groups (org id : string) (groups : list string) (db db' : database) : Prop := {
  wg_here : (list_to_set (listNodeGroupIDs org id db') : gset string) = list_to_set groups;
  wg_other o k : k ≠ id → listNodeGroupIDs o k db' = listNodeGroupIDs o k db }.

Lemma groups_written org id groups rows db db' :
  t_node_groups (db_nodes db') = t_node_groups (db_nodes db) →
  t_node_group_members (db_nodes db') = replaceRows (λ m, ofNode org id (mem_OrganizationID m) (mem_NodeID m)) rows
    (t_node_group_members (db_nodes db)) → rows = map (memberOf org id) groups →
  (∀ g, g ∈ groups → is_Some (live nodeGroupsTable org g db)) →
  wrote_groups org id groups db db'.
Proof.
  intros Hg Hm -> Hlive.
  assert (∀ r, r ∈ map (memberOf org id) groups → mem_OrganizationID r = org ∧ mem_NodeID r = id) as Hrows
    by (intros r (g & -> & _)%list_elem_of_fmap; done).
  assert (∀ o g, live nodeGroupsTable o g db' = live nodeGroupsTable o g db) as Hl
    by (intros o g; unfold live; cbn [tbl_rows nodeGroupsTable]; by rewrite Hg).
  split; [|intros o k Hne]; unfold listNodeGroupIDs; rewrite Hm.
  - rewrite filterb_andb, part_written by done. rewrite filterb_all.
    + apply set_eq. intros x. rewrite !elem_of_list_to_set, elem_of_sort, map_map, map_id. done.
    + intros r (g & -> & Hin)%list_elem_of_fmap. cbn. rewrite Hl. destruct (Hlive g Hin) as [? ->]. done.
  - rewrite !filterb_andb, part_other by done. do 2 f_equal.
    apply List.filter_ext. intros m. by rewrite Hl.
Qed.

Definition listensOf (nodes : list NodeListenIPRecord) : gset string :=
  list_to_set (map nlip_ListenIP (List.filter nlip_Enabled nodes)).
Definition sendsOf (nodes : list NodeSendIPRecord) : gset string :=
  list_to_set (map nsip_SendIP (List.filter nsip_Enabled nodes)).
Definition rangesOf (ranges : list NodePortRangeRecord) : gset (string * Z * Z) :=
  list_to_set (map (λ r, (nrange_Protocol r, nrange_StartPort r, nrange_EndPort r)) (List.filter nrange_Enabled ranges)).

Record wrote_listens (org id : string) (listens : list NodeListenIPRecord) (db db' : database) : Prop := {
  wl_here : listensOf (listNodeListenIPs org id db') = listensOf listens;
  wl_other o k : k ≠ id → listNodeListenIPs o k db' = listNodeListenIPs o k db }.
Record wrote_sends (org id : string) (sends : list NodeSendIPRecord) (db db' : database) : Prop := {
  ws_here : sendsOf (listNodeSendIPs org id db') = sendsOf sends;
  ws_other o k : k ≠ id → listNodeSendIPs o k db' = listNodeSendIPs o k db }.
Record wrote_ranges (org id : string) (ranges : list NodePortRangeRecord) (db db' : database) : Prop := {
  wr_here : rangesOf (listNodePortRanges org id db') = rangesOf ranges;
  wr_other o k : k ≠ id → listNodePortRanges o k db' = listNodePortRanges o k db }.

Lemma listens_written org id f listens db db' :
  t_node_listen_ips (db_nodes db') = replaceRows (λ r, ofNode org id (nlip_OrganizationID r) (nlip_NodeID r)) (imap f listens)
    (t_node_listen_ips (db_nodes db)) →
  (∀ i r, nlip_OrganizationID (f i r) = org ∧ nlip_NodeID (f i r) = id ∧
          nlip_Enabled (f i r) = nlip_Enabled r ∧ nlip_ListenIP (f i r) = nlip_ListenIP r) →
  wrote_listens org id listens db db'.
Proof.
  intros Ht Hf. assert (∀ r, r ∈ imap f listens → nlip_OrganizationID r = org ∧ nlip_NodeID r = id) as Hrows.
  { intros r (i & x & _ & ->)%elem_of_imap. split; apply Hf. }
  split; [|intros o k Hne]; unfold listNodeListenIPs; rewrite Ht.
  - rewrite part_written by done. unfold listensOf. rewrite offered_sort, offered_imap; [done|]. intros i x. split; apply Hf.
  - by rewrite part_other.
Qed.
Lemma sends_written org id f sends db db' :
  t_node_send_ips (db_nodes db') = replaceRows (λ r, ofNode org id (nsip_OrganizationID r) (nsip_NodeID r)) (imap f sends)
    (t_node_send_ips (db_nodes db)) →
  (∀ i r, nsip_OrganizationID (f i r) = org ∧ nsip_NodeID (f i r) = id ∧
          nsip_Enabled (f i r) = nsip_Enabled r ∧ nsip_SendIP (f i r) = nsip_SendIP r) →
  wrote_sends org id sends db db'.
Proof.
  intros Ht Hf. assert (∀ r, r ∈ imap f sends → nsip_OrganizationID r = org ∧ nsip_NodeID r = id) as Hrows.
  { intros r (i & x & _ & ->)%elem_of_imap. split; apply Hf. }
  split; [|intros o k Hne]; unfold listNodeSendIPs; rewrite Ht.
  - rewrite part_written by done. unfold sendsOf. rewrite offered_sort, offered_imap; [done|]. intros i x. split; apply Hf.
  - by rewrite part_other.
Qed.
Lemma ranges_written org id f ranges db db' :
  t_node_port_ranges (db_nodes db') = replaceRows (λ r, ofNode org id (nrange_OrganizationID r) (nrange_NodeID r)) (imap f ranges)
    (t_node_port_ranges (db_nodes db)) →
  (∀ i r, nrange_OrganizationID (f i r) = org ∧ nrange_NodeID (f i r) = id ∧ nrange_Enabled (f i r) = nrange_Enabled r ∧
          nrange_Protocol (f i r) = nrange_Protocol r ∧ nrange_StartPort (f i r) = nrange_StartPort r ∧
          nrange_EndPort (f i r) = nrange_EndPort r) →
  wrote_ranges org id ranges db db'.
Proof.
  intros Ht Hf. assert (∀ r, r ∈ imap f ranges → nrange_OrganizationID r = org ∧ nrange_NodeID r = id) as Hrows.
  { intros r (i & x & _ & ->)%elem_of_imap. split; apply Hf. }
  split; [|intros o k Hne]; unfold listNodePortRanges; rewrite Ht.
  - rewrite part_written by done. unfold rangesOf. rewrite offered_sort, offered_imap; [done|].
    intros i x. destruct (Hf i x) as (_ & _ & -> & -> & -> & ->). done.
  - by rewrite part_other.
Qed.

(** A statement on one node that wrote [node]: its row and its parts. *)
Record wrote_node (row node : NodeRecord) (db db' : database) : Prop := {
  wn_rules' : same_rules db db';
  wn_targets' : db_targets db' = db_targets db;
  wn_row : t_nodes (db_nodes db') = <[node_ID row := row]> (t_nodes (db_nodes db));
  wn_owner n : t_nodes (db_nodes db) !! node_ID row = Some n → node_OrganizationID n = node_OrganizationID row;
  wn_group_rows : t_node_groups (db_nodes db') = t_node_groups (db_nodes db);
  wn_member_rows m : m ∈ t_node_group_members (db_nodes db') → is_Some (t_node_groups (db_nodes db) !! mem_NodeGroupID m);
  wn_identity : node_ID row = node_ID node ∧ node_DeletedAt row = "" ∧
    defaultMaxRulePorts (node_MaxRulePorts row) = defaultMaxRulePorts (node_MaxRulePorts node);
  wn_part_groups : wrote_groups (node_OrganizationID row) (node_ID row) (node_GroupIDs node) db db';
  wn_part_listens : wrote_listens (node_OrganizationID row) (node_ID row) (node_ListenIPs node) db db';
  wn_part_sends : wrote_sends (node_OrganizationID row) (node_ID row) (node_SendIPs node) db db';
  wn_part_ranges : wrote_ranges (node_OrganizationID row) (node_ID row) (node_PortRanges node) db db' }.

Lemma wrote_node_writes row node db db' :
  well_named db → wrote_node row node db db' →
  writes_node (node_OrganizationID row) (node_ID row) (Some (capacity_of node)) db db'.
Proof.
  intros Hwn [Hr Ht Hn Hown Hg Hm (Hid & Hd & Hmax) [Hg1 Hg2] [Hl1 Hl2] [Hs1 Hs2] [Hp1 Hp2]].
  apply write_node; [done..| |].
  - intros o k ports Hne. unfold capacityAt. by rewrite Hg2, Hl2, Hs2, Hp2.
  - rewrite Hd. cbn. f_equal. unfold capacityAt, capacity_of.
    fold (listensOf (listNodeListenIPs (node_OrganizationID row) (node_ID row) db')).
    fold (sendsOf (listNodeSendIPs (node_OrganizationID row) (node_ID row) db')).
    fold (rangesOf (listNodePortRanges (node_OrganizationID row) (node_ID row) db')).
    by rewrite Hg1, Hl1, Hs1, Hp1, Hid, Hmax.
Qed.

Lemma member_groups_exist org id groups db m :
  well_named db → (∀ g, g ∈ groups → is_Some (live nodeGroupsTable org g db)) →
  m ∈ replaceRows (λ m, ofNode org id (mem_OrganizationID m) (mem_NodeID m)) (map (memberOf org id) groups)
        (t_node_group_members (db_nodes db)) →
  is_Some (t_node_groups (db_nodes db) !! mem_NodeGroupID m).
Proof.
  intros Hwn Hg. unfold replaceRows. rewrite elem_of_app, elem_of_filterb.
  intros [[Hm _]|(g & -> & Hin)%list_elem_of_fmap]; [by apply (wn_members _ Hwn)|].
  destruct (Hg g Hin) as [row (Hrow & _)%findRow_some]. by exists row.
Qed.

Lemma defaultMaxRulePorts_twice n : defaultMaxRulePorts (defaultMaxRulePorts n) = defaultMaxRulePorts n.
Proof. unfold defaultMaxRulePorts. destruct (Z.leb_spec n 0); [done|]. by destruct (Z.leb_spec n 0); [lia|]. Qed.

Lemma CreateNode_wrote E node now db u db' :
  well_named db →
  (∀ g, g ∈ node_GroupIDs node → is_Some (live nodeGroupsTable (node_OrganizationID node) g db)) →
  CreateNode E node (node_GroupIDs node) (node_ListenIPs node) (node_PortRanges node) now db = Ok (u, db') →
  wrote_node (insertedNode node) node db db' ∧ t_nodes (db_nodes db) !! node_ID node = None.
Proof.
  intros Hwn Hg HC. unfold CreateNode in HC. tx_inv. apply insertRow_ok in E0 as [Hnew ->].
  repeat match goal with X : _ = Ok (_, _) |- _ => apply exec_ok in X end. subst. split; [|exact Hnew].
  split; try done.
  - intros n Hn. cbn in Hn, Hnew. congruence.
  - intros m Hm. eapply member_groups_exist; [exact Hwn|exact Hg|exact Hm].
  - split_and!; [done..|]. apply defaultMaxRulePorts_twice.
  - by eapply groups_written.
  - eapply listens_written; [reflexivity|]. done.
  - eapply sends_written; [reflexivity|]. done.
  - eapply ranges_written; [reflexivity|]. done.
Qed.

(** Parts that are left alone. *)
Lemma groups_left org id groups db db' :
  t_node_groups (db_nodes db') = t_node_groups (db_nodes db) →
  t_node_group_members (db_nodes db') = t_node_group_members (db_nodes db) →
  groups = listNodeGroupIDs org id db → wrote_groups org id groups db db'.
Proof. intros Hg Hm ->. split; [|intros o k _]; unfold listNodeGroupIDs, live; cbn [tbl_rows nodeGroupsTable]; by rewrite Hg, Hm. Qed.
Lemma listens_left org id listens db db' :
  t_node_listen_ips (db_nodes db') = t_node_listen_ips (db_nodes db) →
  listens = listNodeListenIPs org id db → wrote_listens org id listens db db'.
Proof. intros Ht ->. split; [|intros o k _]; unfold listNodeListenIPs; by rewrite Ht. Qed.
Lemma ranges_left org id ranges db db' :
  t_node_port_ranges (db_nodes db') = t_node_port_ranges (db_nodes db) →
  ranges = listNodePortRanges org id db → wrote_ranges org id ranges db db'.
Proof. intros Ht ->. split; [|intros o k _]; unfold listNodePortRanges; by rewrite Ht. Qed.

Lemma when_groups E org id (b : bool) groups db u db' :
  when b (replaceNodeGroups E org id groups) db = Ok (u, db') →
  ∃ f, db' = with_members f db ∧ ∀ T, f T =
    if b then replaceRows (λ m, ofNode org id (mem_OrganizationID m) (mem_NodeID m)) (map (memberOf org id) groups) T else T.
Proof.
  destruct b; cbn [when]; intros Hw; [apply exec_ok in Hw as ->; by eexists|]. tx_inv. exists (λ t, t).
  split; [|done]. by destruct db as [[] ? ? ? ? ? ? ? ? ?].
Qed.
Lemma when_listens E org id (b : bool) listens now db u db' :
  when b (replaceNodeListenIPs E org id listens now) db = Ok (u, db') →
  ∃ f g, db' = with_listen_ips f db ∧ (∀ T, f T =
    if b then replaceRows (λ r, ofNode org id (nlip_OrganizationID r) (nlip_NodeID r)) (imap g listens) T else T) ∧
    ∀ i r, nlip_OrganizationID (g i r) = org ∧ nlip_NodeID (g i r) = id ∧
           nlip_Enabled (g i r) = nlip_Enabled r ∧ nlip_ListenIP (g i r) = nlip_ListenIP r.
Proof.
  destruct b; cbn [when]; intros Hw; [apply exec_ok in Hw as ->; by do 2 eexists|]. tx_inv. exists (λ t, t).
  eexists (λ i r, {| nlip_ID := ""; nlip_OrganizationID := org; nlip_NodeID := id; nlip_ListenIP := nlip_ListenIP r;
    nlip_DisplayName := ""; nlip_Enabled := nlip_Enabled r; nlip_CreatedAt := ""; nlip_UpdatedAt := "" |}).
  split; [|done]. by destruct db as [[] ? ? ? ? ? ? ? ? ?].
Qed.
Lemma when_ranges E org id (b : bool) ranges now db u db' :
  when b (replaceNodePortRanges E org id ranges now) db = Ok (u, db') →
  ∃ f g, db' = with_port_ranges f db ∧ (∀ T, f T =
    if b then replaceRows (λ r, ofNode org id (nrange_OrganizationID r) (nrange_NodeID r)) (imap g ranges) T else T) ∧
    ∀ i r, nrange_OrganizationID (g i r) = org ∧ nrange_NodeID (g i r) = id ∧ nrange_Enabled (g i r) = nrange_Enabled r ∧
           nrange_Protocol (g i r) = nrange_Protocol r ∧ nrange_StartPort (g i r) = nrange_StartPort r ∧
           nrange_EndPort (g i r) = nrange_EndPort r.
Proof.
  destruct b; cbn [when]; intros Hw; [apply exec_ok in Hw as ->; by do 2 eexists|]. tx_inv. exists (λ t, t).
  exists (λ i r, {| nrange_ID := ""; nrange_OrganizationID := org; nrange_NodeID := id; nrange_Protocol := nrange_Protocol r;
    nrange_StartPort := nrange_StartPort r; nrange_EndPort := nrange_EndPort r; nrange_Enabled := nrange_Enabled r;
    nrange_CreatedAt := ""; nrange_UpdatedAt := "" |}).
  split; [|done]. by destruct db as [[] ? ? ? ? ? ? ? ? ?].
Qed.

(** What [UpdateNode] replaces is in [node]; what it leaves was loaded into [node]. *)
Lemma UpdateNode_wrote E node (rg rl rp : bool) listens ranges now db u db' :
  well_named db →
  (if rg then ∀ g, g ∈ node_GroupIDs node → is_Some (live nodeGroupsTable (node_OrganizationID node) g db)
   else node_GroupIDs node = listNodeGroupIDs (node_OrganizationID node) (node_ID node) db) →
  node_ListenIPs node = (if rl then listens else listNodeListenIPs (node_OrganizationID node) (node_ID node) db) →
  node_PortRanges node = (if rp then ranges else listNodePortRanges (node_OrganizationID node) (node_ID node) db) →
  UpdateNode E node rg (node_GroupIDs node) rl listens rp ranges now db = Ok (u, db') →
  ∃ old, live nodesTable (node_OrganizationID node) (node_ID node) db = Some old ∧ wrote_node (updatedNode node old) node db db'.
Proof.
  intros Hwn Hg Hl Hp HU. unfold UpdateNode in HU. tx_inv.
  apply updateRow_ok in E0 as (row & Hlive & ->). exists row. split; [exact Hlive|]. apply findRow_some in Hlive as (Hrow & Ho & Hd).
  pose proof (wn_nodes _ Hwn _ _ Hrow) as Hid. cbn in Hrow, Ho, Hd.
  apply when_groups in E1 as (fg & -> & Hfg). apply when_listens in E2 as (fl & gl & -> & Hfl & Hgl).
  apply exec_ok in E3 as ->. apply when_ranges in HU as (fr & gr & -> & Hfr & Hgr).
  change (node_OrganizationID (updatedNode node row)) with (node_OrganizationID row) in *.
  split; try done; change (node_ID (updatedNode node row)) with (node_ID row);
    change (node_OrganizationID (updatedNode node row)) with (node_OrganizationID row); rewrite ?Ho, ?Hid.
  - reflexivity.
  - intros n Hn. congruence.
  - intros m Hm. change (m ∈ fg (t_node_group_members (db_nodes db))) in Hm.
    rewrite Hfg in Hm. destruct rg; [|by apply (wn_members _ Hwn)].
    eapply member_groups_exist; [exact Hwn|exact Hg|exact Hm].
  - split_and!; [done..|]. apply defaultMaxRulePorts_twice.
  - destruct rg; [eapply groups_written; [done|apply Hfg|done..]|by apply groups_left; [|apply Hfg|]].
  - destruct rl; [|by apply listens_left; [apply Hfl|]]. rewrite Hl. eapply listens_written; [apply Hfl|done].
  - eapply sends_written; [reflexivity|]. done.
  - destruct rp; [|by apply ranges_left; [apply Hfr|]]. rewrite Hp. eapply ranges_written; [apply Hfr|done].
Qed.

Lemma DeleteNode_writes E org id deletedAt db u db' :
  well_named db → deletedAt ≠ "" → DeleteNode E org id deletedAt db = Ok (u, db') → writes_node org id None db db'.
Proof.
  intros Hwn Hne HD. apply updateRow_ok in HD as (row & (Hrow & Ho & Hd)%findRow_some & ->).
  pose proof (wn_nodes _ Hwn _ _ Hrow) as Hid. cbn in Ho. rewrite <-Ho, <-Hid.
  set (row' := row <| node_DeletedAt := deletedAt |> <| node_UpdatedAt := deletedAt |>).
  change (writes_node (node_OrganizationID row') (node_ID row') None db (tbl_with nodesTable <[node_ID row' := row']> db)).
  apply write_node; try done.
  - intros n Hn. change (tbl_rows nodesTable db !! node_ID row = Some n) in Hn. rewrite Hid, Hrow in Hn. by apply (inj Some) in Hn as ->.
  - apply Hwn.
  - change (node_DeletedAt row') with deletedAt. by destruct (String.eqb_spec deletedAt "").
Qed.

(** ** Node groups *)

Definition with_node_groups (f : gmap string NodeGroupRecord → gmap string NodeGroupRecord) : database → database :=
  tbl_with nodeGroupsTable f.

Lemma live_group_ne org k id row db :
  k ≠ id → live nodeGroupsTable org k (with_node_groups <[id := row]> db) = live nodeGroupsTable org k db.
Proof. intros Hne. unfold live, findRow. cbn. by rewrite lookup_insert_ne. Qed.

(** A change of the groups that no live node notices. *)
Lemma quiet_groups f db :
  (well_named db → ∀ id g, f (t_node_groups (db_nodes db)) !! id = Some g → lacks bar id) →
  (∀ id, is_Some (t_node_groups (db_nodes db) !! id) → is_Some (f (t_node_groups (db_nodes db)) !! id)) →
  (∀ org k n, live nodesTable org k db = Some n →
     listNodeGroupIDs org (node_ID n) (with_node_groups f db) = listNodeGroupIDs org (node_ID n) db) →
  quiet db (with_node_groups f db).
Proof.
  intros Hplain Hkeep Hsame. split; [| |intros org; by apply pls_same].
  - intros Hwn. apply (well_named_nodes db); [done..|apply Hwn|by apply Hplain|].
    intros m Hm. by apply Hkeep, (wn_members _ Hwn).
  - intros org c. rewrite !elem_of_caps.
    change (live nodesTable org) with (λ id db, live nodesTable org id db).
    split; intros (k & n & Hn & ->); exists k, n; (split; [exact Hn|]); rewrite !capacity_loaded; unfold capacityAt;
      rewrite (live_owner nodesTable _ _ _ _ Hn : node_OrganizationID n = org), (Hsame org k n) by exact Hn; done.
Qed.

(** A group that nobody can be in yet. *)
Lemma groups_with_new org k id row db :
  well_named db → t_node_groups (db_nodes db) !! id = None →
  listNodeGroupIDs org k (with_node_groups <[id := row]> db) = listNodeGroupIDs org k db.
Proof.
  intros Hwn Hnew. unfold listNodeGroupIDs. do 2 f_equal. apply List.filter_ext_in. intros m Hm%list_elem_of_In.
  f_equal. rewrite live_group_ne; [done|]. intros E0. destruct (wn_members _ Hwn _ Hm) as [r Hr]. congruence.
Qed.
Lemma CreateNodeGroup_quiet E g db u db' :
  well_named db → lacks bar (ngrp_ID g) → CreateNodeGroup E g db = Ok (u, db') → quiet db db'.
Proof.
  intros Hwn Hg [Hnew ->]%insertRow_ok. apply quiet_groups.
  - intros _ id r [[<- _]|[_ Hr]]%lookup_insert_Some; [done|by eapply wn_groups].
  - intros id Hid. apply lookup_insert_is_Some'. by right.
  - intros org k n _. by apply groups_with_new.
Qed.

(** A group that stays live, or that nobody is in. *)
Lemma groups_with_written org id row row' db o k n :
  t_node_groups (db_nodes db) !! id = Some row → ngrp_OrganizationID row = org → ngrp_DeletedAt row = "" →
  ngrp_OrganizationID row' = org →
  (ngrp_DeletedAt row' = "" ∨ ∀ k n, live nodesTable org k db = Some n → id ∉ listNodeGroupIDs org (node_ID n) db) →
  live nodesTable o k db = Some n →
  listNodeGroupIDs o (node_ID n) (with_node_groups <[id := row']> db) = listNodeGroupIDs o (node_ID n) db.
Proof.
  intros Hrow Ho Hd Ho' Hnobody Hn. unfold listNodeGroupIDs. do 2 f_equal. apply List.filter_ext_in. intros m Hm%list_elem_of_In.
  destruct (ofNode _ _ _ _) eqn:Eof; [|done]. cbn [andb].
  destruct (decide (mem_NodeGroupID m = id)) as [Eid|Hne]; [|by rewrite live_group_ne].
  rewrite Eid. unfold live, findRow. cbn. rewrite lookup_insert_eq, Hrow. cbn. rewrite Ho, Ho', Hd.
  destruct (String.eqb_spec org o) as [<-|]; [|done]. destruct Hnobody as [->|Hnobody]; [done|].
  destruct (Hnobody k n Hn). unfold listNodeGroupIDs. apply elem_of_sort, list_elem_of_fmap. exists m.
  split; [done|]. apply elem_of_filterb. split; [done|]. rewrite Eof, Eid. cbn. unfold live, findRow. cbn.
  rewrite Hrow. cbn. by rewrite Ho, Hd, String.eqb_refl.
Qed.
Lemma write_group_quiet org id row row' db :
  t_node_groups (db_nodes db) !! id = Some row → ngrp_OrganizationID row = org → ngrp_DeletedAt row = "" →
  ngrp_OrganizationID row' = org →
  (ngrp_DeletedAt row' = "" ∨ ∀ k n, live nodesTable org k db = Some n → id ∉ listNodeGroupIDs org (node_ID n) db) →
  quiet db (with_node_groups <[id := row']> db).
Proof.
  intros Hrow Ho Hd Ho' Hnobody. apply quiet_groups.
  - intros Hwn k g [[<- _]|[_ Hr]]%lookup_insert_Some; by eapply wn_groups.
  - intros k Hk. apply lookup_insert_is_Some'. by right.
  - intros o k n. by eapply groups_with_written.
Qed.

Lemma UpdateNodeGroup_quiet E g : keeps quiet (UpdateNodeGroup E g).
Proof.
  intros db u db' (row & (Hrow & Ho & Hd)%findRow_some & ->)%updateRow_ok.
  eapply write_group_quiet; [exact Hrow|exact Ho|exact Hd|exact Ho|left; exact Hd].
Qed.
Lemma DeleteNodeGroup_quiet E org id deletedAt db u db' :
  (∀ k n, live nodesTable org k db = Some n → id ∉ listNodeGroupIDs org (node_ID n) db) →
  DeleteNodeGroup E org id deletedAt db = Ok (u, db') → quiet db db'.
Proof.
  intros Hnobody (row & (Hrow & Ho & Hd)%findRow_some & ->)%updateRow_ok.
  eapply write_group_quiet; [exact Hrow|exact Ho|exact Hd|exact Ho|by right].
Qed.

(** ** Statements on tables that no layout reads *)

Lemma quiet_publish E org id addresses now : keeps quiet (ReplaceManualNodeDNSPublishAddresses E org id addresses now).
Proof.
  apply keeps_exec. intros db. split; [| |intros o; by apply pls_same].
  - intros Hwn. apply (well_named_nodes db); [done..|apply Hwn|apply Hwn|apply Hwn].
  - intros o c. by rewrite !elem_of_caps.
Qed.
Lemma quiet_updateOther {A} (T : table A) E org id f :
  (∀ g db, quiet db (tbl_with T g db)) → keeps quiet (updateRow T E org id f).
Proof. intros HT' db u db' (row & _ & ->)%updateRow_ok. apply HT'. Qed.
Lemma quiet_updateWhen {A} (T : table A) E org id cond f :
  (∀ g db, quiet db (tbl_with T g db)) → keeps quiet (updateRowWhen T E org id cond f).
Proof.
  intros HT' db u db'. unfold updateRowWhen. intros Hu. tx_inv. destruct (live T org id db) as [row|]; [|done].
  destruct (cond row); [|done]. apply exec_ok in Hu as ->. apply HT'.
Qed.
Lemma quiet_revokeCredential E org id now : keeps quiet (RevokeCredential E org id now).
Proof. apply quiet_updateWhen. intros g db. by apply quiet_same. Qed.
Lemma quiet_decrementUses E org id now : keeps quiet (DecrementNodeEnrollmentProfileUsedCount E org id now).
Proof. apply quiet_updateOther. intros g db. by apply quiet_same. Qed.
Lemma quiet_dnsEvaluation E record : keeps quiet (UpdateDNSManagedRecordEvaluation E record).
Proof. apply quiet_updateOther. intros g db. by apply quiet_same. Qed.
Lemma quiet_dnsLock E org id : keeps quiet (LockDNSManagedRecordEvaluation E org id).
Proof. by apply keeps_exec. Qed.
End views.

#[export] Hint Resolve UpdateNodeGroup_quiet quiet_publish quiet_revokeCredential quiet_decrementUses quiet_dnsEvaluation
  quiet_dnsLock : keeps.
