(* ===== verification/RulePayload.v ===== *)
(** * Rules as the API shows them (control_rule_helpers.go, control_rule_deployment.go)

    The payload of a rule, with the aggregate of its deployment statuses over
    the nodes of its group. *)

From S2P Require Import Prelude GoString GoInt GoSort Domain ServiceErrors Records ConfigCompiler NodeCoverage RuleInput Authorizer.
#[local] Open Scope Z_scope.

Definition RuleDeploymentAggregateDisabled : string := "DISABLED".
Definition RuleDeploymentStatusPending : string := "PENDING".
Definition RuleDeploymentStatusApplied : string := "APPLIED".
Definition RuleDeploymentStatusFailed : string := "FAILED".
Definition RuleDeploymentAggregateNoNodes : string := "NO_NODES".
Definition RuleDeploymentAggregateDeployFailed : string := "DEPLOY_FAILED".

Record RuleDeploymentNodePayload := {
  dnp_NodeID : string; dnp_NodeName : string; dnp_Status : string; dnp_ErrorCode : string;
  dnp_ErrorMessage : string; dnp_Protocol : string; dnp_ListenIP : string; dnp_Port : Z;
  dnp_ExpectedDataplane : string; dnp_ActualDataplane : string; dnp_Owner : string; dnp_DriftStatus : string;
  dnp_ExternalResource : string; dnp_UpdatedAt : string }.
Record RuleDeploymentPayload := {
  dp_Status : string; dp_Total : Z; dp_Applied : Z; dp_Failed : Z; dp_Pending : Z;
  dp_Nodes : list RuleDeploymentNodePayload }.
Record RulePortSegmentPayload := { psp_StartPort : Z; psp_EndPort : Z }.
Record RuleMatchPayload := { mp_Type : string; mp_SNIHostname : string }.
Record RuleConnectInfoPayload := {
  ci_Protocol : string; ci_ListenPort : Z; ci_ListenIP : string; ci_NodeDescriptions : list string }.
Record RulePayload := {
  rp_ID : string; rp_Name : string; rp_Status : string; rp_Enabled : bool; rp_Tags : list string;
  rp_NodeGroupID : string; rp_ListenIP : string; rp_SendIP : string; rp_FailurePolicy : string;
  rp_DataplanePreference : string; rp_ForwardingType : string; rp_Protocol : string; rp_Port : Z;
  rp_PortSegments : list RulePortSegmentPayload; rp_Match : RuleMatchPayload;
  rp_ProxyProtocol : RuleProxyProtocolInput; rp_Upstream : RuleUpstreamInput; rp_OwnerUserID : string;
  rp_ConfigVersion : Z; rp_ConnectInfo : RuleConnectInfoPayload; rp_Deployment : RuleDeploymentPayload }.

Definition deploymentStatusRank (status : string) : Z :=
  if String.eqb status RuleDeploymentStatusFailed then 0
  else if String.eqb status RuleDeploymentStatusPending then 1
  else if String.eqb status RuleDeploymentStatusApplied then 2 else 3.

(** The turn of the loop for one node; the counters and the details. *)
Definition deploymentNodePayload (deployments : gmap string RuleDeploymentRecord) (node : NodeRecord)
    : RuleDeploymentNodePayload :=
  match deployments !! node_ID node with
  | None => {| dnp_NodeID := node_ID node; dnp_NodeName := node_Name node; dnp_Status := RuleDeploymentStatusPending;
               dnp_ErrorCode := ""; dnp_ErrorMessage := ""; dnp_Protocol := ""; dnp_ListenIP := ""; dnp_Port := 0;
               dnp_ExpectedDataplane := ""; dnp_ActualDataplane := ""; dnp_Owner := ""; dnp_DriftStatus := "";
               dnp_ExternalResource := ""; dnp_UpdatedAt := "" |}
  | Some d => {| dnp_NodeID := node_ID node; dnp_NodeName := node_Name node; dnp_Status := dep_Status d;
               dnp_ErrorCode := dep_ErrorCode d; dnp_ErrorMessage := dep_ErrorMessage d;
               dnp_Protocol := dep_Protocol d; dnp_ListenIP := dep_ListenIP d; dnp_Port := dep_Port d;
               dnp_ExpectedDataplane := dep_ExpectedDataplane d; dnp_ActualDataplane := dep_ActualDataplane d;
               dnp_Owner := dep_Owner d; dnp_DriftStatus := dep_DriftStatus d;
               dnp_ExternalResource := dep_ExternalResource d; dnp_UpdatedAt := dep_UpdatedAt d |}
  end.

Definition countStep (payload : RuleDeploymentPayload) (node : RuleDeploymentNodePayload) (includeNodeDetails : bool)
    : RuleDeploymentPayload := {|
  dp_Status := dp_Status payload; dp_Total := dp_Total payload;
  dp_Applied := if String.eqb (dnp_Status node) RuleDeploymentStatusApplied then dp_Applied payload + 1
                else dp_Applied payload;
  dp_Failed := if String.eqb (dnp_Status node) RuleDeploymentStatusApplied then dp_Failed payload
               else if String.eqb (dnp_Status node) RuleDeploymentStatusFailed then dp_Failed payload + 1
               else dp_Failed payload;
  dp_Pending := if String.eqb (dnp_Status node) RuleDeploymentStatusApplied
                   || String.eqb (dnp_Status node) RuleDeploymentStatusFailed
                then dp_Pending payload else dp_Pending payload + 1;
  dp_Nodes := if includeNodeDetails then dp_Nodes payload ++ [node] else dp_Nodes payload |}.

Definition nodePayloadBefore (x y : RuleDeploymentNodePayload) : bool :=
  if negb (String.eqb (dnp_Status x) (dnp_Status y))
  then deploymentStatusRank (dnp_Status x) <? deploymentStatusRank (dnp_Status y)
  else String.ltb (dnp_NodeName x) (dnp_NodeName y).

Definition aggregateStatus (payload : RuleDeploymentPayload) : string :=
  if dp_Total payload =? 0 then RuleDeploymentAggregateNoNodes
  else if 0 <? dp_Failed payload then RuleDeploymentAggregateDeployFailed
  else if 0 <? dp_Pending payload then RuleDeploymentStatusPending
  else RuleDeploymentStatusApplied.

Definition ruleDeployments (rule : RuleRecord) (deployments : list RuleDeploymentRecord)
    : gmap string RuleDeploymentRecord :=
  foldl (λ m d, if String.eqb (dep_RuleID d) (rrec_ID rule) then <[dep_NodeID d := d]> m else m) ∅ deployments.

Definition ruleDeploymentPayload (rule : RuleRecord) (nodes : list NodeRecord) (deployments : list RuleDeploymentRecord)
    (includeNodeDetails : bool) : RuleDeploymentPayload :=
  if negb (rrec_Enabled rule) then
    {| dp_Status := RuleDeploymentAggregateDisabled; dp_Total := 0; dp_Applied := 0; dp_Failed := 0; dp_Pending := 0;
       dp_Nodes := [] |}
  else
    let deploymentsByNode := ruleDeployments rule deployments in
    let payload := foldl (λ payload node,
        countStep payload (deploymentNodePayload deploymentsByNode node) includeNodeDetails)
      {| dp_Status := RuleDeploymentAggregateNoNodes; dp_Total := Z.of_nat (length nodes); dp_Applied := 0;
         dp_Failed := 0; dp_Pending := 0; dp_Nodes := [] |} nodes in
    {| dp_Status := aggregateStatus payload; dp_Total := dp_Total payload; dp_Applied := dp_Applied payload;
       dp_Failed := dp_Failed payload; dp_Pending := dp_Pending payload;
       dp_Nodes := sort_stable nodePayloadBefore (dp_Nodes payload) |}.

Section payload.
Context `{UnicodeTables}.

Definition toRulePortSegmentPayloads (segments : list InboundBindingPortSegmentRecord) : list RulePortSegmentPayload :=
  map (λ s, {| psp_StartPort := bseg_StartPort s; psp_EndPort := bseg_EndPort s |}) segments.

Definition toRulePayloadWithDeploymentDetails (rule : RuleRecord) (nodes : list NodeRecord)
    (deployments : list RuleDeploymentRecord) (includeDeploymentNodeDetails : bool) : RulePayload :=
  let b := rrec_Binding rule in
  let descriptions := sort_stable String.ltb (List.filter (λ d, negb (String.eqb (TrimSpace d) ""))
                        (map node_PublicDescription nodes)) in
  {| rp_ID := rrec_ID rule; rp_Name := rrec_Name rule; rp_Status := rrec_Status rule; rp_Enabled := rrec_Enabled rule;
     rp_Tags := rrec_Tags rule; rp_NodeGroupID := bind_NodeGroupID b; rp_ListenIP := bind_ListenIP b;
     rp_SendIP := rrec_SendIP rule; rp_FailurePolicy := defaultFailurePolicy (rrec_FailurePolicy rule);
     rp_DataplanePreference := defaultDataplanePreference (rrec_DataplanePreference rule);
     rp_ForwardingType := defaultForwardingType (rrec_ForwardingType rule); rp_Protocol := rrec_Protocol rule;
     rp_Port := bind_Port b; rp_PortSegments := toRulePortSegmentPayloads (rulePortSegments b);
     rp_Match := {| mp_Type := rrec_MatchType rule; mp_SNIHostname := rrec_SNIHostname rule |};
     rp_ProxyProtocol := {| mproxy_In := rrec_ProxyProtocolIn rule; mproxy_Out := rrec_ProxyProtocolOut rule |};
     rp_Upstream := {| mup_Type := rrec_TargetType rule; mup_TargetID := rrec_TargetID rule;
                       mup_TargetGroupID := rrec_TargetGroupID rule |};
     rp_OwnerUserID := rrec_OwnerUserID rule; rp_ConfigVersion := rrec_ConfigVersion rule;
     rp_ConnectInfo := {| ci_Protocol := rrec_Protocol rule; ci_ListenPort := bind_Port b; ci_ListenIP := bind_ListenIP b;
                          ci_NodeDescriptions := descriptions |};
     rp_Deployment := ruleDeploymentPayload rule nodes deployments includeDeploymentNodeDetails |}.

Definition toRulePayloadForIdentity `{Authorizer} (identity : InternalIdentity) (rule : RuleRecord)
    (nodes : list NodeRecord) (deployments : list RuleDeploymentRecord) : RulePayload :=
  toRulePayloadWithDeploymentDetails rule nodes deployments
    (canReadRuleDeploymentNodes identity (bind_NodeGroupID (rrec_Binding rule))).
End payload.

(** ** The aggregate of a deployment *)

(** The status of a rule on a node. *)
Definition statusOn (rule : RuleRecord) (deployments : list RuleDeploymentRecord) (node : NodeRecord) : string :=
  dnp_Status (deploymentNodePayload (ruleDeployments rule deployments) node).

Definition countOf (f : NodeRecord → bool) (nodes : list NodeRecord) : Z := Z.of_nat (length (List.filter f nodes)).

Lemma countOf_snoc f l n : countOf f (l ++ [n]) = countOf f l + if f n then 1 else 0.
Proof. unfold countOf. rewrite List.filter_app, length_app. cbn. destruct (f n); cbn; lia. Qed.
Lemma countOf_zero f l : countOf f l = 0 ↔ ∀ n, n ∈ l → f n = false.
Proof.
  unfold countOf. split.
  - intros E n Hn. destruct (f n) eqn:Ef; [|done].
    assert (n ∈ List.filter f l) as Hin by by apply elem_of_filterb. destruct (List.filter f l); [by apply not_elem_of_nil in Hin|done].
  - intros Hf. destruct (List.filter f l) as [|n k] eqn:E; [done|].
    assert (n ∈ List.filter f l) as [Hn Ht]%elem_of_filterb by (rewrite E; left). by rewrite Hf in Ht.
Qed.

Lemma deployment_counts rule deployments nodes details p0 :
  dp_Applied p0 = 0 → dp_Failed p0 = 0 → dp_Pending p0 = 0 →
  let p := foldl (λ payload node, countStep payload (deploymentNodePayload (ruleDeployments rule deployments) node) details)
             p0 nodes in
  dp_Total p = dp_Total p0 ∧
  dp_Applied p = countOf (λ n, String.eqb (statusOn rule deployments n) RuleDeploymentStatusApplied) nodes ∧
  dp_Failed p = countOf (λ n, String.eqb (statusOn rule deployments n) RuleDeploymentStatusFailed) nodes ∧
  dp_Pending p = countOf (λ n, negb (String.eqb (statusOn rule deployments n) RuleDeploymentStatusApplied
                                     || String.eqb (statusOn rule deployments n) RuleDeploymentStatusFailed)) nodes.
Proof.
  intros Ha Hf Hp. cbv zeta. induction nodes as [|n l IH] using rev_ind; [done|].
  rewrite foldl_app. cbn [foldl]. destruct IH as (IH1 & IH2 & IH3 & IH4).
  rewrite !countOf_snoc, <-IH2, <-IH3, <-IH4. cbn [countStep dp_Total dp_Applied dp_Failed dp_Pending].
  fold (statusOn rule deployments n).
  destruct (String.eqb (statusOn rule deployments n) RuleDeploymentStatusApplied) eqn:Ea; cbn [negb orb].
  - rewrite (proj2 (String.eqb_neq (statusOn rule deployments n) RuleDeploymentStatusFailed));
      [split_and!; [done|lia..]|]. by apply String.eqb_eq in Ea as ->.
  - destruct (String.eqb _ RuleDeploymentStatusFailed); cbn [negb]; split_and!; try done; lia.
Qed.

(** Every node is counted once. *)
Lemma countOf_partition (a f : NodeRecord → bool) l :
  (∀ n, a n = true → f n = false) →
  countOf a l + countOf f l + countOf (λ n, negb (a n || f n)) l = Z.of_nat (length l).
Proof.
  intros Hex. induction l as [|n l IH] using rev_ind; [done|].
  rewrite !countOf_snoc, length_app. cbn [length]. specialize (Hex n).
  destruct (a n), (f n); cbn; first [lia | by specialize (Hex eq_refl)].
Qed.
Lemma countOf_pos f l : 0 < countOf f l ↔ ∃ n, n ∈ l ∧ f n = true.
Proof.
  split.
  - intros Hp. unfold countOf in Hp. destruct (List.filter f l) as [|n k] eqn:E; [cbn in Hp; lia|].
    exists n. apply elem_of_filterb. rewrite E. left.
  - intros (n & Hn & Hf). destruct (decide (countOf f l = 0)) as [E|]; [|unfold countOf in *; lia].
    rewrite countOf_zero in E. by rewrite (E n Hn) in Hf.
Qed.

Lemma not_all_counted (a : NodeRecord → bool) l :
  (∃ n, n ∈ l ∧ a n = false) ↔ countOf a l < Z.of_nat (length l).
Proof.
  induction l as [|n l IH] using rev_ind.
  { split; [intros (n & []%elem_of_nil & _)|unfold countOf; cbn; lia]. }
  assert (countOf a l <= Z.of_nat (length l)) by (unfold countOf; pose proof (filter_length_le a l); lia).
  rewrite countOf_snoc, length_app. cbn [length]. destruct (a n) eqn:E.
  - transitivity (∃ n, n ∈ l ∧ a n = false); [|rewrite IH; lia].
    split; intros (m & Hm & Em); exists m; [|rewrite elem_of_app; by auto].
    apply elem_of_app in Hm as [?| ->%list_elem_of_singleton]; [done|by rewrite E in Em].
  - split; [intros _; lia|]. intros _. exists n. rewrite elem_of_app, list_elem_of_singleton. by auto.
Qed.

(** C35. The deployment status of an enabled rule is the worst of its nodes:
    DEPLOY_FAILED when some node failed, otherwise PENDING when some node has
    not applied it, APPLIED when all of them have, NO_NODES when there are
    none; the three counters add up to the number of nodes.  A disabled rule
    shows DISABLED and no nodes. *)
Theorem ruleDeploymentPayload_spec rule nodes deployments details :
  let p := ruleDeploymentPayload rule nodes deployments details in
  let failed := ∃ n, n ∈ nodes ∧ statusOn rule deployments n = RuleDeploymentStatusFailed in
  let unapplied := ∃ n, n ∈ nodes ∧ statusOn rule deployments n ≠ RuleDeploymentStatusApplied in
  if rrec_Enabled rule then
    dp_Applied p + dp_Failed p + dp_Pending p = dp_Total p ∧ dp_Total p = Z.of_nat (length nodes) ∧
    (dp_Status p = RuleDeploymentAggregateNoNodes ↔ nodes = []) ∧
    (dp_Status p = RuleDeploymentAggregateDeployFailed ↔ failed) ∧
    (dp_Status p = RuleDeploymentStatusPending ↔ ¬ failed ∧ unapplied) ∧
    (dp_Status p = RuleDeploymentStatusApplied ↔ nodes ≠ [] ∧ ¬ unapplied)
  else dp_Status p = RuleDeploymentAggregateDisabled ∧ dp_Nodes p = [].
Proof.
  cbv zeta. unfold ruleDeploymentPayload. destruct (rrec_Enabled rule); cbn [negb]; [|done].
  cbn [dp_Status dp_Total dp_Applied dp_Failed dp_Pending].
  edestruct (deployment_counts rule deployments nodes details) as (Ht & Ha & Hf & Hp);
    [..|rewrite Ht, Ha, Hf, Hp; unfold aggregateStatus; rewrite Ht, Hf, Hp]; [reflexivity..|].
  set (a := λ n, String.eqb (statusOn rule deployments n) RuleDeploymentStatusApplied).
  set (f := λ n, String.eqb (statusOn rule deployments n) RuleDeploymentStatusFailed).
  assert (countOf a nodes + countOf f nodes + countOf (λ n, negb (a n || f n)) nodes = Z.of_nat (length nodes)) as Hsum.
  { apply countOf_partition. unfold a, f. intros n E%String.eqb_eq. by rewrite E. }
  assert ((∃ n, n ∈ nodes ∧ statusOn rule deployments n = RuleDeploymentStatusFailed) ↔ 0 < countOf f nodes) as ->.
  { rewrite countOf_pos. unfold f. by setoid_rewrite String.eqb_eq. }
  assert ((∃ n, n ∈ nodes ∧ statusOn rule deployments n ≠ RuleDeploymentStatusApplied) ↔
          countOf a nodes < Z.of_nat (length nodes)) as ->.
  { rewrite <-(not_all_counted a). unfold a. by setoid_rewrite String.eqb_neq. }
  assert (nodes = [] ↔ Z.of_nat (length nodes) = 0) as -> by (destruct nodes; cbn; split; intros; try done; lia).
  assert (0 <= countOf a nodes ∧ 0 <= countOf f nodes ∧ 0 <= countOf (λ n, negb (a n || f n)) nodes) as Hpos
    by (unfold countOf; lia).
  change (countOf (λ n, negb (String.eqb _ _ || String.eqb _ _)) nodes) with (countOf (λ n, negb (a n || f n)) nodes).
  split; [done|]. split; [done|].
  clearbody a f. unfold RuleDeploymentAggregateNoNodes, RuleDeploymentAggregateDeployFailed, RuleDeploymentStatusPending,
    RuleDeploymentStatusApplied. cbn [dp_Total].
  destruct (Z.eqb_spec (Z.of_nat (length nodes)) 0); [split_and!; split; intros; first [lia | done | discriminate]|].
  destruct (Z.ltb_spec 0 (countOf f nodes)); [split_and!; split; intros; first [lia | done | discriminate]|].
  destruct (Z.ltb_spec 0 (countOf (λ n, negb (a n || f n)) nodes)); split_and!; split; intros; first [lia | done | discriminate].
Qed.
