(* ===== verification/ControlService.v ===== *)
(** * The frame of the control-plane services (control.go, control_session_oss.go)

    Every operation of the services is a transaction whose error is mapped by
    [mapServiceError], and most of them end by writing the audit log.  With
    them are the helpers that several services share: the nodes of a group and
    the new configuration version for all of them. *)

From S2P Require Import Prelude GoString Domain ServiceErrors Records ValidatorBase NodeCoverage Authorizer Transaction Database GoSort RuleStore.
#[local] Open Scope Z_scope.

Record auditInput := {
  ai_OrganizationID : string; ai_ActorUserID : string; ai_Action : string; ai_ResourceType : string;
  ai_ResourceID : string; ai_Roles : list string; ai_Permissions : list string; ai_SourceIP : string }.

Definition auditForIdentity (identity : InternalIdentity) (action resourceType resourceID sourceIP : string) : auditInput := {|
  ai_OrganizationID := id_OrganizationID identity; ai_ActorUserID := id_UserID identity; ai_Action := action;
  ai_ResourceType := resourceType; ai_ResourceID := resourceID; ai_Roles := id_Roles identity;
  ai_Permissions := id_Permissions identity;
  ai_SourceIP := if String.eqb sourceIP "" then id_SourceIP identity else sourceIP |}.

(** The JSON columns hold the lists that they denote. *)
Definition writeAudit (E : callEnv) (input : auditInput) : tx database () :=
  CreateAuditLog E {|
    aud_ID := env_auditID E; aud_OrganizationID := ai_OrganizationID input; aud_ActorUserID := ai_ActorUserID input;
    aud_ActorRolesJSON := ai_Roles input; aud_ActorPermissionsJSON := ai_Permissions input;
    aud_Action := ai_Action input; aud_ResourceType := ai_ResourceType input;
    aud_ResourceID := ai_ResourceID input; aud_Result := "SUCCESS"; aud_ErrorMessage := "";
    aud_MetadataJSON := "{}"; aud_SourceIP := ai_SourceIP input; aud_CreatedAt := env_auditNow E |}.

(** [err := service.store.WithinTx(...); return result, mapServiceError(err)] *)
Definition serve {A} (m : tx database A) (db : database) : result serviceError A * database :=
  let '(r, db') := WithinTx m db in (map_err (λ e, default e (mapServiceError (Some e))) r, db').

(** A reply without touching the database. *)
Definition refuse {A} (e : serviceError) (db : database) : result serviceError A * database := (Err e, db).

Definition nodesInGroup (organizationID nodeGroupID : string) : tx database (list NodeRecord) :=
  nodes ← ListNodesByOrganization organizationID; mret (nodesInGroupFromSet nodes nodeGroupID).

Section versions.
Context `{UnicodeTables}.

Definition bumpDesiredConfigForNodeGroup (E : callEnv) (organizationID nodeGroupID now : string) : tx database () :=
  if String.eqb nodeGroupID "" then mret tt else IncrementDesiredConfigForNodeGroup E organizationID nodeGroupID now.
(** The groups are the keys of a Go map, in any order. *)
Definition bumpDesiredConfigForNodeGroups (E : callEnv) (organizationID : string) (nodeGroups : gset string) (now : string)
    : tx database () :=
  each (λ g, bumpDesiredConfigForNodeGroup E organizationID g now) (elements nodeGroups).
End versions.

#[export] Hint Unfold found FindOrganizationByID ListQuotasByOrganization ListNodeGroupsByOrganization FindNodeGroupByID
  ListNodesByOrganization FindNodeByID ListTargetsByOrganization FindTargetByID ListTargetGroupsByOrganization
  FindTargetGroupByID ListRulesByOrganization FindRuleByID ListEnabledInboundBindings CountRulesByOrganization
  CountRulesByOwner ListRuleDeploymentsByOrganization nodesInGroup : reads.

(** ** What the frame promises *)

Lemma found_ok {A} (o : option A) db a db' : found o db = Ok (a, db') ↔ o = Some a ∧ db' = db.
Proof. unfold found. destruct o; [rewrite ret_ok; naive_solver|by split; [|intros [? ?]]]. Qed.
Lemma FindNodeGroupByID_ok org id db g db' :
  FindNodeGroupByID org id db = Ok (g, db') → live nodeGroupsTable org id db = Some g ∧ db' = db.
Proof. unfold FindNodeGroupByID. intros Hf. tx_inv. by apply found_ok in Hf as [-> ->]. Qed.
Lemma FindRuleByID_ok `{UnicodeTables} org id db r db' :
  FindRuleByID org id db = Ok (r, db') →
  db' = db ∧ ∃ row, live rulesTable org id db = Some row ∧ loadRule db row = Some r.
Proof.
  unfold FindRuleByID. intros Hf. tx_inv. apply found_ok in Hf as [Hf ->]. split; [done|]. by apply bind_Some in Hf.
Qed.

(** An operation that fails leaves the database as it was. *)
Lemma serve_err {A} (m : tx database A) db e db' : serve m db = (Err e, db') → db' = db.
Proof. unfold serve, WithinTx. destruct (m db) as [[a s]|?]; cbn; by intros [= _ ->] || by intros [= ?]. Qed.
Lemma serve_ok {A} (m : tx database A) db a db' : serve m db = (Ok a, db') ↔ m db = Ok (a, db').
Proof.
  unfold serve, WithinTx. destruct (m db) as [[b s]|?]; cbn; [|done].
  by split; intros [= -> ->].
Qed.
(** A property of databases that the successful runs keep is kept. *)
Lemma serve_keeps {A} (P : database → Prop) (m : tx database A) db :
  triple P m (λ _, P) → P db → P (serve m db).2.
Proof.
  intros Hm Hdb. unfold serve, WithinTx. destruct (m db) as [[a s]|?] eqn:E; cbn; [|done]. by eapply Hm.
Qed.

Lemma nodesInGroup_ok org g nodes db db' :
  nodesInGroup org g db = Ok (nodes, db') →
  db' = db ∧ nodes = nodesInGroupFromSet (map (loadNodeDetails db) (sort_stable (text2 node_Name node_ID) (lives nodesTable org db))) g.
Proof. unfold nodesInGroup, ListNodesByOrganization. intros Hn. by tx_inv. Qed.
