(* ===== verification/DnsInputs.v ===== *)
(** * What operations change of what DNS policies see

    Most statements change nothing that an evaluation sees ([unseen]); the
    statements on one node change what is seen of that node ([touches]). *)

From S2P Require Import Prelude GoString GoFloat GoJson GoSort GoNet Domain ServiceErrors Records ValidatorBase NodeCoverage Authorizer Transaction Database RuleStore AgentStore DnsStore DnsMarking DnsEvaluation MonitorStore PresenceStore NodePayload Layout StoreLayout DnsWalk DnsFreshness NodeLayout ControlService.
From coqutil Require Import Datatypes.RecordSetters.
Import TriangleBracketNotations.
#[local] Open Scope Z_scope.

Section inputs.
Context `{UnicodeTables}.

(** ** The input of a node, by the tables *)

Definition groupsAt (org id : string) (db : database) : gset string := list_to_set (listNodeGroupIDs org id db).
Definition addressesAt (org id : string) (db : database) : gset (string * string) :=
  list_to_set (map (λ a, (ndns_AddressType a, ndns_Address a)) (List.filter ndns_Enabled (ListNodeDNSPublishAddresses org id db))).
Definition inputAt (org id : string) (db : database) (row : NodeRecord) : nodeInput :=
  (upperStatus row, groupsAt org id db, addressesAt org id db).

Lemma lookup_inputs org id db : dnsInputs org db !! id =
  (λ row, inputAt (node_OrganizationID row) (node_ID row) db row) <$> live nodesTable org id db.
Proof.
  unfold dnsInputs, live, findRow. rewrite lookup_omap. cbn [tbl_rows tbl_owner tbl_deleted nodesTable].
  destruct (t_nodes (db_nodes db) !! id) as [row|]; cbn; [|done]. by destruct (_ && _).
Qed.

(** The rows of the nodes bear their keys. *)
Definition keyed (db : database) : Prop := ∀ id n, t_nodes (db_nodes db) !! id = Some n → node_ID n = id.

Lemma inputs_at org id db : keyed db → dnsInputs org db !! id = inputAt org id db <$> live nodesTable org id db.
Proof.
  intros Hk. rewrite lookup_inputs. destruct (live nodesTable org id db) as [row|] eqn:El; [|done]. cbn.
  apply findRow_some in El as (Hr & Ho & _). cbn in Hr, Ho. by rewrite Ho, (Hk _ _ Hr).
Qed.

(** Inputs are the same when the rows and the parts are. *)
Definition sameSeen (x y : NodeRecord) : Prop :=
  node_ID y = node_ID x ∧ node_OrganizationID y = node_OrganizationID x ∧ node_DeletedAt y = node_DeletedAt x ∧
  upperStatus y = upperStatus x.
Definition sameParts (org id : string) (db db' : database) : Prop :=
  groupsAt org id db' = groupsAt org id db ∧ addressesAt org id db' = addressesAt org id db.

Lemma sameSeen_refl x : sameSeen x x.
Proof. done. Qed.
Lemma inputs_same org id db db' :
  option_Forall2 sameSeen (t_nodes (db_nodes db) !! id) (t_nodes (db_nodes db') !! id) →
  (∀ row, live nodesTable org id db = Some row → sameParts org (node_ID row) db db') →
  dnsInputs org db' !! id = dnsInputs org db !! id.
Proof.
  intros Hrow Hparts. rewrite !lookup_inputs. unfold live, findRow in *. cbn [tbl_rows tbl_owner tbl_deleted nodesTable] in *.
  destruct Hrow as [x y (Eid & Eo & Ed & Es)|]; cbn in *; [|done]. rewrite Eo, Ed.
  destruct (String.eqb_spec (node_OrganizationID x) org) as [<-|]; cbn in *; [|done]. destruct (String.eqb _ ""); cbn in *; [|done].
  destruct (Hparts x eq_refl) as [Eg Ea]. unfold inputAt. by rewrite Eid, Eo, Es, Eg, Ea.
Qed.
Lemma unseen_inputs db db' :
  db_dns db' = db_dns db →
  (∀ id, option_Forall2 sameSeen (t_nodes (db_nodes db) !! id) (t_nodes (db_nodes db') !! id)) →
  (∀ org id row, live nodesTable org id db = Some row → sameParts org (node_ID row) db db') → unseen db db'.
Proof.
  intros Hd Hr Hp. split; [done|]. intros org. apply map_eq. intros id. apply inputs_same; [done|]. intros row. apply Hp.
Qed.

(** The tables that the parts come from. *)
Lemma sameParts_tables org id db db' :
  t_node_groups (db_nodes db') = t_node_groups (db_nodes db) →
  t_node_group_members (db_nodes db') = t_node_group_members (db_nodes db) →
  t_dns_publish_addresses (db_nodes db') = t_dns_publish_addresses (db_nodes db) → sameParts org id db db'.
Proof.
  intros Hg Hm Ha. unfold sameParts, groupsAt, addressesAt, listNodeGroupIDs, ListNodeDNSPublishAddresses, live.
  cbn [tbl_rows nodeGroupsTable]. by rewrite Hg, Hm, Ha.
Qed.
Lemma unseen_tables db db' :
  db_dns db' = db_dns db → t_nodes (db_nodes db') = t_nodes (db_nodes db) →
  t_node_groups (db_nodes db') = t_node_groups (db_nodes db) →
  t_node_group_members (db_nodes db') = t_node_group_members (db_nodes db) →
  t_dns_publish_addresses (db_nodes db') = t_dns_publish_addresses (db_nodes db) → unseen db db'.
Proof.
  intros Hd Hn Hg Hm Ha. apply unseen_inputs; [done| |].
  - intros id. rewrite Hn. by destruct (_ !! id); constructor.
  - intros org id row _. by apply sameParts_tables.
Qed.
Lemma unseen_same db db' : db_dns db' = db_dns db → db_nodes db' = db_nodes db → unseen db db'.
Proof. intros Hd Hn. apply unseen_tables; by rewrite ?Hn. Qed.

(** ** Statements that change nothing *)

Lemma unseen_exec refuse f : (∀ db, db_dns (f db) = db_dns db ∧ db_nodes (f db) = db_nodes db) → keeps unseen (exec refuse f).
Proof. intros Hf. apply keeps_exec. intros db. apply unseen_same; apply Hf. Qed.
Lemma unseen_exec_nodes refuse f :
  (∀ db, db_dns (f db) = db_dns db ∧ t_nodes (db_nodes (f db)) = t_nodes (db_nodes db) ∧
    t_node_groups (db_nodes (f db)) = t_node_groups (db_nodes db) ∧
    t_node_group_members (db_nodes (f db)) = t_node_group_members (db_nodes db) ∧
    t_dns_publish_addresses (db_nodes (f db)) = t_dns_publish_addresses (db_nodes db)) → keeps unseen (exec refuse f).
Proof. intros Hf. apply keeps_exec. intros db. destruct (Hf db) as (? & ? & ? & ? & ?). by apply unseen_tables. Qed.

(** A table of which evaluations see nothing. *)
Definition hidden {A} (T : table A) : Prop :=
  ∀ f db, db_dns (tbl_with T f db) = db_dns db ∧ db_nodes (tbl_with T f db) = db_nodes db.
Lemma hidden_unseen {A} (T : table A) f db : hidden T → unseen db (tbl_with T f db).
Proof. intros HT. apply unseen_same; apply HT. Qed.
Lemma unseen_insertRow {A} (T : table A) E id row : hidden T → keeps unseen (insertRow T E id row).
Proof. intros HT db u db' [_ ->]%insertRow_ok. by apply hidden_unseen. Qed.
Lemma unseen_updateRow {A} (T : table A) E org id f : hidden T → keeps unseen (updateRow T E org id f).
Proof. intros HT db u db' (row & _ & ->)%updateRow_ok. by apply hidden_unseen. Qed.
Lemma unseen_updateRowWhen {A} (T : table A) E org id cond f : hidden T → keeps unseen (updateRowWhen T E org id cond f).
Proof.
  intros HT db u db'. unfold updateRowWhen. intros Hu. tx_inv. destruct (live T org id _) as [row|]; [|done].
  destruct (cond row); [|done]. apply exec_ok in Hu as ->. by apply hidden_unseen.
Qed.

(** A node in columns that are not seen. *)
Definition keepsSeen (f : NodeRecord → NodeRecord) : Prop := ∀ n, sameSeen n (f n).
Lemma keepsSeen_if (c : NodeRecord → bool) f g : keepsSeen f → keepsSeen g → keepsSeen (λ n, if c n then f n else g n).
Proof. intros Hf Hg n. destruct (c n); [apply Hf|apply Hg]. Qed.
Lemma unseen_node_rows f db :
  (∀ id, option_Forall2 sameSeen (t_nodes (db_nodes db) !! id) (f (t_nodes (db_nodes db)) !! id)) →
  unseen db (tbl_with nodesTable f db).
Proof. intros Hf. apply unseen_inputs; [done|done|]. intros org id row _. by apply sameParts_tables. Qed.
Lemma unseen_node_row id row row' db :
  t_nodes (db_nodes db) !! id = Some row → sameSeen row row' → unseen db (tbl_with nodesTable <[id := row']> db).
Proof.
  intros Hr Hs. apply unseen_node_rows. intros k. destruct (decide (k = id)) as [->|Hne].
  - rewrite lookup_insert_eq, Hr. by constructor.
  - rewrite lookup_insert_ne by done. by destruct (_ !! k); constructor.
Qed.
Lemma unseen_updateNode E org id f : keepsSeen f → keeps unseen (updateRow nodesTable E org id f).
Proof. intros Hf db u db' (row & (Hr & _)%findRow_some & ->)%updateRow_ok. by eapply unseen_node_row. Qed.
Lemma unseen_updateNodeIfAny E org id f : keepsSeen f → keeps unseen (updateRowIfAny nodesTable E org id f).
Proof. intros Hf db u db' [->|(row & (Hr & _)%findRow_some & ->)]%updateRowIfAny_ok; [done|]. by eapply unseen_node_row. Qed.
Lemma unseen_incrementGroup E org group now : keeps unseen (IncrementDesiredConfigForNodeGroup E org group now).
Proof.
  apply keeps_exec. intros db. apply unseen_node_rows. intros id. rewrite lookup_fmap.
  destruct (_ !! id) as [n|]; constructor. by destruct (_ && _).
Qed.

(** ** Statements on one node *)

Record touches (org nid : string) (db db' : database) : Prop := {
  to_dns : db_dns db' = db_dns db;
  to_keyed : keyed db → keyed db';
  to_other o k : keyed db → o ≠ org ∨ k ≠ nid → dnsInputs o db' !! k = dnsInputs o db !! k }.
#[export] Instance touches_preorder org nid : PreOrder (touches org nid).
Proof.
  split; [done|]. intros a b c [D K O] [D' K' O']. split; [congruence|by auto|].
  intros o k Hk Ho. rewrite O' by auto. by apply O.
Qed.

Lemma touches_intro org nid db db' :
  db_dns db' = db_dns db → (keyed db → keyed db') →
  (∀ o k, o ≠ org ∨ k ≠ nid → live nodesTable o k db' = live nodesTable o k db ∧
     (is_Some (live nodesTable o k db) → sameParts o k db db')) →
  touches org nid db db'.
Proof.
  intros Hd Hk Ho. split; [done..|]. intros o k Hkeyed Hne. rewrite !inputs_at by auto. destruct (Ho o k Hne) as [-> Hp].
  destruct (live nodesTable o k db) as [row|]; [|done]. cbn. destruct Hp as [Eg Ea]; [by eexists|].
  unfold inputAt. by rewrite Eg, Ea.
Qed.

(** The row of the node. *)
Lemma live_elsewhere o k id row db :
  (∀ n, t_nodes (db_nodes db) !! id = Some n → node_OrganizationID n = node_OrganizationID row) →
  o ≠ node_OrganizationID row ∨ k ≠ id →
  live nodesTable o k (tbl_with nodesTable <[id := row]> db) = live nodesTable o k db.
Proof.
  intros Hown Hne. unfold live, findRow. cbn [tbl_rows tbl_owner tbl_deleted nodesTable].
  change (t_nodes (db_nodes (tbl_with nodesTable <[id := row]> db))) with (<[id := row]> (t_nodes (db_nodes db))).
  destruct (decide (k = id)) as [->|Hk]; [|by rewrite lookup_insert_ne]. destruct Hne as [Ho|]; [|done].
  rewrite lookup_insert_eq. cbn. destruct (String.eqb_spec (node_OrganizationID row) o) as [|Hno]; [congruence|]. cbn.
  destruct (t_nodes (db_nodes db) !! id) as [n|] eqn:En; cbn; [|done]. rewrite (Hown n eq_refl).
  by destruct (String.eqb_spec (node_OrganizationID row) o).
Qed.
Lemma touches_row row db :
  (∀ n, t_nodes (db_nodes db) !! node_ID row = Some n → node_OrganizationID n = node_OrganizationID row) →
  touches (node_OrganizationID row) (node_ID row) db (tbl_with nodesTable <[node_ID row := row]> db).
Proof.
  intros Hown. apply touches_intro; [done| |].
  - intros Hk id n. cbn. intros [[<- <-]|[_ Hn]]%lookup_insert_Some; [done|by apply Hk].
  - intros o k Hne. split; [by apply live_elsewhere|]. intros _. by apply sameParts_tables.
Qed.
Lemma touches_updateRow E org id f db u db' :
  (∀ n, node_ID (f n) = node_ID n ∧ node_OrganizationID (f n) = node_OrganizationID n) →
  keyed db → updateRow nodesTable E org id f db = Ok (u, db') →
  touches org id db db' ∧ ∃ row, live nodesTable org id db = Some row ∧ db' = tbl_with nodesTable <[id := f row]> db.
Proof.
  intros Hf Hk (row & Hl & ->)%updateRow_ok. split; [|by exists row]. apply findRow_some in Hl as (Hr & Ho & _). cbn in Hr, Ho.
  destruct (Hf row) as [Eid Eo]. pose proof (Hk _ _ Hr) as Hid. rewrite <-Ho, <-Eo, <-Hid, <-Eid. apply touches_row.
  intros n. rewrite Eid, Hid, Hr. by intros [= <-].
Qed.
Lemma updated_live org id f row db :
  (∀ n, node_ID (f n) = node_ID n ∧ node_OrganizationID (f n) = node_OrganizationID n) →
  live nodesTable org id db = Some row →
  live nodesTable org id (tbl_with nodesTable <[id := f row]> db) = if String.eqb (node_DeletedAt (f row)) "" then Some (f row) else None.
Proof.
  intros Hf (_ & Ho & _)%findRow_some. cbn in Ho. unfold live, findRow. cbn. rewrite lookup_insert_eq. cbn.
  destruct (Hf row) as [_ ->]. by rewrite Ho, String.eqb_refl.
Qed.

(** Its addresses. *)
Definition atNode (org id : string) (r : NodeDNSPublishAddressRecord) : bool := ofNode org id (ndns_OrganizationID r) (ndns_NodeID r).
Lemma atNode_other org id o k r : atNode org id r = true → o ≠ org ∨ k ≠ id → atNode o k r = false.
Proof.
  unfold atNode, ofNode. intros [->%String.eqb_eq ->%String.eqb_eq]%andb_true_iff Hne. rewrite andb_false_iff, !String.eqb_neq.
  naive_solver.
Qed.
Lemma touches_addresses org id f db :
  (∀ o k l, o ≠ org ∨ k ≠ id → List.filter (atNode o k) (f l) = List.filter (atNode o k) l) →
  touches org id db (with_publish_addresses f db).
Proof.
  intros Hf. apply touches_intro; [done|by intros Hk|]. intros o k Hne. split; [done|]. intros _. split; [done|].
  unfold addressesAt, ListNodeDNSPublishAddresses. do 4 f_equal. by apply Hf.
Qed.
Lemma filter_mapped {A} (own other : A → bool) f l :
  (∀ r, own r = false → f r = r) → (∀ r, own r = true → other r = false ∧ other (f r) = false) →
  List.filter other (map f l) = List.filter other l.
Proof.
  intros Hs Ho. induction l as [|r l IH]; cbn; [done|]. rewrite IH. destruct (own r) eqn:E.
  - destruct (Ho r E) as [-> ->]. done.
  - by rewrite Hs.
Qed.

(** *** What is asked to be evaluated again *)

(** Records that are live are pending, or as before, with names that fit. *)
Definition renewed (db db' : database) : Prop := dns_named db → dns_named db' ∧ fresh db db'.
#[export] Instance renewed_preorder : PreOrder renewed.
Proof.
  split; [by intros db Hn; split|]. intros a b c Hab Hbc Ha. destruct (Hab Ha) as [Hb Fab]. destruct (Hbc Hb) as [Hc Fbc].
  split; [exact Hc|]. etransitivity; [exact Fab|exact Fbc].
Qed.
Lemma unseen_renewed db db' : unseen db db' → renewed db db'.
Proof.
  intros Hu Hn. split; [|by apply unseen_fresh]. eapply marked_named, Hn. apply same_dns_marked, Hu.
Qed.
Lemma unseen_tail {A} (m : tx database A) db0 db a db' :
  keeps unseen m → m db = Ok (a, db') → renewed db0 db → renewed db0 db'.
Proof. intros Hk E Hr. etransitivity; [exact Hr|]. eapply unseen_renewed, Hk, E. Qed.

Lemma touched_same org nid db db' :
  keyed db → touches org nid db db' → dnsInputs org db' !! nid = dnsInputs org db !! nid → unseen db db'.
Proof.
  intros Hk [D _ O] E. split; [done|]. intros o. apply map_eq. intros k.
  destruct (decide (o = org)) as [->|]; [|by apply O; [|left]]. destruct (decide (k = nid)) as [->|]; [done|by apply O; [|right]].
Qed.
Lemma touched_marked E org nid groups now db db1 ids db2 :
  keyed db → touches org nid db db1 →
  within (list_to_set groups) (dnsInputs org db !! nid) → within (list_to_set groups) (dnsInputs org db1 !! nid) →
  markDNSRecordsDependingOnNodeGroupsPending E org groups now db1 = Ok (ids, db2) → renewed db db2.
Proof.
  intros Hk [D _ O] W W1 Hr Hn. pose proof (marked_named _ _ (same_dns_marked _ _ D) Hn) as Hn1. split.
  - destruct (markGroups_marks _ _ _ _ _ _ _ Hn1 Hr) as [[_ Hm _ _ _ _] _]. exact (marked_named _ _ Hm Hn1).
  - eapply marked_fresh; [done|exact D| | |exact Hr].
    + intros o Ho. apply map_eq. intros k. apply O; [done|by left].
    + intros k. destruct (decide (k = nid)) as [->|Hne]; [by right|]. left. symmetry. apply O; [done|by right].
Qed.
(** A node whose groups stay the same. *)
Lemma within_sub org nid db groups :
  keyed db → groupsAt org nid db ⊆ list_to_set groups → within (list_to_set groups) (dnsInputs org db !! nid).
Proof. intros Hk Hg. rewrite inputs_at by done. by destruct (live nodesTable org nid db). Qed.
Lemma within_at org nid db groups :
  keyed db → groupsAt org nid db = list_to_set groups → within (list_to_set groups) (dnsInputs org db !! nid).
Proof. intros Hk Hg. apply within_sub; [done|]. by rewrite Hg. Qed.
End inputs.

Ltac hides := intros ? ?; split; reflexivity.
#[export] Hint Extern 2 (keeps unseen (exec _ _)) => apply unseen_exec; intros ?; split; reflexivity : keeps.
#[export] Hint Extern 3 (keeps unseen (exec _ _)) => apply unseen_exec_nodes; intros ?; repeat split; reflexivity : keeps.
#[export] Hint Extern 2 (keeps unseen (insertRow _ _ _ _)) => apply unseen_insertRow; hides : keeps.
#[export] Hint Extern 2 (keeps unseen (updateRow _ _ _ _ _)) => apply unseen_updateRow; hides : keeps.
#[export] Hint Extern 2 (keeps unseen (updateRowWhen _ _ _ _ _ _)) => apply unseen_updateRowWhen; hides : keeps.
#[export] Hint Extern 3 (keeps unseen (updateRow nodesTable _ _ _ _)) => apply unseen_updateNode; intros ?; repeat split; reflexivity : keeps.
#[export] Hint Extern 3 (keeps unseen (updateRowIfAny nodesTable _ _ _ _)) => apply unseen_updateNodeIfAny; intros ?; repeat split; reflexivity : keeps.
#[export] Hint Resolve unseen_incrementGroup : keeps.
