(* ===== verification/GoUtf8.v ===== *)
(** * Runes of a Go string (unicode/utf8)

    [range] over a string decodes it rune by rune; a byte that begins no
    encoding is a rune of width one, [RuneError], whose own encoding has three
    bytes.  [rune_width] is the width that [utf8.DecodeRuneInString] reports. *)

From S2P Require Import Prelude GoString.
#[local] Open Scope Z_scope.

Definition in_range (lo hi : Z) (b : byte) : bool := (lo <=? b2z b) && (b2z b <=? hi).
Definition continuation : byte → bool := in_range 0x80 0xBF.

(** The width of the encoding at the head of the list, if there is one. *)
Definition valid_width (l : bytes) : option nat :=
  match l with
  | [] => None
  | b0 :: rest =>
      let n := b2z b0 in
      if n <? 0x80 then Some 1%nat else
      match rest with
      | [] => None
      | b1 :: rest1 =>
          if in_range 0xC2 0xDF b0 then if continuation b1 then Some 2%nat else None
          else match rest1 with
          | [] => None
          | b2 :: rest2 =>
              let second3 := if n =? 0xE0 then in_range 0xA0 0xBF b1 else if n =? 0xED then in_range 0x80 0x9F b1
                             else continuation b1 in
              if in_range 0xE0 0xEF b0 then if second3 && continuation b2 then Some 3%nat else None
              else match rest2 with
              | [] => None
              | b3 :: _ =>
                  let second4 := if n =? 0xF0 then in_range 0x90 0xBF b1 else if n =? 0xF4 then in_range 0x80 0x8F b1
                                 else continuation b1 in
                  if in_range 0xF0 0xF4 b0 && second4 && continuation b2 && continuation b3 then Some 4%nat else None
              end
          end
      end
  end.

(** How many bytes [range] advances, and [len(string(r))] of the rune it yields. *)
Definition rune_width (l : bytes) : nat := default 1%nat (valid_width l).
Definition rune_bytes (l : bytes) : Z := match valid_width l with Some n => Z.of_nat n | None => 3 end.

Lemma valid_width_range l n : valid_width l = Some n → (1 ≤ n ≤ length l)%nat.
Proof.
  unfold valid_width. destruct l as [|b0 [|b1 [|b2 [|b3 l]]]]; cbn [length];
    repeat case_match; intros; simplify_eq; lia.
Qed.
Lemma rune_width_range l : l ≠ [] → (1 ≤ rune_width l ≤ length l)%nat.
Proof.
  intros Hl. unfold rune_width. destruct (valid_width l) as [n|] eqn:E; cbn; [by apply valid_width_range in E|].
  destruct l; [done|cbn; lia].
Qed.
Lemma rune_bytes_width l : Z.of_nat (rune_width l) ≤ rune_bytes l.
Proof. unfold rune_width, rune_bytes. destruct (valid_width l); cbn; lia. Qed.
