(* ===== verification/RuleDeployment.v ===== *)
(** * Deployment statuses of rules (control_rule_deployment.go, control_rule_helpers.go)

    A rule that is enabled or changed waits on every node of its group until
    the node acknowledges the configuration version.  Here are the helpers
    that put rules into that state; what acknowledgements do is in
    NodeConfig.v. *)

From S2P Require Import Prelude GoString GoSort Domain ServiceErrors Records NodeCoverage Transaction Database RuleStore ControlService.
#[local] Open Scope Z_scope.

Definition pendingDeploymentsForNodes (nodes : list NodeRecord) : list RuleDeploymentPendingRecord :=
  sort_stable (λ x y, String.ltb (pend_NodeID x) (pend_NodeID y))
    (map (λ node, {| pend_NodeID := node_ID node; pend_ConfigVersion := node_DesiredConfigVersion node |})
       (List.filter (λ node, negb (String.eqb (TrimSpace (node_ID node)) "")) nodes)).

Definition stringSet (values : list string) : gset string :=
  list_to_set (List.filter (λ v, negb (String.eqb v "")) (map TrimSpace values)).

Section deployment.
Context `{UnicodeTables}.

Definition syncRuleDeploymentPending (E : callEnv) (organizationID : string) (rule : RuleRecord) (now : string)
    : tx database () :=
  if negb (rrec_Enabled rule) then DeleteRuleDeployments E organizationID (rrec_ID rule)
  else
    nodes ← nodesInGroup organizationID (bind_NodeGroupID (rrec_Binding rule));
    ReplaceRuleDeploymentPending E organizationID rule (pendingDeploymentsForNodes nodes) now.

Definition pendingOn (node : NodeRecord) : RuleDeploymentPendingRecord :=
  {| pend_NodeID := node_ID node; pend_ConfigVersion := node_DesiredConfigVersion node |}.

(** [E] is the environment of the turn of the loop for a rule. *)
Definition syncRuleDeploymentsForNodeMembershipChange (E : string → callEnv) (organizationID : string) (node : NodeRecord)
    (previousGroupIDs nextGroupIDs : list string) (now : string) : tx database () :=
  if String.eqb (TrimSpace (node_ID node)) "" then mret tt
  else
    rules ← ListRulesByOrganization organizationID;
    let previous := stringSet previousGroupIDs in
    let next := stringSet nextGroupIDs in
    each (λ rule,
      let wasInGroup := bool_decide (bind_NodeGroupID (rrec_Binding rule) ∈ previous) in
      let isInGroup := bool_decide (bind_NodeGroupID (rrec_Binding rule) ∈ next) in
      if negb (rrec_Enabled rule) then mret tt
      else if wasInGroup && negb isInGroup then
        DeleteRuleDeploymentForNode (E (rrec_ID rule)) organizationID (rrec_ID rule) (node_ID node)
      else if negb wasInGroup && isInGroup then
        UpsertRuleDeploymentPending (E (rrec_ID rule)) organizationID rule (pendingOn node) now
      else mret tt) rules.

Definition syncRuleDeploymentsForNodeConfigChange (E : string → callEnv) (organizationID : string) (node : NodeRecord)
    (now : string) : tx database () :=
  if String.eqb (TrimSpace (node_ID node)) "" then mret tt
  else
    rules ← ListRulesByOrganization organizationID;
    let nodeGroups := stringSet (node_GroupIDs node) in
    each (λ rule,
      if negb (rrec_Enabled rule) then mret tt
      else if negb (bool_decide (bind_NodeGroupID (rrec_Binding rule) ∈ nodeGroups)) then mret tt
      else UpsertRuleDeploymentPending (E (rrec_ID rule)) organizationID rule (pendingOn node) now) rules.

(** ** The users of a target *)

Definition usesTarget (targetID : string) (group : TargetGroupRecord) : bool :=
  existsb (λ m, String.eqb (gmem_TargetID m) targetID) (grec_Members group).

(** The first loop over the rules: the affected rules and their node groups. *)
Definition bumpRules (E : string → callEnv) (organizationID : string) (affected : list RuleRecord) (now : string)
    : tx database () :=
  bumpDesiredConfigForNodeGroups (E "") organizationID
    (list_to_set (map (λ r, bind_NodeGroupID (rrec_Binding r)) affected)) now;;
  each (λ rule, syncRuleDeploymentPending (E (rrec_ID rule)) organizationID rule now) affected.

Definition bumpDesiredConfigForRulesUsingTarget (E : string → callEnv) (organizationID targetID now : string)
    : tx database () :=
  rules ← ListRulesByOrganization organizationID;
  targetGroups ← ListTargetGroupsByOrganization organizationID;
  let groupsUsingTarget : gset string := list_to_set (map grec_ID (List.filter (usesTarget targetID) targetGroups)) in
  bumpRules E organizationID (List.filter (λ rule, rrec_Enabled rule
    && (String.eqb (rrec_TargetType rule) "TARGET" && String.eqb (rrec_TargetID rule) targetID
        || String.eqb (rrec_TargetType rule) "TARGET_GROUP"
           && bool_decide (rrec_TargetGroupID rule ∈ groupsUsingTarget))) rules) now.

Definition bumpDesiredConfigForRulesUsingTargetGroup (E : string → callEnv) (organizationID targetGroupID now : string)
    : tx database () :=
  rules ← ListRulesByOrganization organizationID;
  bumpRules E organizationID (List.filter (λ rule, rrec_Enabled rule
    && String.eqb (rrec_TargetType rule) "TARGET_GROUP" && String.eqb (rrec_TargetGroupID rule) targetGroupID) rules) now.
End deployment.
