(* ===== verification/NodeConfig.v ===== *)
(** * Configurations for nodes and what nodes answer (control_agent_config.go, control_rule_deployment.go)

    The control plane compiles the configuration of a node from the rules,
    targets and target groups of the organization, remembers which rules the
    node may report traffic of, and records what the node says about a
    configuration: the node's own status with its retries, the deployment
    status of every rule, and the rules that are disabled because no node can
    run them.

    A call gets the instants that it reads from the clock as arguments
    ([nowTime]), where the program computes with them. *)

From S2P Require Import Prelude GoString GoSort GoTime Domain Agent ServiceErrors Records ValidatorBase NodeCoverage ConfigCompiler RuleInput TrafficLedger Transaction Database RuleStore MonitorStore PresenceStore ControlService RuleDeployment.
From coqutil Require Import Datatypes.RecordSetters.
Import TriangleBracketNotations.
#[local] Open Scope Z_scope.

Definition NodeDataplaneStatusHealthy : string := "HEALTHY".
Definition NodeDataplaneStatusFailed : string := "FAILED".

(** The digest of [configHash]. *)
Class ConfigDigest := configDigest : hashInput → string.

(** ** Retries *)

Definition parseNodeConfigRetryAt (value : string) : option Z :=
  let value := TrimSpace value in
  List.fold_right (λ format next, match Parse format value with Some t => Some t | None => next end) None
    [RFC3339Nano; spaced [FracSecond9; NumColonTZ]; spaced [NumColonTZ]; spaced [FracSecond9; NumShortTZ]; spaced [NumShortTZ]].

Definition nodeConfigBackoffActive (node : NodeRecord) (now : Z) : bool :=
  if negb (String.eqb (node_ConfigStatus node) "FAILED")
     || negb (node_ConfigStatusConfigVersion node =? node_DesiredConfigVersion node)
     || String.eqb (TrimSpace (node_ConfigNextRetryAt node)) "" then false
  else match parseNodeConfigRetryAt (node_ConfigNextRetryAt node) with
       | None => false
       | Some nextRetryAt => now <? nextRetryAt
       end.

Definition configRetryBackoff (retryCount : Z) : Z :=
  if retryCount <=? 1 then 15 * Second
  else if retryCount =? 2 then 30 * Second
  else if retryCount =? 3 then Minute
  else if retryCount =? 4 then 2 * Minute
  else 5 * Minute.

Definition nodeConfigFailedAck (node : NodeRecord) (configVersion : Z) (errorMessage : string) (now : Z)
    : NodeConfigAckRecord :=
  let retryCount := if String.eqb (node_ConfigStatus node) "FAILED" && (node_ConfigStatusConfigVersion node =? configVersion)
                    then node_ConfigRetryCount node + 1 else 1 in {|
  ack_ConfigVersion := configVersion; ack_Status := "FAILED"; ack_ErrorMessage := errorMessage;
  ack_RetryCount := retryCount; ack_NextRetryAt := FormatRFC3339Nano (now + configRetryBackoff retryCount);
  ack_DataplaneStatus := ""; ack_DataplaneError := ""; ack_DataplaneLastHash := "" |}.

(** ** From records to the input of the compiler *)

Definition executableRulesForNode (node : NodeRecord) (rules : list RuleRecord) : list RuleRecord :=
  List.filter (λ rule, rrec_Enabled rule
    && bool_decide (bind_NodeGroupID (rrec_Binding rule) ∈ (list_to_set (node_GroupIDs node) : gset string))) rules.

Definition maxRuleRecordConfigVersion (rules : list RuleRecord) : Z :=
  foldl (λ maxVersion rule, if maxVersion <? rrec_ConfigVersion rule then rrec_ConfigVersion rule else maxVersion) 0 rules.

Definition toAgentPortSegments (segments : list InboundBindingPortSegmentRecord) : list PortSegmentConfig :=
  map (λ s, {| seg_StartPort := bseg_StartPort s; seg_EndPort := bseg_EndPort s |}) segments.

Definition toTargetEndpoint (target : TargetRecord) : TargetEndpoint := {|
  target_ID := trec_ID target; target_Host := trec_Host target; target_Port := trec_Port target;
  target_Weight := 1; target_Enabled := trec_Enabled target |}.
Definition memberEndpoint (member : TargetGroupMemberRecord) (target : TargetRecord) : TargetEndpoint := {|
  target_ID := trec_ID target; target_Host := trec_Host target; target_Port := trec_Port target;
  target_Weight := gmem_Weight member; target_Enabled := trec_Enabled target && gmem_Enabled member |}.

(** [targetsByID]: the last of the list with the identifier. *)
Definition targetsByID (targets : list TargetRecord) : gmap string TargetRecord :=
  foldl (λ m t, <[trec_ID t := t]> m) ∅ targets.
Definition targetGroupsByID (groups : list TargetGroupRecord) : gmap string TargetGroupRecord :=
  foldl (λ m g, <[grec_ID g := g]> m) ∅ groups.

Definition bucketStep (targets : gmap string TargetRecord) (buckets : gmap Z (list TargetEndpoint))
    (member : TargetGroupMemberRecord) : gmap Z (list TargetEndpoint) :=
  match targets !! gmem_TargetID member with
  | None => buckets
  | Some target => <[gmem_Priority member := default [] (buckets !! gmem_Priority member) ++ [memberEndpoint member target]]> buckets
  end.
Definition toTargetPriorityBuckets (group : TargetGroupRecord) (targets : gmap string TargetRecord)
    : list TargetPriorityBucket :=
  let bucketsByPriority := foldl (bucketStep targets) ∅ (grec_Members group) in
  map (λ p, {| bucket_Priority := p; bucket_Targets := default [] (bucketsByPriority !! p) |})
    (sort_stable Z.ltb (map fst (map_to_list bucketsByPriority))).

Section config.
Context `{UnicodeTables, UUIDHash, TT : TimestampColumn, CD : ConfigDigest}.

Definition openCoreRuleRecordSupported (rule : RuleRecord) : bool :=
  String.eqb (defaultForwardingType (rrec_ForwardingType rule)) ForwardingTypeDirect
  && (String.eqb (rrec_MatchType rule) MatchTypeAnyInbound || String.eqb (rrec_MatchType rule) MatchTypeTLSSNI).

Definition emptyUpstream : RuleUpstreamConfig := {|
  up_Type := ""; up_Target := None; up_Scheduler := ""; up_TargetGroup := [] |}.

(** [None] when the scheduler of the group is not supported, and the rule is
    left out. *)
Definition upstreamConfig (targets : gmap string TargetRecord) (groups : gmap string TargetGroupRecord) (rule : RuleRecord)
    : option RuleUpstreamConfig :=
  if String.eqb (rrec_TargetType rule) "TARGET" then
    match targets !! rrec_TargetID rule with
    | Some target => Some {| up_Type := "TARGET"; up_Target := Some (toTargetEndpoint target); up_Scheduler := "";
                             up_TargetGroup := [] |}
    | None => Some emptyUpstream
    end
  else if String.eqb (rrec_TargetType rule) "TARGET_GROUP" then
    match groups !! rrec_TargetGroupID rule with
    | Some group =>
        if negb (targetGroupSchedulerSupportedByOSS (grec_Scheduler group)) then None
        else Some {| up_Type := "TARGET_GROUP"; up_Target := None;
                     up_Scheduler := normalizeTargetGroupScheduler (grec_Scheduler group);
                     up_TargetGroup := toTargetPriorityBuckets group targets |}
    | None => Some emptyUpstream
    end
  else Some emptyUpstream.

Definition toRuleConfig (targets : gmap string TargetRecord) (groups : gmap string TargetGroupRecord) (rule : RuleRecord)
    : option RuleConfig :=
  if negb (openCoreRuleRecordSupported rule) then None
  else
    upstream ← upstreamConfig targets groups rule;
    Some {| rule_ID := rrec_ID rule; rule_RuntimeID := ""; rule_ConfigVersion := rrec_ConfigVersion rule;
      rule_Enabled := rrec_Enabled rule; rule_Dataplane := defaultDataplanePreference (rrec_DataplanePreference rule);
      rule_ForwardingType := defaultForwardingType (rrec_ForwardingType rule); rule_Protocol := rrec_Protocol rule;
      rule_NodeIDs := []; rule_NodeGroupIDs := [bind_NodeGroupID (rrec_Binding rule)];
      rule_ListenIP := bind_ListenIP (rrec_Binding rule); rule_Port := bind_Port (rrec_Binding rule);
      rule_PortSegments := toAgentPortSegments (rulePortSegments (rrec_Binding rule)); rule_SendIP := rrec_SendIP rule;
      rule_MatchType := rrec_MatchType rule; rule_SNIHostname := rrec_SNIHostname rule;
      rule_ProxyProtocolIn := rrec_ProxyProtocolIn rule; rule_ProxyProtocolOut := rrec_ProxyProtocolOut rule;
      rule_Upstream := upstream |}.

(** The program also returns an error, which is never set. *)
Definition toRuleConfigs (rules : list RuleRecord) (targets : list TargetRecord) (targetGroups : list TargetGroupRecord)
    : list RuleConfig :=
  omap (toRuleConfig (targetsByID targets) (targetGroupsByID targetGroups)) rules.

Definition compilerInput (node : NodeRecord) (protocolVersion : ProtocolVersion) (protocolKnown : bool)
    (rules : list RuleConfig) : AgentConfigInput := {|
  in_NodeID := node_ID node; in_NodeGroups := node_GroupIDs node; in_AgentProtocolVersion := protocolVersion;
  in_AgentProtocolKnown := protocolKnown; in_DataplaneMode := node_DataplaneMode node;
  in_DataplaneInstanceID := node_DataplaneInstanceID node;
  in_DataplaneConflictPolicy := node_DataplaneConflictPolicy node; in_Rules := rules |}.

(** ** Compiling *)

Definition maxZ (x y : Z) : Z := if x <? y then y else x.

(** [compiled.ConfigVersion = ...; compiled.ConfigHash = configHash(compiled)] *)
Definition raised (version : Z) (config : ConfigSnapshot) : ConfigSnapshot :=
  if snap_ConfigVersion config <? version then with_hash configDigest {|
    snap_AgentProtocolVersion := snap_AgentProtocolVersion config; snap_NodeID := snap_NodeID config;
    snap_ConfigVersion := version; snap_ConfigHash := snap_ConfigHash config;
    snap_DataplaneMode := snap_DataplaneMode config; snap_DataplaneInstanceID := snap_DataplaneInstanceID config;
    snap_ConflictPolicy := snap_ConflictPolicy config; snap_Rules := snap_Rules config |}
  else config.

(** The rules, targets and target groups as the services read them. *)
Definition ruleConfigsForNode (organizationID : string) (node : NodeRecord) (rules : list RuleRecord)
    : tx database (list RuleConfig) :=
  targets ← ListTargetsByOrganization organizationID;
  targetGroups ← ListTargetGroupsByOrganization organizationID;
  mret (toRuleConfigs (executableRulesForNode node rules) targets targetGroups).

Definition compileNode (E : callEnv) (organizationID nodeID : string) (protocolVersion : ProtocolVersion)
    (protocolKnown : bool) : tx database ConfigSnapshot :=
  node ← FindNodeByID organizationID nodeID;
  rules ← ListRulesByOrganization organizationID;
  ruleConfigs ← ruleConfigsForNode organizationID node rules;
  let candidateConfigVersion := maxRuleRecordConfigVersion (executableRulesForNode node rules) in
  compiled ← pure (Compile configDigest (compilerInput node protocolVersion protocolKnown ruleConfigs));
  let desired := node_DesiredConfigVersion node in
  let target := maxZ (maxZ desired (snap_ConfigVersion compiled)) candidateConfigVersion in
  when (desired <? target) (EnsureDesiredConfigVersionAtLeast E organizationID nodeID target (env_now E));;
  let compiled := raised target compiled in
  RecordNodeRuleTrafficAssignments E organizationID nodeID (map rule_ID (snap_Rules compiled));;
  mret compiled.

Definition CompileNodeAgentConfigForAgentProtocol (E : callEnv) (organizationID nodeID : string)
    (protocolVersion : ProtocolVersion) (protocolKnown : bool) (db : database) : result serviceError ConfigSnapshot * database :=
  serve (compileNode E organizationID nodeID protocolVersion protocolKnown) db.
Definition CompileNodeAgentConfig (E : callEnv) (organizationID nodeID : string) (db : database)
    : result serviceError ConfigSnapshot * database :=
  CompileNodeAgentConfigForAgentProtocol E organizationID nodeID CurrentProtocolVersion true db.

Definition configBehind (node : NodeRecord) (appliedConfigVersion now : Z) : bool :=
  if nodeConfigBackoffActive node now then false
  else (appliedConfigVersion <? node_DesiredConfigVersion node) || String.eqb (node_ConfigStatus node) "FAILED".
Definition NodeAgentConfigBehind (organizationID nodeID : string) (appliedConfigVersion nowTime : Z) (db : database)
    : result serviceError bool * database :=
  serve (node ← FindNodeByID organizationID nodeID; mret (configBehind node appliedConfigVersion nowTime)) db.

(** ** What was applied *)

Definition actualDataplane (resolvedDataplanes : gmap string string) (rule : RuleConfig) : string :=
  let resolved := TrimSpace (default "" (resolvedDataplanes !! rule_ID rule)) in
  if negb (String.eqb resolved "") then defaultDataplanePreference resolved else defaultDataplanePreference (rule_Dataplane rule).

(** One record for the first of the compiled rules with an identifier. *)
Fixpoint appliedRecords (resolvedDataplanes : gmap string string) (appliedRuleIDs : gset string) (rules : list RuleConfig)
    : list RuleDeploymentAppliedRecord :=
  match rules with
  | [] => []
  | rule :: rest =>
      if bool_decide (rule_ID rule ∈ appliedRuleIDs) then appliedRecords resolvedDataplanes appliedRuleIDs rest
      else {| appl_RuleID := rule_ID rule; appl_RuleConfigVersion := rule_ConfigVersion rule;
              appl_ExpectedDataplane := defaultDataplanePreference (rule_Dataplane rule);
              appl_ActualDataplane := actualDataplane resolvedDataplanes rule |}
           :: appliedRecords resolvedDataplanes ({[rule_ID rule]} ∪ appliedRuleIDs) rest
  end.

Definition logicalRuleIDCount (rules : list RuleConfig) : nat :=
  size (list_to_set (List.filter (λ id, negb (String.eqb (TrimSpace id) "")) (map rule_ID rules)) : gset string).

Definition ruleDeploymentAppliedRecordsForNode (organizationID : string) (node : NodeRecord) (rules : list RuleRecord)
    (protocolVersion : ProtocolVersion) (protocolKnown : bool) (resolvedDataplanes : gmap string string)
    : tx database (list RuleDeploymentAppliedRecord * bool) :=
  ruleConfigs ← ruleConfigsForNode organizationID node rules;
  compiled ← pure (Compile configDigest (compilerInput node protocolVersion protocolKnown ruleConfigs));
  mret (appliedRecords resolvedDataplanes ∅ (snap_Rules compiled),
        Nat.eqb (logicalRuleIDCount (snap_Rules compiled)) (logicalRuleIDCount ruleConfigs)).

(** ** What failed *)

(** [value[:maxLength]]: bytes, also within a character. *)
Definition truncateString (value : string) (maxLength : Z) : string :=
  if (maxLength <=? 0) || (len value <=? maxLength) then value
  else String.substring 0 (Z.to_nat maxLength) value.

Record ConfigApplyErrorInput := {
  cae_Code : string; cae_RuleIDs : list string; cae_Protocol : string; cae_ListenIP : string; cae_Port : Z;
  cae_Dataplane : string; cae_Owner : string; cae_DriftStatus : string; cae_ExternalResource : string;
  cae_Message : string }.

Definition failureRecord (rule : RuleRecord) (ruleID : string) (e : ConfigApplyErrorInput) : RuleDeploymentFailureRecord := {|
  fail_RuleID := ruleID; fail_RuleConfigVersion := rrec_ConfigVersion rule;
  fail_ErrorCode := truncateString (TrimSpace (cae_Code e)) 120;
  fail_ErrorMessage := truncateString (TrimSpace (cae_Message e)) 1000; fail_Protocol := cae_Protocol e;
  fail_ListenIP := truncateString (TrimSpace (cae_ListenIP e)) 255; fail_Port := cae_Port e;
  fail_ExpectedDataplane := truncateString (defaultDataplanePreference (rrec_DataplanePreference rule)) 40;
  fail_ActualDataplane := truncateString (defaultDataplanePreference (cae_Dataplane e)) 40;
  fail_Owner := truncateString (TrimSpace (cae_Owner e)) 255;
  fail_DriftStatus := truncateString (TrimSpace (cae_DriftStatus e)) 120;
  fail_ExternalResource := truncateString (TrimSpace (cae_ExternalResource e)) 255 |}.

(** The inner loop, for one rule of one error. *)
Definition failureStep (rulesByID : gmap string RuleRecord)
    (s : gmap string RuleDeploymentFailureRecord * list string) (error : ConfigApplyErrorInput * string)
    : gmap string RuleDeploymentFailureRecord * list string :=
  let '(failuresByRule, order) := s in
  let '(applyErr, ruleID) := error in
  let ruleID := TrimSpace ruleID in
  match rulesByID !! ruleID with
  | None => s
  | Some rule => (<[ruleID := failureRecord rule ruleID applyErr]> failuresByRule,
                  if isSome (failuresByRule !! ruleID) then order else order ++ [ruleID])
  end.
Definition ruleDeploymentFailuresFromApplyErrors (rulesByID : gmap string RuleRecord) (errors : list ConfigApplyErrorInput)
    : list RuleDeploymentFailureRecord :=
  let '(failuresByRule, order) := foldl (failureStep rulesByID) (∅, [])
    (flat_map (λ e, map (pair e) (cae_RuleIDs e)) errors) in
  omap (λ ruleID, failuresByRule !! ruleID) order.

Definition rulesByID (rules : list RuleRecord) : gmap string RuleRecord := foldl (λ m r, <[rrec_ID r := r]> m) ∅ rules.

(** ** Disabling rules that no node can run *)

(** [deployment.RuleID+"|"+deployment.NodeID] *)
Definition ruleNodeKey (ruleID nodeID : string) : string := (ruleID ++ "|" ++ nodeID)%string.
Definition deploymentsByRuleNode (deployments : list RuleDeploymentRecord) : gmap string RuleDeploymentRecord :=
  foldl (λ m d, <[ruleNodeKey (dep_RuleID d) (dep_NodeID d) := d]> m) ∅ deployments.

Definition allCurrentRuleNodesFailed (rule : RuleRecord) (nodes : list NodeRecord)
    (deployments : gmap string RuleDeploymentRecord) : bool :=
  forallb (λ node,
    match deployments !! ruleNodeKey (rrec_ID rule) (node_ID node) with
    | None => false
    | Some d => (dep_ConfigVersion d =? node_DesiredConfigVersion node)
                && (dep_RuleConfigVersion d =? rrec_ConfigVersion rule) && String.eqb (dep_Status d) "FAILED"
    end) nodes.

Definition autoDisabled (rule : RuleRecord) (now : string) : RuleRecord :=
  rule <| rrec_Enabled := false |> <| rrec_Status := "DISABLED" |> <| rrec_ConfigVersion := rrec_ConfigVersion rule + 1 |>
       <| rrec_UpdatedAt := now |>.
Definition autoDisableAudit (organizationID ruleID : string) : auditInput := {|
  ai_OrganizationID := organizationID; ai_ActorUserID := ""; ai_Action := "rules.auto_disable_deploy_failure";
  ai_ResourceType := "FORWARDING_RULE"; ai_ResourceID := ruleID; ai_Roles := []; ai_Permissions := []; ai_SourceIP := "" |}.

(** The turn of the loop for one rule. *)
Definition applyFailurePolicy (E : callEnv) (organizationID : string) (deployments : gmap string RuleDeploymentRecord)
    (now ruleID : string) : tx database () :=
  rule ← FindRuleByID organizationID ruleID;
  if negb (rrec_Enabled rule)
     || negb (String.eqb (defaultFailurePolicy (rrec_FailurePolicy rule)) "DISABLE_WHEN_ALL_NODES_FAILED") then mret tt
  else
    nodes ← nodesInGroup organizationID (bind_NodeGroupID (rrec_Binding rule));
    if is_nil nodes || negb (allCurrentRuleNodesFailed rule nodes deployments) then mret tt
    else
      RuleStore.UpdateRule E (autoDisabled rule now) (rrec_Binding rule) (rrec_Tags rule);;
      bumpDesiredConfigForNodeGroup E organizationID (bind_NodeGroupID (rrec_Binding rule)) now;;
      writeAudit E (autoDisableAudit organizationID (rrec_ID rule)).

Fixpoint applyPolicies (E : string → callEnv) (organizationID : string) (deployments : gmap string RuleDeploymentRecord)
    (now : string) (seen : gset string) (failedRuleIDs : list string) : tx database () :=
  match failedRuleIDs with
  | [] => mret tt
  | ruleID :: rest =>
      let ruleID := TrimSpace ruleID in
      if String.eqb ruleID "" || bool_decide (ruleID ∈ seen) then applyPolicies E organizationID deployments now seen rest
      else
        applyFailurePolicy (E ruleID) organizationID deployments now ruleID;;
        applyPolicies E organizationID deployments now ({[ruleID]} ∪ seen) rest
  end.
Definition applyRuleFailurePolicies (E : string → callEnv) (organizationID : string) (failedRuleIDs : list string)
    (now : string) : tx database () :=
  if is_nil failedRuleIDs then mret tt
  else
    deployments ← ListRuleDeploymentsByOrganization organizationID;
    applyPolicies E organizationID (deploymentsByRuleNode deployments) now ∅ failedRuleIDs.

(** ** Acknowledgements *)

Record nodeAck := {
  na_ConfigVersion : Z; na_ConfigHash : string; na_ProtocolVersion : ProtocolVersion; na_ProtocolKnown : bool;
  na_Status : string; na_ErrorMessage : string; na_ApplyErrors : list ConfigApplyErrorInput;
  na_ResolvedDataplanes : gmap string string }.

Definition appliedAck (configVersion : Z) (errorMessage configHash : string) : NodeConfigAckRecord := {|
  ack_ConfigVersion := configVersion; ack_Status := "APPLIED"; ack_ErrorMessage := errorMessage; ack_RetryCount := 0;
  ack_NextRetryAt := ""; ack_DataplaneStatus := NodeDataplaneStatusHealthy; ack_DataplaneError := "";
  ack_DataplaneLastHash := TrimSpace configHash |}.
Definition failedAck (node : NodeRecord) (configVersion : Z) (errorMessage : string) (nowTime : Z) : NodeConfigAckRecord :=
  (nodeConfigFailedAck node configVersion errorMessage nowTime)
    <| ack_DataplaneStatus := NodeDataplaneStatusFailed |> <| ack_DataplaneError := errorMessage |>.
Definition partialMessage : string := "agent protocol does not support all desired dataplane rules".

(** What the node applied, after it was recorded that it did. *)
Definition acknowledgeApplied (E : string → callEnv) (organizationID nodeID : string) (node : NodeRecord) (input : nodeAck)
    (errorMessage : string) (nowTime : Z) : tx database () :=
  let now := FormatRFC3339Nano nowTime in
  let configVersion := na_ConfigVersion input in
  rules ← ListRulesByOrganization organizationID;
  '(applied, complete) ← ruleDeploymentAppliedRecordsForNode organizationID node rules (na_ProtocolVersion input)
    (na_ProtocolKnown input) (na_ResolvedDataplanes input);
  let ack := if complete : bool then appliedAck configVersion errorMessage (na_ConfigHash input)
             else failedAck node configVersion partialMessage nowTime in
  RecordNodeConfigAck (E "") organizationID nodeID ack now;;
  if negb (configVersion =? node_DesiredConfigVersion node) then mret tt
  else if is_nil applied && negb complete then mret tt
  else RecordRuleDeploymentApplied (E "") organizationID nodeID configVersion applied now.

Definition acknowledgeFailed (E : string → callEnv) (organizationID nodeID : string) (node : NodeRecord) (input : nodeAck)
    (errorMessage : string) (nowTime : Z) : tx database () :=
  let now := FormatRFC3339Nano nowTime in
  let configVersion := na_ConfigVersion input in
  RecordNodeConfigAck (E "") organizationID nodeID (failedAck node configVersion errorMessage nowTime) now;;
  if negb (configVersion =? node_DesiredConfigVersion node) then mret tt
  else
    rules ← ListRulesByOrganization organizationID;
    let failures := ruleDeploymentFailuresFromApplyErrors (rulesByID rules) (na_ApplyErrors input) in
    when (negb (is_nil failures)) (RecordRuleDeploymentFailures (E "") organizationID nodeID configVersion failures now);;
    applyRuleFailurePolicies E organizationID (map fail_RuleID failures) now.

Definition acknowledge (E : string → callEnv) (organizationID nodeID : string) (input : nodeAck) (applied : bool)
    (nowTime : Z) : tx database () :=
  let errorMessage := truncateString (TrimSpace (na_ErrorMessage input)) 1000 in
  node ← FindNodeByID organizationID nodeID;
  if applied then acknowledgeApplied E organizationID nodeID node input errorMessage nowTime
  else acknowledgeFailed E organizationID nodeID node input errorMessage nowTime.

Definition AcknowledgeNodeAgentConfigForAgentProtocol (E : string → callEnv) (organizationID nodeID : string)
    (input : nodeAck) (nowTime : Z) (db : database) : result serviceError () * database :=
  let status := ToUpper (TrimSpace (na_Status input)) in
  if negb (String.eqb status "APPLIED") && negb (String.eqb status "FAILED") then refuse ErrInvalidInput db
  else serve (acknowledge E organizationID nodeID input (String.eqb status "APPLIED") nowTime) db.
Definition AcknowledgeNodeAgentConfig (E : string → callEnv) (organizationID nodeID : string) (input : nodeAck)
    (nowTime : Z) (db : database) : result serviceError () * database :=
  AcknowledgeNodeAgentConfigForAgentProtocol E organizationID nodeID
    (input <| na_ProtocolVersion := CurrentProtocolVersion |> <| na_ProtocolKnown := true |>) nowTime db.
End config.

#[export] Hint Unfold ruleConfigsForNode : reads.
