(* ===== verification/AgentPresence.v ===== *)
(** * The presence of agents and their updates (control_agent_config.go)

    What the control plane records when the agent of a node connects, says
    hello or disconnects, and how an agent is asked to update itself.  The
    operations that can change what DNS policies depend on answer with the
    records that the program evaluates again once the transaction is over. *)

From S2P Require Import Prelude GoString GoSort GoNet Domain ServiceErrors Records ValidatorBase NodeCoverage Authorizer Transaction Database RuleStore MonitorStore PresenceStore DnsStore DnsMarking NodePayload ControlService.
From coqutil Require Import Datatypes.RecordSetters.
Import TriangleBracketNotations.
#[local] Open Scope Z_scope.

(** The version that the service is configured to distribute, and
    [buildinfo.Version], which is set when the program is linked. *)
Class AgentRelease := { agentReleaseVersion : string; buildVersion : string }.

Record AgentHelloInput := {
  hello_Version : string; hello_Commit : string; hello_BuildTime : string; hello_RemoteAddr : string }.

(** [if strings.TrimSpace(value) == "" { return fallback }] *)
Definition defaultString (value fallback : string) : string := if String.eqb (TrimSpace value) "" then fallback else value.

Section presence.
Context `{UnicodeTables, Authorizer, GeoIPResolver, AgentRelease}.

(** ** Addresses *)

Definition publicRemoteIP (remoteAddr : string) : option bytes :=
  let host := match SplitHostPort (TrimSpace remoteAddr) with Some (host, _) => host | None => TrimSpace remoteAddr end in
  match ParseIP host with
  | None => None
  | Some ip =>
      if negb (IsGlobalUnicast ip) || IsPrivate ip || IsLoopback ip || IsLinkLocalUnicast ip || IsLinkLocalMulticast ip
         || IsMulticast ip || IsUnspecified ip || isCarrierGradeNATIP ip
      then None else Some ip
  end.

Definition nodeHasEnabledDNSPublishAddress (node : NodeRecord) (addressType address source : string) : bool :=
  existsb (λ a, ndns_Enabled a && String.eqb (ndns_AddressType a) addressType && String.eqb (ndns_Address a) address
                && (String.eqb source "" || String.eqb (ndns_Source a) source)) (node_DNSPublishAddresses node).
Definition nodeHasEnabledAutoDNSPublishAddress (node : NodeRecord) : bool :=
  existsb (λ a, ndns_Enabled a && String.eqb (ndns_Source a) "AUTO") (node_DNSPublishAddresses node).
Definition nodeHasOtherEnabledAutoDNSPublishAddress (node : NodeRecord) (addressType address : string) : bool :=
  existsb (λ a, ndns_Enabled a && String.eqb (ndns_Source a) "AUTO" && String.eqb (ndns_AddressType a) addressType
                && negb (String.eqb (ndns_Address a) address)) (node_DNSPublishAddresses node).

Definition addressTypeOf (ip : bytes) : string := match To4 ip with Some _ => "A" | None => "AAAA" end.

(** The part that hellos and connections share; whether what DNS policies see
    has changed. *)
Definition observeAddress (E : callEnv) (organizationID nodeID : string) (node : NodeRecord) (remoteAddr now : string)
    : tx database bool :=
  match publicRemoteIP remoteAddr with
  | Some ip =>
      let addressType := addressTypeOf ip in
      UpsertAutoNodeDNSPublishAddress E organizationID nodeID addressType (ip_string ip) now;;
      mret (negb (nodeHasEnabledDNSPublishAddress node addressType (ip_string ip) "AUTO")
            || nodeHasOtherEnabledAutoDNSPublishAddress node addressType (ip_string ip))
  | None =>
      if nodeHasEnabledAutoDNSPublishAddress node
      then DisableAutoNodeDNSPublishAddresses E organizationID nodeID now;; mret true
      else mret false
  end.

Definition hasStatus (status : string) (node : NodeRecord) : bool :=
  String.eqb (ToUpper (TrimSpace (node_Status node))) status.
Definition markIf (changed : bool) (E : callEnv) (organizationID : string) (node : NodeRecord) (now : string)
    : tx database (list string) :=
  if changed then markDNSRecordsDependingOnNodeGroupsPending E organizationID (node_GroupIDs node) now else mret [].

(** ** Connections *)

Definition MarkNodeAgentConnected (E : callEnv) (organizationID nodeID : string) (db : database)
    : result serviceError (list string) * database :=
  serve (node ← FindNodeByID organizationID nodeID;
         let now := env_now E in
         PresenceStore.MarkNodeAgentConnected E organizationID nodeID now;;
         markIf (negb (hasStatus "ONLINE" node)) E organizationID node now) db.

Definition MarkNodeAgentConnectedFromRemote (E : callEnv) (organizationID nodeID remoteAddr : string) (db : database)
    : result serviceError (list string) * database :=
  serve (let now := env_now E in
         node ← FindNodeByID organizationID nodeID;
         PresenceStore.MarkNodeAgentConnected E organizationID nodeID now;;
         changed ← observeAddress E organizationID nodeID node remoteAddr now;
         markIf (negb (hasStatus "ONLINE" node) || changed) E organizationID node now) db.

Definition MarkNodeAgentDisconnected (E : callEnv) (organizationID nodeID : string) (db : database)
    : result serviceError (list string) * database :=
  serve (node ← FindNodeByID organizationID nodeID;
         let now := env_now E in
         PresenceStore.MarkNodeAgentDisconnected E organizationID nodeID now;;
         markIf (negb (hasStatus "OFFLINE" node)) E organizationID node now) db.

Definition MarkMonitorAgentConnected (E : callEnv) (organizationID monitorID : string) (db : database)
    : result serviceError () * database :=
  serve (PresenceStore.MarkMonitorAgentConnected E organizationID monitorID (env_now E)) db.
Definition MarkMonitorAgentDisconnected (E : callEnv) (organizationID monitorID : string) (db : database)
    : result serviceError () * database :=
  serve (PresenceStore.MarkMonitorAgentDisconnected E organizationID monitorID (env_now E)) db.

(** ** Versions *)

Definition agentUpdateTargetIsConcrete (version : string) : bool :=
  negb (bool_decide (ToLower (TrimSpace version) ∈ [""; "latest"; "dev"; "unknown"])).

Definition targetAgentVersion : string :=
  let configuredVersion := TrimSpace agentReleaseVersion in
  if String.eqb configuredVersion "" then TrimSpace buildVersion
  else if EqualFold configuredVersion "latest" && agentUpdateTargetIsConcrete buildVersion then TrimSpace buildVersion
  else configuredVersion.

Definition AgentReleaseVersion : string := targetAgentVersion.

Definition shouldRequestAgentAutoUpdate (currentVersion targetVersion : string) : bool :=
  let currentVersion := TrimSpace currentVersion in
  let targetVersion := TrimSpace targetVersion in
  negb (String.eqb currentVersion "") && agentUpdateTargetIsConcrete targetVersion
  && negb (String.eqb currentVersion targetVersion).

Definition agentUpdateCompletedByHello (node : NodeRecord) (reportedVersion : string) : bool :=
  let reportedVersion := TrimSpace reportedVersion in
  let desiredVersion := TrimSpace (node_DesiredAgentVersion node) in
  negb (String.eqb reportedVersion "") && String.eqb reportedVersion desiredVersion
  && negb (String.eqb (node_AgentUpdateStatus node) "SUCCEEDED").

Definition satisfiedNode (node : NodeRecord) (now : string) : NodeRecord :=
  node <| node_AgentUpdateStatus := "SUCCEEDED" |> <| node_AgentUpdateError := "" |>
       <| node_AgentUpdateStartedAt := defaultString (node_AgentUpdateStartedAt node) now |>
       <| node_AgentUpdateFinishedAt := now |>.
Definition requestedNode (node : NodeRecord) (targetVersion now : string) : NodeRecord :=
  node <| node_DesiredAgentVersion := targetVersion |> <| node_AgentUpdateStatus := "PENDING" |>
       <| node_AgentUpdateError := "" |> <| node_AgentUpdateStartedAt := now |> <| node_AgentUpdateFinishedAt := "" |>.

Definition requestNodeAgentUpgrade (E : callEnv) (organizationID : string) (node : NodeRecord) (targetVersion now : string)
    : tx database NodeRecord :=
  let targetVersion := TrimSpace targetVersion in
  if negb (String.eqb targetVersion "") && String.eqb (TrimSpace (node_AgentVersion node)) targetVersion then
    MarkNodeAgentUpdateSatisfied E organizationID (node_ID node) targetVersion now;;
    mret (satisfiedNode (node <| node_DesiredAgentVersion := targetVersion |>) now)
  else
    MarkNodeAgentUpdateRequested E organizationID (node_ID node) targetVersion now;;
    mret (requestedNode node targetVersion now).

(** ** Hellos *)

Definition recordHello (E : callEnv) (organizationID nodeID : string) (input : AgentHelloInput)
    : tx database (NodePayload * bool * list string) :=
  let now := env_now E in
  nodeBefore ← FindNodeByID organizationID nodeID;
  PresenceStore.MarkNodeAgentConnected E organizationID nodeID now;;
  changed ← observeAddress E organizationID nodeID nodeBefore (hello_RemoteAddr input) now;
  affectedDNSRecordIDs ← markIf (negb (hasStatus "ONLINE" nodeBefore) || changed) E organizationID nodeBefore now;
  UpdateNodeAgentVersion E organizationID nodeID {| nver_Version := hello_Version input;
    nver_Commit := hello_Commit input; nver_BuildTime := hello_BuildTime input |} now;;
  node ← FindNodeByID organizationID nodeID;
  let targetVersion := targetAgentVersion in
  let completed := agentUpdateCompletedByHello node (hello_Version input) in
  when completed (MarkNodeAgentUpdateSatisfied E organizationID nodeID (node_DesiredAgentVersion node) now);;
  let node := if completed then satisfiedNode node now else node in
  let shouldUpdate := node_AgentAutoUpdateEnabled node && shouldRequestAgentAutoUpdate (hello_Version input) targetVersion in
  when shouldUpdate (MarkNodeAgentUpdateRequested E organizationID nodeID targetVersion now);;
  let node := if shouldUpdate then requestedNode node targetVersion now else node in
  let node := if String.eqb (node_DesiredAgentVersion node) ""
              then node <| node_DesiredAgentVersion := targetVersion |> else node in
  mret (toNodePayload Lookup node, shouldUpdate, affectedDNSRecordIDs).

Definition RecordNodeAgentHello (E : callEnv) (organizationID nodeID : string) (input : AgentHelloInput) (db : database)
    : result serviceError (NodePayload * bool * list string) * database :=
  serve (recordHello E organizationID nodeID input) db.

(** ** Update policies and requests *)

Definition requireConcreteAgentUpdateTarget (targetVersion : string) : result serviceError () :=
  if negb (agentUpdateTargetIsConcrete targetVersion) then Err ErrInvalidInput else Ok tt.

Definition updatePolicy (E : callEnv) (identity : InternalIdentity) (nodeID : string) (enabled : bool)
    : tx database NodePayload :=
  let organizationID := id_OrganizationID identity in
  node ← FindNodeByID organizationID nodeID;
  pure (ensureCanManageNodeGroups identity (node_GroupIDs node));;
  let now := env_now E in
  PresenceStore.UpdateNodeAgentUpdatePolicy E organizationID nodeID enabled now;;
  let node := node <| node_AgentAutoUpdateEnabled := enabled |> <| node_UpdatedAt := now |> in
  node ← (if enabled && shouldRequestAgentAutoUpdate (node_AgentVersion node) targetAgentVersion
          then requestNodeAgentUpgrade E organizationID node targetAgentVersion now
          else FindNodeByID organizationID nodeID);
  writeAudit E (auditForIdentity identity "nodes.agent_update_policy" "NODE" (node_ID node) "");;
  mret (toNodePayload Lookup node).
Definition UpdateNodeAgentUpdatePolicy (E : callEnv) (identity : InternalIdentity) (nodeID : string) (enabled : bool)
    (db : database) : result serviceError NodePayload * database :=
  if negb (hasPermission identity PermissionNodesManage) then refuse ErrForbidden db
  else serve (updatePolicy E identity nodeID enabled) db.

Definition upgradeNode (E : callEnv) (identity : InternalIdentity) (now : string) (node : NodeRecord) : tx database NodePayload :=
  node ← requestNodeAgentUpgrade E (id_OrganizationID identity) node targetAgentVersion now;
  writeAudit E (auditForIdentity identity "nodes.agent_upgrade" "NODE" (node_ID node) "");;
  mret (toNodePayload Lookup node).
Definition RequestNodeAgentUpgrade (E : callEnv) (identity : InternalIdentity) (nodeID : string) (db : database)
    : result serviceError NodePayload * database :=
  if negb (hasPermission identity PermissionNodesManage) then refuse ErrForbidden db
  else serve (node ← FindNodeByID (id_OrganizationID identity) nodeID;
              pure (ensureCanManageNodeGroups identity (node_GroupIDs node));;
              pure (requireConcreteAgentUpdateTarget targetAgentVersion);;
              upgradeNode E identity (env_now E) node) db.

(** [E] is the environment of the turn of the loop for a node, and of the rest
    of the call for the empty text. *)
Fixpoint upgradeNodes (E : string → callEnv) (identity : InternalIdentity) (now : string) (nodes : list NodeRecord)
    : tx database (list NodePayload) :=
  match nodes with
  | [] => mret []
  | node :: rest =>
      pure (ensureCanManageNodeGroups identity (node_GroupIDs node));;
      payload ← upgradeNode (E (node_ID node)) identity now node;
      payloads ← upgradeNodes E identity now rest;
      mret (payload :: payloads)
  end.
Definition selectedNodes (selectedIDs : gset string) (nodes : list NodeRecord) : list NodeRecord :=
  List.filter (λ node, Nat.eqb (size selectedIDs) 0 || bool_decide (node_ID node ∈ selectedIDs)) nodes.
Definition RequestNodeAgentUpgrades (E : string → callEnv) (identity : InternalIdentity) (nodeIDs : list string)
    (db : database) : result serviceError (list NodePayload) * database :=
  if negb (hasPermission identity PermissionNodesManage) then refuse ErrForbidden db
  else serve (nodes ← ListNodesByOrganization (id_OrganizationID identity);
              let selectedIDs : gset string :=
                list_to_set (List.filter (λ id, negb (String.eqb id "")) (map TrimSpace nodeIDs)) in
              pure (requireConcreteAgentUpdateTarget targetAgentVersion);;
              let selected := selectedNodes selectedIDs nodes in
              payloads ← upgradeNodes E identity (env_now (E "")) selected;
              let matchedIDs : gset string := if Nat.eqb (size selectedIDs) 0 then ∅ else list_to_set (map node_ID selected) in
              reject (negb (Nat.eqb (size selectedIDs) 0) && negb (Nat.eqb (size matchedIDs) (size selectedIDs))) RepoErrNotFound;;
              mret payloads) db.

Definition RecordNodeAgentUpdateResult (E : callEnv) (organizationID nodeID status errorMessage : string) (db : database)
    : result serviceError () * database :=
  let status := ToUpper (TrimSpace status) in
  if negb (String.eqb status "SUCCEEDED") && negb (String.eqb status "FAILED") && negb (String.eqb status "RUNNING")
  then refuse ErrInvalidInput db
  else serve (PresenceStore.RecordNodeAgentUpdateResult E organizationID nodeID status errorMessage (env_now E)) db.

Definition pendingUpdate (node : NodeRecord) : option string :=
  if negb (String.eqb (node_DesiredAgentVersion node) "")
     && negb (String.eqb (node_DesiredAgentVersion node) (node_AgentVersion node))
     && String.eqb (node_AgentUpdateStatus node) "PENDING"
  then Some (node_DesiredAgentVersion node) else None.
Definition PendingNodeAgentUpdate (organizationID nodeID : string) (db : database)
    : result serviceError (option string) * database :=
  serve (node ← FindNodeByID organizationID nodeID; mret (pendingUpdate node)) db.
End presence.
