(* ===== verification/EnrollmentRelease.v ===== *)
(** * Giving up a pending registration (control_agent_auth.go, control_node_enrollments.go)

    A credential that was issued but never activated is revoked.  When it came
    from an enrollment profile, the node that was created for it is deleted and
    the profile gets its use back. *)

From S2P Require Import Prelude GoString GoSort Domain ServiceErrors Records ValidatorBase NodeCoverage Transaction Database RuleStore AgentStore DnsStore DnsMarking ControlService.
#[local] Open Scope Z_scope.

Record AgentEnrollmentMetadata := { meta_Hostname : string; meta_RemoteIP : string }.
Record AgentAuthResult := {
  auth_OrganizationID : string; auth_AgentType : string; auth_AgentID : string; auth_RegisteredWithToken : bool;
  auth_RegistrationTokenID : string; auth_EnrollmentProfileID : string; auth_EnrollmentTokenHash : string;
  auth_EnrollmentMetadata : AgentEnrollmentMetadata; auth_AgentCredentialID : string;
  auth_AgentCredential : string; auth_AgentCredentialFileHint : string; auth_AffectedDNSRecordIDs : list string }.

Section release.
Context `{UnicodeTables}.

(** The check of a node set against the rules in the database. *)
Definition validateNodeSet (organizationID : string) (nodes : list NodeRecord) : tx database () :=
  rules ← ListEnabledInboundBindings organizationID;
  match validateEnabledRulesForNodeSet rules nodes with Some e => fail e | None => mret tt end.

(** The node of a credential that was revoked; nothing when it is gone. *)
Definition deleteEnrolledNode (E : callEnv) (organizationID agentID now : string) : tx database (list string) :=
  node ← attempt (FindNodeByID organizationID agentID);
  match node with
  | None => mret []
  | Some node =>
      nodes ← ListNodesByOrganization organizationID;
      validateNodeSet organizationID (removeNodeFromSet nodes agentID);;
      attempt (DeleteNode E organizationID agentID now);;
      markDNSRecordsDependingOnNodeGroupsPending E organizationID (node_GroupIDs node) now
  end.

Definition releaseAgentRegistrationCredentialInTx (E : callEnv) (authResult : AgentAuthResult) (now : string)
    : tx database (list string * bool) :=
  let organizationID := auth_OrganizationID authResult in
  revoked ← attempt (RevokeCredential E organizationID (auth_AgentCredentialID authResult) now);
  let credentialRevoked := isSome revoked in
  if String.eqb (auth_EnrollmentProfileID authResult) "" then mret ([], credentialRevoked)
  else
    affectedDNSRecordIDs ← (if credentialRevoked && negb (String.eqb (auth_AgentID authResult) "")
                            then deleteEnrolledNode E organizationID (auth_AgentID authResult) now else mret []);
    profile ← attempt (FindNodeEnrollmentProfileByID organizationID (auth_EnrollmentProfileID authResult));
    match profile with
    | None => mret (affectedDNSRecordIDs, credentialRevoked)
    | Some profile =>
        (if credentialRevoked && String.eqb (prof_TokenHash profile) (auth_EnrollmentTokenHash authResult) then
           attempt (DecrementNodeEnrollmentProfileUsedCount E organizationID (auth_EnrollmentProfileID authResult) now);;
           mret tt
         else mret tt);;
        mret (affectedDNSRecordIDs, credentialRevoked)
    end.

Definition credentialResult (credential : AgentCredentialRecord) : AgentAuthResult := {|
  auth_OrganizationID := cred_OrganizationID credential; auth_AgentType := cred_AgentType credential;
  auth_AgentID := cred_AgentID credential; auth_RegisteredWithToken := true; auth_RegistrationTokenID := "";
  auth_EnrollmentProfileID := cred_EnrollmentProfileID credential;
  auth_EnrollmentTokenHash := cred_EnrollmentTokenHash credential;
  auth_EnrollmentMetadata := {| meta_Hostname := ""; meta_RemoteIP := "" |};
  auth_AgentCredentialID := cred_ID credential; auth_AgentCredential := ""; auth_AgentCredentialFileHint := "";
  auth_AffectedDNSRecordIDs := [] |}.

(** The first pending credential of the node decides. *)
Definition releasePendingNodeEnrollmentForNode (E : callEnv) (node : NodeRecord) (now : string)
    : tx database (list string * bool) :=
  if String.eqb (TrimSpace (node_EnrollmentProfileID node)) "" then mret ([], false)
  else
    credentials ← ListPendingCredentialsByEnrollmentProfile (node_OrganizationID node) (node_EnrollmentProfileID node);
    match List.find (λ c, String.eqb (cred_AgentID c) (node_ID node)) credentials with
    | None => mret ([], false)
    | Some credential => releaseAgentRegistrationCredentialInTx E (credentialResult credential) now
    end.
End release.
