(* ===== verification/NodeService.v ===== *)
(** * The node service (pkg/core/service/control_nodes.go)

    Node groups and nodes.  An operation that changes which nodes there are,
    or what a node offers, checks the enabled rules against the nodes as they
    will be.  The operations on nodes answer with the DNS records that the
    program evaluates again once the transaction is over. *)

From S2P Require Import Prelude GoString GoSort Domain ServiceErrors Records ValidatorBase NodeCoverage ConfigCompiler Authorizer Transaction Database RuleStore AgentStore DnsStore DnsMarking NodePayload ControlService RuleDeployment EnrollmentRelease.
From coqutil Require Import Datatypes.RecordSetters.
Import TriangleBracketNotations.
#[local] Open Scope Z_scope.

(** [service.newID] in the turn of a loop for a rule. *)
Definition turnEnv (E : callEnv) (ruleID : string) : callEnv := {|
  env_now := env_now E; env_newID := env_newID E; env_auditID := env_auditID E; env_auditNow := env_auditNow E;
  env_nextID := λ kind i, env_nextID E (ruleID ++ "/" ++ kind) i; env_refuse := env_refuse E |}.

Definition sameStringSet (left right : list string) : bool :=
  bool_decide (sort_stable String.ltb left = sort_stable String.ltb right).

Section service.
Context `{UnicodeTables, Authorizer, GeoIPResolver}.

(** ** Node groups *)

Definition ListNodeGroupOptions (identity : InternalIdentity) (accessLevel : string) (db : database)
    : result serviceError (list ResourceOption) * database :=
  if negb (String.eqb accessLevel AccessLevelUse) && negb (String.eqb accessLevel AccessLevelManage)
  then refuse ErrInvalidInput db
  else if String.eqb accessLevel AccessLevelManage && negb (hasPermission identity PermissionNodesManage)
  then refuse ErrForbidden db
  else if String.eqb accessLevel AccessLevelUse && negb (canListUseNodeGroupOptions identity)
  then refuse ErrForbidden db
  else serve (nodeGroups ← ListNodeGroupsByOrganization (id_OrganizationID identity);
              let allowed := allowedNodeGroupIDs identity accessLevel in
              mret (map (λ g, {| opt_Value := ngrp_ID g; opt_Label := ngrp_Name g |})
                      (List.filter (λ g, holds allowed "*" || holds allowed (ngrp_ID g)) nodeGroups))) db.

Definition ListNodeGroups (identity : InternalIdentity) (db : database) : result serviceError (list NodeGroupPayload) * database :=
  if negb (hasPermission identity PermissionNodesRead) && negb (hasPermission identity PermissionNodesManage)
  then refuse ErrForbidden db
  else serve (nodeGroups ← ListNodeGroupsByOrganization (id_OrganizationID identity);
              let allowed := allowedNodeGroupIDs identity AccessLevelUse in
              mret (map toNodeGroupPayload
                      (List.filter (λ g, holds allowed "*" || holds allowed (ngrp_ID g)) nodeGroups))) db.

Definition CreateNodeGroup (E : callEnv) (identity : InternalIdentity) (input : GroupMutationInput) (db : database)
    : result serviceError NodeGroupPayload * database :=
  if negb (canManageAllNodeGroups identity) then refuse ErrForbidden db
  else
    let nodeGroup := {| ngrp_ID := env_newID E; ngrp_OrganizationID := id_OrganizationID identity;
      ngrp_Name := gin_Name input; ngrp_Description := gin_Description input; ngrp_CreatedAt := env_now E;
      ngrp_UpdatedAt := env_now E; ngrp_DeletedAt := "" |} in
    serve (Database.CreateNodeGroup E nodeGroup;;
           writeAudit E (auditForIdentity identity "node_groups.create" "NODE_GROUP" (ngrp_ID nodeGroup) "");;
           mret (toNodeGroupPayload nodeGroup)) db.

Definition UpdateNodeGroup (E : callEnv) (identity : InternalIdentity) (nodeGroupID : string) (input : GroupMutationInput)
    (db : database) : result serviceError NodeGroupPayload * database :=
  if negb (canManageNodeGroup identity nodeGroupID) then refuse ErrForbidden db
  else
    serve (found ← FindNodeGroupByID (id_OrganizationID identity) nodeGroupID;
           let nodeGroup := found <| ngrp_Name := gin_Name input |> <| ngrp_Description := gin_Description input |>
             <| ngrp_UpdatedAt := env_now E |> in
           Database.UpdateNodeGroup E nodeGroup;;
           writeAudit E (auditForIdentity identity "node_groups.update" "NODE_GROUP" (ngrp_ID nodeGroup) "");;
           mret (toNodeGroupPayload nodeGroup)) db.

Definition nodeGroupInUse (message : string) (details : errorDetails) : serviceError :=
  ControlServiceError "NODE_GROUP_IN_USE" message details ErrConflict.

Definition ensureNoRulesForNodeGroup (organizationID nodeGroupID : string) : tx database () :=
  rules ← ListRulesByOrganization organizationID;
  each (λ rule, reject (String.eqb (bind_NodeGroupID (rrec_Binding rule)) nodeGroupID) ErrConflict) rules.
Definition ensureNoNodesForNodeGroup (organizationID nodeGroupID : string) : tx database () :=
  nodes ← ListNodesByOrganization organizationID;
  each (λ node, each (λ groupID, reject (String.eqb groupID nodeGroupID)
    (nodeGroupInUse "The node group is still assigned to one or more nodes."
       {["node_group_id" := DString nodeGroupID; "node_id" := DString (node_ID node)]})) (node_GroupIDs node)) nodes.
Definition decodeJSONStringList (values : list string) : list string :=
  List.filter (λ v, negb (String.eqb v "")) (map TrimSpace values).
Definition ensureNoNodeEnrollmentProfilesForNodeGroup (organizationID nodeGroupID : string) : tx database () :=
  profiles ← ListNodeEnrollmentProfiles organizationID;
  each (λ profile, each (λ groupID, reject (String.eqb groupID nodeGroupID)
    (nodeGroupInUse "The node group is still referenced by one or more node enrollment profiles."
       {["node_group_id" := DString nodeGroupID; "node_enrollment_profile_id" := DString (prof_ID profile);
         "node_enrollment_profile_name" := DString (prof_Name profile);
         "node_enrollment_profile_active" := DBool (prof_Enabled profile && String.eqb (prof_RevokedAt profile) "")]}))
    (decodeJSONStringList (prof_GroupIDsJSON profile))) profiles.
Definition ensureNoDNSInstancesForNodeGroup (organizationID nodeGroupID : string) : tx database () :=
  instances ← ListDNSInstancesByOrganization organizationID;
  each (λ instance, each (λ groupID, reject (String.eqb groupID nodeGroupID)
    (nodeGroupInUse "The node group is still referenced by one or more DNS policies."
       {["node_group_id" := DString nodeGroupID; "dns_instance_id" := DString (inst_ID instance)]}))
    (inst_NodeGroupIDsJSON instance)) instances.

Definition DeleteNodeGroup (E : callEnv) (identity : InternalIdentity) (nodeGroupID : string) (db : database)
    : result serviceError () * database :=
  let organizationID := id_OrganizationID identity in
  if negb (canManageNodeGroup identity nodeGroupID) then refuse ErrForbidden db
  else
    serve (FindNodeGroupByID organizationID nodeGroupID;;
           ensureNoRulesForNodeGroup organizationID nodeGroupID;;
           ensureNoNodesForNodeGroup organizationID nodeGroupID;;
           ensureNoDNSInstancesForNodeGroup organizationID nodeGroupID;;
           ensureNoNodeEnrollmentProfilesForNodeGroup organizationID nodeGroupID;;
           Database.DeleteNodeGroup E organizationID nodeGroupID (env_now E);;
           writeAudit E (auditForIdentity identity "node_groups.delete" "NODE_GROUP" nodeGroupID "")) db.

(** ** Nodes *)

Definition ListNodes (identity : InternalIdentity) (db : database) : result serviceError (list NodePayload) * database :=
  if negb (hasPermission identity PermissionNodesRead) then refuse ErrForbidden db
  else serve (nodes ← ListNodesByOrganization (id_OrganizationID identity);
              mret (map (toNodePayload Lookup)
                      (List.filter (λ node, canUseAnyNodeGroup identity (node_GroupIDs node)) nodes))) db.

Definition GetNode (identity : InternalIdentity) (nodeID : string) (db : database)
    : result serviceError NodePayload * database :=
  if negb (hasPermission identity PermissionNodesRead) then refuse ErrForbidden db
  else serve (node ← FindNodeByID (id_OrganizationID identity) nodeID;
              reject (negb (canUseAnyNodeGroup identity (node_GroupIDs node))) ErrForbidden;;
              mret (toNodePayload Lookup node)) db.

Definition AuthorizeNodeMetricsStream (identity : InternalIdentity) (nodeID : string) (db : database)
    : result serviceError () * database :=
  if negb (hasPermission identity PermissionNodesRead) || negb (hasPermission identity PermissionTrafficReadAll)
  then refuse ErrForbidden db
  else serve (node ← FindNodeByID (id_OrganizationID identity) nodeID;
              reject (negb (canUseAnyNodeGroup identity (node_GroupIDs node))) ErrForbidden) db.
Definition AuthorizeOrganizationNodeMetricsStream (identity : InternalIdentity) : result serviceError () :=
  if negb (hasPermission identity PermissionNodesRead) || negb (hasPermission identity PermissionTrafficReadAll)
  then Err ErrForbidden else Ok tt.

Definition ensureNodeGroupsExist (organizationID : string) (groupIDs : list string) : tx database () :=
  each (λ groupID, FindNodeGroupByID organizationID groupID;; mret tt) groupIDs.

Definition newNode (identity : InternalIdentity) (id : string) (input : NodeMutationInput) (now : string) : NodeRecord := {|
  node_ID := id; node_OrganizationID := id_OrganizationID identity; node_Name := nin_Name input;
  node_Status := "PENDING"; node_PublicDescription := nin_PublicDescription input; node_DesiredConfigVersion := 0;
  node_AppliedConfigVersion := 0; node_ConfigStatus := "PENDING"; node_ConfigErrorMessage := "";
  node_ConfigStatusConfigVersion := 0; node_ConfigRetryCount := 0; node_ConfigNextRetryAt := "";
  node_ConfigStatusUpdatedAt := ""; node_LastSeenAt := ""; node_RegisteredAt := ""; node_AgentVersion := "";
  node_AgentCommit := ""; node_AgentBuildTime := ""; node_AgentAutoUpdateEnabled := true;
  node_DesiredAgentVersion := ""; node_AgentUpdateStatus := ""; node_AgentUpdateError := "";
  node_AgentUpdateStartedAt := ""; node_AgentUpdateFinishedAt := "";
  node_DataplaneMode := nin_DataplaneMode input; node_DataplaneConflictPolicy := nin_DataplaneConflictPolicy input;
  node_DataplaneInstanceID := ""; node_DataplaneStatus := ""; node_DataplaneError := "";
  node_DataplaneLastHash := ""; node_DataplaneLastAppliedAt := ""; node_EnrollmentProfileID := "";
  node_EnrollmentProfileName := ""; node_CreatedAt := now; node_UpdatedAt := now; node_DeletedAt := "";
  node_GroupIDs := nin_GroupIDs input; node_ListenIPs := toNodeListenIPRecords (nin_ListenIPs input);
  node_SendIPs := toNodeSendIPRecords (nin_SendIPs input);
  node_PortRanges := toNodePortRangeRecords (nin_PortRanges input);
  node_DNSPublishAddresses := toNodeDNSPublishAddressRecords (nin_DNSPublishAddresses input);
  node_MaxRulePorts := defaultMaxRulePorts (nin_MaxRulePorts input) |}.

Definition createNode (E : callEnv) (identity : InternalIdentity) (input : NodeMutationInput)
    : tx database (NodePayload * list string) :=
  let organizationID := id_OrganizationID identity in
  ensureNodeGroupsExist organizationID (nin_GroupIDs input);;
  let now := env_now E in
  let node := newNode identity (env_newID E) input now in
  nodes ← ListNodesByOrganization organizationID;
  validateNodeSet organizationID (replaceNodeInSet nodes node);;
  Database.CreateNode E node (nin_GroupIDs input) (node_ListenIPs node) (node_PortRanges node) now;;
  ReplaceManualNodeDNSPublishAddresses E organizationID (node_ID node) (node_DNSPublishAddresses node) now;;
  affectedDNSRecordIDs ← markDNSRecordsDependingOnNodeGroupsPending E organizationID (node_GroupIDs node) now;
  node ← FindNodeByID organizationID (node_ID node);
  writeAudit E (auditForIdentity identity "nodes.create" "NODE" (node_ID node) "");;
  mret (toNodePayload Lookup node, affectedDNSRecordIDs).

(** The dataplane settings of an input, when they are wanted. *)
Definition dataplaneInput (wantMode wantPolicy : bool) (input : NodeMutationInput) : result serviceError NodeMutationInput :=
  input ← (if wantMode then
             mode ← normalizeNodeDataplaneModeForMutation (nin_DataplaneMode input);
             Ok (input <| nin_DataplaneMode := mode |>)
           else Ok input);
  if wantPolicy then
    let policy := defaultNodeDataplaneConflictPolicy (nin_DataplaneConflictPolicy input) in
    validateNodeDataplaneConflictPolicy policy;;
    Ok (input <| nin_DataplaneConflictPolicy := policy |>)
  else Ok input.

Definition CreateNode (E : callEnv) (identity : InternalIdentity) (input : NodeMutationInput) (db : database)
    : result serviceError (NodePayload * list string) * database :=
  if negb (hasPermission identity PermissionNodesManage) then refuse ErrForbidden db
  else match dataplaneInput true true input with
       | Err e => refuse e db
       | Ok input =>
           if Nat.eqb (length (nin_GroupIDs input)) 0 && negb (canManageAllNodeGroups identity) then refuse ErrForbidden db
           else match ensureCanManageNodeGroups identity (nin_GroupIDs input) with
                | Err e => refuse e db
                | Ok _ => serve (createNode E identity input) db
                end
       end.

(** The assignments to the node that was found. *)
Definition changedNode (node : NodeRecord) (input : NodeMutationInput) (targetGroupIDs : list string) : NodeRecord :=
  node <| node_Name := if nin_NameProvided input then nin_Name input else node_Name node |>
       <| node_PublicDescription := if nin_PublicDescriptionProvided input then nin_PublicDescription input
                                    else node_PublicDescription node |>
       <| node_DataplaneMode := if nin_DataplaneModeProvided input then nin_DataplaneMode input
                                else node_DataplaneMode node |>
       <| node_DataplaneConflictPolicy := if nin_DataplaneConflictPolicyProvided input
                                          then nin_DataplaneConflictPolicy input else node_DataplaneConflictPolicy node |>
       <| node_ListenIPs := if nin_ListenIPsProvided input then toNodeListenIPRecords (nin_ListenIPs input)
                            else node_ListenIPs node |>
       <| node_SendIPs := if nin_SendIPsProvided input then toNodeSendIPRecords (nin_SendIPs input)
                          else node_SendIPs node |>
       <| node_PortRanges := if nin_PortRangesProvided input then toNodePortRangeRecords (nin_PortRanges input)
                             else node_PortRanges node |>
       <| node_MaxRulePorts := if nin_MaxRulePortsProvided input then defaultMaxRulePorts (nin_MaxRulePorts input)
                               else node_MaxRulePorts node |>
       <| node_DNSPublishAddresses := if nin_DNSPublishAddressesProvided input
                                      then toNodeDNSPublishAddressRecords (nin_DNSPublishAddresses input)
                                      else node_DNSPublishAddresses node |>
       <| node_GroupIDs := targetGroupIDs |>.
Definition dataplaneConfigChanged (node : NodeRecord) (input : NodeMutationInput) : bool :=
  (nin_DataplaneModeProvided input && negb (String.eqb (node_DataplaneMode node) (nin_DataplaneMode input)))
  || (nin_DataplaneConflictPolicyProvided input
      && negb (String.eqb (node_DataplaneConflictPolicy node) (nin_DataplaneConflictPolicy input))).

(** The groups that the node is to have. *)
Definition targetGroups (identity : InternalIdentity) (node : NodeRecord) (input : NodeMutationInput)
    : tx database (list string) :=
  if nin_GroupIDsProvided input then
    reject (Nat.eqb (length (nin_GroupIDs input)) 0 && negb (canManageAllNodeGroups identity)) ErrForbidden;;
    pure (ensureCanManageNodeGroups identity (nin_GroupIDs input));;
    ensureNodeGroupsExist (id_OrganizationID identity) (nin_GroupIDs input);;
    mret (nin_GroupIDs input)
  else mret (node_GroupIDs node).

Definition updateNode (E : callEnv) (identity : InternalIdentity) (nodeID : string) (input : NodeMutationInput)
    : tx database (NodePayload * list string) :=
  let organizationID := id_OrganizationID identity in
  let now := env_now E in
  node ← FindNodeByID organizationID nodeID;
  pure (ensureCanManageNodeGroups identity (node_GroupIDs node));;
  let previousGroupIDs := node_GroupIDs node in
  targetGroupIDs ← targetGroups identity node input;
  let configChanged := dataplaneConfigChanged node input in
  let node := changedNode node input targetGroupIDs in
  nodes ← ListNodesByOrganization organizationID;
  validateNodeSet organizationID (replaceNodeInSet nodes node);;
  let node := node <| node_UpdatedAt := now |> in
  Database.UpdateNode E node (nin_GroupIDsProvided input) targetGroupIDs
    (nin_ListenIPsProvided input) (toNodeListenIPRecords (nin_ListenIPs input))
    (nin_PortRangesProvided input) (toNodePortRangeRecords (nin_PortRanges input)) now;;
  when (nin_DNSPublishAddressesProvided input)
    (ReplaceManualNodeDNSPublishAddresses E organizationID (node_ID node) (node_DNSPublishAddresses node) now);;
  let groupMembershipChanged := nin_GroupIDsProvided input && negb (sameStringSet previousGroupIDs targetGroupIDs) in
  affectedDNSRecordIDs ←
    (if nin_DNSPublishAddressesProvided input || groupMembershipChanged then
       markDNSRecordsDependingOnNodeGroupsPending E organizationID (mergeStringSets previousGroupIDs targetGroupIDs) now
     else mret []);
  (if configChanged || groupMembershipChanged then
     IncrementDesiredConfigForNode E organizationID (node_ID node) now;;
     node ← FindNodeByID organizationID (node_ID node);
     when groupMembershipChanged
       (syncRuleDeploymentsForNodeMembershipChange (turnEnv E) organizationID node previousGroupIDs targetGroupIDs now);;
     syncRuleDeploymentsForNodeConfigChange (turnEnv E) organizationID node now
   else mret tt);;
  node ← FindNodeByID organizationID (node_ID node);
  writeAudit E (auditForIdentity identity "nodes.update" "NODE" (node_ID node) "");;
  mret (toNodePayload Lookup node, affectedDNSRecordIDs).

Definition UpdateNode (E : callEnv) (identity : InternalIdentity) (nodeID : string) (input : NodeMutationInput)
    (db : database) : result serviceError (NodePayload * list string) * database :=
  if negb (hasPermission identity PermissionNodesManage) then refuse ErrForbidden db
  else match dataplaneInput (nin_DataplaneModeProvided input) (nin_DataplaneConflictPolicyProvided input) input with
       | Err e => refuse e db
       | Ok input => serve (updateNode E identity nodeID input) db
       end.

Definition deleteNode (E : callEnv) (identity : InternalIdentity) (nodeID : string) : tx database (list string) :=
  let organizationID := id_OrganizationID identity in
  node ← FindNodeByID organizationID nodeID;
  pure (ensureCanManageNodeGroups identity (node_GroupIDs node));;
  nodes ← ListNodesByOrganization organizationID;
  validateNodeSet organizationID (removeNodeFromSet nodes nodeID);;
  let deletedAt := env_now E in
  '(releasedDNSRecordIDs, released) ← releasePendingNodeEnrollmentForNode E node deletedAt;
  let audit := writeAudit E (auditForIdentity identity "nodes.delete" "NODE" nodeID "") in
  if released : bool then audit;; mret releasedDNSRecordIDs
  else
    Database.DeleteNode E organizationID nodeID deletedAt;;
    affectedDNSRecordIDs ← markDNSRecordsDependingOnNodeGroupsPending E organizationID (node_GroupIDs node) deletedAt;
    audit;;
    mret affectedDNSRecordIDs.

Definition DeleteNode (E : callEnv) (identity : InternalIdentity) (nodeID : string) (db : database)
    : result serviceError (list string) * database :=
  if negb (hasPermission identity PermissionNodesManage) then refuse ErrForbidden db
  else serve (deleteNode E identity nodeID) db.
End service.
