(* ===== verification/RuleService.v ===== *)
(** * The rule service (pkg/core/service/control_rules.go)

    Every operation is the transaction of the Go function, from the checks on
    the input to the audit entry.  What the operations promise together is in
    RuleInvariant.v and ControlPlane.v. *)

From S2P Require Import Prelude GoString GoInt GoSort GoUtf8 Domain ServiceErrors Records ValidatorBase NodeCoverage ConfigCompiler RuleInput Authorizer Transaction Database RuleStore Layout StoreLayout RulePayload ControlService RuleDeployment.
Import Domain.Errors Domain.Rules.
From coqutil Require Import Datatypes.RecordSetters.
Import TriangleBracketNotations.
#[local] Open Scope Z_scope.

Record RuleCopyInput := { copy_Name : string; copy_Tags : list string; copy_TagsSet : bool }.
Record RuleBatchInput := { batch_Action : string; batch_RuleIDs : list string }.
Record RuleBatchItemResult := { item_RuleID : string; item_Status : string; item_Error : option ErrorPayload }.
Record RuleBatchResult := {
  br_Action : string; br_Total : Z; br_Succeeded : Z; br_Failed : Z; br_Results : list RuleBatchItemResult }.

(** ** Names of copies *)

(** The turns of the loop over the runes: [rest] is the source from [index] on. *)
Fixpoint copyNameLoop (fuel : nat) (source : bytes) (index : nat) (prefixBytes limit : Z) : bytes :=
  match fuel with
  | O => source
  | S fuel =>
      match drop index source with
      | [] => source
      | rest =>
          if limit <? prefixBytes + rune_bytes rest then take index source
          else copyNameLoop fuel source (index + rune_width rest) (prefixBytes + rune_bytes rest) limit
      end
  end.
Definition defaultRuleCopyName (sourceName : string) : string :=
  if len sourceName + len " copy" <=? 120 then (sourceName ++ " copy")%string
  else
    let source := bytes_of sourceName in
    (string_of (copyNameLoop (length source) source 0 0 (120 - len " copy")) ++ " copy")%string.

(** ** Bindings *)

Definition toInboundBindingPortSegments (organizationID bindingID : string) (inputs : list RulePortSegmentInput)
    (now : string) : list InboundBindingPortSegmentRecord :=
  map (λ i, {| bseg_ID := ""; bseg_OrganizationID := organizationID; bseg_InboundBindingID := bindingID;
               bseg_StartPort := pseg_StartPort i; bseg_EndPort := pseg_EndPort i; bseg_CreatedAt := now |}) inputs.

Definition inboundBindingForRule `{UUIDHash} (organizationID : string) (input : RuleMutationInput) (now : string)
    : InboundBindingRecord :=
  let segments := toInboundBindingPortSegments organizationID "" (mi_PortSegments input) now in
  let idSource := (organizationID ++ "|" ++ mi_NodeGroupID input ++ "|" ++ mi_ListenIP input ++ "|"
    ++ mi_Protocol input ++ "|" ++ portSegmentsKey segments ++ "|" ++ mmatch_Type (mi_Match input))%string in
  let bindingID := uuidHash idSource in
  {| bind_ID := uuidHash idSource; bind_OrganizationID := organizationID; bind_NodeGroupID := mi_NodeGroupID input;
     bind_ListenIP := mi_ListenIP input; bind_Protocol := mi_Protocol input; bind_Port := mi_Port input;
     bind_PortSegments := map (λ s, {| bseg_ID := bseg_ID s; bseg_OrganizationID := organizationID;
       bseg_InboundBindingID := bindingID; bseg_StartPort := bseg_StartPort s; bseg_EndPort := bseg_EndPort s;
       bseg_CreatedAt := bseg_CreatedAt s |}) segments;
     bind_MatchType := mmatch_Type (mi_Match input); bind_CreatedAt := now |}.

(** [repo.NodeRecord{ID: "shape-check"}] *)
Definition shapeCheckNode : NodeRecord := (example_node "shape-check" [] [] [] []) <| node_Status := "" |>.

Section service.
Context `{UnicodeTables, UUIDHash, Authorizer}.

(** The bindings that an input would make on nodes. *)
Definition inputBindings (organizationID : string) (nodes : list NodeRecord) (input : RuleMutationInput) (ruleID : string)
    : list InboundBinding :=
  bindingsForNodes nodes (mi_NodeGroupID input) (mi_ListenIP input) (mi_Protocol input)
    (toInboundBindingPortSegments organizationID "" (mi_PortSegments input) "") (mmatch_Type (mi_Match input))
    (mmatch_SNIHostname (mi_Match input)) (defaultProxyProtocol (mproxy_In (mi_ProxyProtocol input))) ruleID.

Definition domainCheck (e : option DomainError) : result serviceError () :=
  match e with Some e => Err (ServiceDomainError e) | None => Ok tt end.

Definition validateRuleBindingShape (input : RuleMutationInput) (ruleID : string) : result serviceError () :=
  match inputBindings "" [shapeCheckNode] input ruleID with
  | [] => Err ErrInvalidInput
  | bindings => domainCheck (checkBindings [] bindings)
  end.

(** ** Upstreams (control_targets.go) *)

Definition targetGroupSchedulerSupportedByCore (group : TargetGroupRecord) : bool :=
  targetGroupSchedulerSupportedByOSS (normalizeTargetGroupScheduler (grec_Scheduler group)).

Definition ensureUpstreamAvailable (organizationID : string) (upstream : RuleUpstreamInput) : tx database () :=
  if String.eqb (mup_Type upstream) "TARGET" then
    target ← FindTargetByID organizationID (mup_TargetID upstream);
    reject (negb (trec_Enabled target)) ErrInvalidInput
  else if String.eqb (mup_Type upstream) "TARGET_GROUP" then
    group ← FindTargetGroupByID organizationID (mup_TargetGroupID upstream);
    reject (negb (targetGroupSchedulerSupportedByCore group)) ErrInvalidInput;;
    each (λ member,
      reject (negb (gmem_Enabled member)) ErrInvalidInput;;
      target ← FindTargetByID organizationID (gmem_TargetID member);
      reject (negb (trec_Enabled target)) ErrInvalidInput) (grec_Members group);;
    let hasEnabledPositiveWeightMember := existsb (λ member, 0 <? gmem_Weight member) (grec_Members group) in
    reject (Nat.eqb (length (grec_Members group)) 0
            || String.eqb (normalizeTargetGroupScheduler (grec_Scheduler group)) targetGroupSchedulerLeastLoad
               && negb hasEnabledPositiveWeightMember) ErrInvalidInput
  else fail ErrInvalidInput.

(** ** The checks of a mutation *)

Definition ensureNoRuleConflicts (organizationID : string) (existing : list RuleRecord) (ruleID : string)
    (input : RuleMutationInput) (candidateNodes : list NodeRecord) : tx database () :=
  let candidates := inputBindings organizationID candidateNodes input ruleID in
  each (λ existingRule,
    if String.eqb (rrec_ID existingRule) ruleID then mret tt
    else
      let b := rrec_Binding existingRule in
      existingNodes ← nodesInGroup organizationID (bind_NodeGroupID b);
      let existingBindings := bindingsForNodes existingNodes (bind_NodeGroupID b) (bind_ListenIP b)
        (rrec_Protocol existingRule) (rulePortSegments b) (rrec_MatchType existingRule)
        (rrec_SNIHostname existingRule) (rrec_ProxyProtocolIn existingRule) (rrec_ID existingRule) in
      pure (domainCheck (checkBindings existingBindings candidates))) existing.

Definition coverageError (input : RuleMutationInput) : serviceError :=
  validationError "Selected entry does not cover the rule listen_ip, protocol, and port segments."
    {["node_group_id" := DString (mi_NodeGroupID input); "listen_ip" := DString (mi_ListenIP input);
      "protocol" := DString (mi_Protocol input);
      "port_segments" := DPortSegments (map (λ s, (pseg_StartPort s, pseg_EndPort s)) (mi_PortSegments input))]}.
Definition sendIPError (input : RuleMutationInput) : serviceError :=
  validationError "Selected send_ip is not allowed by every node in the node group."
    {["node_group_id" := DString (mi_NodeGroupID input); "send_ip" := DString (mi_SendIP input)]}.

Definition prepareRuleMutation (identity : InternalIdentity) (ruleID : string) (input : RuleMutationInput)
    (occupiesPort : bool) : tx database () :=
  let organizationID := id_OrganizationID identity in
  reject (negb (canUseNodeGroup identity (mi_NodeGroupID input))) ErrForbidden;;
  pure (validateRuleForwardingType (mi_ForwardingType input));;
  pure (validateFailurePolicy (mi_FailurePolicy input));;
  pure (validateRuleMatchType (mmatch_Type (mi_Match input)));;
  pure (validateRuleBindingShape input ruleID);;
  FindNodeGroupByID organizationID (mi_NodeGroupID input);;
  ensureUpstreamAvailable organizationID (mi_Upstream input);;
  nodes ← nodesInGroup organizationID (mi_NodeGroupID input);
  let segments := toInboundBindingPortSegments organizationID "" (mi_PortSegments input) "" in
  reject (negb (nodesCoverListenIPAndPortSegments nodes (mi_ListenIP input) (mi_Protocol input) segments))
    (coverageError input);;
  reject (negb (nodesShareSendIP nodes (mi_SendIP input))) (sendIPError input);;
  if occupiesPort then
    existing ← ListEnabledInboundBindings organizationID;
    ensureNoRuleConflicts organizationID existing ruleID input nodes
  else mret tt.

(** The limits of an owner: the least positive one, whether there is one, and
    whether a quota lifts it. *)
Definition userQuotaStep (ownerUserID : string) (s : Z * bool * bool) (quota : QuotaRecord) : Z * bool * bool :=
  let '(limit, set, unlimited) := s in
  if negb (String.eqb (quo_Scope quota) "USER") || negb (String.eqb (quo_SubjectUserID quota) ownerUserID) then s
  else if (quo_RuleLimit quota =? 0) && (quo_TrafficLimitBytes quota =? 0) then (limit, set, true)
  else if (0 <? quo_RuleLimit quota) && ((limit =? 0) || (quo_RuleLimit quota <? limit))
  then (quo_RuleLimit quota, true, unlimited) else s.

Definition ensureRuleLimitAvailable (identity : InternalIdentity) (ownerUserID : string) (additionalRules : Z)
    : tx database () :=
  let organizationID := id_OrganizationID identity in
  if additionalRules <=? 0 then mret tt
  else
    organization ← FindOrganizationByID organizationID;
    quotas ← ListQuotasByOrganization organizationID;
    let '(userRuleLimit, set, userRuleUnlimited) := foldl (userQuotaStep ownerUserID) (0, false, false) quotas in
    let userRuleLimitSet := set || userRuleUnlimited in
    (if 0 <? userRuleLimit then
       ownerRuleCount ← CountRulesByOwner organizationID ownerUserID;
       reject (userRuleLimit <? ownerRuleCount + additionalRules) ErrQuotaExceeded
     else if negb userRuleLimitSet && (0 <? org_DefaultRuleLimit organization) then
       ownerRuleCount ← CountRulesByOwner organizationID ownerUserID;
       reject (org_DefaultRuleLimit organization <? ownerRuleCount + additionalRules) ErrQuotaExceeded
     else mret tt);;
    each (λ quota,
      if quo_RuleLimit quota <=? 0 then mret tt
      else if String.eqb (quo_Scope quota) "ORGANIZATION" then
        orgRuleCount ← CountRulesByOrganization organizationID;
        reject (quo_RuleLimit quota <? orgRuleCount + additionalRules) ErrQuotaExceeded
      else mret tt) quotas.

(** ** Operations *)

(** What every operation answers with. *)
Definition reloadRule (identity : InternalIdentity) (ruleID : string) : tx database RulePayload :=
  let organizationID := id_OrganizationID identity in
  rule ← FindRuleByID organizationID ruleID;
  nodes ← nodesInGroup organizationID (bind_NodeGroupID (rrec_Binding rule));
  deployments ← ListRuleDeploymentsByOrganization organizationID;
  mret (toRulePayloadForIdentity identity rule nodes deployments).

Definition statusOf (enabled : bool) : string := if enabled then "ENABLED" else "DISABLED".

Definition newRule (identity : InternalIdentity) (id : string) (input : RuleMutationInput) (binding : InboundBindingRecord)
    (now : string) : RuleRecord := {|
  rrec_ID := id; rrec_OrganizationID := id_OrganizationID identity; rrec_OwnerUserID := id_UserID identity;
  rrec_Name := mi_Name input; rrec_Enabled := mi_Enabled input; rrec_Status := statusOf (mi_Enabled input);
  rrec_ForwardingType := mi_ForwardingType input; rrec_Protocol := mi_Protocol input;
  rrec_MatchType := mmatch_Type (mi_Match input); rrec_InboundBindingID := bind_ID binding;
  rrec_SNIHostname := mmatch_SNIHostname (mi_Match input); rrec_TargetType := mup_Type (mi_Upstream input);
  rrec_TargetID := mup_TargetID (mi_Upstream input); rrec_TargetGroupID := mup_TargetGroupID (mi_Upstream input);
  rrec_ProxyProtocolIn := defaultProxyProtocol (mproxy_In (mi_ProxyProtocol input));
  rrec_ProxyProtocolOut := defaultProxyProtocol (mproxy_Out (mi_ProxyProtocol input));
  rrec_FailurePolicy := defaultFailurePolicy (mi_FailurePolicy input);
  rrec_DataplanePreference := defaultDataplanePreference (mi_DataplanePreference input);
  rrec_SendIP := mi_SendIP input; rrec_ConfigVersion := 0; rrec_CreatedAt := now; rrec_UpdatedAt := now;
  rrec_DeletedAt := ""; rrec_Binding := binding; rrec_Tags := [] |}.

Definition createRule (E : callEnv) (identity : InternalIdentity) (input : RuleMutationInput) : tx database RulePayload :=
  let organizationID := id_OrganizationID identity in
  prepareRuleMutation identity "" input (mi_Enabled input);;
  ensureRuleLimitAvailable identity (id_UserID identity) 1;;
  let now := env_now E in
  let binding := inboundBindingForRule organizationID input now in
  let rule := newRule identity (env_newID E) input binding now in
  RuleStore.CreateRule E rule binding (mi_Tags input);;
  (if mi_Enabled input then
     bumpDesiredConfigForNodeGroup E organizationID (bind_NodeGroupID binding) now;;
     syncRuleDeploymentPending E organizationID rule now
   else mret tt);;
  result ← reloadRule identity (rrec_ID rule);
  writeAudit E (auditForIdentity identity "rules.create" "FORWARDING_RULE" (rrec_ID rule) "");;
  mret result.

(** The validation in front of [CreateRule] and [UpdateRule]. *)
Definition validatedInput (input : RuleMutationInput) : result serviceError RuleMutationInput :=
  input ← validateRuleMutationInput input;
  dataplanePreference ← normalizeDataplanePreferenceForMutation (mi_DataplanePreference input);
  Ok (input <| mi_DataplanePreference := dataplanePreference |>).

Definition CreateRule (E : callEnv) (identity : InternalIdentity) (input : RuleMutationInput) (db : database)
    : result serviceError RulePayload * database :=
  if negb (hasPermission identity PermissionRulesManageOwn) && negb (hasPermission identity PermissionRulesManageAll)
  then refuse ErrForbidden db
  else match validatedInput input with
       | Err e => refuse e db
       | Ok input => serve (createRule E identity input) db
       end.

Definition GetRule (identity : InternalIdentity) (ruleID : string) (db : database)
    : result serviceError RulePayload * database :=
  let organizationID := id_OrganizationID identity in
  serve (rule ← FindRuleByID organizationID ruleID;
         reject (negb (canReadRule identity rule)) ErrForbidden;;
         nodes ← nodesInGroup organizationID (bind_NodeGroupID (rrec_Binding rule));
         deployments ← ListRuleDeploymentsByOrganization organizationID;
         mret (toRulePayloadForIdentity identity rule nodes deployments)) db.

(** The assignments to the rule that was found. *)
Definition changedRule (rule : RuleRecord) (input : RuleMutationInput) (now : string) : RuleRecord :=
  rule <| rrec_Name := mi_Name input |> <| rrec_Tags := mi_Tags input |> <| rrec_Enabled := mi_Enabled input |>
       <| rrec_Status := statusOf (mi_Enabled input) |> <| rrec_ForwardingType := mi_ForwardingType input |>
       <| rrec_Protocol := mi_Protocol input |> <| rrec_MatchType := mmatch_Type (mi_Match input) |>
       <| rrec_SNIHostname := mmatch_SNIHostname (mi_Match input) |>
       <| rrec_TargetType := mup_Type (mi_Upstream input) |> <| rrec_TargetID := mup_TargetID (mi_Upstream input) |>
       <| rrec_TargetGroupID := mup_TargetGroupID (mi_Upstream input) |>
       <| rrec_ProxyProtocolIn := defaultProxyProtocol (mproxy_In (mi_ProxyProtocol input)) |>
       <| rrec_ProxyProtocolOut := defaultProxyProtocol (mproxy_Out (mi_ProxyProtocol input)) |>
       <| rrec_FailurePolicy := defaultFailurePolicy (mi_FailurePolicy input) |>
       <| rrec_DataplanePreference := defaultDataplanePreference (mi_DataplanePreference input) |>
       <| rrec_SendIP := mi_SendIP input |> <| rrec_ConfigVersion := rrec_ConfigVersion rule + 1 |>
       <| rrec_UpdatedAt := now |>.

Definition updateRule (E : callEnv) (identity : InternalIdentity) (ruleID : string) (input : RuleMutationInput)
    : tx database RulePayload :=
  let organizationID := id_OrganizationID identity in
  rule ← FindRuleByID organizationID ruleID;
  reject (negb (canManageRule identity rule)) ErrForbidden;;
  let input := if mi_EnabledSet input then input else input <| mi_Enabled := rrec_Enabled rule |> in
  let oldNodeGroupID := bind_NodeGroupID (rrec_Binding rule) in
  prepareRuleMutation identity (rrec_ID rule) input (mi_Enabled input);;
  let now := env_now E in
  let rule := changedRule rule input now in
  let binding := inboundBindingForRule organizationID input now in
  RuleStore.UpdateRule E rule binding (mi_Tags input);;
  bumpDesiredConfigForNodeGroup E organizationID oldNodeGroupID now;;
  (if negb (String.eqb (bind_NodeGroupID binding) oldNodeGroupID)
   then bumpDesiredConfigForNodeGroup E organizationID (bind_NodeGroupID binding) now else mret tt);;
  let rule := rule <| rrec_Binding := binding |> in
  syncRuleDeploymentPending E organizationID rule now;;
  result ← reloadRule identity (rrec_ID rule);
  writeAudit E (auditForIdentity identity "rules.update" "FORWARDING_RULE" (rrec_ID rule) "");;
  mret result.

Definition UpdateRule (E : callEnv) (identity : InternalIdentity) (ruleID : string) (input : RuleMutationInput)
    (db : database) : result serviceError RulePayload * database :=
  match validatedInput input with
  | Err e => refuse e db
  | Ok input => serve (updateRule E identity ruleID input) db
  end.

Definition DeleteRule (E : callEnv) (identity : InternalIdentity) (ruleID : string) (db : database)
    : result serviceError () * database :=
  let organizationID := id_OrganizationID identity in
  serve (rule ← FindRuleByID organizationID ruleID;
         reject (negb (canManageRule identity rule)) ErrForbidden;;
         let now := env_now E in
         RuleStore.DeleteRule E organizationID ruleID now;;
         DeleteRuleDeployments E organizationID ruleID;;
         bumpDesiredConfigForNodeGroup E organizationID (bind_NodeGroupID (rrec_Binding rule)) now;;
         writeAudit E (auditForIdentity identity "rules.delete" "FORWARDING_RULE" ruleID "")) db.

Definition setRuleEnabled (E : callEnv) (identity : InternalIdentity) (ruleID : string) (enabled : bool) (db : database)
    : result serviceError RulePayload * database :=
  let organizationID := id_OrganizationID identity in
  serve (rule ← FindRuleByID organizationID ruleID;
         reject (negb (canManageRule identity rule)) ErrForbidden;;
         (if enabled then prepareRuleMutation identity (rrec_ID rule) (inputFromRule rule) true else mret tt);;
         let now := env_now E in
         let rule := rule <| rrec_Enabled := enabled |> <| rrec_Status := statusOf enabled |>
                          <| rrec_UpdatedAt := now |> <| rrec_ConfigVersion := rrec_ConfigVersion rule + 1 |> in
         RuleStore.UpdateRule E rule (rrec_Binding rule) (rrec_Tags rule);;
         bumpDesiredConfigForNodeGroup E organizationID (bind_NodeGroupID (rrec_Binding rule)) now;;
         syncRuleDeploymentPending E organizationID rule now;;
         result ← reloadRule identity (rrec_ID rule);
         writeAudit E (auditForIdentity identity "rules.status" "FORWARDING_RULE" (rrec_ID rule) "");;
         mret result) db.
Definition EnableRule E identity ruleID := setRuleEnabled E identity ruleID true.
Definition DisableRule E identity ruleID := setRuleEnabled E identity ruleID false.

Definition copiedRule (source : RuleRecord) (id name now : string) : RuleRecord :=
  source <| rrec_ID := id |> <| rrec_Name := name |> <| rrec_Enabled := false |> <| rrec_Status := "DISABLED" |>
         <| rrec_ForwardingType := defaultForwardingType (rrec_ForwardingType source) |>
         <| rrec_FailurePolicy := defaultFailurePolicy (rrec_FailurePolicy source) |>
         <| rrec_DataplanePreference := defaultDataplanePreference (rrec_DataplanePreference source) |>
         <| rrec_CreatedAt := now |> <| rrec_UpdatedAt := now |> <| rrec_ConfigVersion := 0 |>.

Definition CopyRule (E : callEnv) (identity : InternalIdentity) (ruleID : string) (input : RuleCopyInput) (db : database)
    : result serviceError RulePayload * database :=
  let organizationID := id_OrganizationID identity in
  serve (source ← FindRuleByID organizationID ruleID;
         reject (negb (canManageRule identity source)) ErrForbidden;;
         prepareRuleMutation identity (rrec_ID source) (inputFromRule source) false;;
         ensureRuleLimitAvailable identity (rrec_OwnerUserID source) 1;;
         let name := TrimSpace (copy_Name input) in
         let name := if String.eqb name "" then defaultRuleCopyName (rrec_Name source) else name in
         let tags := if copy_TagsSet input then copy_Tags input else rrec_Tags source in
         let copied := copiedRule source (env_newID E) name (env_now E) in
         RuleStore.CreateRule E copied (rrec_Binding source) tags;;
         result ← reloadRule identity (rrec_ID copied);
         writeAudit E (auditForIdentity identity "rules.copy" "FORWARDING_RULE" (rrec_ID copied) "");;
         mret result) db.

Definition ListRules (identity : InternalIdentity) (db : database) : result serviceError (list RulePayload) * database :=
  let organizationID := id_OrganizationID identity in
  if negb (hasRuleReadOrManagePermission identity) then refuse ErrForbidden db
  else serve (rules ← ListRulesByOrganization organizationID;
              deployments ← ListRuleDeploymentsByOrganization organizationID;
              foldr (λ rule rest,
                if negb (canReadRule identity rule) then rest
                else
                  nodes ← nodesInGroup organizationID (bind_NodeGroupID (rrec_Binding rule));
                  payloads ← rest;
                  mret (toRulePayloadForIdentity identity rule nodes deployments :: payloads)) (mret []) rules) db.

(** *** Batches: one transaction for each rule *)

(** The selection: trimmed, without blanks and repetitions. *)
Fixpoint batchIDs (seen : gset string) (ruleIDs : list string) : list string :=
  match ruleIDs with
  | [] => []
  | ruleID :: rest =>
      let ruleID := TrimSpace ruleID in
      if String.eqb ruleID "" || bool_decide (ruleID ∈ seen) then batchIDs seen rest
      else ruleID :: batchIDs ({[ruleID]} ∪ seen) rest
  end.

Definition batchItem (E : callEnv) (identity : InternalIdentity) (action ruleID : string) (db : database)
    : RuleBatchItemResult * database :=
  let '(err, db') :=
    if String.eqb action "ENABLE" then
      let '(r, db') := EnableRule E identity ruleID db in (match r with Ok _ => None | Err e => Some e end, db')
    else if String.eqb action "DISABLE" then
      let '(r, db') := DisableRule E identity ruleID db in (match r with Ok _ => None | Err e => Some e end, db')
    else
      let '(r, db') := DeleteRule E identity ruleID db in (match r with Ok _ => None | Err e => Some e end, db') in
  ({| item_RuleID := ruleID; item_Status := if isSome err then "FAILED" else "SUCCEEDED";
      item_Error := ErrorPayloadForError <$> err |}, db').

Fixpoint batchItems (E : string → callEnv) (identity : InternalIdentity) (action : string) (ruleIDs : list string)
    (db : database) : list RuleBatchItemResult * database :=
  match ruleIDs with
  | [] => ([], db)
  | ruleID :: rest =>
      let '(item, db1) := batchItem (E ruleID) identity action ruleID db in
      let '(items, db2) := batchItems E identity action rest db1 in
      (item :: items, db2)
  end.

Definition itemFailed (item : RuleBatchItemResult) : bool := String.eqb (item_Status item) "FAILED".

Definition BatchRules (E : string → callEnv) (identity : InternalIdentity) (input : RuleBatchInput) (db : database)
    : result serviceError RuleBatchResult * database :=
  if negb (hasPermission identity PermissionRulesManageOwn) && negb (hasPermission identity PermissionRulesManageAll)
  then refuse ErrForbidden db
  else
    let action := ToUpper (TrimSpace (batch_Action input)) in
    if negb (bool_decide (action ∈ ["ENABLE"; "DISABLE"; "DELETE"])) then refuse ErrInvalidInput db
    else match batchIDs ∅ (batch_RuleIDs input) with
         | [] => refuse ErrInvalidInput db
         | ruleIDs =>
             let '(items, db') := batchItems E identity action ruleIDs db in
             (Ok {| br_Action := action; br_Total := Z.of_nat (length ruleIDs);
                    br_Succeeded := Z.of_nat (length (List.filter (λ i, negb (itemFailed i)) items));
                    br_Failed := Z.of_nat (length (List.filter itemFailed items)); br_Results := items |}, db')
         end.
End service.
