(* ===== verification/TargetService.v ===== *)
(** * The target service (pkg/core/service/control_targets.go)

    Targets and target groups.  A rule forwards to a target or to a group of
    targets; the operations refuse what would leave a rule without a target
    that it can use, and give the nodes of the rules they affect a new
    configuration version. *)

From S2P Require Import Prelude GoString GoInt GoSort Domain ServiceErrors Records ValidatorBase NodeCoverage ConfigCompiler Authorizer Transaction Database RuleStore MonitorStore RulePayload ControlService RuleDeployment RuleService NodeService.
From coqutil Require Import Datatypes.RecordSetters.
Import TriangleBracketNotations.
#[local] Open Scope Z_scope.

Definition defaultTargetGroupMemberPriority : Z := 10.
Definition maxTargetGroupMemberWeight : Z := 256.

Record TargetMutationInput := {
  tin_Name : string; tin_Host : string; tin_Port : Z; tin_Enabled : bool; tin_TargetGroupIDs : list string;
  tin_TargetGroupIDsProvided : bool }.
Record TargetGroupMemberInput := {
  tgm_TargetID : string; tgm_Priority : Z; tgm_Weight : Z; tgm_WeightProvided : bool; tgm_Enabled : bool }.
Record TargetGroupMutationInput := {
  tgi_Name : string; tgi_Description : string; tgi_Scheduler : string; tgi_Members : list TargetGroupMemberInput }.
Record TargetPayload := { tpay_ID : string; tpay_Name : string; tpay_Host : string; tpay_Port : Z; tpay_Enabled : bool }.
Record TargetGroupMemberPayload := {
  tgmp_TargetID : string; tgmp_Priority : Z; tgmp_Weight : Z; tgmp_Enabled : bool }.
#[export] Instance TargetGroupMemberPayload_eq_dec : EqDecision TargetGroupMemberPayload.
Proof. solve_decision. Defined.
Record TargetGroupPayload := {
  tgp_ID : string; tgp_Name : string; tgp_Description : string; tgp_Scheduler : string;
  tgp_Members : list TargetGroupMemberPayload }.
(** An option that may be disabled, with the reason. *)
Record TargetOption := { topt_Value : string; topt_Label : string; topt_Disabled : bool; topt_DisabledReason : string }.

(** The schedulers that an extension of the service supports. *)
Class TargetGroupSchedulers := targetGroupSchedulers : option (string → bool).

Definition toTargetPayload (t : TargetRecord) : TargetPayload := {|
  tpay_ID := trec_ID t; tpay_Name := trec_Name t; tpay_Host := trec_Host t; tpay_Port := trec_Port t;
  tpay_Enabled := trec_Enabled t |}.
Definition toTargetGroupMemberPayloads (members : list TargetGroupMemberRecord) : list TargetGroupMemberPayload :=
  map (λ m, {| tgmp_TargetID := gmem_TargetID m; tgmp_Priority := gmem_Priority m; tgmp_Weight := gmem_Weight m;
               tgmp_Enabled := gmem_Enabled m |}) members.
Definition toTargetGroupPayload (g : TargetGroupRecord) : TargetGroupPayload := {|
  tgp_ID := grec_ID g; tgp_Name := grec_Name g; tgp_Description := grec_Description g;
  tgp_Scheduler := grec_Scheduler g; tgp_Members := toTargetGroupMemberPayloads (grec_Members g) |}.
Definition toTargetGroupMemberRecords (organizationID targetGroupID : string) (inputs : list TargetGroupMemberInput)
    : list TargetGroupMemberRecord :=
  map (λ i, {| gmem_ID := ""; gmem_OrganizationID := organizationID; gmem_TargetGroupID := targetGroupID;
    gmem_TargetID := tgm_TargetID i; gmem_Priority := tgm_Priority i; gmem_Weight := tgm_Weight i;
    gmem_Enabled := tgm_Enabled i; gmem_CreatedAt := ""; gmem_UpdatedAt := "" |}) inputs.

(** ** Members of groups *)

(** A member that is kept, as an input. *)
Definition keptMember (m : TargetGroupMemberRecord) : TargetGroupMemberInput := {|
  tgm_TargetID := gmem_TargetID m; tgm_Priority := gmem_Priority m; tgm_Weight := gmem_Weight m;
  tgm_WeightProvided := true; tgm_Enabled := gmem_Enabled m |}.
Definition addedMember (targetID : string) : TargetGroupMemberInput := {|
  tgm_TargetID := targetID; tgm_Priority := defaultTargetGroupMemberPriority; tgm_Weight := 1;
  tgm_WeightProvided := true; tgm_Enabled := true |}.
Definition targetGroupMembersWithTarget (members : list TargetGroupMemberRecord) (targetID : string)
    (shouldContainTarget : bool) : list TargetGroupMemberInput * bool :=
  let found := existsb (λ m, String.eqb (gmem_TargetID m) targetID) members in
  let next := map keptMember (List.filter (λ m, negb (String.eqb (gmem_TargetID m) targetID && negb shouldContainTarget)) members) in
  if shouldContainTarget && negb found then (next ++ [addedMember targetID], true)
  else (next, found && negb shouldContainTarget).

(** The weights of the members there are: the last one of a target counts. *)
Definition existingWeights (existing : list TargetGroupMemberRecord) : gmap string Z :=
  foldl (λ weights m, <[gmem_TargetID m := gmem_Weight m]> weights) ∅ existing.
Definition targetGroupMembersWithPreservedWeights (existing : list TargetGroupMemberRecord)
    (next : list TargetGroupMemberInput) : list TargetGroupMemberInput :=
  let weights := existingWeights existing in
  map (λ i, if tgm_WeightProvided i then i else i <| tgm_Weight := default 1 (weights !! tgm_TargetID i) |>) next.

Definition memberBefore (x y : TargetGroupMemberPayload) : bool :=
  if negb (String.eqb (tgmp_TargetID x) (tgmp_TargetID y)) then String.ltb (tgmp_TargetID x) (tgmp_TargetID y)
  else if negb (tgmp_Priority x =? tgmp_Priority y) then tgmp_Priority x <? tgmp_Priority y
  else if negb (tgmp_Weight x =? tgmp_Weight y) then tgmp_Weight x <? tgmp_Weight y
  else negb (tgmp_Enabled x) && tgmp_Enabled y.

Section service.
Context `{UnicodeTables, UUIDHash, Authorizer, TargetGroupSchedulers}.

(** [sort.Slice] orders members that are equal in all fields in any way. *)
Definition targetGroupRuntimeChanged (group : TargetGroupRecord) (input : TargetGroupMutationInput) : bool :=
  if negb (String.eqb (normalizeTargetGroupScheduler (tgi_Scheduler input)) (grec_Scheduler group)) then true
  else if negb (Nat.eqb (length (grec_Members group)) (length (tgi_Members input))) then true
  else
    let existing := toTargetGroupMemberPayloads (grec_Members group) in
    let next := map (λ i, {| tgmp_TargetID := tgm_TargetID i; tgmp_Priority := tgm_Priority i;
                             tgmp_Weight := tgm_Weight i; tgmp_Enabled := tgm_Enabled i |}) (tgi_Members input) in
    negb (bool_decide (sort_stable memberBefore existing = sort_stable memberBefore next)).

Definition targetGroupSchedulerSupported (scheduler : string) : bool :=
  let scheduler := normalizeTargetGroupScheduler scheduler in
  if targetGroupSchedulerSupportedByOSS scheduler then true
  else match targetGroupSchedulers with Some supported => supported scheduler | None => false end.

Fixpoint membersValid (organizationID : string) (seen : gset string) (members : list TargetGroupMemberInput) : tx database () :=
  match members with
  | [] => mret tt
  | member :: rest =>
      reject ((tgm_Weight member <? 0) || (maxTargetGroupMemberWeight <? tgm_Weight member)) ErrInvalidInput;;
      reject (bool_decide (tgm_TargetID member ∈ seen)) ErrInvalidInput;;
      FindTargetByID organizationID (tgm_TargetID member);;
      membersValid organizationID ({[tgm_TargetID member]} ∪ seen) rest
  end.
Definition ensureTargetGroupMembersValid (organizationID scheduler : string) (members : list TargetGroupMemberInput)
    : tx database () := membersValid organizationID ∅ members.

Definition ensureTargetGroupMembersUsable (organizationID scheduler : string) (members : list TargetGroupMemberInput)
    : tx database () :=
  reject (Nat.eqb (length members) 0) ErrInvalidInput;;
  each (λ member,
    reject (negb (tgm_Enabled member)) ErrInvalidInput;;
    target ← FindTargetByID organizationID (tgm_TargetID member);
    reject (negb (trec_Enabled target)) ErrInvalidInput) members;;
  reject (String.eqb (normalizeTargetGroupScheduler scheduler) targetGroupSchedulerLeastLoad
          && negb (existsb (λ member, 0 <? tgm_Weight member) members)) ErrInvalidInput.

Definition forwardsToGroup (targetGroupID : string) (rule : RuleRecord) : bool :=
  String.eqb (rrec_TargetType rule) "TARGET_GROUP" && String.eqb (rrec_TargetGroupID rule) targetGroupID.
Definition targetGroupUsedByRules (organizationID targetGroupID : string) : tx database bool :=
  rules ← ListRulesByOrganization organizationID; mret (existsb (forwardsToGroup targetGroupID) rules).

(** The turn of [syncTargetGroupMemberships] for a group: [members] is what the
    group is to contain. *)
Definition syncGroup (E : callEnv) (organizationID targetID now : string) (selected : gset string) (group : TargetGroupRecord)
    : tx database () :=
  let '(members, changed) :=
    targetGroupMembersWithTarget (grec_Members group) targetID (bool_decide (grec_ID group ∈ selected)) in
  if negb changed then mret tt
  else
    reject (negb (targetGroupSchedulerSupported (grec_Scheduler group))) ErrInvalidInput;;
    let input := {| tgi_Name := grec_Name group; tgi_Description := grec_Description group;
                    tgi_Scheduler := grec_Scheduler group; tgi_Members := members |} in
    ensureTargetGroupMembersValid organizationID (grec_Scheduler group) members;;
    usedByRules ← targetGroupUsedByRules organizationID (grec_ID group);
    when usedByRules (ensureTargetGroupMembersUsable organizationID (grec_Scheduler group) members);;
    let group := group <| grec_UpdatedAt := now |> in
    UpdateTargetGroup E group (toTargetGroupMemberRecords organizationID (grec_ID group) members) now;;
    when (usedByRules && targetGroupRuntimeChanged group input)
      (bumpDesiredConfigForRulesUsingTargetGroup (turnEnv E) organizationID (grec_ID group) now).
Definition syncTargetGroupMemberships (E : callEnv) (organizationID targetID : string) (targetGroupIDs : list string)
    (now : string) : tx database () :=
  targetGroups ← ListTargetGroupsByOrganization organizationID;
  each (λ id, reject (negb (existsb (λ g, String.eqb (grec_ID g) id) targetGroups)) RepoErrNotFound) targetGroupIDs;;
  each (λ group, syncGroup (turnEnv E (grec_ID group)) organizationID targetID now (list_to_set targetGroupIDs) group)
    targetGroups.

(** ** What a target or a group is used by *)

Definition ensureTargetNotUsedByRules (organizationID targetID : string) : tx database () :=
  rules ← ListRulesByOrganization organizationID;
  each (λ rule, reject (String.eqb (rrec_TargetType rule) "TARGET" && String.eqb (rrec_TargetID rule) targetID) ErrConflict) rules;;
  targetGroups ← ListTargetGroupsByOrganization organizationID;
  let targetGroupUsesTarget : gset string := list_to_set (map grec_ID (List.filter (usesTarget targetID) targetGroups)) in
  each (λ rule, reject (String.eqb (rrec_TargetType rule) "TARGET_GROUP"
                        && bool_decide (rrec_TargetGroupID rule ∈ targetGroupUsesTarget)) ErrConflict) rules.

Definition ensureTargetGroupNotUsedByRules (organizationID targetGroupID : string) : tx database () :=
  rules ← ListRulesByOrganization organizationID;
  each (λ rule, reject (forwardsToGroup targetGroupID rule) ErrConflict) rules.

Definition ensureTargetGroupNotUsedByHealthChecks (organizationID targetGroupID : string) : tx database () :=
  checks ← ListHealthChecksByOrganization organizationID;
  each (λ check, each (λ target,
    reject (String.eqb (hct_ScopeType target) "TARGET_GROUP" && String.eqb (hct_TargetGroupID target) targetGroupID)
      (ControlServiceError "TARGET_GROUP_IN_USE" "The target group is still assigned to one or more health checks."
         {["target_group_id" := DString targetGroupID; "health_check_id" := DString (hchk_ID check)]} ErrConflict))
    (hchk_Targets check)) checks.

Definition targetInUse (message : string) (details : errorDetails) : serviceError :=
  ControlServiceError "TARGET_IN_USE" message details ErrConflict.
(** The group a check watches, and the last check that watches it. *)
Definition healthCheckedTargetGroups (checks : list HealthCheckRecord) : gmap string string :=
  foldl (λ watched check, foldl (λ watched target,
    if String.eqb (hct_ScopeType target) "TARGET_GROUP" && negb (String.eqb (hct_TargetGroupID target) "")
    then <[hct_TargetGroupID target := hchk_ID check]> watched else watched) watched (hchk_Targets check)) ∅ checks.
Definition ensureTargetNotUsedByHealthChecks (organizationID targetID : string) : tx database () :=
  checks ← ListHealthChecksByOrganization organizationID;
  each (λ check, each (λ target,
    reject (String.eqb (hct_ScopeType target) "TARGET" && String.eqb (hct_TargetID target) targetID)
      (targetInUse "The target is still assigned to one or more health checks."
         {["target_id" := DString targetID; "health_check_id" := DString (hchk_ID check)]})) (hchk_Targets check)) checks;;
  let watched := healthCheckedTargetGroups checks in
  if bool_decide (watched = ∅) then mret tt
  else
    targetGroups ← ListTargetGroupsByOrganization organizationID;
    each (λ group,
      match watched !! grec_ID group with
      | None => mret tt
      | Some healthCheckID => each (λ member, reject (String.eqb (gmem_TargetID member) targetID)
          (targetInUse "The target is still assigned to one or more health checks through a target group."
             {["target_id" := DString targetID; "target_group_id" := DString (grec_ID group);
               "health_check_id" := DString healthCheckID]})) (grec_Members group)
      end) targetGroups.

(** ** Targets *)

Definition ListTargets (identity : InternalIdentity) (db : database) : result serviceError (list TargetPayload) * database :=
  if negb (hasPermission identity PermissionTargetsRead) && negb (hasPermission identity PermissionTargetsManage)
  then refuse ErrForbidden db
  else serve (targets ← ListTargetsByOrganization (id_OrganizationID identity); mret (map toTargetPayload targets)) db.

Definition canPickTargets (identity : InternalIdentity) : bool :=
  hasPermission identity PermissionTargetsRead || hasPermission identity PermissionTargetsManage
  || hasPermission identity PermissionRulesManageOwn || hasPermission identity PermissionRulesManageAll.
Definition targetOption (t : TargetRecord) : TargetOption := {|
  topt_Value := trec_ID t; topt_Label := (trec_Name t ++ " (" ++ trec_Host t ++ ":" ++ Itoa (trec_Port t) ++ ")")%string;
  topt_Disabled := negb (trec_Enabled t);
  topt_DisabledReason := if trec_Enabled t then "" else "Target is disabled" |}.
Definition TargetOptions (identity : InternalIdentity) (protocol : string) (db : database)
    : result serviceError (list TargetOption) * database :=
  if negb (canPickTargets identity) then refuse ErrForbidden db
  else serve (targets ← ListTargetsByOrganization (id_OrganizationID identity); mret (map targetOption targets)) db.

Definition newTarget (identity : InternalIdentity) (id : string) (input : TargetMutationInput) (now : string) : TargetRecord := {|
  trec_ID := id; trec_OrganizationID := id_OrganizationID identity; trec_Name := tin_Name input;
  trec_Host := tin_Host input; trec_Port := tin_Port input; trec_Enabled := tin_Enabled input; trec_CreatedAt := now;
  trec_UpdatedAt := now; trec_DeletedAt := "" |}.
Definition createTarget (E : callEnv) (identity : InternalIdentity) (input : TargetMutationInput) : tx database TargetPayload :=
  let now := env_now E in
  let target := newTarget identity (env_newID E) input now in
  RuleStore.CreateTarget E target;;
  when (tin_TargetGroupIDsProvided input)
    (syncTargetGroupMemberships E (id_OrganizationID identity) (trec_ID target) (tin_TargetGroupIDs input) now);;
  writeAudit E (auditForIdentity identity "targets.create" "TARGET" (trec_ID target) "");;
  mret (toTargetPayload target).
Definition CreateTarget (E : callEnv) (identity : InternalIdentity) (input : TargetMutationInput) (db : database)
    : result serviceError TargetPayload * database :=
  if negb (hasPermission identity PermissionTargetsManage) then refuse ErrForbidden db
  else serve (createTarget E identity input) db.

Definition changedTarget (target : TargetRecord) (input : TargetMutationInput) (now : string) : TargetRecord :=
  target <| trec_Name := tin_Name input |> <| trec_Host := tin_Host input |> <| trec_Port := tin_Port input |>
         <| trec_Enabled := tin_Enabled input |> <| trec_UpdatedAt := now |>.
Definition updateTarget (E : callEnv) (identity : InternalIdentity) (targetID : string) (input : TargetMutationInput)
    : tx database TargetPayload :=
  let organizationID := id_OrganizationID identity in
  let now := env_now E in
  target ← FindTargetByID organizationID targetID;
  when (negb (tin_Enabled input) && trec_Enabled target)
    (ensureTargetNotUsedByRules organizationID (trec_ID target);;
     ensureTargetNotUsedByHealthChecks organizationID (trec_ID target));;
  let runtimeChanged := negb (String.eqb (trec_Host target) (tin_Host input)) || negb (trec_Port target =? tin_Port input)
                        || negb (Bool.eqb (trec_Enabled target) (tin_Enabled input)) in
  let target := changedTarget target input now in
  RuleStore.UpdateTarget E target;;
  when runtimeChanged (bumpDesiredConfigForRulesUsingTarget (turnEnv E) organizationID (trec_ID target) now);;
  when (tin_TargetGroupIDsProvided input)
    (syncTargetGroupMemberships E organizationID (trec_ID target) (tin_TargetGroupIDs input) now);;
  writeAudit E (auditForIdentity identity "targets.update" "TARGET" (trec_ID target) "");;
  mret (toTargetPayload target).
Definition UpdateTarget (E : callEnv) (identity : InternalIdentity) (targetID : string) (input : TargetMutationInput)
    (db : database) : result serviceError TargetPayload * database :=
  if negb (hasPermission identity PermissionTargetsManage) then refuse ErrForbidden db
  else serve (updateTarget E identity targetID input) db.

Definition deleteTarget (E : callEnv) (identity : InternalIdentity) (targetID : string) : tx database () :=
  let organizationID := id_OrganizationID identity in
  FindTargetByID organizationID targetID;;
  ensureTargetNotUsedByRules organizationID targetID;;
  ensureTargetNotUsedByHealthChecks organizationID targetID;;
  RuleStore.DeleteTarget E organizationID targetID (env_now E);;
  writeAudit E (auditForIdentity identity "targets.delete" "TARGET" targetID "").
Definition DeleteTarget (E : callEnv) (identity : InternalIdentity) (targetID : string) (db : database)
    : result serviceError () * database :=
  if negb (hasPermission identity PermissionTargetsManage) then refuse ErrForbidden db
  else serve (deleteTarget E identity targetID) db.

(** ** Target groups *)

Definition ListTargetGroups (identity : InternalIdentity) (db : database)
    : result serviceError (list TargetGroupPayload) * database :=
  if negb (hasPermission identity PermissionTargetsRead) && negb (hasPermission identity PermissionTargetsManage)
  then refuse ErrForbidden db
  else serve (groups ← ListTargetGroupsByOrganization (id_OrganizationID identity); mret (map toTargetGroupPayload groups)) db.

(** The reason of the first member that cannot be used. *)
Fixpoint memberReason (targetsByID : gmap string TargetRecord) (members : list TargetGroupMemberRecord) : string :=
  match members with
  | [] => ""
  | member :: rest =>
      if negb (gmem_Enabled member) then "Target group has disabled members"
      else match targetsByID !! gmem_TargetID member with
           | None => "Target group contains an unavailable target"
           | Some target => if negb (trec_Enabled target) then "Target group contains a disabled target"
                            else memberReason targetsByID rest
           end
  end.
Definition targetGroupDisabledReason (group : TargetGroupRecord) (targetsByID : gmap string TargetRecord) : string :=
  if negb (targetGroupSchedulerSupportedByCore group) then "Target group scheduler is not supported by this build"
  else if Nat.eqb (length (grec_Members group)) 0 then "Target group has no targets"
  else
    let reason := memberReason targetsByID (grec_Members group) in
    if negb (String.eqb reason "") then reason
    else if String.eqb (normalizeTargetGroupScheduler (grec_Scheduler group)) targetGroupSchedulerLeastLoad
            && negb (existsb (λ m, 0 <? gmem_Weight m) (grec_Members group))
    then "Least-load target group has no positive-weight targets" else "".
Definition targetsByID (targets : list TargetRecord) : gmap string TargetRecord :=
  foldl (λ byID t, <[trec_ID t := t]> byID) ∅ targets.
Definition targetGroupOption (byID : gmap string TargetRecord) (g : TargetGroupRecord) : TargetOption :=
  let reason := targetGroupDisabledReason g byID in {|
  topt_Value := grec_ID g;
  topt_Label := (grec_Name g ++ " (" ++ Itoa (Z.of_nat (length (grec_Members g))) ++ " targets)")%string;
  topt_Disabled := negb (String.eqb reason ""); topt_DisabledReason := reason |}.
Definition TargetGroupOptions (identity : InternalIdentity) (protocol : string) (db : database)
    : result serviceError (list TargetOption) * database :=
  if negb (canPickTargets identity) then refuse ErrForbidden db
  else serve (groups ← ListTargetGroupsByOrganization (id_OrganizationID identity);
              targets ← ListTargetsByOrganization (id_OrganizationID identity);
              mret (map (targetGroupOption (targetsByID targets)) groups)) db.

Definition createTargetGroup (E : callEnv) (identity : InternalIdentity) (input : TargetGroupMutationInput)
    : tx database TargetGroupPayload :=
  let organizationID := id_OrganizationID identity in
  let scheduler := normalizeTargetGroupScheduler (tgi_Scheduler input) in
  reject (negb (targetGroupSchedulerSupported scheduler)) ErrInvalidInput;;
  let members := targetGroupMembersWithPreservedWeights [] (tgi_Members input) in
  ensureTargetGroupMembersValid organizationID scheduler members;;
  let now := env_now E in
  let group := {| grec_ID := env_newID E; grec_OrganizationID := organizationID; grec_Name := tgi_Name input;
    grec_Description := tgi_Description input; grec_Scheduler := scheduler; grec_CreatedAt := now;
    grec_UpdatedAt := now; grec_DeletedAt := ""; grec_Members := [] |} in
  RuleStore.CreateTargetGroup E group (toTargetGroupMemberRecords organizationID (grec_ID group) members) now;;
  group ← FindTargetGroupByID organizationID (grec_ID group);
  writeAudit E (auditForIdentity identity "target_groups.create" "TARGET_GROUP" (grec_ID group) "");;
  mret (toTargetGroupPayload group).
Definition CreateTargetGroup (E : callEnv) (identity : InternalIdentity) (input : TargetGroupMutationInput) (db : database)
    : result serviceError TargetGroupPayload * database :=
  if negb (hasPermission identity PermissionTargetsManage) then refuse ErrForbidden db
  else serve (createTargetGroup E identity input) db.

Definition updateTargetGroup (E : callEnv) (identity : InternalIdentity) (targetGroupID : string)
    (input : TargetGroupMutationInput) : tx database TargetGroupPayload :=
  let organizationID := id_OrganizationID identity in
  let now := env_now E in
  group ← FindTargetGroupByID organizationID targetGroupID;
  reject (negb (targetGroupSchedulerSupported (grec_Scheduler group))) ErrInvalidInput;;
  let scheduler := normalizeTargetGroupScheduler (tgi_Scheduler input) in
  reject (negb (targetGroupSchedulerSupported scheduler)) ErrInvalidInput;;
  usedByRules ← targetGroupUsedByRules organizationID (grec_ID group);
  let input := input <| tgi_Members := targetGroupMembersWithPreservedWeights (grec_Members group) (tgi_Members input) |> in
  ensureTargetGroupMembersValid organizationID scheduler (tgi_Members input);;
  when usedByRules (ensureTargetGroupMembersUsable organizationID scheduler (tgi_Members input));;
  let runtimeChanged := targetGroupRuntimeChanged group input in
  let group := group <| grec_Name := tgi_Name input |> <| grec_Description := tgi_Description input |>
    <| grec_Scheduler := scheduler |> <| grec_UpdatedAt := now |> in
  RuleStore.UpdateTargetGroup E group (toTargetGroupMemberRecords organizationID (grec_ID group) (tgi_Members input)) now;;
  when (usedByRules && runtimeChanged)
    (bumpDesiredConfigForRulesUsingTargetGroup (turnEnv E) organizationID (grec_ID group) now);;
  group ← FindTargetGroupByID organizationID (grec_ID group);
  writeAudit E (auditForIdentity identity "target_groups.update" "TARGET_GROUP" (grec_ID group) "");;
  mret (toTargetGroupPayload group).
Definition UpdateTargetGroup (E : callEnv) (identity : InternalIdentity) (targetGroupID : string)
    (input : TargetGroupMutationInput) (db : database) : result serviceError TargetGroupPayload * database :=
  if negb (hasPermission identity PermissionTargetsManage) then refuse ErrForbidden db
  else serve (updateTargetGroup E identity targetGroupID input) db.

Definition deleteTargetGroup (E : callEnv) (identity : InternalIdentity) (targetGroupID : string) : tx database () :=
  let organizationID := id_OrganizationID identity in
  FindTargetGroupByID organizationID targetGroupID;;
  ensureTargetGroupNotUsedByRules organizationID targetGroupID;;
  ensureTargetGroupNotUsedByHealthChecks organizationID targetGroupID;;
  RuleStore.DeleteTargetGroup E organizationID targetGroupID (env_now E);;
  writeAudit E (auditForIdentity identity "target_groups.delete" "TARGET_GROUP" targetGroupID "").
Definition DeleteTargetGroup (E : callEnv) (identity : InternalIdentity) (targetGroupID : string) (db : database)
    : result serviceError () * database :=
  if negb (hasPermission identity PermissionTargetsManage) then refuse ErrForbidden db
  else serve (deleteTargetGroup E identity targetGroupID) db.
End service.
