(* ===== verification/RuleInvariant.v ===== *)
(** * What the rule service keeps

    Every operation of the rule service keeps the layouts deployable
    ([consistent]), whatever the database refuses: a rule that is written joins
    a layout that its checks found room in. *)

From S2P Require Import RuleValidator Prelude GoString GoInt GoSort Domain ServiceErrors Records ValidatorBase NodeCoverage ConfigCompiler RuleInput Authorizer Transaction Database RuleStore Layout Delimited StoreLayout RulePayload ControlService RuleDeployment RuleService.
Import Domain.Errors Domain.Rules.
From coqutil Require Import Datatypes.RecordSetters.
Import TriangleBracketNotations.
#[local] Open Scope Z_scope.

(** ** Placements that differ in their identifier only *)

Section alike.
Context `{UnicodeTables}.

Record alike (p q : placement) : Prop := {
  al_Group : pl_Group p = pl_Group q; al_ListenIP : pl_ListenIP p = pl_ListenIP q;
  al_Protocol : pl_Protocol p = pl_Protocol q; al_Segments : pl_Segments p = pl_Segments q;
  al_Ports : pl_Ports p = pl_Ports q; al_MatchType : pl_MatchType p = pl_MatchType q;
  al_SNI : pl_SNI p = pl_SNI q;
  al_ProxyIn : normalizeProxyProtocol (pl_ProxyIn p) = normalizeProxyProtocol (pl_ProxyIn q);
  al_SendIP : pl_SendIP p = pl_SendIP q }.

Lemma alike_carried caps p q : alike p q → carried_by caps p → carried_by caps q.
Proof. intros [E1 E2 E3 E4 E5 E6 E7 E8 E9]. unfold carried_by, fits. by rewrite E1, E2, E3, E4, E5, E9. Qed.
Lemma alike_sound p q : alike p q → sound p → sound q.
Proof. intros [E1 E2 E3 E4 E5 E6 E7 E8 E9]. unfold sound, well_formed. cbn. by rewrite E3, E4, E6, E7. Qed.
Lemma alike_meet caps p q r : alike p q → meet_on caps r q → meet_on caps r p.
Proof. intros [E1 _ _ _ _ _ _ _ _]. unfold meet_on. by rewrite E1. Qed.
Lemma alike_apart p q r : alike p q → apart r p → apart r q.
Proof.
  intros [E1 E2 E3 E4 E5 E6 E7 E8 E9]. unfold apart, sameEndpoint, may_share, portRangesOverlap, normalizedBindingPorts. cbn.
  rewrite E2, E3, E4, E6, E7. by setoid_rewrite E8.
Qed.

Lemma defaultProxyProtocol_normal v : normalizeProxyProtocol (defaultProxyProtocol v) = normalizeProxyProtocol v.
Proof. unfold defaultProxyProtocol. by destruct (String.eqb_spec v "") as [->|]. Qed.
End alike.

Lemma caps_same org db db' : db_nodes db' = db_nodes db → same_elements (caps org db) (caps org db').
Proof.
  intros Hn c. rewrite !elem_of_caps. unfold live, loadNodeDetails, listNodeGroupIDs, listNodeListenIPs,
    listNodeSendIPs, listNodePortRanges, ListNodeDNSPublishAddresses, live. cbn [tbl_rows nodesTable nodeGroupsTable].
  by rewrite Hn.
Qed.

Section invariant.
Context `{UnicodeTables, UUIDHash, HT : HashedTexts, Authorizer}.

(** ** The placement that a mutation asks for *)

Definition wantedRule (organizationID ruleID : string) (input : RuleMutationInput) : RuleRecord :=
  (example_rule_record ruleID (mi_NodeGroupID input) (mi_Protocol input) (mi_Port input) 0 "")
    <| rrec_Binding := {| bind_ID := ""; bind_OrganizationID := organizationID; bind_NodeGroupID := mi_NodeGroupID input;
         bind_ListenIP := mi_ListenIP input; bind_Protocol := mi_Protocol input; bind_Port := mi_Port input;
         bind_PortSegments := toInboundBindingPortSegments organizationID "" (mi_PortSegments input) "";
         bind_MatchType := ""; bind_CreatedAt := "" |} |>
    <| rrec_MatchType := mmatch_Type (mi_Match input) |> <| rrec_SNIHostname := mmatch_SNIHostname (mi_Match input) |>
    <| rrec_ProxyProtocolIn := defaultProxyProtocol (mproxy_In (mi_ProxyProtocol input)) |>
    <| rrec_SendIP := mi_SendIP input |>.
Definition wanted (organizationID ruleID : string) (input : RuleMutationInput) : placement :=
  placement_of (wantedRule organizationID ruleID input).

Lemma wanted_segments org ruleID input :
  mi_PortSegments input ≠ [] →
  rulePortSegments (rrec_Binding (wantedRule org ruleID input)) = toInboundBindingPortSegments org "" (mi_PortSegments input) "".
Proof. unfold rulePortSegments. cbn. by destruct (mi_PortSegments input). Qed.

Lemma inputBindings_eq org nodes input ruleID :
  mi_PortSegments input ≠ [] →
  inputBindings org (nodesInGroupFromSet nodes (mi_NodeGroupID input)) input ruleID
  = ruleBindings nodes (wantedRule org ruleID input).
Proof. intros Hne. unfold ruleBindings. by rewrite wanted_segments. Qed.

(** What the checks of a mutation establish. *)
Record prepared (identity : InternalIdentity) (ruleID : string) (input : RuleMutationInput) (occupiesPort : bool)
    (db : database) : Prop := {
  pr_segments : mi_PortSegments input ≠ [];
  pr_group : is_Some (live nodeGroupsTable (id_OrganizationID identity) (mi_NodeGroupID input) db);
  pr_carried : carried_by (caps (id_OrganizationID identity) db) (wanted (id_OrganizationID identity) ruleID input);
  pr_sound : sound (wanted (id_OrganizationID identity) ruleID input);
  pr_apart q : occupiesPort = true → q ∈ pls (id_OrganizationID identity) db → pl_ID q ≠ ruleID →
    meet_on (caps (id_OrganizationID identity) db) q (wanted (id_OrganizationID identity) ruleID input) →
    apart q (wanted (id_OrganizationID identity) ruleID input) }.

Lemma well_formed_boundAt n p seg : well_formed (boundAt n p seg) ↔ well_formed (boundAt "" p seg).
Proof. reflexivity. Qed.

Lemma domainCheck_ok e : domainCheck e = Ok tt ↔ e = None.
Proof. by destruct e. Qed.

Lemma shape_ok org input ruleID u :
  validateRuleBindingShape input ruleID = Ok u → mi_PortSegments input ≠ [] ∧ sound (wanted org ruleID input).
Proof.
  unfold validateRuleBindingShape. destruct (inputBindings _ _ _ _) as [|b l] eqn:E; [done|]. rewrite <-E. destruct u.
  assert (mi_PortSegments input ≠ []) as Hne.
  { intros E0. unfold inputBindings, bindingsForNodes, toInboundBindingPortSegments in E. by rewrite E0 in E. }
  intros Hc%domainCheck_ok. rewrite checkBindings_none in Hc. split; [done|].
  intros seg Hseg.
  change (seg ∈ (list_to_set (segmentPairs (rulePortSegments (rrec_Binding (wantedRule org ruleID input)))) : gset (Z * Z)))
    in Hseg.
  rewrite wanted_segments in Hseg by done. apply elem_of_segments in Hseg as (s & Hs & ->).
  apply (list_elem_of_fmap_1 _ _) in Hs as (i & -> & Hi).
  assert (boundAt "shape-check" (wanted org ruleID input) (pseg_StartPort i, pseg_EndPort i)
          ∈ inputBindings "" [shapeCheckNode] input ruleID) as Hin.
  { unfold inputBindings, bindingsForNodes. cbn [flat_map]. rewrite app_nil_r. apply list_elem_of_fmap.
    exists {| bseg_ID := ""; bseg_OrganizationID := ""; bseg_InboundBindingID := ""; bseg_StartPort := pseg_StartPort i;
              bseg_EndPort := pseg_EndPort i; bseg_CreatedAt := "" |}.
    split; [reflexivity|]. apply list_elem_of_fmap. by exists i. }
  exact (proj1 (Hc _ Hin)).
Qed.

Lemma checkBindings_apart nodes existing rule :
  checkBindings (ruleBindings nodes existing) (ruleBindings nodes rule) = None →
  meet_on (map capacity_of nodes) (placement_of existing) (placement_of rule) →
  apart (placement_of existing) (placement_of rule).
Proof.
  intros Hc (c & (n & Hn & ->)%elem_of_capacities & Hg1 & Hg2) s t Hs Ht He.
  rewrite checkBindings_none in Hc.
  apply (proj2 (Hc (boundAt (node_ID n) (placement_of rule) t)
    ltac:(apply elem_of_ruleBindings; exists n, t; done)) (boundAt (node_ID n) (placement_of existing) s)).
  - apply elem_of_ruleBindings. by exists n, s.
  - by apply boundAt_sameEndpoint.
Qed.

Lemma keeps_eq {S A} (m : tx S A) s a s' : keeps eq m → m s = Ok (a, s') → s' = s.
Proof. intros Hk E. symmetry. by eapply Hk. Qed.

Lemma upstream_reads org upstream : keeps eq (ensureUpstreamAvailable org upstream).
Proof. unfold ensureUpstreamAvailable. keeps_tac. Qed.
Lemma limit_reads identity owner additional : keeps eq (ensureRuleLimitAvailable identity owner additional).
Proof. unfold ensureRuleLimitAvailable. keeps_tac. Qed.

Lemma conflicts_apart org existing ruleID input db u db' :
  mi_PortSegments input ≠ [] →
  ensureNoRuleConflicts org existing ruleID input (nodesInGroupFromSet (nodesOf org db) (mi_NodeGroupID input)) db = Ok (u, db') →
  db' = db ∧ ∀ r, r ∈ existing → rrec_ID r ≠ ruleID →
    meet_on (caps org db) (placement_of r) (wanted org ruleID input) → apart (placement_of r) (wanted org ruleID input).
Proof.
  intros Hne. unfold ensureNoRuleConflicts. rewrite inputBindings_eq by done. cbv zeta.
  revert u. induction existing as [|r l IH]; intros u He; cbn [each] in He.
  { tx_inv. split; [done|]. by intros r ?%not_elem_of_nil. }
  tx_inv. assert (s = db ∧ (rrec_ID r ≠ ruleID →
    checkBindings (ruleBindings (nodesOf org db) r) (ruleBindings (nodesOf org db) (wantedRule org ruleID input)) = None))
    as [-> Hr].
  { destruct (String.eqb_spec (rrec_ID r) ruleID); [by tx_inv|]. tx_inv.
    apply nodesInGroup_ok in E0 as [-> ->]. split; [done|]. intros _. destruct a. by apply domainCheck_ok. }
  apply IH in He as [-> Hl]. split; [done|].
  intros q [->|Hq]%elem_of_cons Hid Hm; [|by apply Hl]. eapply checkBindings_apart, Hm. by apply Hr.
Qed.

Lemma prepareRuleMutation_ok identity ruleID input occupiesPort db u db' :
  prepareRuleMutation identity ruleID input occupiesPort db = Ok (u, db') →
  db' = db ∧ prepared identity ruleID input occupiesPort db.
Proof.
  unfold prepareRuleMutation. cbv zeta. set (org := id_OrganizationID identity). intros Hp. tx_inv.
  match goal with H : validateRuleBindingShape _ _ = _ |- _ => apply (shape_ok org) in H as [Hne Hsound] end.
  match goal with H : FindNodeGroupByID _ _ _ = _ |- _ => apply FindNodeGroupByID_ok in H as [Hgroup ->] end.
  match goal with H : ensureUpstreamAvailable _ _ _ = _ |- _ => apply (keeps_eq _ _ _ _ (upstream_reads _ _)) in H as -> end.
  match goal with H : nodesInGroup _ _ _ = _ |- _ => apply nodesInGroup_ok in H as [-> ->] end.
  fold (nodesOf org db) in *.
  assert (carried_by (caps org db) (wanted org ruleID input)) as Hcarried.
  { apply carried_placement, carried_spec. rewrite wanted_segments by done.
    apply andb_true_iff. by split; apply negb_false_iff. }
  destruct occupiesPort.
  - tx_inv. unfold ListEnabledInboundBindings, ListRulesByOrganization in *. tx_inv.
    apply conflicts_apart in Hp as [-> Hap]; [|done]. split; [done|]. split; [done|by eexists|done..|].
    intros q _ (r & -> & Hr)%list_elem_of_fmap Hid. by apply Hap.
  - tx_inv. split; [done|]. split; [done|by eexists|done..].
Qed.

(** ** Databases whose layouts are deployable *)

Record consistent (db : database) : Prop := {
  co_named : well_named db;
  co_deployable org : deployable (caps org db) (pls org db) }.

Lemma quiet_consistent db db' : quiet db db' → consistent db → consistent db'.
Proof. intros [H1' H3' H4'] [Hn Hd]. split; [by apply H1'|]. intros org. by rewrite <-(H3' org), <-(H4' org). Qed.
Lemma quiet_tail {A} (m : tx database A) db a db' : keeps quiet m → m db = Ok (a, db') → consistent db → consistent db'.
Proof. intros Hk E. by eapply quiet_consistent, Hk. Qed.

(** The binding of a validated input. *)
Definition inputPairs (input : RuleMutationInput) : list (Z * Z) :=
  map (λ i, (pseg_StartPort i, pseg_EndPort i)) (mi_PortSegments input).
Record nameable (input : RuleMutationInput) : Prop := {
  na_protocol : lacks bar (mi_Protocol input);
  na_match : lacks bar (mmatch_Type (mi_Match input));
  na_pairs : Forall valid_pair (inputPairs input);
  na_apart : StronglySorted (λ x y, x.2 < y.1) (inputPairs input) }.

(** The text that names the binding of an input. *)
Definition inputContent (input : RuleMutationInput) : content := {|
  con_Group := mi_NodeGroupID input; con_ListenIP := mi_ListenIP input; con_Protocol := mi_Protocol input;
  con_Pairs := inputPairs input; con_MatchType := mmatch_Type (mi_Match input) |}.
Definition bindingText (organizationID : string) (input : RuleMutationInput) : string :=
  bindingSource organizationID (inputContent input).

Lemma binding_pairs org input now :
  mi_PortSegments input ≠ [] →
  segmentPairs (rulePortSegments (inboundBindingForRule org input now)) = inputPairs input.
Proof.
  intros Hne. unfold rulePortSegments, inboundBindingForRule, segmentPairs, inputPairs, toInboundBindingPortSegments. cbn.
  destruct (mi_PortSegments input) as [|i l]; [done|]. cbn. by rewrite !map_map.
Qed.
Lemma portSegmentsKey_pairs segments : portSegmentsKey segments = Join (map pairText (segmentPairs segments)) ",".
Proof. unfold portSegmentsKey, segmentPairs. by rewrite map_map. Qed.

Lemma binding_named org input now :
  mi_PortSegments input ≠ [] → nameable input → hashed (bindingText org input) → lacks bar (mi_NodeGroupID input) →
  well_named_binding (inboundBindingForRule org input now).
Proof.
  intros Hne [Hp Hm Hv Hs] Hh Hg. unfold well_named_binding, named.
  assert (contentOf (inboundBindingForRule org input now) = inputContent input) as E
    by by unfold contentOf; rewrite binding_pairs.
  rewrite E. split_and!; [|exact Hh|].
  - unfold bindingSource, inputContent. cbn [con_Group con_ListenIP con_Protocol con_Pairs con_MatchType].
    unfold inboundBindingForRule. cbn [bind_ID bind_OrganizationID bind_NodeGroupID bind_ListenIP bind_Protocol bind_MatchType].
    rewrite portSegmentsKey_pairs. unfold segmentPairs, toInboundBindingPortSegments, inputPairs. rewrite !map_map. reflexivity.
  - by split.
Qed.

Context {NC : NoCollision} {FS : FoldSymmetric}.

(** A rule that is written joins the layout, when it is enabled and prepared. *)
Lemma write_consistent row b db db' :
  consistent db → writes_rule row b db db' →
  (isEnabledRule row = true → let org := rrec_OrganizationID row in let p := placed row (contentOf b) in
    carried_by (caps org db) p ∧ sound p ∧
    ∀ q, q ∈ pls org db → pl_ID q ≠ rrec_ID row → meet_on (caps org db) q p → apart q p) →
  consistent db'.
Proof.
  intros [Hn Hd] [Hn' Hnodes _ Hpls] Hp. split; [done|]. intros org.
  rewrite <-(caps_same org db db') by done. destruct (decide (isEnabledRule row = true ∧ rrec_OrganizationID row = org)) as [[He <-]|Hne].
  - destruct (Hp He) as (Hc & Hs & Ha). apply (deployable_add _ (pls (rrec_OrganizationID row) db) _ (placed row (contentOf b))); try done.
    + intros q [(_ & _ & _ & ->)|[Hq Hid]]%Hpls; [by left|by right].
    + intros q Hq Hid Hm. by apply apart_sym, Ha.
  - eapply deployable_subset, Hd. intros q [(Ho & _ & He & _)|[Hq _]]%Hpls; [by destruct Hne|done].
Qed.

Lemma anonymous_free org db p : well_named db → p ∈ pls org db → pl_ID p ≠ "".
Proof.
  intros Hn (id & row & c & (Hr & _)%findRow_some & _ & _ & ->)%elem_of_pls E. cbn in E, Hr.
  pose proof (wn_rules _ Hn _ _ Hr) as Hid. rewrite E in Hid. subst id. by rewrite (wn_anonymous _ Hn) in Hr.
Qed.

Lemma prepared_placed identity ruleID input db row c :
  well_named db → prepared identity ruleID input true db →
  alike (wanted (id_OrganizationID identity) ruleID input) (placed row c) →
  rrec_OrganizationID row = id_OrganizationID identity → ruleID = "" ∨ ruleID = rrec_ID row →
  let org := rrec_OrganizationID row in let p := placed row c in
  carried_by (caps org db) p ∧ sound p ∧
  ∀ q, q ∈ pls org db → pl_ID q ≠ rrec_ID row → meet_on (caps org db) q p → apart q p.
Proof.
  intros Hn [_ _ Hc Hs Ha] Hal Ho Hid. cbv zeta. rewrite Ho. split_and!.
  - by eapply alike_carried.
  - by eapply alike_sound.
  - intros q Hq Hne Hm. eapply alike_apart; [done|]. apply Ha; [done..| |by eapply alike_meet].
    destruct Hid as [->| ->]; [by eapply anonymous_free|done].
Qed.

(** ** The operations *)

Lemma quiet_bump E org group now : keeps quiet (bumpDesiredConfigForNodeGroup E org group now).
Proof. unfold bumpDesiredConfigForNodeGroup. keeps_tac. Qed.
Lemma quiet_sync E org rule now : keeps quiet (syncRuleDeploymentPending E org rule now).
Proof. unfold syncRuleDeploymentPending. keeps_tac. Qed.
Lemma quiet_reload identity ruleID : keeps quiet (reloadRule identity ruleID).
Proof. unfold reloadRule. keeps_tac. Qed.
Lemma quiet_writeAudit E input : keeps quiet (writeAudit E input).
Proof. apply quiet_audit. Qed.
#[local] Hint Resolve quiet_bump quiet_sync quiet_reload quiet_writeAudit : keeps.

(** The steps at the end of an operation. *)
Ltac quiet_end := keeps_rest quiet_tail.

Lemma group_plain org group db : well_named db → is_Some (live nodeGroupsTable org group db) → lacks bar group.
Proof. intros Hn [g (Hg & _)%findRow_some]. by eapply wn_groups. Qed.

Lemma wanted_inserted E identity ruleID input now :
  mi_PortSegments input ≠ [] →
  let org := id_OrganizationID identity in
  let binding := inboundBindingForRule org input now in
  alike (wanted org ruleID input) (placed (insertedRule (newRule identity (env_newID E) input binding now) binding) (contentOf binding)).
Proof.
  intros Hne. cbv zeta. unfold wanted, placement_of. rewrite wanted_segments by done.
  split; try reflexivity; unfold placed, contentOf; cbn [pl_Segments pl_Ports con_Pairs]; rewrite binding_pairs by done.
  - unfold place, segmentPairs, toInboundBindingPortSegments. cbn [pl_Segments]. by rewrite map_map.
  - cbn [place pl_Ports]. rewrite expandedPortCount_pairs. unfold segmentPairs, toInboundBindingPortSegments. by rewrite map_map.
Qed.

Lemma createRule_consistent E identity input :
  env_newID E ≠ "" → nameable input → hashed (bindingText (id_OrganizationID identity) input) →
  triple consistent (createRule E identity input) (λ _, consistent).
Proof.
  intros Hid Hna Hh db r db' Hdb Hr. unfold createRule in Hr. cbv zeta in Hr. tx_inv. subst.
  apply prepareRuleMutation_ok in E0 as [-> Hp]. apply (keeps_eq _ _ _ _ (limit_reads _ _ _)) in E1 as ->.
  pose proof (pr_segments _ _ _ _ _ Hp) as Hne.
  apply CreateRule_writes in E2 as [Hw _]; [|apply Hdb| |done|reflexivity].
  2:{ apply binding_named; [done..|]. eapply group_plain; [apply Hdb|apply Hp]. }
  assert (consistent s1) as Hs1.
  { eapply write_consistent; [done..|]. intros He. eapply prepared_placed; [apply Hdb| |by apply wanted_inserted|done|by left].
    apply andb_true_iff in He as [He _]. change (mi_Enabled input = true) in He. rewrite He in Hp. exact Hp. }
  quiet_end. done.
Qed.

(** The rule that was found, as its row and its binding. *)
Lemma found_rule org id db r db' :
  well_named db → FindRuleByID org id db = Ok (r, db') →
  db' = db ∧ rrec_ID r = id ∧ rrec_OrganizationID r = org ∧
  well_named_binding (rrec_Binding r) ∧ bind_OrganizationID (rrec_Binding r) = org.
Proof.
  intros Hn (-> & row & (Hr & Ho & _)%findRow_some & (b & Hb & ->)%loadRule_some)%FindRuleByID_ok.
  split; [done|]. split; [exact (wn_rules _ Hn _ _ Hr)|]. split; [exact Ho|].
  unfold bindingAt in Hb. apply fmap_Some in Hb as (b' & Hb' & ->).
  destruct (wn_bindings _ Hn _ _ _ Hb') as (Ho' & _ & Hnb). split; [exact Hnb|]. etransitivity; [exact Ho'|exact Ho].
Qed.

Lemma live_row org id db row :
  well_named db → live rulesTable org id db = Some row → rrec_ID row = id ∧ rrec_OrganizationID row = org.
Proof. intros Hn (Hr & Ho & _)%findRow_some. split; [exact (wn_rules _ Hn _ _ Hr)|exact Ho]. Qed.

Lemma wanted_updated org ruleID input rule row now :
  mi_PortSegments input ≠ [] →
  let binding := inboundBindingForRule org input now in
  alike (wanted org ruleID input) (placed (updatedRule (changedRule rule input now) binding row) (contentOf binding)).
Proof.
  intros Hne. cbv zeta. unfold wanted, placement_of. rewrite wanted_segments by done.
  split; try reflexivity; unfold placed, contentOf; cbn [pl_Segments pl_Ports con_Pairs]; rewrite binding_pairs by done.
  - unfold place, segmentPairs, toInboundBindingPortSegments. cbn [pl_Segments]. by rewrite map_map.
  - cbn [place pl_Ports]. rewrite expandedPortCount_pairs. unfold segmentPairs, toInboundBindingPortSegments. by rewrite map_map.
Qed.

Lemma nameable_enabled input enabled : nameable input → nameable (input <| mi_Enabled := enabled |>).
Proof. by intros [? ? ? ?]. Qed.

Lemma updateRule_consistent E identity ruleID input :
  nameable input → hashed (bindingText (id_OrganizationID identity) input) →
  triple consistent (updateRule E identity ruleID input) (λ _, consistent).
Proof.
  intros Hna Hh db r db' Hdb Hr. unfold updateRule in Hr. cbv zeta in Hr. tx_inv. subst.
  apply found_rule in E0 as (-> & Hid & Ho & _); [|apply Hdb].
  set (input' := if mi_EnabledSet input then input else _) in *.
  assert (nameable input') as Hna' by (unfold input'; destruct (mi_EnabledSet input); [done|by apply nameable_enabled]).
  assert (hashed (bindingText (id_OrganizationID identity) input')) as Hh' by by unfold input'; destruct (mi_EnabledSet input).
  clearbody input'. clear Hna Hh.
  apply prepareRuleMutation_ok in E2 as [-> Hp]. pose proof (pr_segments _ _ _ _ _ Hp) as Hne.
  apply UpdateRule_writes in E3 as (row & Hlive & Hw); [|apply Hdb| |symmetry; exact Ho].
  2:{ apply binding_named; [done..|]. eapply group_plain; [apply Hdb|apply Hp]. }
  apply live_row in Hlive as [Hrow Hrorg]; [|apply Hdb].
  assert (consistent s2) as Hs2.
  { eapply write_consistent; [done..|]. intros He. apply andb_true_iff in He as [He _].
    change (mi_Enabled input' = true) in He. rewrite He in Hp.
    eapply prepared_placed; [apply Hdb|exact Hp|by apply wanted_updated| |right].
    - etransitivity; [exact Hrorg|exact Ho].
    - symmetry. exact Hrow. }
  quiet_end. done.
Qed.

(** Enabling writes back the rule that was found. *)
Lemma wanted_stored org ruleID rule row now enabled :
  alike (wanted org ruleID (inputFromRule rule))
    (placed (updatedRule (rule <| rrec_Enabled := enabled |> <| rrec_Status := statusOf enabled |>
       <| rrec_UpdatedAt := now |> <| rrec_ConfigVersion := rrec_ConfigVersion rule + 1 |>) (rrec_Binding rule) row)
       (contentOf (rrec_Binding rule))).
Proof.
  assert (mi_PortSegments (inputFromRule rule) ≠ []) as Hne.
  { cbn. unfold toRulePortSegmentInputs, rulePortSegments. by destruct (bind_PortSegments _). }
  assert (segmentPairs (toInboundBindingPortSegments org "" (mi_PortSegments (inputFromRule rule)) "")
          = con_Pairs (contentOf (rrec_Binding rule))) as Hpairs.
  { unfold segmentPairs, toInboundBindingPortSegments, contentOf, segmentPairs. cbn. unfold toRulePortSegmentInputs.
    by rewrite !map_map. }
  unfold wanted, placement_of. rewrite wanted_segments by done.
  split; try reflexivity; unfold placed, place; cbn [pl_Segments pl_Ports pl_ProxyIn].
  - by rewrite Hpairs.
  - by rewrite expandedPortCount_pairs, Hpairs.
  - apply defaultProxyProtocol_normal.
Qed.

Lemma setRuleEnabled_consistent E identity ruleID enabled db :
  consistent db → consistent (setRuleEnabled E identity ruleID enabled db).2.
Proof.
  intros Hdb. unfold setRuleEnabled. apply serve_keeps; [|done]. clear db Hdb. intros db r db' Hdb Hr. cbv zeta in Hr. tx_inv. subst.
  apply found_rule in E0 as (-> & Hid & Ho & Hb & Hbo); [|apply Hdb].
  match goal with H : (if enabled then _ else _) _ = Ok (_, ?s) |- _ =>
    assert (s = db ∧ (enabled = true → prepared identity (rrec_ID a) (inputFromRule a) true db)) as [-> Hp]
      by (destruct enabled; [by apply prepareRuleMutation_ok in H as [-> ?]|by tx_inv]); clear H end.
  match goal with H : RuleStore.UpdateRule _ _ _ _ _ = _ |- _ =>
    apply UpdateRule_writes in H as (row & Hlive & Hw); [|apply Hdb|exact Hb|etransitivity; [exact Hbo|symmetry; exact Ho]] end.
  apply live_row in Hlive as [Hrow Hrorg]; [|apply Hdb].
  match type of Hw with writes_rule _ _ _ ?s => assert (consistent s) as Hs end.
  { eapply write_consistent; [done..|]. intros He. apply andb_true_iff in He as [He _]. change (enabled = true) in He.
    eapply prepared_placed; [apply Hdb|by apply Hp|exact (wanted_stored (id_OrganizationID identity) (rrec_ID a) a row (env_now E) enabled)| |right].
    - etransitivity; [exact Hrorg|exact Ho].
    - symmetry. exact Hrow. }
  quiet_end. done.
Qed.

Lemma DeleteRule_consistent E identity ruleID db :
  consistent db → consistent (DeleteRule E identity ruleID db).2.
Proof.
  intros Hdb. unfold DeleteRule. apply serve_keeps; [|done]. clear db Hdb. intros db r db' Hdb Hr. cbv zeta in Hr. tx_inv.
  apply found_rule in E0 as (-> & _); [|apply Hdb].
  match goal with H : RuleStore.DeleteRule _ _ _ _ _ = Ok (_, ?s) |- _ => apply DeleteRule_effect in H as (Hn & Hnodes & _ & Hpls);
    [|apply Hdb]; assert (consistent s) as Hs end.
  { split; [done|]. intros org. rewrite <-(caps_same org db) by done. eapply deployable_subset, Hdb. intros p Hp. by apply Hpls in Hp as [? _]. }
  quiet_end. done.
Qed.

Lemma CopyRule_consistent E identity ruleID input db :
  env_newID E ≠ "" → consistent db → consistent (CopyRule E identity ruleID input db).2.
Proof.
  intros HE Hdb. unfold CopyRule. apply serve_keeps; [|done]. clear db Hdb. intros db r db' Hdb Hr. cbv zeta in Hr. tx_inv. subst.
  apply found_rule in E0 as (-> & Hid & Ho & Hb & Hbo); [|apply Hdb].
  match goal with H : prepareRuleMutation _ _ _ _ _ = _ |- _ => apply prepareRuleMutation_ok in H as [-> _] end.
  match goal with H : ensureRuleLimitAvailable _ _ _ _ = _ |- _ => apply (keeps_eq _ _ _ _ (limit_reads _ _ _)) in H as -> end.
  match goal with H : RuleStore.CreateRule _ _ _ _ _ = Ok (_, ?s) |- _ => apply CreateRule_writes in H as [Hw _];
    [|apply Hdb|exact Hb|exact HE|etransitivity; [exact Hbo|symmetry; exact Ho]]; assert (consistent s) as Hs end.
  { eapply write_consistent; [done..|]. by intros He. }
  quiet_end. done.
Qed.

Lemma lacks_closed d s : bool_decide (d ∉ bytes_of s) = true → lacks d s.
Proof. apply bool_decide_eq_true. Qed.
Lemma canonical_pairs segs :
  RuleValidator.canonical (map segment_request segs) →
  let pairs := map (λ i, (pseg_StartPort i, pseg_EndPort i)) segs in
  Forall valid_pair pairs ∧ StronglySorted (λ x y, x.2 < y.1) pairs.
Proof.
  intros [Hs Ho]. cbv zeta. induction segs as [|s l IH]; cbn in *; [by repeat constructor|].
  apply StronglySorted_inv in Hs as [Hs Hall]. apply Forall_cons in Ho as [H1' H2'].
  destruct (IH Hs H2') as [IH1 IH2]. unfold RuleValidator.seg_ok in H1'. cbn in H1'. split.
  - constructor; [|done]. unfold valid_pair. cbn. lia.
  - constructor; [done|]. apply Forall_forall. intros p (i & -> & Hi)%list_elem_of_fmap. cbn.
    rewrite Forall_forall in Hall. specialize (Hall (segment_request i) ltac:(apply list_elem_of_fmap; eauto)).
    unfold RuleValidator.apart in Hall. cbn in Hall. lia.
Qed.

Lemma validatedInput_nameable input j : validatedInput input = Ok j → nameable j.
Proof.
  unfold validatedInput. intros (i & Hv & Hj)%result_bind_ok. apply result_bind_ok in Hj as (pref & _ & [= <-]).
  apply validateRuleMutationInput_iff in Hv as (Ha & first & rest & Hn & ->).
  assert (nameable (normalizedInput (trimRuleInput input) first (first :: rest))) as [? ? ? ?]; [|by split].
  destruct (canonical_pairs (first :: rest)) as [Hv Hs].
  { rewrite <-Hn. apply normalizeRulePortSegments_canonical. by rewrite Hn. }
  split; cbn.
  - refine (elem_of_enumerated (lacks bar) _ _ _ (ia_protocol _ Ha)). repeat constructor; by apply lacks_closed.
  - destruct (ia_match _ Ha) as [Hm|[Hm _]]; cbn in Hm; rewrite Hm; by apply lacks_closed.
  - exact Hv.
  - exact Hs.
Qed.

(** The text that a mutation hashes. *)
Definition hashes (identity : InternalIdentity) (input : RuleMutationInput) : Prop :=
  ∀ j, validatedInput input = Ok j → hashed (bindingText (id_OrganizationID identity) j).

Lemma CreateRule_consistent E identity input db :
  env_newID E ≠ "" → hashes identity input → consistent db → consistent (CreateRule E identity input db).2.
Proof.
  intros HE Hh Hdb. unfold CreateRule. destruct (_ && _); [done|]. destruct (validatedInput input) as [j|] eqn:Ev; [|done].
  apply serve_keeps; [|done]. apply createRule_consistent; [done|by eapply validatedInput_nameable|by apply Hh].
Qed.
Lemma UpdateRule_consistent E identity ruleID input db :
  hashes identity input → consistent db → consistent (UpdateRule E identity ruleID input db).2.
Proof.
  intros Hh Hdb. unfold UpdateRule. destruct (validatedInput input) as [j|] eqn:Ev; [|done].
  apply serve_keeps; [|done]. apply updateRule_consistent; [by eapply validatedInput_nameable|by apply Hh].
Qed.

(** *** Batches keep what each of their operations keeps *)

Section batches.
Context (P : database → Prop) (identity : InternalIdentity).
Context (status_keeps : ∀ E ruleID enabled db, P db → P (setRuleEnabled E identity ruleID enabled db).2).
Context (delete_keeps : ∀ E ruleID db, P db → P (DeleteRule E identity ruleID db).2).

Lemma batchItem_keeps E action ruleID db : P db → P (batchItem E identity action ruleID db).2.
Proof.
  intros Hdb. unfold batchItem, EnableRule, DisableRule. destruct (String.eqb action "ENABLE").
  { pose proof (status_keeps E ruleID true db Hdb). by destruct (setRuleEnabled _ _ _ _ _). }
  destruct (String.eqb action "DISABLE").
  { pose proof (status_keeps E ruleID false db Hdb). by destruct (setRuleEnabled _ _ _ _ _). }
  pose proof (delete_keeps E ruleID db Hdb). by destruct (DeleteRule _ _ _ _).
Qed.
Lemma batchItems_keeps E action ruleIDs : ∀ db, P db → P (batchItems E identity action ruleIDs db).2.
Proof.
  induction ruleIDs as [|id l IH]; intros db Hdb; cbn; [done|].
  pose proof (batchItem_keeps (E id) action id db Hdb). destruct (batchItem _ _ _ _ _) as [item db1].
  specialize (IH db1). destruct (batchItems _ _ _ _ _). by apply IH.
Qed.
Lemma BatchRules_keeps E input db : P db → P (BatchRules E identity input db).2.
Proof.
  intros Hdb. unfold BatchRules. destruct (_ && _); [done|]. cbv zeta. destruct (negb _); [done|].
  destruct (batchIDs ∅ (batch_RuleIDs input)) as [|id l]; [done|].
  pose proof (batchItems_keeps E (ToUpper (TrimSpace (batch_Action input))) (id :: l) db Hdb).
  by destruct (batchItems _ _ _ _ _).
Qed.
End batches.
Lemma BatchRules_consistent E identity input db : consistent db → consistent (BatchRules E identity input db).2.
Proof. apply BatchRules_keeps; intros; [by apply setRuleEnabled_consistent|by apply DeleteRule_consistent]. Qed.
End invariant.

#[export] Hint Resolve quiet_bump quiet_sync quiet_writeAudit : keeps.
