(* ===== verification/NodeInvariant.v ===== *)
(** * What the node service keeps

    Every operation on nodes and node groups keeps the layouts deployable
    ([consistent]): the enabled rules are checked against the nodes as they
    will be, and what is written is what was checked. *)

From S2P Require Import Prelude GoString GoInt GoSort Domain ServiceErrors Records ValidatorBase NodeCoverage ConfigCompiler Authorizer Transaction Database RuleStore AgentStore DnsStore Layout Delimited StoreLayout NodeLayout DnsMarking NodePayload ControlService RuleDeployment EnrollmentRelease NodeService RuleInvariant.
From coqutil Require Import Datatypes.RecordSetters.
Import TriangleBracketNotations.
#[local] Open Scope Z_scope.

Section invariant.
Context `{UnicodeTables, UUIDHash, HT : HashedTexts, Authorizer, GeoIPResolver}.

(** ** A node set that was checked *)

(** The capacities of the organization once the node [id] offers [offer]. *)
Definition offered_after (org id : string) (offer : option capacity) (db : database) (c : capacity) : Prop :=
  offer = Some c ∨ (c ∈ caps org db ∧ cap_ID c ≠ id).
Definition checked (org id : string) (offer : option capacity) (db : database) : Prop :=
  ∃ l, (∀ c, c ∈ l ↔ offered_after org id offer db c) ∧ deployable l (pls org db).

Lemma checked_quiet org id offer db db' : quiet db db' → checked org id offer db → checked org id offer db'.
Proof.
  intros Hq (l & Hl & Hd). exists l. split; [|by rewrite <-(q_pls _ _ Hq org)].
  intros c. rewrite Hl. unfold offered_after. by rewrite (q_caps _ _ Hq org c).
Qed.
Lemma write_checked org id offer db db' :
  consistent db → checked org id offer db → writes_node org id offer db db' → consistent db'.
Proof.
  intros [_ Hd] (l & Hl & Hdl) [Hn _ Hp Hc]. split; [done|]. intros o. rewrite <-(Hp o).
  destruct (decide (o = org)) as [->|Hne].
  - assert (same_elements l (caps org db')) as <-; [|done].
    intros c. rewrite Hl, Hc. unfold offered_after. naive_solver.
  - assert (same_elements (caps o db) (caps o db')) as <-; [|done]. intros c. rewrite Hc. naive_solver.
Qed.

Lemma NoDup_enabledRules org db : well_named db → NoDup (map rrec_ID (enabledRulesOf org db)).
Proof.
  intros Hn. unfold enabledRulesOf, rulesOf.
  assert (NoDup (map rrec_ID (sort_stable (text2 rrec_Name rrec_ID) (lives rulesTable org db)))) as Hd.
  { change (NoDup (rrec_ID <$> sort_stable (text2 rrec_Name rrec_ID) (lives rulesTable org db))).
    rewrite sort_perm. apply (NoDup_lives rulesTable rrec_ID org db), (wn_rules _ Hn). }
  revert Hd. generalize (sort_stable (text2 rrec_Name rrec_ID) (lives rulesTable org db)) as l.
  induction l as [|row l IH]; cbn; [constructor|]. intros [Hx Hl]%NoDup_cons.
  destruct (loadRule db row) as [r|] eqn:Er; [|by apply IH]. cbn.
  assert (rrec_ID r = rrec_ID row) as Eid by (by apply loadRule_some in Er as (b & _ & ->)).
  destruct (isEnabledRule r); [|by apply IH]. cbn. apply NoDup_cons. split; [|by apply IH].
  rewrite Eid. intros (r' & E' & [Hin _]%elem_of_filterb)%list_elem_of_fmap.
  apply list_elem_of_omap in Hin as (row' & Hin & (b & _ & ->)%loadRule_some). apply Hx. rewrite E'.
  apply list_elem_of_fmap. by exists row'.
Qed.

Lemma validateNodeSet_ok org nodes db u db' :
  validateNodeSet org nodes db = Ok (u, db') → db' = db ∧ validateEnabledRulesForNodeSet (enabledRulesOf org db) nodes = None.
Proof.
  unfold validateNodeSet, ListEnabledInboundBindings, ListRulesByOrganization. intros Hv. tx_inv.
  fold (enabledRulesOf org db) in Hv. destruct (validateEnabledRulesForNodeSet _ _); tx_inv; done.
Qed.

Context {FS : FoldSymmetric}.

Lemma nodeSet_checked org id offer nodes db u db' :
  well_named db → NoDup (map node_ID nodes) →
  (∀ c, c ∈ map capacity_of nodes ↔ offered_after org id offer db c) →
  validateNodeSet org nodes db = Ok (u, db') → db' = db ∧ checked org id offer db.
Proof.
  intros Hn Hnd Hc [-> Hv]%validateNodeSet_ok. split; [done|]. exists (map capacity_of nodes). split; [done|].
  exact (proj1 (nodeSet_deployable (enabledRulesOf org db) nodes (NoDup_enabledRules _ _ Hn) Hnd) Hv).
Qed.

Lemma NoDup_replace nodes node : NoDup (map node_ID nodes) → NoDup (map node_ID (replaceNodeInSet nodes node)).
Proof.
  intros Hnd. rewrite replaceNodeInSet_eq, map_app. apply NoDup_app.
  assert (map node_ID (map (λ n, if String.eqb (node_ID n) (node_ID node) then node else n) nodes) = map node_ID nodes) as E.
  { rewrite map_map. apply map_ext. intros n. by destruct (String.eqb_spec (node_ID n) (node_ID node)). }
  rewrite E. split_and!; [done| |].
  - intros x Hx. destruct (existsb _ nodes) eqn:Ex; [apply not_elem_of_nil|]. cbn. intros ->%list_elem_of_singleton.
    apply list_elem_of_fmap in Hx as (n & En & Hin). apply (not_true_iff_false (existsb _ _)) in Ex. apply Ex.
    apply existsb_elem_of. exists n. split; [done|]. apply String.eqb_eq. done.
  - destruct (existsb _ nodes); [constructor|apply NoDup_singleton].
Qed.
Lemma replaced_offers org node db c :
  c ∈ map capacity_of (replaceNodeInSet (nodesOf org db) node) ↔ offered_after org (node_ID node) (Some (capacity_of node)) db c.
Proof.
  unfold offered_after, caps. rewrite !elem_of_capacities. setoid_rewrite elem_of_replaceNodeInSet. split.
  - intros (n & [->|[Hn Hne]] & ->); [by left|right]. split; [by exists n|exact Hne].
  - intros [[= <-]|[(n & Hn & ->) Hne]]; [exists node; split; [by left|done]|exists n; split; [by right|done]].
Qed.
Lemma removed_offers org id db c :
  c ∈ map capacity_of (removeNodeFromSet (nodesOf org db) id) ↔ offered_after org id None db c.
Proof.
  unfold offered_after, caps, removeNodeFromSet. rewrite !elem_of_capacities. setoid_rewrite elem_of_filterb.
  setoid_rewrite negb_true_iff. setoid_rewrite String.eqb_neq. split.
  - intros (n & [Hn Hne] & ->). right. split; [by exists n|exact Hne].
  - intros [?|[(n & Hn & ->) Hne]]; [done|]. by exists n.
Qed.
Lemma NoDup_removed id nodes : NoDup (map node_ID nodes) → NoDup (map node_ID (removeNodeFromSet nodes id)).
Proof.
  unfold removeNodeFromSet. induction nodes as [|n l IH]; cbn; [done|]. intros [Hx Hl]%NoDup_cons.
  destruct (negb _); cbn; [|by apply IH]. apply NoDup_cons. split; [|by apply IH].
  intros (m & E & [Hm _]%elem_of_filterb)%list_elem_of_fmap. apply Hx. rewrite E. apply list_elem_of_fmap. by exists m.
Qed.

Lemma replace_checked org node db u db' :
  well_named db → validateNodeSet org (replaceNodeInSet (nodesOf org db) node) db = Ok (u, db') →
  db' = db ∧ checked org (node_ID node) (Some (capacity_of node)) db.
Proof.
  intros Hn. apply nodeSet_checked; [done|by apply NoDup_replace, NoDup_nodesOf|by apply replaced_offers].
Qed.
Lemma remove_checked org id db u db' :
  well_named db → validateNodeSet org (removeNodeFromSet (nodesOf org db) id) db = Ok (u, db') →
  db' = db ∧ checked org id None db.
Proof.
  intros Hn. apply nodeSet_checked; [done|by apply NoDup_removed, NoDup_nodesOf|by apply removed_offers].
Qed.

(** ** Steps that leave the layouts alone *)

Lemma quiet_markRecord E org updatedAt code id : keeps quiet (markRecord E org updatedAt code id).
Proof. unfold markRecord. keeps_tac. Qed.
#[local] Hint Resolve quiet_markRecord : keeps.
Lemma quiet_markRecords E org ids updatedAt code : keeps quiet (markDNSManagedRecordsPending E org ids updatedAt code).
Proof. unfold markDNSManagedRecordsPending, lockDNSManagedRecords. keeps_tac. Qed.
Lemma quiet_collectForInstances org record instances : ∀ affected seen,
  keeps quiet (collectForInstances org record instances affected seen).
Proof.
  induction instances as [|i l IH]; intros affected seen; cbn; [keeps_tac|].
  apply keeps_bind; [apply _|unfold collectDNSRecordsReferencingInstance; keeps_tac|intros [? ?]; apply IH].
Qed.
Lemma quiet_collectForRecords org changed records : ∀ affected seen,
  keeps quiet (collectForRecords org changed records affected seen).
Proof.
  induction records as [|r l IH]; intros affected seen; cbn; [keeps_tac|].
  apply keeps_bind; [apply _|apply quiet_collectForInstances|intros [? ?]; apply IH].
Qed.
#[local] Hint Resolve quiet_markRecords quiet_collectForRecords : keeps.
Lemma quiet_markGroups E org groups updatedAt : keeps quiet (markDNSRecordsDependingOnNodeGroupsPending E org groups updatedAt).
Proof. unfold markDNSRecordsDependingOnNodeGroupsPending. keeps_tac. Qed.
Lemma quiet_auditEntry E input : keeps quiet (writeAudit E input).
Proof. apply quiet_audit. Qed.
Lemma quiet_membership E org node previous next now :
  keeps quiet (syncRuleDeploymentsForNodeMembershipChange E org node previous next now).
Proof. unfold syncRuleDeploymentsForNodeMembershipChange. keeps_tac. Qed.
Lemma quiet_configChange E org node now : keeps quiet (syncRuleDeploymentsForNodeConfigChange E org node now).
Proof. unfold syncRuleDeploymentsForNodeConfigChange. keeps_tac. Qed.
Lemma quiet_when b m : keeps quiet m → keeps quiet (when b m).
Proof. intros Hm. destruct b; [done|apply keeps_ret, _]. Qed.
#[local] Hint Resolve quiet_markGroups quiet_auditEntry quiet_membership quiet_configChange quiet_when : keeps.

(** ** Node groups *)

Lemma CreateNodeGroup_consistent E identity input db :
  lacks bar (env_newID E) → consistent db → consistent (NodeService.CreateNodeGroup E identity input db).2.
Proof.
  intros HE Hdb. unfold NodeService.CreateNodeGroup. destruct (negb _); [done|]. apply serve_keeps; [|done].
  clear db Hdb. intros db r db' Hdb Hr. tx_inv. apply CreateNodeGroup_quiet in E0; [|apply Hdb|exact HE].
  eapply quiet_consistent; [|exact Hdb]. etransitivity; [exact E0|]. by eapply quiet_auditEntry.
Qed.
Lemma UpdateNodeGroup_consistent E identity id input db :
  consistent db → consistent (NodeService.UpdateNodeGroup E identity id input db).2.
Proof.
  intros Hdb. unfold NodeService.UpdateNodeGroup. destruct (negb _); [done|]. apply serve_keeps; [|done].
  intros db1 r db' Hdb1 Hr. eapply quiet_tail; [|exact Hr|exact Hdb1]. keeps_tac.
Qed.

Lemma each_rejected {A} (f : A → bool) (e : A → serviceError) l (db : database) u db' :
  each (λ x, reject (f x) (e x)) l db = Ok (u, db') → db' = db ∧ ∀ x, x ∈ l → f x = false.
Proof.
  revert u. induction l as [|x l IH]; intros u; cbn; intros He; tx_inv; [by split; [|intros ? ?%not_elem_of_nil]|].
  apply IH in He as [-> Hl]. split; [done|]. by intros y [->|Hy]%elem_of_cons; [|apply Hl].
Qed.
Lemma noNodesForGroup_ok org group db u db' :
  ensureNoNodesForNodeGroup org group db = Ok (u, db') → db' = db ∧ ∀ n, n ∈ nodesOf org db → group ∉ node_GroupIDs n.
Proof.
  unfold ensureNoNodesForNodeGroup, ListNodesByOrganization. intros Hn. tx_inv. fold (nodesOf org db) in Hn.
  revert u Hn. generalize (nodesOf org db) as l. induction l as [|n l IH]; intros u; cbn; intros He; tx_inv.
  { by split; [|intros ? ?%not_elem_of_nil]. }
  apply each_rejected in E as [-> Hn]. apply IH in He as [-> Hl]. split; [done|].
  intros m [->|Hm]%elem_of_cons; [|by apply Hl]. intros Hg%Hn. by apply String.eqb_neq in Hg.
Qed.
Lemma elem_of_nodesOf org db n : n ∈ nodesOf org db ↔ ∃ k row, live nodesTable org k db = Some row ∧ n = loadNodeDetails db row.
Proof.
  unfold nodesOf. rewrite list_elem_of_fmap. setoid_rewrite elem_of_sort. setoid_rewrite elem_of_lives. naive_solver.
Qed.

Lemma DeleteNodeGroup_consistent E identity id db :
  consistent db → consistent (NodeService.DeleteNodeGroup E identity id db).2.
Proof.
  intros Hdb. unfold NodeService.DeleteNodeGroup. destruct (negb _); [done|]. apply serve_keeps; [|done].
  clear db Hdb. intros db r db' Hdb Hr. tx_inv. apply FindNodeGroupByID_ok in E0 as [_ ->].
  assert (keeps eq (ensureNoRulesForNodeGroup (id_OrganizationID identity) id)) as Hrules by (unfold ensureNoRulesForNodeGroup; keeps_tac).
  assert (keeps eq (ensureNoDNSInstancesForNodeGroup (id_OrganizationID identity) id)) as Hdns by (unfold ensureNoDNSInstancesForNodeGroup; keeps_tac).
  assert (keeps eq (ensureNoNodeEnrollmentProfilesForNodeGroup (id_OrganizationID identity) id)) as Hprof
    by (unfold ensureNoNodeEnrollmentProfilesForNodeGroup; keeps_tac).
  apply (keeps_eq _ _ _ _ Hrules) in E1 as ->. apply noNodesForGroup_ok in E2 as [-> Hnodes].
  apply (keeps_eq _ _ _ _ Hdns) in E3 as ->. apply (keeps_eq _ _ _ _ Hprof) in E4 as ->.
  apply DeleteNodeGroup_quiet in E5.
  - eapply quiet_consistent; [|exact Hdb]. etransitivity; [exact E5|]. by eapply quiet_auditEntry.
  - intros k n Hn. assert (loadNodeDetails db n ∈ nodesOf (id_OrganizationID identity) db) as Hin
      by (apply elem_of_nodesOf; by exists k, n).
    apply Hnodes in Hin. pose proof (live_owner nodesTable _ _ _ _ Hn) as Ho. cbn in Ho. cbn in Hin. by rewrite Ho in Hin.
Qed.

(** ** Nodes *)

Lemma FindNodeByID_ok org id db n db' :
  FindNodeByID org id db = Ok (n, db') → db' = db ∧ ∃ row, live nodesTable org id db = Some row ∧ n = loadNodeDetails db row.
Proof.
  unfold FindNodeByID. intros Hf. tx_inv. apply found_ok in Hf as [Hf ->]. split; [done|].
  apply fmap_Some in Hf as (row & Hl & ->). by exists row.
Qed.
Lemma groupsExist_ok org groups db u db' :
  ensureNodeGroupsExist org groups db = Ok (u, db') → db' = db ∧ ∀ g, g ∈ groups → is_Some (live nodeGroupsTable org g db).
Proof.
  unfold ensureNodeGroupsExist. revert u. induction groups as [|g l IH]; intros u; cbn; intros He; tx_inv.
  { by split; [|intros ? ?%not_elem_of_nil]. }
  apply FindNodeGroupByID_ok in E0 as [Hg ->]. apply IH in He as [-> Hl]. split; [done|].
  intros g' [->|Hg']%elem_of_cons; [by eexists|by apply Hl].
Qed.

(** The steps at the end of an operation. *)
Ltac quiet_rest :=
  repeat match goal with
  | H : ?m ?db = Ok (_, ?db') |- consistent ?db' =>
      eapply quiet_tail; [|exact H|]; [solve [keeps_tac]|]; clear H
  end.

Lemma createNode_consistent E identity input :
  triple consistent (createNode E identity input) (λ _, consistent).
Proof.
  intros db r db' Hdb Hr. unfold createNode in Hr. cbv zeta in Hr. tx_inv.
  apply groupsExist_ok in E0 as [-> Hg]. unfold ListNodesByOrganization in E1. tx_inv. fold (nodesOf (id_OrganizationID identity) db) in E2.
  apply replace_checked in E2 as [-> Hc]; [|apply Hdb].
  set (node := newNode identity (env_newID E) input (env_now E)) in *.
  apply (CreateNode_wrote E node) in E3 as [Hw _]; [|apply Hdb|exact Hg].
  apply wrote_node_writes in Hw; [|apply Hdb]. eapply write_checked in Hw; [|exact Hdb|exact Hc].
  quiet_rest. done.
Qed.

Lemma CreateNode_consistent E identity input db : consistent db → consistent (NodeService.CreateNode E identity input db).2.
Proof.
  intros Hdb. unfold NodeService.CreateNode. destruct (negb _); [done|]. destruct (dataplaneInput _ _ _); [|done].
  destruct (_ && _); [done|]. destruct (ensureCanManageNodeGroups _ _); [|done].
  apply serve_keeps; [apply createNode_consistent|done].
Qed.

(** The groups that an update asks for exist, or are those of the node. *)
Lemma targetGroups_ok identity node input db groups db' :
  targetGroups identity node input db = Ok (groups, db') →
  db' = db ∧ if nin_GroupIDsProvided input then ∀ g, g ∈ groups → is_Some (live nodeGroupsTable (id_OrganizationID identity) g db)
             else groups = node_GroupIDs node.
Proof.
  unfold targetGroups. destruct (nin_GroupIDsProvided input); intros Ht; tx_inv; [|done].
  match goal with X : ensureNodeGroupsExist _ _ _ = _ |- _ => apply groupsExist_ok in X as [-> ?] end. done.
Qed.

Lemma updateNode_consistent E identity nodeID input :
  triple consistent (updateNode E identity nodeID input) (λ _, consistent).
Proof.
  intros db r db' Hdb Hr. unfold updateNode in Hr. cbv zeta in Hr. tx_inv.
  apply FindNodeByID_ok in E0 as (-> & row & Hlive & ->). apply targetGroups_ok in E2 as [-> Hg].
  pose proof (live_owner nodesTable _ _ _ _ Hlive) as Ho. cbn in Ho.
  unfold ListNodesByOrganization in E3. tx_inv. fold (nodesOf (id_OrganizationID identity) db) in E4.
  apply replace_checked in E4 as [-> Hc]; [|apply Hdb].
  set (node := changedNode (loadNodeDetails db row) input _) in *.
  change (node_GroupIDs (loadNodeDetails db row)) with (listNodeGroupIDs (node_OrganizationID row) (node_ID row) db) in Hg.
  match type of E5 with Database.UpdateNode _ ?n _ ?g _ _ _ _ _ _ = _ => change g with (node_GroupIDs n) in E5 end.
  apply (UpdateNode_wrote E (node <| node_UpdatedAt := env_now E |>)) in E5 as (old & Hold & Hw);
    [|apply Hdb| |cbn; by destruct (nin_ListenIPsProvided input)|cbn; by destruct (nin_PortRangesProvided input)].
  2:{ rewrite <-Ho in Hg. by destruct (nin_GroupIDsProvided input); exact Hg. }
  destruct (wn_identity _ _ _ _ Hw) as (Hid & _ & _). pose proof (live_owner nodesTable _ _ _ _ Hold) as Horg.
  apply wrote_node_writes in Hw; [|apply Hdb]. rewrite Hid in Hw.
  change (node_OrganizationID (updatedNode _ old)) with (tbl_owner nodesTable old) in Hw. rewrite Horg in Hw.
  eapply write_checked in Hw; [|exact Hdb|]; [quiet_rest; done|].
  rewrite <-Ho in Hc. exact Hc.
Qed.
Lemma UpdateNode_consistent E identity nodeID input db :
  consistent db → consistent (NodeService.UpdateNode E identity nodeID input db).2.
Proof.
  intros Hdb. unfold NodeService.UpdateNode. destruct (negb _); [done|]. destruct (dataplaneInput _ _ _); [|done].
  apply serve_keeps; [apply updateNode_consistent|done].
Qed.

(** *** Deletion, which gives up a pending enrollment *)

Lemma attempt_find org id db o db' :
  attempt (FindNodeByID org id) db = Ok (o, db') →
  db' = db ∧ ∀ n, o = Some n → ∃ row, live nodesTable org id db = Some row ∧ n = loadNodeDetails db row.
Proof.
  intros [(n & -> & E)|(-> & -> & _)]%attempt_ok; [|done]. apply FindNodeByID_ok in E as [-> Hn].
  split; [done|]. by intros ? [= <-].
Qed.
Lemma deleteEnrolledNode_consistent E org id now :
  now ≠ "" → triple consistent (deleteEnrolledNode E org id now) (λ _, consistent).
Proof.
  intros Hnow db r db' Hdb Hr. unfold deleteEnrolledNode in Hr. tx_inv. apply attempt_find in E0 as [-> _].
  destruct a as [n|]; tx_inv; [|done]. unfold ListNodesByOrganization in E0. tx_inv. fold (nodesOf org db) in E1.
  apply remove_checked in E1 as [-> Hc]; [|apply Hdb].
  apply attempt_ok in E2 as [(u & _ & E2)|(_ & -> & _)].
  - apply DeleteNode_writes in E2; [|apply Hdb|exact Hnow]. eapply write_checked in E2; [|exact Hdb|exact Hc].
    quiet_rest. done.
  - quiet_rest. done.
Qed.

(** What is given up leaves the layouts deployable; nothing changes in them
    when the credential was not revoked. *)
Lemma release_ok E auth now db ids (released : bool) db' :
  now ≠ "" → releaseAgentRegistrationCredentialInTx E auth now db = Ok ((ids, released), db') →
  (consistent db → consistent db') ∧ (released = false → quiet db db').
Proof.
  intros Hnow Hr. unfold releaseAgentRegistrationCredentialInTx in Hr. cbv zeta in Hr. tx_inv.
  assert (quiet db s) as Hs by (eapply (keeps_attempt quiet); [apply quiet_revokeCredential|exact E0]).
  destruct (String.eqb (auth_EnrollmentProfileID auth) "").
  { tx_inv. by split; [apply quiet_consistent|]. }
  tx_inv.
  assert ((consistent s → consistent s0) ∧ (a = None → s0 = s)) as [Hc Hn].
  { destruct (isSome a && _) eqn:Ea.
    - apply andb_true_iff in Ea as [Ea _]. split; [|by intros ->]. intros Hs'. by eapply deleteEnrolledNode_consistent, E1.
    - by tx_inv. }
  assert (quiet s0 db' ∧ released = isSome a) as [Hq ->].
  { assert (quiet s0 s1) as H01 by (eapply (keeps_attempt quiet); [|exact E2]; keeps_tac).
    destruct a1 as [profile|]; tx_inv; [|by simplify_eq].
    split; [|by simplify_eq]. etransitivity; [exact H01|].
    assert (∀ b : bool, keeps quiet (if b then attempt (DecrementNodeEnrollmentProfileUsedCount E (auth_OrganizationID auth)
      (auth_EnrollmentProfileID auth) now);; mret tt else mret tt)) as Hk by (intros b; keeps_tac).
    by eapply Hk. }
  split.
  - intros Hdb. eapply quiet_consistent; [exact Hq|]. apply Hc. by eapply quiet_consistent.
  - intros Ha. destruct a; [done|]. by rewrite (Hn eq_refl) in Hq; etransitivity.
Qed.
Lemma releasePending_ok E node now db ids (released : bool) db' :
  now ≠ "" → releasePendingNodeEnrollmentForNode E node now db = Ok ((ids, released), db') →
  (consistent db → consistent db') ∧ (released = false → quiet db db').
Proof.
  intros Hnow Hr. unfold releasePendingNodeEnrollmentForNode in Hr. destruct (String.eqb _ ""); tx_inv; [done|].
  unfold ListPendingCredentialsByEnrollmentProfile in E0. tx_inv.
  destruct (List.find _ _); [by eapply release_ok|by tx_inv].
Qed.

Lemma deleteNode_consistent E identity nodeID :
  env_now E ≠ "" → triple consistent (deleteNode E identity nodeID) (λ _, consistent).
Proof.
  intros Hnow db r db' Hdb Hr. unfold deleteNode in Hr. cbv zeta in Hr. tx_inv.
  apply FindNodeByID_ok in E0 as (-> & row & Hlive & ->).
  unfold ListNodesByOrganization in E2. tx_inv. fold (nodesOf (id_OrganizationID identity) db) in E3.
  apply remove_checked in E3 as [-> Hc]; [|apply Hdb].
  match goal with X : releasePendingNodeEnrollmentForNode _ _ _ _ = Ok (?p, ?s) |- _ =>
    destruct p as [ids released]; apply releasePending_ok in X as [Hcons Hq]; [|exact Hnow]; specialize (Hcons Hdb) end.
  destruct released; tx_inv; [quiet_rest; done|].
  specialize (Hq eq_refl). apply (checked_quiet _ _ _ _ _ Hq) in Hc.
  match goal with X : Database.DeleteNode _ _ _ _ _ = Ok (_, ?s) |- _ =>
    apply DeleteNode_writes in X; [|apply Hcons|exact Hnow]; eapply write_checked in X; [|exact Hcons|exact Hc] end.
  quiet_rest. done.
Qed.
Lemma DeleteNode_consistent E identity nodeID db :
  env_now E ≠ "" → consistent db → consistent (NodeService.DeleteNode E identity nodeID db).2.
Proof.
  intros Hnow Hdb. unfold NodeService.DeleteNode. destruct (negb _); [done|]. by apply serve_keeps; [apply deleteNode_consistent|].
Qed.
End invariant.
