(* ===== verification/ExampleDatabase.v ===== *)
(** * A small organization to evaluate the services on

    One node in one group, one target, no rule yet: the properties of the
    services are applied to it and to what the services make of it. *)

From S2P Require Import Prelude GoString GoInt GoSort Domain ServiceErrors Records ValidatorBase NodeCoverage ConfigCompiler RuleInput Authorizer Transaction Database RuleStore Layout StoreLayout ControlService RuleService RuleInvariant.
From coqutil Require Import Datatypes.RecordSetters.
Import TriangleBracketNotations.
#[local] Open Scope Z_scope.

#[export] Instance example_unicode : UnicodeTables := ascii_tables.
#[export] Instance example_hash : UUIDHash := λ text, text.
#[export] Instance example_texts : HashedTexts := λ _, True.
#[export] Instance example_authorizer : Authorizer := singleUserAuthorizer.

#[export] Instance example_no_collision : NoCollision.
Proof. by intros x y _ _. Defined.
#[export] Instance example_fold : FoldSymmetric.
Proof. intros x y. cbn. by rewrite String.eqb_sym. Defined.

Definition example_identity : InternalIdentity := {|
  id_UserID := "u1"; id_OrganizationID := "o1"; id_MemberID := ""; id_Roles := []; id_Permissions := [];
  id_ResourceScopes := []; id_SourceIP := "" |}.
(** A database that refuses nothing. *)
Definition example_env (id : string) : callEnv := {|
  env_now := "2025-01-01T00:00:00Z"; env_newID := id; env_auditID := "a-" ++ id; env_auditNow := "";
  env_nextID := λ prefix n, (id ++ "-" ++ prefix ++ "-" ++ Itoa (Z.of_nat n))%string; env_refuse := λ _ _, None |}.

Definition organization : OrganizationRecord := {|
  org_ID := "o1"; org_Name := "one"; org_Slug := "one"; org_OwnerUserID := "u1"; org_DefaultRuleLimit := 2;
  org_DefaultTrafficLimitBytes := 0; org_DefaultTrafficLimitMode := ""; org_CreatedAt := ""; org_UpdatedAt := "";
  org_DeletedAt := "" |}.
Definition example_nodes : nodeTables := {|
  t_node_groups := {["g1" := {| ngrp_ID := "g1"; ngrp_OrganizationID := "o1"; ngrp_Name := "edge";
    ngrp_Description := ""; ngrp_CreatedAt := ""; ngrp_UpdatedAt := ""; ngrp_DeletedAt := "" |}]};
  t_nodes := {["n1" := (example_node "n1" [] [] [] []) <| node_OrganizationID := "o1" |>
    <| node_MaxRulePorts := 100 |>]};
  t_node_group_members := [{| mem_OrganizationID := "o1"; mem_NodeID := "n1"; mem_NodeGroupID := "g1" |}];
  t_node_listen_ips := [{| nlip_ID := "l1"; nlip_OrganizationID := "o1"; nlip_NodeID := "n1"; nlip_ListenIP := "0.0.0.0";
    nlip_DisplayName := ""; nlip_Enabled := true; nlip_CreatedAt := ""; nlip_UpdatedAt := "" |}];
  t_node_send_ips := [];
  t_node_port_ranges := [{| nrange_ID := "p1"; nrange_OrganizationID := "o1"; nrange_NodeID := "n1"; nrange_Protocol := "TCP";
    nrange_StartPort := 1; nrange_EndPort := 9000; nrange_Enabled := true; nrange_CreatedAt := ""; nrange_UpdatedAt := "" |}];
  t_dns_publish_addresses := [] |}.
Definition example_targets : targetTables := {|
  t_targets := {["t1" := {| trec_ID := "t1"; trec_OrganizationID := "o1"; trec_Name := "web"; trec_Host := "10.0.0.1";
    trec_Port := 80; trec_Enabled := true; trec_CreatedAt := ""; trec_UpdatedAt := ""; trec_DeletedAt := "" |}]};
  t_target_groups := ∅; t_target_group_members := [] |}.
Definition example_database : database := {|
  db_nodes := example_nodes; db_targets := example_targets;
  db_rules := {| t_inbound_bindings := ∅; t_binding_port_segments := []; t_forwarding_rules := ∅; t_rule_tags := [];
    t_rule_deployments := ∅ |};
  db_monitors := {| t_monitor_groups := ∅; t_monitors := ∅; t_monitor_group_members := []; t_health_checks := ∅;
    t_health_check_targets := []; t_health_check_monitor_scopes := [] |};
  db_agents := {| t_registration_tokens := ∅; t_credentials := ∅; t_enrollment_profiles := ∅; t_enrollment_events := [] |};
  db_dns := {| t_dns_managed_records := ∅; t_dns_instances := ∅ |};
  db_traffic := {| t_rule_traffic_reports := ∅; t_rule_traffic_assignments := ∅; t_rule_traffic_counters := ∅ |};
  db_organizations := {["o1" := organization]}; db_quotas := []; db_audit_logs := [] |}.

Lemma singleton_key {A} (m : gmap string A) k v id x : m = {[k := v]} → m !! id = Some x → k = id ∧ v = x.
Proof. intros ->. apply lookup_singleton_Some. Qed.

Lemma example_well_named : well_named example_database.
Proof.
  split.
  - intros id n Hn. apply (singleton_key _ _ _ _ _ eq_refl) in Hn as [<- <-]. reflexivity.
  - intros id g Hg. apply (singleton_key _ _ _ _ _ eq_refl) in Hg as [<- <-]. apply lacks_closed. vm_compute. reflexivity.
  - intros m ->%list_elem_of_singleton. by eexists.
  - intros id r Hr. discriminate Hr.
  - reflexivity.
  - intros id r Hr. discriminate Hr.
  - intros org id b Hb. discriminate Hb.
Qed.
Lemma example_consistent : consistent example_database.
Proof.
  split; [exact example_well_named|]. intros org.
  assert (pls org example_database = []) as ->; [reflexivity|].
  split; [intros p ?%not_elem_of_nil|intros p q ?%not_elem_of_nil]; done.
Qed.

Definition example_input (name : string) (first last : Z) : RuleMutationInput := {|
  mi_Name := name; mi_Tags := ["web"]; mi_NodeGroupID := "g1"; mi_ListenIP := "0.0.0.0"; mi_SendIP := "";
  mi_FailurePolicy := ""; mi_DataplanePreference := ""; mi_ForwardingType := "DIRECT"; mi_Protocol := "TCP";
  mi_Port := first; mi_PortSegments := [{| pseg_StartPort := first; pseg_EndPort := last |}];
  mi_Match := {| mmatch_Type := "ANY_INBOUND"; mmatch_SNIHostname := "" |};
  mi_ProxyProtocol := {| mproxy_In := "NONE"; mproxy_Out := "NONE" |};
  mi_Upstream := {| mup_Type := "TARGET"; mup_TargetID := "t1"; mup_TargetGroupID := "" |};
  mi_Enabled := true; mi_EnabledSet := true |}.
