(* ===== verification/ConfigDelivery.v ===== *)
(** * Configurations reach their nodes

    What the compilation of a node's configuration and the acknowledgement of
    one do to the database: versions, retries, deployment statuses and the
    rules that are disabled. *)

From S2P Require Import Prelude GoString GoInt GoSort GoTime Domain Agent ServiceErrors Records ValidatorBase NodeCoverage ConfigCompiler RuleInput TrafficLedger Authorizer Transaction Database RuleStore MonitorStore PresenceStore Layout StoreLayout ControlService RuleDeployment NodeConfig RuleService RuleInvariant NodeInvariant ExampleDatabase.
From coqutil Require Import Datatypes.RecordSetters.
Import TriangleBracketNotations.
#[local] Open Scope Z_scope.

(** PostgreSQL's documentation of [timestamp with time zone]: microseconds are
    kept, to the nearest one. *)
Class TimestampPrecision `{TT : TimestampColumn} : Prop :=
  timestamp_precision t : formattable t →
    ∃ t', parseNodeConfigRetryAt (timestampText (FormatRFC3339Nano t)) = Some t' ∧ Z.abs (t' - t) ≤ 500.

Lemma parse_written t : formattable t → parseNodeConfigRetryAt (FormatRFC3339Nano t) = Some t.
Proof.
  intros Ht. unfold parseNodeConfigRetryAt. rewrite TrimSpace_FormatRFC3339Nano. cbn [fold_right].
  by rewrite Parse_FormatRFC3339Nano.
Qed.
Lemma parse_nonempty text t : parseNodeConfigRetryAt text = Some t → TrimSpace text ≠ "".
Proof. unfold parseNodeConfigRetryAt. intros E E0. rewrite E0 in E. discriminate E. Qed.

Lemma configRetryBackoff_bounds n : 15 * Second ≤ configRetryBackoff n ≤ 5 * Minute.
Proof. unfold configRetryBackoff. repeat destruct (_ : bool); unfold Minute, Second; lia. Qed.
Lemma configRetryBackoff_mono m n : m ≤ n → configRetryBackoff m ≤ configRetryBackoff n.
Proof.
  unfold configRetryBackoff, Minute, Second. intros H.
  destruct (Z.leb_spec m 1), (Z.leb_spec n 1), (Z.eqb_spec m 2), (Z.eqb_spec n 2), (Z.eqb_spec m 3), (Z.eqb_spec n 3),
    (Z.eqb_spec m 4), (Z.eqb_spec n 4); lia.
Qed.

Section delivery.
Context `{UnicodeTables, UUIDHash, TT : TimestampColumn, CD : ConfigDigest}.

Lemma live_written {A} (T : table A) (org id : string) (f : A → A) row db g :
  (∀ m db, tbl_rows T (tbl_with T m db) = m (tbl_rows T db)) →
  live T org id db = Some row → tbl_owner T (f row) = tbl_owner T row → tbl_deleted T (f row) = tbl_deleted T row →
  g = <[id := f row]> → live T org id (tbl_with T g db) = Some (f row).
Proof.
  intros HT (Hr & Ho & Hd)%findRow_some Eo Ed ->. apply findRow_some. rewrite HT, lookup_insert_eq. split_and!; congruence.
Qed.
Lemma live_node_written org id (f : NodeRecord → NodeRecord) row db :
  live nodesTable org id db = Some row → node_OrganizationID (f row) = node_OrganizationID row →
  node_DeletedAt (f row) = node_DeletedAt row → live nodesTable org id (tbl_with nodesTable <[id := f row]> db) = Some (f row).
Proof. intros. by eapply (live_written nodesTable). Qed.

(** ** Acknowledgements that failed *)

(** The retry of this failure. *)
Definition retryCount (row : NodeRecord) (configVersion : Z) : Z := ack_RetryCount (nodeConfigFailedAck row configVersion "" 0).

Lemma failedNode_backoff `{!TimestampPrecision} (row : NodeRecord) errorMessage nowTime now :
  let version := node_DesiredConfigVersion row in
  let retryAt := nowTime + configRetryBackoff (retryCount row version) in
  formattable retryAt →
  ∃ nextRetryAt, Z.abs (nextRetryAt - retryAt) ≤ 500 ∧
    ∀ node, node_ConfigStatus node = "FAILED" → node_DesiredConfigVersion node = version →
      node_ConfigStatusConfigVersion node = version →
      node_ConfigNextRetryAt node = node_ConfigNextRetryAt (failedNode (failedAck row version errorMessage nowTime) now row) →
      ∀ applied t, configBehind node applied t = (nextRetryAt <=? t).
Proof.
  intros version retryAt Hf. destruct (timestamp_precision retryAt Hf) as (next & Hp & Hn).
  exists next. split; [exact Hn|]. intros node Hs Hd Hv Hr applied t. unfold configBehind, nodeConfigBackoffActive.
  rewrite Hs, Hd, Hv, Z.eqb_refl. cbn [negb orb].
  assert (node_ConfigNextRetryAt node = timestampText (FormatRFC3339Nano retryAt)) as Er by (rewrite Hr; reflexivity).
  rewrite Er, Hp. destruct (String.eqb_spec (TrimSpace (timestampText (FormatRFC3339Nano retryAt))) "") as [E|_].
  { by apply (parse_nonempty _ _ Hp) in E. }
  change (String.eqb "FAILED" "FAILED") with true. cbn [negb orb]. rewrite orb_true_r.
  destruct (Z.ltb_spec t next), (Z.leb_spec next t); lia || done.
Qed.

(** ** What happens to node rows

    Statements keep a row, or write a newer version that is wanted of it. *)

Definition stays (id : string) (db db' : database) : Prop :=
  ∀ row, t_nodes (db_nodes db) !! id = Some row →
    ∃ row', t_nodes (db_nodes db') !! id = Some row' ∧
      (row' = row ∨ (node_OrganizationID row' = node_OrganizationID row ∧ node_DeletedAt row' = node_DeletedAt row ∧
                     node_DesiredConfigVersion row < node_DesiredConfigVersion row')).
#[local] Instance stays_preorder id : PreOrder (stays id).
Proof.
  split; [intros db row Hr; by eauto|]. intros a b c Hab Hbc row Hr. destruct (Hab row Hr) as (r1 & H1 & E1).
  destruct (Hbc r1 H1) as (r2 & H2 & E2). exists r2. split; [done|].
  destruct E1 as [->|(? & ? & ?)], E2 as [->|(? & ? & ?)]; [by left|right..]; split_and!; try congruence; lia.
Qed.
Lemma stays_same id db db' : t_nodes (db_nodes db') = t_nodes (db_nodes db) → stays id db db'.
Proof. intros E row Hr. rewrite E. by eauto. Qed.

Lemma keeps_updateRow {A} (R : database → database → Prop) (T : table A) E org id f :
  (∀ row db, live T org id db = Some row → R db (tbl_with T <[id := f row]> db)) → keeps R (updateRow T E org id f).
Proof. intros HT db u db' (row & Hl & ->)%updateRow_ok. by apply HT. Qed.

Ltac stays_exec := apply keeps_exec; intros ?; by apply stays_same.
Lemma stays_updateRule id E rule b tags : keeps (stays id) (RuleStore.UpdateRule E rule b tags).
Proof.
  unfold RuleStore.UpdateRule, upsertInboundBinding, replaceInboundBindingPortSegments, replaceRuleTags.
  apply keeps_bind; [apply _| |intros _; apply keeps_bind; [apply _| |intros _; stays_exec]].
  - apply keeps_bind; [apply _|stays_exec|intros _; stays_exec].
  - apply keeps_updateRow. intros row db _. by apply stays_same.
Qed.
Lemma bumpedNode_grows now row : node_DesiredConfigVersion row < node_DesiredConfigVersion (bumpedNode now row).
Proof.
  change (node_DesiredConfigVersion row < if node_AppliedConfigVersion row <=? node_DesiredConfigVersion row
    then node_DesiredConfigVersion row + 1 else node_AppliedConfigVersion row + 1).
  destruct (Z.leb_spec (node_AppliedConfigVersion row) (node_DesiredConfigVersion row)); lia.
Qed.
Lemma stays_bump id E org group now : keeps (stays id) (bumpDesiredConfigForNodeGroup E org group now).
Proof.
  unfold bumpDesiredConfigForNodeGroup. destruct (String.eqb _ _); [apply keeps_ret, _|].
  apply keeps_exec. intros db row Hr. eexists. split; [cbn; by rewrite lookup_fmap, Hr|]. cbv beta.
  destruct (_ && _); [right; split_and!; [done..|apply bumpedNode_grows]|by left].
Qed.
Lemma stays_audit id E input : keeps (stays id) (writeAudit E input).
Proof. stays_exec. Qed.
Lemma stays_failures id E org node version failures now : keeps (stays id) (RecordRuleDeploymentFailures E org node version failures now).
Proof.
  apply keeps_each; [apply _|]. intros d. unfold recordFailure. destruct (String.eqb _ _); [apply keeps_ret, _|stays_exec].
Qed.
#[local] Hint Resolve stays_updateRule stays_bump stays_audit stays_failures : keeps.
Lemma stays_policy id E org deployments now rule : keeps (stays id) (applyFailurePolicy E org deployments now rule).
Proof. unfold applyFailurePolicy. keeps_tac. Qed.
Lemma stays_policies id E org deployments now rules : ∀ seen, keeps (stays id) (applyPolicies E org deployments now seen rules).
Proof.
  induction rules as [|r l IH]; intros seen; cbn; [apply keeps_ret, _|]. destruct (_ || _); [apply IH|].
  apply keeps_bind; [apply _|apply stays_policy|intros _; apply IH].
Qed.
Lemma stays_applyPolicies id E org failed now : keeps (stays id) (applyRuleFailurePolicies E org failed now).
Proof.
  unfold applyRuleFailurePolicies. destruct (is_nil _); [apply keeps_ret, _|].
  apply keeps_bind; [apply _|keeps_tac|intros deployments; apply stays_policies].
Qed.

Lemma updateRowIfAny_live {A} (T : table A) E org id f row db u db' :
  live T org id db = Some row → updateRowIfAny T E org id f db = Ok (u, db') → db' = tbl_with T <[id := f row]> db.
Proof. unfold updateRowIfAny. intros Hl Hu. tx_inv. rewrite Hl in Hu. by apply exec_ok in Hu. Qed.

Lemma RecordNodeConfigAck_ok E org id ack now row db u db' :
  live nodesTable org id db = Some row → node_AppliedConfigVersion row ≤ node_DesiredConfigVersion row →
  ack_ConfigVersion ack = node_DesiredConfigVersion row →
  RecordNodeConfigAck E org id ack now db = Ok (u, db') →
  db' = tbl_with nodesTable <[id := if String.eqb (ack_Status ack) "APPLIED" then appliedNode ack now row
                                    else failedNode ack now row]> db.
Proof.
  intros Hl Hle Hv Ha. apply (updateRowIfAny_live _ _ _ _ _ row) in Ha; [|exact Hl]. rewrite Ha, Hv.
  by rewrite (proj2 (Z.leb_le _ _) Hle), Z.leb_refl.
Qed.

(** The node row once a failure was recorded, while no newer version is wanted. *)
Lemma acknowledgeFailed_row E org id row input errorMessage nowTime db u db' :
  live nodesTable org id db = Some row → node_AppliedConfigVersion row ≤ node_DesiredConfigVersion row →
  na_ConfigVersion input = node_DesiredConfigVersion row →
  acknowledgeFailed E org id (loadNodeDetails db row) input errorMessage nowTime db = Ok (u, db') →
  ∃ row', t_nodes (db_nodes db') !! id = Some row' ∧
    (row' = failedNode (failedAck row (node_DesiredConfigVersion row) errorMessage nowTime) (FormatRFC3339Nano nowTime) row
     ∨ (node_OrganizationID row' = node_OrganizationID row ∧ node_DeletedAt row' = node_DeletedAt row ∧
        node_DesiredConfigVersion row < node_DesiredConfigVersion row')).
Proof.
  intros Hl Hle Hv. unfold acknowledgeFailed. rewrite Hv. cbv zeta. intros Ha. tx_inv.
  change (node_DesiredConfigVersion (loadNodeDetails db row)) with (node_DesiredConfigVersion row) in Ha.
  rewrite Z.eqb_refl in Ha. cbn [negb] in Ha.
  match type of Ha with ?m s = _ => assert (keeps (stays id) m) as Hk end.
  { apply keeps_bind; [apply _|unfold ListRulesByOrganization; apply keeps_reads, _|intros rules].
    apply keeps_bind; [apply _|destruct (is_nil _); [apply keeps_ret, _|apply stays_failures]|intros _; apply stays_applyPolicies]. }
  specialize (Hk _ _ _ Ha). clear Ha.
  apply (RecordNodeConfigAck_ok _ _ _ _ _ row) in E0; [|done..]. subst s.
  exact (Hk _ (lookup_insert_eq _ _ _)).
Qed.

Lemma Behind_live org id row applied t db :
  live nodesTable org id db = Some row →
  NodeAgentConfigBehind org id applied t db = (Ok (configBehind (loadNodeDetails db row) applied t), db).
Proof.
  intros Hl. unfold NodeAgentConfigBehind, serve, WithinTx, FindNodeByID, mbind, tx_bind, reads.
  by rewrite Hl.
Qed.

(** C9. A node that cannot apply the configuration it should have is left in peace for a while, and is then offered
    it again: after the report of a failure of the desired version, the node is not behind until the retry, and
    behind from then on, whatever it says it has applied, unless a newer version is wanted meanwhile.  The retry
    comes 15 seconds after the first failure, then 30 seconds, 1, 2 and 5 minutes after the last one, up to the
    microseconds that the database keeps. *)
Theorem failed_config_is_retried `{!TimestampPrecision} E org id row input nowTime db db' :
  live nodesTable org id db = Some row → node_AppliedConfigVersion row ≤ node_DesiredConfigVersion row →
  ToUpper (TrimSpace (na_Status input)) = "FAILED" → na_ConfigVersion input = node_DesiredConfigVersion row →
  let retryAt := nowTime + configRetryBackoff (retryCount row (node_DesiredConfigVersion row)) in
  formattable retryAt →
  AcknowledgeNodeAgentConfigForAgentProtocol E org id input nowTime db = (Ok tt, db') →
  ∃ row', live nodesTable org id db' = Some row' ∧
    (node_DesiredConfigVersion row < node_DesiredConfigVersion row' ∨
     ∃ nextRetryAt, Z.abs (nextRetryAt - retryAt) ≤ 500 ∧
       nowTime + 15 * Second - 500 ≤ nextRetryAt ≤ nowTime + 5 * Minute + 500 ∧
       ∀ applied t, NodeAgentConfigBehind org id applied t db' = (Ok (nextRetryAt <=? t), db')).
Proof.
  intros Hl Hle Hs Hv retryAt Hf. unfold AcknowledgeNodeAgentConfigForAgentProtocol. rewrite Hs.
  change (String.eqb "FAILED" "APPLIED") with false. change (String.eqb "FAILED" "FAILED") with true. cbn [negb andb].
  intros Ha%serve_ok. unfold acknowledge in Ha. tx_inv. apply FindNodeByID_ok in E0 as (-> & row1 & Hl1 & ->).
  rewrite Hl in Hl1. apply (inj Some) in Hl1 as <-.
  destruct (acknowledgeFailed_row _ _ _ _ _ _ _ _ _ _ Hl Hle Hv Ha) as (row' & Hr & Hcase).
  destruct (proj1 (findRow_some _ _ _ _ _ _) Hl) as (_ & Ho & Hd). exists row'.
  destruct Hcase as [->|(Ho' & Hd' & Hgt)].
  2:{ split; [|by left]. apply findRow_some. split_and!; [exact Hr|by rewrite <-Ho|by rewrite <-Hd]. }
  set (row' := failedNode _ _ _) in *. assert (live nodesTable org id db' = Some row') as Hl'.
  { apply findRow_some. split_and!; [exact Hr|exact Ho|exact Hd]. }
  split; [exact Hl'|]. right.
  destruct (failedNode_backoff row (truncateString (TrimSpace (na_ErrorMessage input)) 1000) nowTime (FormatRFC3339Nano nowTime) Hf)
    as (next & Hn & Hb).
  pose proof (configRetryBackoff_bounds (retryCount row (node_DesiredConfigVersion row))) as Hbounds.
  exists next. split; [exact Hn|]. split; [unfold retryAt in *; lia|].
  intros applied t. rewrite (Behind_live _ _ row') by done. do 2 f_equal. apply Hb; try done.
  change (node_ConfigStatus row' = "FAILED").
  change ((if node_DesiredConfigVersion row <=? node_DesiredConfigVersion row then "FAILED" else "PENDING") = "FAILED").
  by rewrite Z.leb_refl.
Qed.

(** ** Compilation *)

(** The input of the compiler, from a database. *)
Definition ruleConfigsOf (org : string) (node : NodeRecord) (db : database) : list RuleConfig :=
  toRuleConfigs (executableRulesForNode node (rulesOf org db))
    (sort_stable (text2 trec_Name trec_ID) (lives targetsTable org db))
    (map (loadTargetGroupMembers db) (sort_stable (text2 grec_Name grec_ID) (lives targetGroupsTable org db))).
Lemma ruleConfigsForNode_ok org node db :
  ruleConfigsForNode org node (rulesOf org db) db = Ok (ruleConfigsOf org node db, db).
Proof. reflexivity. Qed.

Definition targetVersion (org : string) (node : NodeRecord) (compiled : ConfigSnapshot) (db : database) : Z :=
  maxZ (maxZ (node_DesiredConfigVersion node) (snap_ConfigVersion compiled))
    (maxRuleRecordConfigVersion (executableRulesForNode node (rulesOf org db))).
Definition ensuredNode (configVersion : Z) (now : string) (row : NodeRecord) : NodeRecord :=
  row <| node_DesiredConfigVersion := configVersion |> <| node_ConfigStatus := "PENDING" |>
      <| node_ConfigErrorMessage := "" |> <| node_ConfigStatusConfigVersion := configVersion |>
      <| node_ConfigRetryCount := 0 |> <| node_ConfigNextRetryAt := "" |>
      <| node_ConfigStatusUpdatedAt := now |> <| node_UpdatedAt := now |>.

Lemma assigned_all org node ids l l' :
  TrafficLedger.RecordNodeRuleTrafficAssignments org node ids l = Ok l' →
  ∀ id, id ∈ ids → TrimSpace id ≠ "" → (org, node, TrimSpace id) ∈ ledger_Assignments l'.
Proof.
  unfold TrafficLedger.RecordNodeRuleTrafficAssignments. intros Hl. apply result_bind_ok in Hl as ([seen l1] & Hf & [= <-]).
  cut ((∀ id, id ∈ seen → (org, node, id) ∈ ledger_Assignments l1) ∧
       ∀ id, id ∈ ids → TrimSpace id ≠ "" → (org, node, TrimSpace id) ∈ ledger_Assignments l1); [by intros [_ ?]|].
  refine (fold_result_ind _ (λ ids (s : gset string * ledger), (∀ id, id ∈ s.1 → (org, node, id) ∈ ledger_Assignments s.2) ∧
    ∀ id, id ∈ ids → TrimSpace id ≠ "" → (org, node, TrimSpace id) ∈ ledger_Assignments s.2) _ _ _ _ (seen, l1) Hf).
  { split; [by intros id ?%not_elem_of_empty|by intros id ?%not_elem_of_nil]. }
  intros done ruleID [seen' l2] s' [H1 H2] Hs. cbn [fst snd] in *. unfold assignStep in Hs.
  destruct (String.eqb_spec (TrimSpace ruleID) "") as [E|E]; cbn [orb] in Hs.
  { injection Hs as <-. split; [exact H1|]. intros id [Hd| ->%list_elem_of_singleton]%elem_of_app Hne; [by apply H2|done]. }
  destruct (bool_decide (TrimSpace ruleID ∈ seen')) eqn:Eb.
  { injection Hs as <-. split; [exact H1|]. apply bool_decide_eq_true in Eb.
    intros id [Hd| ->%list_elem_of_singleton]%elem_of_app Hne; [by apply H2|by apply H1]. }
  apply reject_if_bind in Hs as [_ [= <-]]. cbn [fst snd with_assignments ledger_Assignments]. split.
  - intros id [->%elem_of_singleton|Hd]%elem_of_union; [set_solver|]. apply elem_of_union. right. by apply H1.
  - intros id [Hd| ->%list_elem_of_singleton]%elem_of_app Hne; [|set_solver]. apply elem_of_union. right. by apply H2.
Qed.

Lemma snap_Rules_raised version config : snap_Rules (raised version config) = snap_Rules config.
Proof. unfold raised. by destruct (_ <? _). Qed.

Lemma when_live_node E org id target row now db u db' :
  live nodesTable org id db = Some row →
  when (node_DesiredConfigVersion row <? target) (EnsureDesiredConfigVersionAtLeast E org id target now) db = Ok (u, db') →
  db' = if node_DesiredConfigVersion row <? target then tbl_with nodesTable <[id := ensuredNode target now row]> db else db.
Proof.
  intros Hl. unfold when. destruct (_ <? _) eqn:Ht; [|by intros [_ ->]%ret_ok].
  intros Hu. apply (updateRowIfAny_live _ _ _ _ _ row) in Hu; [|done]. by rewrite Hu, Ht.
Qed.

Lemma compileNode_ok E org id pv known config db db' :
  compileNode E org id pv known db = Ok (config, db') →
  ∃ row compiled l, live nodesTable org id db = Some row ∧
    Compile configDigest (compilerInput (loadNodeDetails db row) pv known (ruleConfigsOf org (loadNodeDetails db row) db)) = Ok compiled ∧
    let target := targetVersion org (loadNodeDetails db row) compiled db in
    let db1 := if node_DesiredConfigVersion row <? target
               then tbl_with nodesTable <[id := ensuredNode target (env_now E) row]> db else db in
    config = raised target compiled ∧ db' = with_traffic_of l db1 ∧
    TrafficLedger.RecordNodeRuleTrafficAssignments org id (map rule_ID (snap_Rules compiled)) (ledgerOf db1) = Ok l.
Proof.
  unfold compileNode. intros Hc. tx_inv. apply FindNodeByID_ok in E0 as (-> & row & Hl & ->).
  unfold ListRulesByOrganization in E1. apply reads_ok in E1 as [<- ->].
  rewrite ruleConfigsForNode_ok in E2. injection E2 as <- <-.
  unfold RecordNodeRuleTrafficAssignments in E5. tx_inv.
  match type of E5 with match ?m with _ => _ end _ = _ => destruct m as [l|e] eqn:El; [|discriminate E5] end.
  apply exec_ok in E5 as ->. rewrite snap_Rules_raised in El.
  exists row, a2, l. change (node_DesiredConfigVersion (loadNodeDetails db row)) with (node_DesiredConfigVersion row) in *.
  fold (targetVersion org (loadNodeDetails db row) a2 db) in *.
  apply (when_live_node _ _ _ _ row) in E4; [|done]. subst s3. by split_and!.
Qed.

(** *** What is compiled *)

Lemma toRuleConfig_some targets groups r c :
  toRuleConfig targets groups r = Some c →
  rule_ID c = rrec_ID r ∧ rule_RuntimeID c = "" ∧ rule_ConfigVersion c = rrec_ConfigVersion r ∧
  rule_Enabled c = rrec_Enabled r ∧ rule_NodeGroupIDs c = [bind_NodeGroupID (rrec_Binding r)] ∧ executable c = true.
Proof.
  unfold toRuleConfig. destruct (openCoreRuleRecordSupported r) eqn:Es; [|done]. cbn [negb].
  destruct (upstreamConfig _ _ _); [|done]. intros Hc. apply (inj Some) in Hc as <-. split_and!; try done.
  unfold openCoreRuleRecordSupported in Es. apply andb_true_iff in Es as [Ed Em]. rewrite eqb_or_elem in Em.
  unfold executable, direct. apply andb_true_iff. split; [|exact Em]. apply String.eqb_eq in Ed.
  apply bool_decide_eq_true. cbn [rule_ForwardingType]. rewrite Ed. rewrite !elem_of_cons. auto.
Qed.

Lemma ruleConfigsOf_origin org node db c :
  c ∈ ruleConfigsOf org node db →
  ∃ r, r ∈ rulesOf org db ∧ rrec_Enabled r = true ∧ bind_NodeGroupID (rrec_Binding r) ∈ node_GroupIDs node ∧
    rule_ID c = rrec_ID r ∧ rule_RuntimeID c = "" ∧ rule_Enabled c = true ∧
    rule_NodeGroupIDs c = [bind_NodeGroupID (rrec_Binding r)] ∧ executable c = true.
Proof.
  unfold ruleConfigsOf, toRuleConfigs. intros (r & Hr & Hc)%list_elem_of_omap.
  apply toRuleConfig_some in Hc as (E1 & E2 & _ & E4 & E5 & E6).
  apply elem_of_filterb in Hr as [Hr [He Hg]%andb_true_iff]. apply bool_decide_eq_true, elem_of_list_to_set in Hg.
  exists r. rewrite E4, He. by split_and!.
Qed.

Lemma ruleConfig_selected org node db c nodeID :
  c ∈ ruleConfigsOf org node db → selected nodeID (list_to_set (node_GroupIDs node)) c = true.
Proof.
  intros (r & _ & _ & Hg & _ & _ & He & Egs & _)%ruleConfigsOf_origin. unfold selected, ruleMatchesNode, ruleMatchesAnyNodeGroup.
  rewrite He, Egs. cbn [existsb andb]. rewrite (bool_decide_true (_ ∈ _)) by by apply elem_of_list_to_set. cbn. apply orb_true_r.
Qed.

(** Every compiled rule comes from one of the rules of the input. *)
Lemma compiled_origin input x :
  x ∈ snap_Rules (compiledSnapshot configDigest input) →
  ∃ c, c ∈ in_Rules input ∧ selected (in_NodeID input) (groupSet input) c = true ∧ executable c = true ∧ rule_ID x = rule_ID c.
Proof.
  unfold compiledSnapshot. cbn [with_hash snap_Rules].
  intros (y & -> & [Hy _]%elem_of_filterb)%elem_of_map. rewrite (sort_perm _ _) in Hy. unfold placed in Hy.
  apply elem_of_flat_map in Hy as (c & [Hc [Hs He]%andb_true_iff]%elem_of_filterb & Hy). exists c. split_and!; try done.
  apply expand_elem in Hy. rewrite Hy. unfold reduced. by destruct (agentSupportsManagedDataplane _).
Qed.

(** *** Versions *)

Lemma maxZ_spec x y : maxZ x y = Z.max x y.
Proof. unfold maxZ. destruct (Z.ltb_spec x y); lia. Qed.
Lemma maxRuleRecordConfigVersion_le rules : ∀ r, r ∈ rules → rrec_ConfigVersion r ≤ maxRuleRecordConfigVersion rules.
Proof.
  unfold maxRuleRecordConfigVersion. generalize 0.
  induction rules as [|r l IH]; intros v; [by intros ? ?%not_elem_of_nil|]. cbn.
  assert (∀ v, v ≤ foldl (λ m r, if m <? rrec_ConfigVersion r then rrec_ConfigVersion r else m) v l) as Hge.
  { clear. induction l as [|x l IH]; intros v; cbn; [lia|]. specialize (IH (if v <? rrec_ConfigVersion x then rrec_ConfigVersion x else v)).
    destruct (Z.ltb_spec v (rrec_ConfigVersion x)); lia. }
  intros x [->|Hx]%elem_of_cons; [|by apply IH]. etrans; [|apply Hge]. destruct (Z.ltb_spec v (rrec_ConfigVersion r)); lia.
Qed.
Lemma raised_version target config : snap_ConfigVersion config ≤ target → snap_ConfigVersion (raised target config) = target.
Proof. unfold raised. destruct (Z.ltb_spec (snap_ConfigVersion config) target); intros; cbn; lia. Qed.
Lemma raised_hash target config :
  snap_ConfigHash config = configHash configDigest config →
  snap_ConfigHash (raised target config) = configHash configDigest (raised target config).
Proof. unfold raised. by destruct (_ <? _). Qed.

(** The node after a compilation. *)
Definition compiledNode (target : Z) (now : string) (row : NodeRecord) : NodeRecord :=
  if node_DesiredConfigVersion row <? target then ensuredNode target now row else row.
Lemma compiled_live org id row target now l db :
  live nodesTable org id db = Some row →
  live nodesTable org id (with_traffic_of l (if node_DesiredConfigVersion row <? target
    then tbl_with nodesTable <[id := ensuredNode target now row]> db else db)) = Some (compiledNode target now row).
Proof.
  intros Hl. unfold compiledNode. destruct (_ <? _); [|exact Hl].
  exact (live_node_written org id (ensuredNode target now) row db Hl eq_refl eq_refl).
Qed.
Lemma compiledNode_desired target now row :
  node_DesiredConfigVersion row ≤ target → node_DesiredConfigVersion (compiledNode target now row) = target.
Proof. unfold compiledNode. destruct (Z.ltb_spec (node_DesiredConfigVersion row) target); intros; [done|lia]. Qed.

End delivery.

(** ** Evaluations *)

Module DeliveryExamples.
(** A database that keeps what it is given. *)
#[export] Instance example_timestamps : TimestampColumn := λ text, text.
#[export] Instance example_config_digest : ConfigDigest := λ content, Itoa (hash_ConfigVersion content).
#[export] Instance example_precision : TimestampPrecision.
Proof. intros t Ht. exists t. split; [by apply parse_written|]. rewrite Z.sub_diag. discriminate. Defined.

(** The organization with a rule that is not delivered yet, and after the
    configuration was compiled. *)
Definition with_rule : database := (CreateRule (example_env "r1") example_identity (example_input "one" 80 80) example_database).2.
Definition compiled : result serviceError ConfigSnapshot * database :=
  CompileNodeAgentConfigForAgentProtocol (example_env "c1") "o1" "n1" CurrentProtocolVersion true with_rule.
Definition compiled_config : ConfigSnapshot := match compiled.1 with Ok c => c | Err _ => EmptyNodeAgentConfig configDigest "n1" end.
Definition report (status : string) (version : Z) (errors : list ConfigApplyErrorInput) : nodeAck := {|
  na_ConfigVersion := version; na_ConfigHash := ""; na_ProtocolVersion := CurrentProtocolVersion; na_ProtocolKnown := true;
  na_Status := status; na_ErrorMessage := ""; na_ApplyErrors := errors; na_ResolvedDataplanes := ∅ |}.
Definition inUse (rules : list string) : ConfigApplyErrorInput := {|
  cae_Code := "LISTENER_BIND_FAILED"; cae_RuleIDs := rules; cae_Protocol := "TCP"; cae_ListenIP := "0.0.0.0"; cae_Port := 80;
  cae_Dataplane := ""; cae_Owner := ""; cae_DriftStatus := ""; cae_ExternalResource := ""; cae_Message := "address already in use" |}.
Definition noNode : NodeRecord := example_node "" [] [] [] [].
Definition nodeOf (db : database) : NodeRecord := default noNode (live nodesTable "o1" "n1" db).

Example compiled_ok :
  CompileNodeAgentConfigForAgentProtocol (example_env "c1") "o1" "n1" CurrentProtocolVersion true with_rule
  = (Ok compiled_config, compiled.2).
Proof. vm_compute. reflexivity. Qed.
Example compiled_row : live nodesTable "o1" "n1" compiled.2 = Some (nodeOf compiled.2).
Proof. vm_compute. reflexivity. Qed.


(** The first report of a failure, at the beginning of 2025. *)
Definition failed : result serviceError () * database :=
  AcknowledgeNodeAgentConfigForAgentProtocol example_env "o1" "n1" (report "failed" 1 [inUse ["r1"]]) 1735689600000000000 compiled.2.

Lemma failed_config_is_retried_witness : ∃ row',
  live nodesTable "o1" "n1" failed.2 = Some row' ∧
  (node_DesiredConfigVersion (nodeOf compiled.2) < node_DesiredConfigVersion row' ∨
   ∃ nextRetryAt, Z.abs (nextRetryAt - (1735689600000000000 + 15 * Second)) ≤ 500 ∧
     ∀ applied t, NodeAgentConfigBehind "o1" "n1" applied t failed.2 = (Ok (nextRetryAt <=? t), failed.2)).
Proof.
  destruct (failed_config_is_retried example_env "o1" "n1" (nodeOf compiled.2) (report "failed" 1 [inUse ["r1"]]) 1735689600000000000
    compiled.2 failed.2) as (row' & Hl & Hcase).
  - exact compiled_row.
  - apply (bool_decide_unpack _). vm_compute. exact I.
  - vm_compute. reflexivity.
  - vm_compute. reflexivity.
  - apply (bool_decide_unpack _). vm_compute. exact I.
  - vm_compute. reflexivity.
  - exists row'. split; [exact Hl|]. destruct Hcase as [Hgt|(next & Hn & _ & Hb)]; [left; exact Hgt|right; exists next; exact (conj Hn Hb)].
Defined.
End DeliveryExamples.
