(* ===== verification/ConfigSettlement.v ===== *)
(** * A delivered configuration settles

    A node that gets the configuration compiled for it and says that it
    applied it is up to date, and so are the deployments of the rules in it. *)

From S2P Require Import Prelude GoString GoInt GoSort GoTime Domain Agent ServiceErrors Records ValidatorBase NodeCoverage ConfigCompiler RuleInput TrafficLedger Authorizer Transaction Database RuleStore MonitorStore PresenceStore Layout StoreLayout ControlService RuleDeployment NodeConfig RuleService RuleInvariant NodeInvariant ExampleDatabase ConfigDelivery.
From coqutil Require Import Datatypes.RecordSetters.
Import TriangleBracketNotations.
#[local] Open Scope Z_scope.

(** No deployment status of the node is ahead of the version. *)
Definition not_ahead (org node : string) (version : Z) (db : database) : Prop :=
  ∀ ruleID d, t_rule_deployments (db_rules db) !! (org, ruleID, node) = Some d → dep_ConfigVersion d ≤ version.
Definition appliedAt (org node : string) (version : Z) (ruleID : string) (db : database) : Prop :=
  ∃ d, t_rule_deployments (db_rules db) !! (org, ruleID, node) = Some d ∧ dep_Status d = "APPLIED" ∧ dep_ConfigVersion d = version.

(** The database refuses no statement of the call. *)
Definition never_refuses (E : callEnv) : Prop := ∀ s s', env_refuse E s s' = None.
Lemma exec_runs E f db : never_refuses E → exec (env_refuse E) f db = Ok (tt, f db).
Proof. intros HE. unfold exec. by rewrite HE. Qed.

Section settlement.
Context `{UnicodeTables, UUIDHash, TT : TimestampColumn, CD : ConfigDigest}.
Implicit Types (org id : string) (db : database).

(** ** Deployments *)

Lemma upsertApplied_runs E org id version now n d db :
  never_refuses E → not_ahead org id version db →
  ∃ db', upsertDeployment E (λ old, version <? dep_ConfigVersion old) (appliedDeployment n org id version d now) db = Ok (tt, db') ∧
    db_nodes db' = db_nodes db ∧ not_ahead org id version db' ∧ appliedAt org id version (TrimSpace (appl_RuleID d)) db' ∧
    ∀ ruleID, appliedAt org id version ruleID db → appliedAt org id version ruleID db'.
Proof.
  intros HE Hn. unfold upsertDeployment. rewrite exec_runs by done. eexists. split; [done|]. split; [done|].
  set (key := deploymentKey _). change key with (org, TrimSpace (appl_RuleID d), id).
  assert (∃ row, dep_Status row = "APPLIED" ∧ dep_ConfigVersion row = version ∧
    match t_rule_deployments (db_rules db) !! (org, TrimSpace (appl_RuleID d), id) with
    | Some old => if version <? dep_ConfigVersion old then t_rule_deployments (db_rules db)
                  else <[(org, TrimSpace (appl_RuleID d), id) := (appliedDeployment n org id version d now) <| dep_ID := dep_ID old |>]>
                         (t_rule_deployments (db_rules db))
    | None => <[(org, TrimSpace (appl_RuleID d), id) := appliedDeployment n org id version d now]> (t_rule_deployments (db_rules db))
    end = <[(org, TrimSpace (appl_RuleID d), id) := row]> (t_rule_deployments (db_rules db))) as (row & Hs & Hv & Eq).
  { destruct (_ !! _) as [old|] eqn:Eo; [|by exists (appliedDeployment n org id version d now)]. apply Hn in Eo.
    destruct (Z.ltb_spec version (dep_ConfigVersion old)); [lia|].
    by exists ((appliedDeployment n org id version d now) <| dep_ID := dep_ID old |>). }
  unfold not_ahead, appliedAt. cbn [with_deployments with_rules db_rules t_rule_deployments]. rewrite Eq. split_and!.
  - intros ruleID x [[[= <-] <-]|[_ Hx]]%lookup_insert_Some; [lia|by eapply Hn].
  - exists row. by rewrite lookup_insert_eq.
  - intros ruleID (x & Hx & Hxs & Hxv). destruct (decide (ruleID = TrimSpace (appl_RuleID d))) as [->|Hne].
    + exists row. by rewrite lookup_insert_eq.
    + exists x. rewrite lookup_insert_ne by congruence. done.
Qed.

Lemma recordApplied_runs E org id version now ds : never_refuses E →
  ∀ seen db, not_ahead org id version db → (∀ r, r ∈ seen → appliedAt org id version r db) →
  ∃ db', recordApplied E org id version now seen ds db = Ok (tt, db') ∧ db_nodes db' = db_nodes db ∧
    (∀ r, appliedAt org id version r db → appliedAt org id version r db') ∧
    ∀ d, d ∈ ds → TrimSpace (appl_RuleID d) ≠ "" → appliedAt org id version (TrimSpace (appl_RuleID d)) db'.
Proof.
  intros HE. induction ds as [|d ds IH]; intros seen db Hn Hs.
  { exists db. split_and!; try done. by intros d ?%not_elem_of_nil. }
  cbn [recordApplied]. destruct (_ || _) eqn:Eb.
  - destruct (IH seen db Hn Hs) as (db' & Hrun & En & Hk & Hall). exists db'. split_and!; try done.
    intros x [->|Hx]%elem_of_cons Hne; [|by apply Hall]. apply orb_true_iff in Eb as [?%String.eqb_eq|Hin%bool_decide_eq_true]; [done|].
    by apply Hk, Hs.
  - destruct (upsertApplied_runs E org id version now (env_nextID E "rule_deployment" (length ds)) d db HE Hn)
      as (db1 & Hrun1 & En1 & Hn1 & Ha1 & Hk1).
    destruct (IH ({[TrimSpace (appl_RuleID d)]} ∪ seen) db1 Hn1) as (db' & Hrun & En & Hk & Hall).
    { intros r [->%elem_of_singleton|Hr]%elem_of_union; [done|by apply Hk1, Hs]. }
    exists db'. unfold mbind, tx_bind. rewrite Hrun1. split_and!; [done|congruence|by auto|].
    intros x [->|Hx]%elem_of_cons Hne; [by apply Hk|by apply Hall].
Qed.

(** ** The compiled rules are all rules *)

Definition fully_supported (pv : ProtocolVersion) : Prop :=
  agentSupportsManagedDataplane pv = true ∧ agentSupportsSendIP pv = true ∧ agentSupportsLeastLoadTargetGroups pv = true.

Lemma expand_nonempty r : ∃ x, x ∈ expandRulePortSegments r ∧ rule_ID x = rule_ID r.
Proof.
  rewrite expand_eq. destruct (flat_map _ _) as [|p ps]; [exists (rule_unsegmented r); split; [left|done]|].
  exists (rule_with_port r (runtimeRuleID r p) p). split; [left|done].
Qed.

Lemma compiled_ids input id :
  fully_supported (agentVersion input) →
  (∀ c, c ∈ in_Rules input → selected (in_NodeID input) (groupSet input) c = true ∧ executable c = true) →
  id ∈ map rule_ID (snap_Rules (compiledSnapshot configDigest input)) ↔ id ∈ map rule_ID (in_Rules input).
Proof.
  intros (H1 & H2 & H3) Hall. split.
  - intros (x & -> & Hx)%elem_of_map. apply compiled_origin in Hx as (c & Hc & _ & _ & ->). by apply list_elem_of_fmap_2.
  - intros (c & -> & Hc)%elem_of_map. destruct (expand_nonempty (normalizedRule c)) as (x & Hx & Ex).
    change (rule_ID (normalizedRule c)) with (rule_ID c) in Ex. rewrite <-Ex. apply list_elem_of_fmap_2.
    unfold compiledSnapshot. cbn [with_hash snap_Rules]. apply elem_of_map. exists x.
    unfold reduced. rewrite H1. split; [done|]. apply elem_of_filterb. unfold understood. rewrite H1, H2, H3. split; [|done].
    rewrite (sort_perm _ _). apply elem_of_flat_map. exists c. split; [|done].
    destruct (Hall c Hc) as [E1 E2]. apply elem_of_filterb. split; [done|]. by rewrite E1, E2.
Qed.

Lemma logicalRuleIDCount_eq l k : (∀ id, id ∈ map rule_ID l ↔ id ∈ map rule_ID k) → logicalRuleIDCount l = logicalRuleIDCount k.
Proof.
  intros Hlk. unfold logicalRuleIDCount. f_equal. apply set_eq. intros x. rewrite !elem_of_list_to_set, !elem_of_filterb. by rewrite Hlk.
Qed.

Lemma appliedRecords_ids resolved rules : ∀ seen x, x ∈ rules → rule_ID x ∉ seen →
  ∃ d, d ∈ appliedRecords resolved seen rules ∧ appl_RuleID d = rule_ID x.
Proof.
  induction rules as [|r l IH]; intros seen x; [by intros ?%not_elem_of_nil|]. intros [->|Hx]%elem_of_cons Hs; cbn [appliedRecords].
  - rewrite bool_decide_false by done. eexists. split; [left|done].
  - destruct (bool_decide_reflect (rule_ID r ∈ seen)); [by apply IH|].
    destruct (decide (rule_ID x = rule_ID r)) as [E|E].
    + rewrite E. eexists. split; [left|done].
    + destruct (IH ({[rule_ID r]} ∪ seen) x Hx) as (d & Hd & Ed).
      { intros [?%elem_of_singleton|?]%elem_of_union; done. }
      exists d. split; [by right|done].
Qed.

(** ** Acknowledgements of what was applied *)

Definition inputOf (org : string) (row : NodeRecord) (pv : ProtocolVersion) (known : bool) (db : database) : AgentConfigInput :=
  compilerInput (loadNodeDetails db row) pv known (ruleConfigsOf org (loadNodeDetails db row) db).

(** An agent that understands everything applies every rule of the node. *)
Lemma applied_complete org row pv known resolved db :
  fully_supported (agentVersion (inputOf org row pv known db)) →
  ruleDeploymentAppliedRecordsForNode org (loadNodeDetails db row) (rulesOf org db) pv known resolved db
  = Ok ((appliedRecords resolved ∅ (snap_Rules (compiledSnapshot configDigest (inputOf org row pv known db))), true), db).
Proof.
  intros Hs. unfold ruleDeploymentAppliedRecordsForNode, mbind, tx_bind. rewrite ruleConfigsForNode_ok.
  unfold pure. fold (inputOf org row pv known db). rewrite Compile_eq.
  assert (∀ c, c ∈ in_Rules (inputOf org row pv known db) →
    selected (in_NodeID (inputOf org row pv known db)) (groupSet (inputOf org row pv known db)) c = true ∧ executable c = true) as Hall.
  { intros c Hc. split; [exact (ruleConfig_selected org (loadNodeDetails db row) db c _ Hc)|].
    by apply (ruleConfigsOf_origin org (loadNodeDetails db row) db) in Hc as (? & _ & _ & _ & _ & _ & _ & _ & ?). }
  rewrite (proj2 (existsb_false _ _)).
  - unfold mret, tx_ret. do 3 f_equal. apply Nat.eqb_eq, logicalRuleIDCount_eq. intros x. by apply compiled_ids.
  - intros c Hc. destruct (Hall c Hc) as [_ He]. unfold executable in He. apply andb_true_iff in He as [_ He%bool_decide_eq_true].
    unfold untyped. rewrite !elem_of_cons in He. apply andb_false_iff. right. apply andb_false_iff. right.
    destruct He as [->|[->|?%not_elem_of_nil]]; reflexivity || done.
Qed.

Lemma RecordNodeConfigAck_runs E org id ack now row db :
  never_refuses E → live nodesTable org id db = Some row → node_AppliedConfigVersion row ≤ ack_ConfigVersion ack →
  ack_ConfigVersion ack = node_DesiredConfigVersion row → ack_Status ack = "APPLIED" →
  RecordNodeConfigAck E org id ack now db = Ok (tt, tbl_with nodesTable <[id := appliedNode ack now row]> db).
Proof.
  intros HE Hl Ha Hv Hs. unfold RecordNodeConfigAck, updateRowIfAny, reads, mbind, tx_bind. rewrite Hl, exec_runs by done.
  by rewrite (proj2 (Z.leb_le _ _) Ha), Hv, Z.leb_refl, Hs.
Qed.

Lemma acknowledgeApplied_runs E org id row input errorMessage nowTime db :
  never_refuses (E "") → live nodesTable org id db = Some row → node_AppliedConfigVersion row ≤ node_DesiredConfigVersion row →
  na_ConfigVersion input = node_DesiredConfigVersion row → not_ahead org id (node_DesiredConfigVersion row) db →
  let compilation := inputOf org row (na_ProtocolVersion input) (na_ProtocolKnown input) db in
  fully_supported (agentVersion compilation) →
  ∃ db', acknowledgeApplied E org id (loadNodeDetails db row) input errorMessage nowTime db = Ok (tt, db') ∧
    t_nodes (db_nodes db') = <[id := appliedNode (appliedAck (node_DesiredConfigVersion row) errorMessage (na_ConfigHash input))
                                       (FormatRFC3339Nano nowTime) row]> (t_nodes (db_nodes db)) ∧
    ∀ x, x ∈ snap_Rules (compiledSnapshot configDigest compilation) → TrimSpace (rule_ID x) ≠ "" →
      appliedAt org id (node_DesiredConfigVersion row) (TrimSpace (rule_ID x)) db'.
Proof.
  intros HE Hl Hle Hv Hn compilation Hs.
  set (db1 := tbl_with nodesTable <[id := appliedNode (appliedAck (node_DesiredConfigVersion row) errorMessage (na_ConfigHash input))
    (FormatRFC3339Nano nowTime) row]> db).
  destruct (recordApplied_runs (E "") org id (node_DesiredConfigVersion row) (FormatRFC3339Nano nowTime)
    (appliedRecords (na_ResolvedDataplanes input) ∅ (snap_Rules (compiledSnapshot configDigest compilation))) HE ∅ db1)
    as (db' & Hrun & En & _ & Hall); [exact Hn|by intros r ?%not_elem_of_empty|].
  exists db'. split_and!.
  - unfold acknowledgeApplied, ListRulesByOrganization, mbind, tx_bind. rewrite Hv. unfold reads at 1.
    rewrite applied_complete by done. cbv iota zeta. rewrite (RecordNodeConfigAck_runs _ _ _ _ _ row) by done.
    change (node_DesiredConfigVersion (loadNodeDetails db row)) with (node_DesiredConfigVersion row). rewrite Z.eqb_refl.
    cbn [negb andb]. rewrite andb_false_r. exact Hrun.
  - by rewrite En.
  - intros x Hx Hne. destruct (appliedRecords_ids (na_ResolvedDataplanes input) _ ∅ x Hx) as (d & Hd & Ed); [by apply not_elem_of_empty|].
    rewrite <-Ed in *. by apply Hall.
Qed.

(** A node that says that it applied the version it should have. *)
Lemma applied_is_settled E org id row input nowTime db :
  ToUpper (TrimSpace (na_Status input)) = "APPLIED" →
  never_refuses (E "") → live nodesTable org id db = Some row → node_AppliedConfigVersion row ≤ node_DesiredConfigVersion row →
  na_ConfigVersion input = node_DesiredConfigVersion row → not_ahead org id (node_DesiredConfigVersion row) db →
  let compilation := inputOf org row (na_ProtocolVersion input) (na_ProtocolKnown input) db in
  fully_supported (agentVersion compilation) →
  ∃ db' row', AcknowledgeNodeAgentConfigForAgentProtocol E org id input nowTime db = (Ok tt, db') ∧
    live nodesTable org id db' = Some row' ∧ node_ConfigStatus row' = "APPLIED" ∧ node_ConfigErrorMessage row' = "" ∧
    node_AppliedConfigVersion row' = node_DesiredConfigVersion row ∧ node_DesiredConfigVersion row' = node_DesiredConfigVersion row ∧
    ∀ x, x ∈ snap_Rules (compiledSnapshot configDigest compilation) → TrimSpace (rule_ID x) ≠ "" →
      appliedAt org id (node_DesiredConfigVersion row) (TrimSpace (rule_ID x)) db'.
Proof.
  intros Hst HE Hl Hle Hv Hn compilation Hs.
  destruct (acknowledgeApplied_runs E org id row input (truncateString (TrimSpace (na_ErrorMessage input)) 1000) nowTime db HE Hl Hle Hv Hn Hs)
    as (db' & Hrun & En & Hall).
  set (row' := appliedNode _ _ _) in En. destruct (proj1 (findRow_some _ _ _ _ _ _) Hl) as (_ & Ho & Hdel).
  exists db', row'. split_and!; try done.
  - unfold AcknowledgeNodeAgentConfigForAgentProtocol. rewrite Hst. change (String.eqb "APPLIED" "APPLIED") with true. cbn [negb andb].
    unfold serve, WithinTx, acknowledge, FindNodeByID, reads, mbind, tx_bind. rewrite Hl. cbn [fmap option_fmap option_map found mret].
    unfold mret, tx_ret. by rewrite Hrun.
  - apply findRow_some. change (tbl_rows nodesTable db') with (t_nodes (db_nodes db')). by rewrite En, lookup_insert_eq.
  - change ((if node_DesiredConfigVersion row <=? node_DesiredConfigVersion row then "APPLIED" else "PENDING") = "APPLIED").
    by rewrite Z.leb_refl.
Qed.

Lemma settled_not_behind org id row applied t db :
  live nodesTable org id db = Some row → node_ConfigStatus row = "APPLIED" → node_DesiredConfigVersion row ≤ applied →
  NodeAgentConfigBehind org id applied t db = (Ok false, db).
Proof.
  intros Hl Hs Ha. rewrite (Behind_live _ _ row) by done. do 2 f_equal. unfold configBehind, nodeConfigBackoffActive.
  change (node_ConfigStatus (loadNodeDetails db row)) with (node_ConfigStatus row). rewrite Hs.
  cbn. rewrite orb_false_r. by apply Z.ltb_ge.
Qed.

(** What a compilation leaves: the node wants the version of the configuration, and a compilation right after it
    compiles the same. *)
Lemma compiled_node E org id pv known config db0 db :
  CompileNodeAgentConfigForAgentProtocol E org id pv known db0 = (Ok config, db) →
  ∃ row, live nodesTable org id db = Some row ∧ node_DesiredConfigVersion row = snap_ConfigVersion config ∧
    snap_Rules config = snap_Rules (compiledSnapshot configDigest (inputOf org row pv known db)).
Proof.
  intros Hc%serve_ok. apply compileNode_ok in Hc as (row & compiled & l & Hl & Hcomp & -> & -> & _).
  rewrite Compile_eq in Hcomp. destruct (existsb _ _); [done|].
  assert (compiledSnapshot configDigest (inputOf org row pv known db0) = compiled) as Hcompiled by (unfold inputOf; congruence).
  set (target := targetVersion _ _ _ _). exists (compiledNode target (env_now E) row).
  assert (node_DesiredConfigVersion row ≤ target ∧ snap_ConfigVersion compiled ≤ target) as (Hd & Hv).
  { unfold target, targetVersion. rewrite !maxZ_spec.
    change (node_DesiredConfigVersion (loadNodeDetails db0 row)) with (node_DesiredConfigVersion row). lia. }
  rewrite raised_version, compiledNode_desired, snap_Rules_raised by done. split_and!; [by apply compiled_live|done|].
  rewrite <-Hcompiled. do 2 f_equal. unfold compiledNode. by destruct (_ <? _).
Qed.

(** C8. Delivery ends: when a node that understands every kind of rule gets the configuration compiled for it and
    then reports that it applied it, the acknowledgement succeeds (in a database that works), the node is up to date
    and without error at exactly that version, it is not behind any more, and the deployment status of every rule of
    the configuration is APPLIED at that version. *)
Theorem delivered_config_is_settled E E' org id pv known config input nowTime db0 db :
  CompileNodeAgentConfigForAgentProtocol E org id pv known db0 = (Ok config, db) →
  fully_supported (if known then pv else {| Major := 0; Minor := 0 |}) →
  ToUpper (TrimSpace (na_Status input)) = "APPLIED" → na_ConfigVersion input = snap_ConfigVersion config →
  na_ProtocolVersion input = pv → na_ProtocolKnown input = known → never_refuses (E' "") →
  (∀ row, live nodesTable org id db = Some row → node_AppliedConfigVersion row ≤ node_DesiredConfigVersion row) →
  not_ahead org id (snap_ConfigVersion config) db →
  ∃ db' row, AcknowledgeNodeAgentConfigForAgentProtocol E' org id input nowTime db = (Ok tt, db') ∧
    live nodesTable org id db' = Some row ∧
    node_ConfigStatus row = "APPLIED" ∧ node_ConfigErrorMessage row = "" ∧
    node_AppliedConfigVersion row = snap_ConfigVersion config ∧ node_DesiredConfigVersion row = snap_ConfigVersion config ∧
    (∀ applied t, snap_ConfigVersion config ≤ applied → NodeAgentConfigBehind org id applied t db' = (Ok false, db')) ∧
    ∀ x, x ∈ snap_Rules config → TrimSpace (rule_ID x) ≠ "" →
      appliedAt org id (snap_ConfigVersion config) (TrimSpace (rule_ID x)) db'.
Proof.
  intros Hc Hs Hst Hv <- <- HE Hle Hn. apply compiled_node in Hc as (row & Hl & Hd & ->). rewrite <-Hd in *.
  destruct (applied_is_settled E' org id row input nowTime db Hst HE Hl (Hle row Hl) Hv Hn Hs)
    as (db' & row' & Hrun & Hl' & Hst' & Her & Ha & Hd' & Hall).
  exists db', row'. split_and!; try done. intros applied t Ht. apply (settled_not_behind _ _ row'); [done..|lia].
Qed.
End settlement.

(** ** Evaluations *)

Module SettlementExamples.
Import DeliveryExamples.

Definition applied : result serviceError () * database :=
  AcknowledgeNodeAgentConfigForAgentProtocol example_env "o1" "n1" (report "applied" 1 []) 1735689600000000000 compiled.2.

Lemma delivered_config_is_settled_witness : ∃ db' row,
  AcknowledgeNodeAgentConfigForAgentProtocol example_env "o1" "n1" (report "applied" 1 []) 1735689600000000000 compiled.2 = (Ok tt, db') ∧
  live nodesTable "o1" "n1" db' = Some row ∧ node_AppliedConfigVersion row = 1 ∧
  NodeAgentConfigBehind "o1" "n1" 1 1735689600000000000 db' = (Ok false, db') ∧ appliedAt "o1" "n1" 1 "r1" db'.
Proof.
  destruct (delivered_config_is_settled (example_env "c1") example_env "o1" "n1" CurrentProtocolVersion true compiled_config
    (report "applied" 1 []) 1735689600000000000 with_rule compiled.2) as (db' & row & Hrun & Hl & _ & _ & Ha & _ & Hb & Hall).
  - exact compiled_ok.
  - vm_compute. auto.
  - vm_compute. reflexivity.
  - vm_compute. reflexivity.
  - reflexivity.
  - reflexivity.
  - intros s s'. reflexivity.
  - intros row Hl. rewrite compiled_row in Hl. apply (inj Some) in Hl as <-. apply (bool_decide_unpack _). vm_compute. exact I.
  - intros ruleID d Hd. revert ruleID d Hd.
    assert (map_Forall (λ _ d, dep_ConfigVersion d ≤ snap_ConfigVersion compiled_config) (t_rule_deployments (db_rules compiled.2)))
      as Hall by (apply (bool_decide_unpack _); vm_compute; exact I).
    intros ruleID d Hd. exact (Hall _ d Hd).
  - assert (∃ x, x ∈ snap_Rules compiled_config ∧ rule_ID x = "r1") as (x & Hx & Ex).
    { eexists. split; [vm_compute; left|reflexivity]. }
    specialize (Hall x Hx). rewrite Ex in Hall.
    assert (snap_ConfigVersion compiled_config = 1) as Ev by (vm_compute; reflexivity). rewrite Ev in Ha, Hb, Hall.
    exists db', row. refine (conj Hrun (conj Hl (conj Ha (conj (Hb 1 _ _) (Hall _))))); [apply Z.le_refl|vm_compute; discriminate].
Defined.

(** Two rules that are to be disabled when no node can run them; the second is
    made before the node applied the first. *)
Definition policied (name : string) (port : Z) : RuleMutationInput :=
  (example_input name port port) <| mi_FailurePolicy := "DISABLE_WHEN_ALL_NODES_FAILED" |>.
Definition two_rules : database :=
  (CreateRule (example_env "r2") example_identity (policied "two" 81)
    (CreateRule (example_env "r1") example_identity (policied "one" 80) example_database).2).2.
Definition undeliverable : result serviceError ConfigSnapshot * database :=
  CompileNodeAgentConfigForAgentProtocol (example_env "c1") "o1" "n1" CurrentProtocolVersion true two_rules.
(** The only node reports that it cannot run a rule of the version that it should have. *)
Definition afterFailureOf (rule : string) : result serviceError () * database :=
  AcknowledgeNodeAgentConfigForAgentProtocol example_env "o1" "n1" (report "FAILED" 2 [inUse [rule]]) 1735689600000000000
    undeliverable.2.
Definition ruleState (rule : string) (db : database) : option (bool * Z * string) :=
  r ← live rulesTable "o1" rule db;
  d ← t_rule_deployments (db_rules db) !! ("o1", rule, "n1");
  Some (rrec_Enabled r, dep_ConfigVersion d, dep_Status d).

End SettlementExamples.
