(* ===== verification/ConfigLayout.v ===== *)
(** * From the layout to the plan of the agent

    The control plane admits rules by the layout of the organization; the
    agent of a node plans backends and listeners for the rules that were
    compiled from it.  Whatever the layout admits, the agent finds no two
    rules that want the same traffic: the checks on the two sides agree, up to
    the backends that rules on one listener prefer. *)

From S2P Require Import Prelude GoString GoInt GoSort GoNet Domain Agent ServiceErrors Records ValidatorBase NodeCoverage ConfigCompiler DataplanePlan RuleInput TrafficLedger Authorizer Transaction Database RuleStore MonitorStore PresenceStore Layout StoreLayout ControlService RuleDeployment NodeConfig RuleService RuleInvariant NodeInvariant ExampleDatabase ConfigDelivery ConfigSettlement.
From coqutil Require Import Datatypes.RecordSetters.
Import TriangleBracketNotations.
Import Domain.Rules.
#[local] Open Scope Z_scope.

(** ** Lists with keys *)

Lemma NoDup_omap_key {A B C} (f : A → option B) (ka : A → C) (kb : B → C) l :
  (∀ a b, f a = Some b → kb b = ka a) → NoDup (map ka l) → NoDup (map kb (omap f l)).
Proof.
  intros Hf. induction l as [|a l IH]; cbn; [constructor|]. intros [Ha Hl]%NoDup_cons.
  destruct (f a) as [b|] eqn:E; [|by apply IH]. cbn. apply NoDup_cons. split; [|by apply IH].
  intros (b' & Eb & Hb)%elem_of_map. apply list_elem_of_omap in Hb as (a' & Ha' & E').
  apply Ha. rewrite <-(Hf _ _ E), Eb, (Hf _ _ E'). by apply list_elem_of_fmap_2.
Qed.
Lemma NoDup_map_filterb {A C} (f : A → bool) (k : A → C) l : NoDup (map k l) → NoDup (map k (List.filter f l)).
Proof.
  induction l as [|a l IH]; cbn; [done|]. intros [Ha Hl]%NoDup_cons. destruct (f a); [|by apply IH]. cbn.
  apply NoDup_cons. split; [|by apply IH]. intros (b & E & [Hb _]%elem_of_filterb)%elem_of_map. apply Ha. rewrite E. by apply list_elem_of_fmap_2.
Qed.
Lemma NoDup_flat_map_key {A B K L} (f : A → list B) (ka : A → K) (kb : B → K * L) l :
  (∀ a b, a ∈ l → b ∈ f a → (kb b).1 = ka a) → (∀ a, a ∈ l → NoDup (map kb (f a))) → NoDup (map ka l) →
  NoDup (map kb (flat_map f l)).
Proof.
  induction l as [|a l IH]; cbn; intros Hk Hf; [constructor|]. intros [Ha Hl]%NoDup_cons. rewrite map_app. apply NoDup_app.
  split_and!.
  - apply Hf. left.
  - intros k (b & -> & Hb)%elem_of_map (b' & E & Hb')%elem_of_map. apply elem_of_flat_map in Hb' as (a' & Ha' & Hb').
    apply Ha. rewrite <-(Hk a b) by (done || left). rewrite E, (Hk a' b') by (done || by right). by apply list_elem_of_fmap_2.
  - apply IH; [|intros; apply Hf; by right|done]. intros a' b Ha' Hb. apply Hk; [by right|done].
Qed.
(** Elements with distinct keys are pairwise related when elements with different keys are. *)
Lemma pairs_distinct {A K} (k : A → K) (R : A → A → Prop) l :
  NoDup (map k l) → (∀ x y, x ∈ l → y ∈ l → k x ≠ k y → R x y) → StronglySorted R l.
Proof.
  induction l as [|a l IH]; cbn; [constructor|]. intros [Ha Hl]%NoDup_cons HR. apply pairs_cons. split.
  - intros y Hy. apply HR; [left|by right|]. intros E. apply Ha. rewrite E. by apply list_elem_of_fmap_2.
  - apply IH; [done|]. intros x y Hx Hy. apply HR; by right.
Qed.

(** ** Ports of disjoint segments *)

Lemma in_range_pairs segments :
  Forall valid_pair (segmentPairs segments) → ∀ s, s ∈ toAgentPortSegments segments → seg_in_range s.
Proof.
  intros Hv s (b & -> & Hb)%elem_of_map. rewrite Forall_forall in Hv.
  destruct (Hv (bseg_StartPort b, bseg_EndPort b)) as [H1 H2]; [by apply (list_elem_of_fmap_2 (λ s, (bseg_StartPort s, bseg_EndPort s)))|].
  unfold seg_in_range. cbn in *. lia.
Qed.
Lemma segments_nodup segments :
  Forall valid_pair (segmentPairs segments) → StronglySorted (λ x y, x.2 < y.1) (segmentPairs segments) →
  NoDup (flat_map segmentPorts (toAgentPortSegments segments)).
Proof.
  intros Hv. pose proof (in_range_pairs segments Hv) as Hr. clear Hv. revert Hr.
  induction segments as [|s l IH]; cbn; [constructor|]. intros Hr [Hl Hall]%StronglySorted_inv. apply NoDup_app. split_and!.
  - rewrite segmentPorts_range by (apply Hr; left). apply NoDup_seqZ.
  - intros p Hp%elem_of_segmentPorts (t & Ht & Hq)%elem_of_flat_map; [|apply Hr; left].
    apply elem_of_segmentPorts in Hq; [|apply Hr; by right]. apply elem_of_map in Ht as (b & -> & Hb). rewrite Forall_forall in Hall.
    specialize (Hall (bseg_StartPort b, bseg_EndPort b) (list_elem_of_fmap_2 (λ s, (bseg_StartPort s, bseg_EndPort s)) _ _ Hb)).
    cbn in *. lia.
  - apply IH; [|done]. intros t Ht. apply Hr. by right.
Qed.

Section layout.
Context `{UnicodeTables, UUIDHash, HT : HashedTexts, TT : TimestampColumn, CD : ConfigDigest}.

(** ** The rules of a database *)

Lemma NoDup_rulesOf org db : well_named db → NoDup (map rrec_ID (rulesOf org db)).
Proof.
  intros Hn. apply (NoDup_omap_key _ rrec_ID rrec_ID).
  - intros row r (b & _ & ->)%loadRule_some. done.
  - change (NoDup (rrec_ID <$> sort_stable (text2 rrec_Name rrec_ID) (lives rulesTable org db))).
    rewrite sort_perm. apply (NoDup_lives rulesTable rrec_ID org db), (wn_rules _ Hn).
Qed.
Lemma rule_content org db r : well_named db → r ∈ rulesOf org db → valid_content (contentOf (rrec_Binding r)).
Proof.
  intros Hn (id & row & _ & (b & Hb & ->)%loadRule_some)%elem_of_rulesOf. cbn [rrec_Binding].
  unfold bindingAt in Hb. destruct (_ !! _) as [b0|] eqn:E; [|done]. apply (inj Some) in Hb as <-.
  by destruct (wn_bindings _ Hn _ _ _ E) as (_ & _ & _ & _ & ?).
Qed.

(** ** Where compiled rules listen *)

Lemma toRuleConfig_listens targets groups r c :
  toRuleConfig targets groups r = Some c →
  rule_Protocol c = rrec_Protocol r ∧ rule_ListenIP c = bind_ListenIP (rrec_Binding r) ∧ rule_MatchType c = rrec_MatchType r ∧
  rule_SNIHostname c = rrec_SNIHostname r ∧ rule_ProxyProtocolIn c = rrec_ProxyProtocolIn r ∧
  rule_PortSegments c = toAgentPortSegments (rulePortSegments (rrec_Binding r)).
Proof.
  unfold toRuleConfig. destruct (negb _); [done|]. destruct (upstreamConfig _ _ _); [|done]. by intros [= <-].
Qed.

(** [x] is [r] on one of its ports. *)
Record serves (r : RuleRecord) (x : RuleConfig) : Prop := {
  sv_ID : rule_ID x = rrec_ID r;
  sv_Protocol : rule_Protocol x = rrec_Protocol r;
  sv_ListenIP : rule_ListenIP x = bind_ListenIP (rrec_Binding r);
  sv_MatchType : rule_MatchType x = rrec_MatchType r;
  sv_SNI : rule_SNIHostname x = rrec_SNIHostname r;
  sv_Proxy : rule_ProxyProtocolIn x = rrec_ProxyProtocolIn r;
  sv_Port : ∃ seg, seg ∈ pl_Segments (placement_of r) ∧ seg.1 ≤ rule_Port x ≤ seg.2 }.

Lemma expand_ports r x :
  (∃ s, s ∈ rule_PortSegments r) → (∀ s, s ∈ rule_PortSegments r → seg_in_range s) → x ∈ expandRulePortSegments r →
  ∃ s, s ∈ rule_PortSegments r ∧ seg_StartPort s ≤ rule_Port x ≤ seg_EndPort s.
Proof.
  intros (s0 & Hs0) Hr Hx. rewrite expand_eq in Hx. destruct (flat_map _ _) as [|p ps] eqn:E.
  - exfalso. apply (not_elem_of_nil (seg_StartPort s0)). rewrite <-E. apply elem_of_flat_map. exists s0. split; [done|].
    specialize (Hr _ Hs0). apply elem_of_segmentPorts; [done|]. unfold seg_in_range in Hr. lia.
  - apply elem_of_map in Hx as (q & -> & Hq). rewrite <-E in Hq. apply elem_of_flat_map in Hq as (s & Hs & Hq).
    exists s. split; [done|]. apply elem_of_segmentPorts in Hq; [done|by apply Hr].
Qed.

Lemma rulePortSegments_some b : ∃ s, s ∈ toAgentPortSegments (rulePortSegments b).
Proof. unfold rulePortSegments. destruct (bind_PortSegments b); eexists; left. Qed.

Lemma compiled_serves org row pv known db x :
  well_named db → x ∈ snap_Rules (compiledSnapshot configDigest (inputOf org row pv known db)) →
  ∃ r, r ∈ executableRulesForNode (loadNodeDetails db row) (rulesOf org db) ∧ serves r x.
Proof.
  intros Hn. unfold compiledSnapshot. cbn [with_hash snap_Rules].
  intros (y & -> & [Hy _]%elem_of_filterb)%elem_of_map. rewrite (sort_perm _ _) in Hy. unfold placed in Hy.
  apply elem_of_flat_map in Hy as (c & [Hc _]%elem_of_filterb & Hy).
  apply list_elem_of_omap in Hc as (r & Hr & Hc). exists r. split; [done|].
  pose proof (toRuleConfig_some _ _ _ _ Hc) as (Eid & _). apply toRuleConfig_listens in Hc as (E1 & E2 & E3 & E4 & E5 & E6).
  apply elem_of_filterb in Hr as [Hr _]. destruct (rule_content _ _ _ Hn Hr) as [_ _ _ Hv _].
  assert (∃ s, s ∈ toAgentPortSegments (rulePortSegments (rrec_Binding r)) ∧ seg_StartPort s ≤ rule_Port y ≤ seg_EndPort s)
    as (s & Hs & Hp).
  { rewrite <-E6. apply (expand_ports (normalizedRule c)); [| |done]; change (rule_PortSegments (normalizedRule c)) with (rule_PortSegments c);
      rewrite E6; [apply rulePortSegments_some|by apply in_range_pairs]. }
  pose proof (expand_elem _ _ Hy) as Ey.
  assert (∀ (f : RuleConfig → string), f = rule_ID ∨ f = rule_Protocol ∨ f = rule_ListenIP ∨ f = rule_MatchType ∨ f = rule_SNIHostname
    ∨ f = rule_ProxyProtocolIn → f (reduced (agentVersion (inputOf org row pv known db)) y) = f c) as Hf.
  { intros f Ef. unfold reduced. rewrite Ey. destruct (agentSupportsManagedDataplane _); destruct_or! Ef; by subst. }
  split; try (rewrite Hf by tauto; done).
  apply elem_of_map in Hs as (b & -> & Hb). exists (bseg_StartPort b, bseg_EndPort b). split.
  - unfold placement_of, place. cbn [pl_Segments]. apply elem_of_segments. by exists b.
  - unfold reduced. by destruct (agentSupportsManagedDataplane _).
Qed.

Definition ruleKey (x : RuleConfig) : string * Z := (rule_ID x, rule_Port x).

Lemma NoDup_compiled org row pv known db :
  well_named db → NoDup (map ruleKey (snap_Rules (compiledSnapshot configDigest (inputOf org row pv known db)))).
Proof.
  intros Hn. unfold compiledSnapshot. cbn [with_hash snap_Rules].
  assert (∀ l, map ruleKey (map (reduced (agentVersion (inputOf org row pv known db))) l) = map ruleKey l) as ->.
  { intros l. rewrite map_map. apply map_ext. intros x. unfold reduced. by destruct (agentSupportsManagedDataplane _). }
  apply NoDup_map_filterb. change (map ruleKey) with (fmap (M:=list) ruleKey). rewrite (sort_perm _ _). unfold placed.
  apply (NoDup_flat_map_key _ rule_ID).
  - intros c x _ Hx. apply expand_elem in Hx. by rewrite Hx.
  - intros c [Hc _]%elem_of_filterb. apply list_elem_of_omap in Hc as (r & [Hr _]%elem_of_filterb & Hc).
    destruct (rule_content _ _ _ Hn Hr) as [_ _ _ Hv Hs]. apply toRuleConfig_listens in Hc as (_ & _ & _ & _ & _ & E).
    pose proof (segments_nodup _ Hv Hs) as Hnd. rewrite <-E in Hnd.
    rewrite expand_eq. change (rule_PortSegments (normalizedRule c)) with (rule_PortSegments c).
    destruct (flat_map _ _) as [|p ps]; [apply NoDup_singleton|]. rewrite map_map.
    revert Hnd. apply NoDup_fmap_2. by intros p1 p2 [= ?].
  - apply NoDup_map_filterb. eapply (NoDup_omap_key _ rrec_ID rule_ID); [|by apply NoDup_map_filterb, NoDup_rulesOf].
    intros r c Hc. by apply toRuleConfig_some in Hc as (? & _).
Qed.

(** ** The two notions of meeting *)

Lemma wildcard_normalized ip : ParseIP (Trim (DataplanePlan.normalizeListenIP ip) "[]") = ParseIP (normalizeListenIPValue ip) ∨
  isWildcardListenIP (normalizeListenIPValue ip) = true.
Proof.
  unfold DataplanePlan.normalizeListenIP, normalizeListenIPValue.
  destruct (String.eqb_spec (TrimSpace ip) "") as [->|]; [by right|by left].
Qed.

(** Addresses that the agent takes to overlap do so for the control plane. *)
Lemma overlap_admitted left right :
  DataplanePlan.listenIPsOverlap left right = true → Rules.listenIPsOverlap left right = true.
Proof.
  unfold DataplanePlan.listenIPsOverlap, Rules.listenIPsOverlap. cbv zeta.
  destruct (isWildcardListenIP (normalizeListenIPValue left)) eqn:El;
    [intros _; by destruct (String.eqb (normalizeListenIPValue left) _)|].
  destruct (isWildcardListenIP (normalizeListenIPValue right)) eqn:Er;
    [intros _; by destruct (String.eqb (normalizeListenIPValue left) _)|].
  destruct (String.eqb_spec (DataplanePlan.normalizeListenIP left) (DataplanePlan.normalizeListenIP right)) as [E|_].
  - intros _. unfold DataplanePlan.normalizeListenIP in E. unfold normalizeListenIPValue in *.
    destruct (String.eqb_spec (TrimSpace left) "") as [Hl|_]; [by rewrite Hl in El|].
    destruct (String.eqb_spec (TrimSpace right) "") as [Hr|_]; [by rewrite Hr in Er|]. by rewrite E, String.eqb_refl.
  - destruct (wildcard_normalized left) as [->|?]; [|congruence]. destruct (wildcard_normalized right) as [->|?]; [|congruence].
    unfold isWildcardListenIP in El, Er.
    destruct (String.eqb _ "") in El; [done|]. destruct (String.eqb _ "") in Er; [done|].
    destruct (ParseIP (normalizeListenIPValue left)); [|done]. destruct (ParseIP (normalizeListenIPValue right)); [|done].
    rewrite El, Er. by destruct (negb _).
Qed.

Lemma normalized_twice ip : normalizeListenIPValue (DataplanePlan.normalizeListenIP ip) = normalizeListenIPValue ip ∨
  isWildcardListenIP (normalizeListenIPValue ip) = true.
Proof.
  unfold DataplanePlan.normalizeListenIP, normalizeListenIPValue.
  destruct (String.eqb_spec (TrimSpace ip) "") as [->|]; [by right|left]. by rewrite TrimSpace_idemp.
Qed.
Lemma if_true (b c : bool) : (if b then true else true || c) = true.
Proof. by destruct b. Qed.
Lemma keys_overlap_admitted left right :
  DataplanePlan.listenIPsOverlap (DataplanePlan.normalizeListenIP left) (DataplanePlan.normalizeListenIP right) = true →
  Rules.listenIPsOverlap left right = true.
Proof.
  intros Ho%overlap_admitted. unfold Rules.listenIPsOverlap in *. cbv zeta in *.
  destruct (normalized_twice left) as [E|Hw]; [rewrite E in Ho|by rewrite Hw, if_true].
  destruct (normalized_twice right) as [E'|Hw]; [by rewrite E' in Ho|]. rewrite Hw, orb_comm. apply if_true.
Qed.

Lemma key_of_rule k x : k ∈ listenerKeysForRule x →
  dp_protocol k ∈ sockets (rule_Protocol x) ∧ dp_listenIP k = DataplanePlan.normalizeListenIP (rule_ListenIP x) ∧ dp_port k = rule_Port x.
Proof.
  unfold listenerKeysForRule, sockets, ProtocolTCPUDP. cbv zeta. destruct (String.eqb (rule_Protocol x) "TCP_UDP").
  - intros [->|[->|[]%elem_of_nil]%elem_of_cons]%elem_of_cons; (split; [|done]); [left|right; left].
  - intros ->%list_elem_of_singleton. split; [left|done].
Qed.

(** *** Rules that the layout keeps apart *)

(** How the services write rules. *)
Record spelled (r : RuleRecord) : Prop := {
  sp_status : rrec_Status r = "ENABLED";
  sp_ascii : is_ascii (rrec_SNIHostname r) = true;
  sp_trimmed : TrimSpace (rrec_SNIHostname r) = rrec_SNIHostname r;
  sp_proxy : rrec_ProxyProtocolIn r ∈ ["NONE"; "V1"; "V2"] }.

Lemma proxy_spelled v w : v ∈ ["NONE"; "V1"; "V2"] → w ∈ ["NONE"; "V1"; "V2"] →
  normalizeProxyProtocol v = normalizeProxyProtocol w → v = w.
Proof.
  rewrite !elem_of_cons, !elem_of_nil. intros [->|[->|[->|[]]]] [->|[->|[->|[]]]]; try done; intros E; vm_compute in E; discriminate E.
Qed.
Lemma sni_spelled r1 r2 : spelled r1 → spelled r2 →
  EqualFold (rrec_SNIHostname r1) (rrec_SNIHostname r2) = false → lowerTrim (rrec_SNIHostname r1) ≠ lowerTrim (rrec_SNIHostname r2).
Proof.
  intros [_ Ha Ht _] [_ Ha' Ht' _]. unfold lowerTrim, EqualFold, ToLower. rewrite Ht, Ht', Ha, Ha'. cbn [andb].
  by intros ?%String.eqb_neq.
Qed.

Lemma segment_claims org db r seg port n :
  well_named db → r ∈ rulesOf org db → seg ∈ pl_Segments (placement_of r) → seg.1 ≤ port ≤ seg.2 →
  claims_port (boundAt n (placement_of r) seg) port.
Proof.
  intros Hn Hr Hs Hp. destruct (rule_content _ _ _ Hn Hr) as [_ _ _ Hv _]. rewrite Forall_forall in Hv.
  assert (valid_pair seg) as [H1 H2] by (apply Hv; apply elem_of_list_to_set in Hs; exact Hs).
  unfold claims_port, normalizedBindingPorts. cbn. destruct (Z.eqb_spec seg.1 0), (Z.eqb_spec seg.2 0); cbn; lia.
Qed.

(** Two rules that meet on a listener of the node share it by their server names. *)
Lemma meeting_rules_share org id row db r1 r2 x1 x2 k1 k2 :
  consistent db → live nodesTable org id db = Some row →
  r1 ∈ executableRulesForNode (loadNodeDetails db row) (rulesOf org db) → spelled r1 → serves r1 x1 →
  r2 ∈ executableRulesForNode (loadNodeDetails db row) (rulesOf org db) → spelled r2 → serves r2 x2 →
  rrec_ID r1 ≠ rrec_ID r2 → k1 ∈ listenerKeysForRule x1 → k2 ∈ listenerKeysForRule x2 → listenerKeysOverlap k1 k2 = true →
  may_share (boundAt "" (placement_of r1) (0, 0)) (boundAt "" (placement_of r2) (0, 0)).
Proof.
  intros [Hn Hd] Hl [Hr1 [He1 Hg1]%andb_true_iff]%elem_of_filterb Hsp1 S1 [Hr2 [He2 Hg2]%andb_true_iff]%elem_of_filterb Hsp2 S2 Hne.
  intros (Hk1 & Ei1 & Ep1)%key_of_rule (Hk2 & Ei2 & Ep2)%key_of_rule Ho. unfold listenerKeysOverlap in Ho.
  apply andb_true_iff in Ho as [[Epr%String.eqb_eq Epo%Z.eqb_eq]%andb_true_iff Hip]. rewrite Ei1, Ei2 in Hip. apply keys_overlap_admitted in Hip.
  apply bool_decide_eq_true, elem_of_list_to_set in Hg1, Hg2.
  destruct S1 as [_ P1 I1 _ _ _ (s1 & Hs1 & Hp1)], S2 as [_ P2 I2 _ _ _ (s2 & Hs2 & Hp2)].
  assert (∀ r, r ∈ rulesOf org db → rrec_Enabled r = true → spelled r → placement_of r ∈ pls org db) as Hpl.
  { intros r Hr He [Hs _ _ _]. apply list_elem_of_fmap_2, elem_of_filterb. split; [done|]. unfold isEnabledRule. by rewrite He, Hs. }
  refine (proj2 (Hd org) (placement_of r1) (placement_of r2) (Hpl _ Hr1 He1 Hsp1) (Hpl _ Hr2 He2 Hsp2) Hne _ s1 s2 Hs1 Hs2 _).
  - exists (capacity_of (loadNodeDetails db row)). split_and!; [apply elem_of_caps; by exists id, row| |]; by apply elem_of_list_to_set.
  - apply share_socket_sameEndpoint. split_and!; [done| | |exists (rule_Port x1); split].
    + cbn. by rewrite <-I1, <-I2.
    + exists (dp_protocol k1). cbn. rewrite <-P1, <-P2. split; [done|by rewrite Epr].
    + by eapply segment_claims.
    + eapply segment_claims; [done..|]. lia.
Qed.

(** ** Plans *)

(** A plan succeeds exactly when there is an assignment of backends without conflict. *)
Lemma planSnapshot_iff mode snapshot :
  (∃ p, planSnapshot mode snapshot = Ok p) ↔
  ∃ l, map planned_rule l = snap_Rules snapshot ∧
    (∀ e, e ∈ l → DataplanePlan.assigned (nodeModeOf mode snapshot) (planned_rule e) (planned_dataplane e)) ∧ StronglySorted no_conflict l.
Proof.
  unfold planSnapshot. cbv zeta. set (nm := nodeModeOf mode snapshot).
  pose proof (plan_loop nm (snap_Rules snapshot)) as Hloop.
  destruct (foldl (planStep nm) (emptyPlan, []) (snap_Rules snapshot)) as [p details]. destruct Hloop as [Ha _ Hall Herr].
  cbn [fst snd] in *. pose proof (detectListenerConflicts_nil (plan_planned p)) as Hc. split.
  - intros (q & Hq). destruct details as [|d ds]; [|done]. destruct (detectListenerConflicts (plan_planned p)); [|done].
    exists (plan_planned p). split_and!; [by apply Hall|done|by apply Hc].
  - intros (l & El & Hl & Hs). assert (details = []) as ->.
    { destruct details as [|d ds]; [done|]. destruct Herr as (x & Hx & Hno); [done|]. rewrite <-El in Hx.
      apply elem_of_map in Hx as (e & -> & He). destruct (Hno (planned_dataplane e)). by apply Hl. }
    assert (l = plan_planned p) as -> by (apply (planned_unique nm); [by rewrite El, Hall|done..]).
    rewrite (proj2 Hc Hs). by exists p.
Qed.


(** Rules that are equal or have different keys. *)
Lemma serves_key r1 r2 x1 x2 : serves r1 x1 → serves r2 x2 → rrec_ID r1 = rrec_ID r2 → ruleKey x1 ≠ ruleKey x2 →
  rule_Port x1 ≠ rule_Port x2.
Proof. intros [E1 _ _ _ _ _ _] [E2 _ _ _ _ _ _] E Hne Hp. apply Hne. unfold ruleKey. congruence. Qed.

Lemma share_compatible r1 r2 e1 e2 :
  spelled r1 → spelled r2 → serves r1 (planned_rule e1) → serves r2 (planned_rule e2) →
  may_share (boundAt "" (placement_of r1) (0, 0)) (boundAt "" (placement_of r2) (0, 0)) →
  planned_dataplane e1 = planned_dataplane e2 → compatible e1 e2.
Proof.
  intros S1 S2 [_ _ _ M1 N1 P1 _] [_ _ _ M2 N2 P2 _] (Hm1 & Hm2 & _ & Hp & Hs) Hd. cbn in Hm1, Hm2, Hp, Hs.
  unfold compatible, sni_ok, is_any, proxy_of, sni_of. rewrite M1, M2, N1, N2, P1, P2, Hm1, Hm2. split_and!; try done.
  - intros _ _ E. by destruct (sni_spelled r1 r2 S1 S2 Hs).
  - f_equal. apply proxy_spelled; [by destruct S1|by destruct S2|done].
Qed.

(** Rules that were compiled from an admitted layout conflict on the agent only in their backends. *)
Lemma compiled_no_conflict org id row pv known db l :
  consistent db → live nodesTable org id db = Some row →
  (∀ r, r ∈ executableRulesForNode (loadNodeDetails db row) (rulesOf org db) → spelled r) →
  map planned_rule l = snap_Rules (compiledSnapshot configDigest (inputOf org row pv known db)) →
  (∀ e1 e2 k1 k2, e1 ∈ l → e2 ∈ l → k1 ∈ listenerKeysForRule (planned_rule e1) → k2 ∈ listenerKeysForRule (planned_rule e2) →
    listenerKeysOverlap k1 k2 = true → planned_dataplane e1 = planned_dataplane e2) →
  StronglySorted no_conflict l.
Proof.
  intros Hdb Hl Hsp El Hd. pose proof (co_named _ Hdb) as Hn.
  apply (pairs_distinct (λ e, ruleKey (planned_rule e))).
  { rewrite <-(map_map planned_rule ruleKey), El. by apply NoDup_compiled. }
  intros e1 e2 H1 H2 Hne k1 k2 Hk1 Hk2 Ho.
  destruct (compiled_serves org row pv known db (planned_rule e1) Hn) as (r1 & Hr1 & S1); [rewrite <-El; by apply list_elem_of_fmap_2|].
  destruct (compiled_serves org row pv known db (planned_rule e2) Hn) as (r2 & Hr2 & S2); [rewrite <-El; by apply list_elem_of_fmap_2|].
  apply (share_compatible r1 r2); [by apply Hsp..|done|done| |by eapply Hd].
  eapply (meeting_rules_share org id row db r1 r2); [done..|by apply Hsp|done|done|by apply Hsp|done| |exact Hk1|exact Hk2|exact Ho].
  intros E. apply (serves_key r1 r2 _ _ S1 S2 E Hne). apply key_of_rule in Hk1 as (_ & _ & <-), Hk2 as (_ & _ & <-).
  unfold listenerKeysOverlap in Ho. by apply andb_true_iff in Ho as [[_ ?%Z.eqb_eq]%andb_true_iff _].
Qed.

(** The backend that the agent gives a rule, if any. *)
Definition backendOf (mode : string) (x : RuleConfig) : string :=
  match selectDataplane mode x with Ok d => d | Err _ => "" end.

(** C12. What the control plane admits the agent can run: for a node of a consistent organization, the plan of the
    agent for the compiled configuration succeeds exactly when every rule has a backend that supports it and
    rules that meet on a listener have the same backend.  Ports, addresses, server names and PROXY protocols never
    conflict on the agent, since the layout kept them apart. *)
Theorem admitted_rules_are_planned E org id pv known mode config db db' :
  consistent db → CompileNodeAgentConfigForAgentProtocol E org id pv known db = (Ok config, db') →
  (∀ row r, live nodesTable org id db = Some row →
    r ∈ executableRulesForNode (loadNodeDetails db row) (rulesOf org db) → spelled r) →
  let nodeMode := nodeModeOf mode config in
  (∃ p, planSnapshot mode config = Ok p) ↔
  (∀ x, x ∈ snap_Rules config → DataplanePlan.assigned nodeMode x (backendOf nodeMode x)) ∧
  (∀ x y k l, x ∈ snap_Rules config → y ∈ snap_Rules config → k ∈ listenerKeysForRule x → l ∈ listenerKeysForRule y →
    listenerKeysOverlap k l = true → backendOf nodeMode x = backendOf nodeMode y).
Proof.
  intros Hdb Hc%serve_ok Hsp nodeMode. apply compileNode_ok in Hc as (row & compiled & l & Hl & Hcomp & Ec & _ & _).
  rewrite Compile_eq in Hcomp. destruct (existsb _ _); [done|].
  assert (snap_Rules config = snap_Rules (compiledSnapshot configDigest (inputOf org row pv known db))) as Er.
  { rewrite Ec, snap_Rules_raised. unfold inputOf. congruence. }
  specialize (λ r, Hsp row r Hl). clear Ec Hcomp. rewrite planSnapshot_iff. split.
  - intros (planned & Ep & Ha & Hs). fold nodeMode in Ha.
    assert (∀ e, e ∈ planned → planned_dataplane e = backendOf nodeMode (planned_rule e)) as Hb.
    { intros e He. destruct (Ha e He) as [Hsel _]. unfold backendOf. by rewrite Hsel. }
    rewrite <-Ep. split.
    + intros x (e & -> & He)%elem_of_map. rewrite <-Hb by done. by apply Ha.
    + intros x y k k' (e1 & -> & H1)%elem_of_map (e2 & -> & H2)%elem_of_map Hk Hk' Ho. rewrite <-!Hb by done.
      destruct (pairs_sym no_conflict planned e1 e2 no_conflict_sym Hs H1 H2) as [->|Hno]; [done|].
      by destruct (Hno k k' Hk Hk' Ho) as (? & _).
  - intros [Ha Hb]. exists (map (λ x, {| planned_rule := x; planned_dataplane := backendOf nodeMode x |}) (snap_Rules config)).
    rewrite map_map, map_id. split_and!; [done|by intros e (x & -> & Hx)%elem_of_map; apply Ha|].
    eapply (compiled_no_conflict org id row pv known db); [done..|by rewrite map_map, map_id|].
    intros e1 e2 k k' (x & -> & Hx)%elem_of_map (y & -> & Hy)%elem_of_map. by apply Hb.
Qed.
End layout.

(** ** Rules that share a listener by their server names *)
Module LayoutExamples.
Import DeliveryExamples.

Definition named (name sni preference : string) : RuleMutationInput :=
  (example_input name 443 443) <| mi_Match := {| mmatch_Type := "TLS_SNI"; mmatch_SNIHostname := sni |} |>
    <| mi_DataplanePreference := preference |>.
(** Two rules on port 443. *)
Definition admitted (p1 p2 : string) : database :=
  (CreateRule (example_env "r2") example_identity (named "two" "two.example.com" p2)
    (CreateRule (example_env "r1") example_identity (named "one" "one.example.com" p1) example_database).2).2.
Definition agentConfig (db : database) : result serviceError ConfigSnapshot * database :=
  CompileNodeAgentConfigForAgentProtocol (example_env "c1") "o1" "n1" CurrentProtocolVersion true db.
Definition configOf (p1 p2 : string) : ConfigSnapshot :=
  match (agentConfig (admitted p1 p2)).1 with Ok c => c | Err _ => EmptyNodeAgentConfig configDigest "n1" end.

#[local] Opaque CreateRule CompileNodeAgentConfigForAgentProtocol.
Lemma created_consistent id input db : id ≠ "" → consistent db →
  consistent (CreateRule (example_env id) example_identity input db).2.
Proof. intros Hid Hdb. by apply (CreateRule_consistent (example_env id) example_identity input db Hid (λ _ _, I)). Qed.
Lemma admitted_consistent p1 p2 : consistent (admitted p1 p2).
Proof. apply created_consistent; [done|]. apply created_consistent; [done|]. exact example_consistent. Qed.
Example shared_config :
  CompileNodeAgentConfigForAgentProtocol (example_env "c1") "o1" "n1" CurrentProtocolVersion true (admitted "HAPROXY" "HAPROXY")
  = (Ok (configOf "HAPROXY" "HAPROXY"), (agentConfig (admitted "HAPROXY" "HAPROXY")).2).
Proof. vm_compute. reflexivity. Qed.
Lemma executable_rule node rules r : r ∈ executableRulesForNode node rules → r ∈ rules.
Proof. by intros [Hr _]%elem_of_filterb. Qed.
Lemma shared_spelled r : r ∈ rulesOf "o1" (admitted "HAPROXY" "HAPROXY") → spelled r.
Proof.
  assert (Forall (λ r, rrec_Status r = "ENABLED" ∧ is_ascii (rrec_SNIHostname r) = true ∧
    TrimSpace (rrec_SNIHostname r) = rrec_SNIHostname r ∧ rrec_ProxyProtocolIn r ∈ ["NONE"; "V1"; "V2"])
    (rulesOf "o1" (admitted "HAPROXY" "HAPROXY"))) as Hall by (apply (bool_decide_unpack _); vm_compute; exact I).
  intros Hr. rewrite Forall_forall in Hall. destruct (Hall r Hr) as (? & ? & ? & ?). by constructor.
Qed.

Lemma admitted_rules_are_planned_witness : ∃ p, planSnapshot "" (configOf "HAPROXY" "HAPROXY") = Ok p.
Proof.
  refine (proj2 (admitted_rules_are_planned (example_env "c1") "o1" "n1" CurrentProtocolVersion true ""
    (configOf "HAPROXY" "HAPROXY") (admitted "HAPROXY" "HAPROXY") (agentConfig (admitted "HAPROXY" "HAPROXY")).2
    (admitted_consistent _ _) shared_config _) _).
  - intros row r _ Hr. exact (shared_spelled r (executable_rule _ _ r Hr)).
  - assert (∀ x, x ∈ snap_Rules (configOf "HAPROXY" "HAPROXY") →
      let nm := nodeModeOf "" (configOf "HAPROXY" "HAPROXY") in
      backendOf nm x = "HAPROXY" ∧ DataplanePlan.assigned nm x "HAPROXY") as Hall.
    { intros x Hx. vm_compute in Hx. apply elem_of_cons in Hx as [-> | ->%list_elem_of_singleton]; vm_compute; auto. }
    split.
    + intros x Hx. destruct (Hall x Hx) as [E Ha]. rewrite E. exact Ha.
    + intros x y k l Hx Hy _ _ _. rewrite (proj1 (Hall x Hx)), (proj1 (Hall y Hy)). reflexivity.
Defined.

(** Rules that share a listener by their server names may want different
    backends: the control plane admits both, and the agent refuses the whole
    configuration. *)
Definition refusal (r : result ConfigApplyError plan) : list (string * list string * string) :=
  match r with Ok _ => [] | Err e => map (λ d, (detail_Code d, detail_RuleIDs d, detail_Dataplane d)) (apply_Errors e) end.

End LayoutExamples.
