(* ===== verification/RuleChecks.v ===== *)
(** * What the checks of the rule service decide

    The checks in front of a mutation accept exactly the rules that the layout
    of the organization has room for ([prepareRuleMutation_exact]); the limit
    on the number of rules is the least that applies
    ([ensureRuleLimitAvailable_spec]); the name of a copy is never too long
    ([defaultRuleCopyName_spec]). *)

From S2P Require Import Prelude GoString GoInt GoSort GoUtf8 Domain ServiceErrors Records ValidatorBase NodeCoverage ConfigCompiler RuleInput Authorizer Transaction Database RuleStore Layout Delimited StoreLayout ControlService RuleService RuleInvariant ExampleDatabase.
Import Domain.Errors Domain.Rules.
#[local] Open Scope Z_scope.

Section checks.
Context `{UnicodeTables, UUIDHash, HT : HashedTexts, Authorizer}.

(** ** Steps that only read *)

Lemma bind_here {S A B} (m : tx S A) (f : A → tx S B) s a r : m s = Ok (a, s) → (m ≫= f) s = r ↔ f a s = r.
Proof. intros E. unfold mbind, tx_bind. by rewrite E. Qed.
Lemma reads_bind {S A B} (g : S → A) (f : A → tx S B) s r : (reads g ≫= f) s = r ↔ f (g s) s = r.
Proof. done. Qed.
Lemma pure_bind {S B} (m : result serviceError ()) (f : () → tx S B) s r :
  (pure m ≫= f) s = Ok r ↔ m = Ok tt ∧ f tt s = Ok r.
Proof. unfold mbind, tx_bind, pure. destruct m as [[]|]; [naive_solver|by split; [|intros [? _]]]. Qed.
Lemma reject_bind {S B} cond e (f : () → tx S B) s r :
  (reject cond e ≫= f) s = Ok r ↔ cond = false ∧ f tt s = Ok r.
Proof. destruct cond; cbn; [by split; [|intros [? _]]|naive_solver]. Qed.
Lemma found_bind {A B} (o : option A) (f : A → tx database B) db r :
  (found o ≫= f) db = Ok r ↔ ∃ a, o = Some a ∧ f a db = Ok r.
Proof. destruct o; cbn; [|by split; [|intros (? & ? & _)]]. split; [by eexists|by intros (? & [= <-] & ?)]. Qed.
Lemma each_here {S A} (f : A → tx S ()) l s :
  (∀ x, keeps eq (f x)) → each f l s = Ok (tt, s) ↔ ∀ x, x ∈ l → f x s = Ok (tt, s).
Proof.
  intros Hk. induction l as [|x l IH]; cbn; [by split; [intros _ x ?%not_elem_of_nil|]|]. rewrite bind_ok. split.
  - intros ([] & s1 & E1 & E2) y. pose proof (Hk x _ _ _ E1). subst s1.
    intros [->|Hy]%elem_of_cons; [done|]. by apply IH.
  - intros Hl. exists tt, s. split; [apply Hl; left|]. apply IH. intros y Hy. apply Hl. by right.
Qed.

Lemma each_bind {S A B} (f : A → tx S ()) l (k : () → tx S B) s r :
  (∀ x, keeps eq (f x)) → (each f l ≫= k) s = Ok r ↔ (∀ x, x ∈ l → f x s = Ok (tt, s)) ∧ k tt s = Ok r.
Proof.
  intros Hk. rewrite <-(each_here f l s Hk). split.
  - destruct r as [b s']. intros ([] & s1 & E1 & E2)%bind_ok.
    assert (keeps eq (each f l)) as Hl by (apply keeps_each; [apply _|exact Hk]).
    pose proof (Hl _ _ _ E1). by subst s1.
  - intros [E1 E2]. by rewrite (bind_here _ _ _ tt).
Qed.

(** ** Upstreams *)

Definition live_target (db : database) (organizationID targetID : string) : Prop :=
  ∃ t, live targetsTable organizationID targetID db = Some t ∧ trec_Enabled t = true.
Definition upstream_available (organizationID : string) (upstream : RuleUpstreamInput) (db : database) : Prop :=
  (mup_Type upstream = "TARGET" ∧ live_target db organizationID (mup_TargetID upstream)) ∨
  (mup_Type upstream = "TARGET_GROUP" ∧ ∃ row, live targetGroupsTable organizationID (mup_TargetGroupID upstream) db = Some row ∧
    let group := loadTargetGroupMembers db row in
    targetGroupSchedulerSupportedByCore group = true ∧ grec_Members group ≠ [] ∧
    (∀ m, m ∈ grec_Members group → gmem_Enabled m = true ∧ live_target db organizationID (gmem_TargetID m)) ∧
    (normalizeTargetGroupScheduler (grec_Scheduler group) = targetGroupSchedulerLeastLoad →
      ∃ m, m ∈ grec_Members group ∧ 0 < gmem_Weight m)).

Lemma FindTargetByID_bind {B} org id (f : TargetRecord → tx database B) db r :
  (FindTargetByID org id ≫= f) db = Ok r ↔ ∃ t, live targetsTable org id db = Some t ∧ f t db = Ok r.
Proof.
  unfold FindTargetByID. unfold mbind at 1 2, tx_bind at 1 2. cbn. destruct (live _ _ _ _); cbn; naive_solver.
Qed.

Lemma FindTargetGroupByID_bind {B} org id (f : TargetGroupRecord → tx database B) db r :
  (FindTargetGroupByID org id ≫= f) db = Ok r ↔
  ∃ g, loadTargetGroupMembers db <$> live targetGroupsTable org id db = Some g ∧ f g db = Ok r.
Proof.
  unfold FindTargetGroupByID. unfold mbind at 1 2, tx_bind at 1 2. cbn [reads].
  destruct (live _ _ _ _); cbn; naive_solver.
Qed.

Lemma ensureUpstreamAvailable_ok org upstream db :
  ensureUpstreamAvailable org upstream db = Ok (tt, db) ↔ upstream_available org upstream db.
Proof.
  unfold ensureUpstreamAvailable, upstream_available.
  destruct (String.eqb_spec (mup_Type upstream) "TARGET") as [->|Hn1].
  { rewrite FindTargetByID_bind. setoid_rewrite reject_ok. setoid_rewrite negb_false_iff. unfold live_target. naive_solver. }
  destruct (String.eqb_spec (mup_Type upstream) "TARGET_GROUP") as [->|Hn2]; [|unfold fail; naive_solver].
  assert (∀ m, keeps eq (reject (negb (gmem_Enabled m)) ErrInvalidInput;;
    target ← FindTargetByID org (gmem_TargetID m); reject (negb (trec_Enabled target)) ErrInvalidInput)) as Hk by (intros m; keeps_tac).
  rewrite FindTargetGroupByID_bind. setoid_rewrite reject_bind. setoid_rewrite (each_bind _ _ _ _ _ Hk).
  setoid_rewrite reject_bind. setoid_rewrite FindTargetByID_bind. setoid_rewrite reject_ok.
  setoid_rewrite negb_false_iff. setoid_rewrite orb_false_iff. setoid_rewrite andb_false_iff.
  setoid_rewrite negb_false_iff. setoid_rewrite existsb_elem_of. setoid_rewrite Z.ltb_lt.
  setoid_rewrite String.eqb_neq. setoid_rewrite Nat.eqb_neq. split.
  - intros (g & Hg & Hsup & Hall & (Hlen & Hw) & _). right. split; [done|].
    unfold live in Hg. apply fmap_Some in Hg as (row & Hrow & ->). exists row. split_and!; [done..| | |].
    + by destruct (grec_Members _).
    + intros m Hm. destruct (Hall m Hm) as (He & t & Ht & Hte & _). split; [done|]. by exists t.
    + intros E. by destruct Hw.
  - intros [[? _]|(_ & row & Hrow & Hsup & Hne & Hall & Hw)]; [done|].
    exists (loadTargetGroupMembers db row). split; [by rewrite Hrow|]. split; [done|]. split.
    + intros m Hm. destruct (Hall m Hm) as (He & t & Ht & Hte). split; [done|]. by exists t.
    + split; [|done]. split; [by destruct (grec_Members _)|].
      destruct (decide (normalizeTargetGroupScheduler (grec_Scheduler (loadTargetGroupMembers db row)) = targetGroupSchedulerLeastLoad));
        [right; by apply Hw|by left].
Qed.

(** ** The checks of a mutation *)

Lemma shape_iff org input ruleID :
  validateRuleBindingShape input ruleID = Ok tt ↔ mi_PortSegments input ≠ [] ∧ sound (wanted org ruleID input).
Proof.
  split; [apply shape_ok|]. intros [Hne Hs]. unfold validateRuleBindingShape.
  destruct (inputBindings _ _ _ _) as [|b l] eqn:E.
  { unfold inputBindings, bindingsForNodes, toInboundBindingPortSegments in E. cbn in E. by destruct (mi_PortSegments input). }
  rewrite <-E. apply domainCheck_ok, checkBindings_none. intros c Hc. split; [|by intros ? ?%not_elem_of_nil].
  unfold inputBindings, bindingsForNodes in Hc. cbn [flat_map] in Hc. rewrite app_nil_r in Hc.
  apply list_elem_of_fmap in Hc as (s & -> & Hin). apply list_elem_of_fmap in Hin as (i & -> & Hi).
  assert ((pseg_StartPort i, pseg_EndPort i) ∈ pl_Segments (wanted org ruleID input)) as Hseg.
  { unfold wanted, placement_of, place. cbn [pl_Segments]. rewrite wanted_segments by done. apply elem_of_segments.
    eexists. split; [by apply list_elem_of_fmap; exists i|done]. }
  exact (Hs _ Hseg).
Qed.

Lemma conflicts_iff org existing ruleID input db :
  well_named db → mi_PortSegments input ≠ [] → carried (nodesOf org db) (wantedRule org ruleID input) →
  ensureNoRuleConflicts org existing ruleID input (nodesInGroupFromSet (nodesOf org db) (mi_NodeGroupID input)) db
    = Ok (tt, db) ↔
  (∀ r, r ∈ existing → rrec_ID r ≠ ruleID → sound (wanted org ruleID input) ∧
    (meet_on (caps org db) (placement_of r) (wanted org ruleID input) → apart (placement_of r) (wanted org ruleID input))).
Proof.
  intros Hn Hne Hcar. unfold ensureNoRuleConflicts. rewrite inputBindings_eq by done. cbv zeta.
  rewrite each_here by (intros r; keeps_tac).
  assert (∀ r, compatible_with (nodesOf org db) [r] (wantedRule org ruleID input) ↔
    checkBindings (ruleBindings (nodesOf org db) r) (ruleBindings (nodesOf org db) (wantedRule org ruleID input)) = None) as Hcheck.
  { intros r. rewrite checkBindings_none. unfold compatible_with. setoid_rewrite list_elem_of_singleton.
    split; intros Hc c Hin; destruct (Hc c Hin) as [Hw Hb]; (split; [done|]); [by intros; eapply Hb|by intros ? b ->; apply Hb]. }
  assert (∀ r, r ∈ existing → (if String.eqb (rrec_ID r) ruleID then mret tt
     else existingNodes ← nodesInGroup org (bind_NodeGroupID (rrec_Binding r));
       pure (domainCheck (checkBindings (bindingsForNodes existingNodes (bind_NodeGroupID (rrec_Binding r)) (bind_ListenIP (rrec_Binding r))
         (rrec_Protocol r) (rulePortSegments (rrec_Binding r)) (rrec_MatchType r) (rrec_SNIHostname r) (rrec_ProxyProtocolIn r)
         (rrec_ID r)) (ruleBindings (nodesOf org db) (wantedRule org ruleID input))))) db = Ok (tt, db) ↔
     (rrec_ID r ≠ ruleID → compatible_with (nodesOf org db) [r] (wantedRule org ruleID input))) as Hone.
  { intros r _. destruct (String.eqb_spec (rrec_ID r) ruleID); [by split|]. rewrite Hcheck.
    change (pure (domainCheck (checkBindings (ruleBindings (nodesOf org db) r) (ruleBindings (nodesOf org db) (wantedRule org ruleID input)))) db
      = Ok (tt, db) ↔ (rrec_ID r ≠ ruleID → checkBindings (ruleBindings (nodesOf org db) r)
        (ruleBindings (nodesOf org db) (wantedRule org ruleID input)) = None)).
    rewrite pure_ok, domainCheck_ok. naive_solver. }
  assert (NoDup (map node_ID (nodesOf org db))) as Hnd by by apply NoDup_nodesOf.
  split.
  - intros Hall r Hr Hid. pose proof (proj1 (Hone r Hr) (Hall r Hr) Hid) as Hc.
    apply compatible_apart in Hc as [Hs Ha]; [|done..]. split; [done|]. apply Ha. by apply list_elem_of_singleton.
  - intros Hall r Hr. apply Hone; [done|]. intros Hid. destruct (Hall r Hr Hid) as [Hs Ha].
    apply compatible_apart; [done..|]. split; [done|]. by intros q ->%list_elem_of_singleton.
Qed.

Definition options_valid (input : RuleMutationInput) : Prop :=
  validateRuleForwardingType (mi_ForwardingType input) = Ok tt ∧ validateFailurePolicy (mi_FailurePolicy input) = Ok tt ∧
  validateRuleMatchType (mmatch_Type (mi_Match input)) = Ok tt.
(** The other enabled rules. *)
Definition others (ruleID : string) (layout : list placement) : list placement :=
  List.filter (λ q, negb (String.eqb (pl_ID q) ruleID)) layout.

Lemma elem_of_others ruleID layout q : q ∈ others ruleID layout ↔ q ∈ layout ∧ pl_ID q ≠ ruleID.
Proof. unfold others. by rewrite elem_of_filterb, negb_true_iff, String.eqb_neq. Qed.

Lemma nodesInGroup_bind {B} org group (f : list NodeRecord → tx database B) db r :
  (nodesInGroup org group ≫= f) db = r ↔ f (nodesInGroupFromSet (nodesOf org db) group) db = r.
Proof. done. Qed.
Lemma FindNodeGroupByID_bind {B} org id (f : NodeGroupRecord → tx database B) db r :
  (FindNodeGroupByID org id ≫= f) db = Ok r ↔ ∃ g, live nodeGroupsTable org id db = Some g ∧ f g db = Ok r.
Proof. unfold FindNodeGroupByID. unfold mbind at 1 2, tx_bind at 1 2. cbn [reads]. destruct (live _ _ _ _); cbn; naive_solver. Qed.
Lemma wanted_carried org ruleID input db :
  mi_PortSegments input ≠ [] →
  let nodes := nodesInGroupFromSet (nodesOf org db) (mi_NodeGroupID input) in
  nodesCoverListenIPAndPortSegments nodes (mi_ListenIP input) (mi_Protocol input)
    (toInboundBindingPortSegments org "" (mi_PortSegments input) "") && nodesShareSendIP nodes (mi_SendIP input) = true ↔
  carried (nodesOf org db) (wantedRule org ruleID input).
Proof.
  intros Hne. pose proof (carried_spec (nodesOf org db) (wantedRule org ruleID input)) as Hc. cbv zeta in Hc.
  rewrite wanted_segments in Hc by done. exact Hc.
Qed.

Context `{!FoldSymmetric}.

Lemma joins_layout caps layout p ruleID :
  pl_ID p = ruleID → deployable caps layout → carried_by caps p → sound p →
  deployable caps (p :: others ruleID layout) ↔
  (∀ q, q ∈ layout → pl_ID q ≠ ruleID → meet_on caps q p → apart q p).
Proof.
  intros Hid Hd Hc Hs. split.
  - intros [_ Ha] q Hq Hne. apply Ha; [right; by apply elem_of_others|left|by rewrite Hid].
  - intros Ha. eapply (deployable_add _ layout _ p); try done.
    + intros q [->|Hq]%elem_of_cons; [by left|]. right. rewrite Hid. by apply elem_of_others.
    + intros q Hq Hne. apply Ha; [done|by rewrite <-Hid].
    + intros q Hq Hne Hm. apply apart_sym, Ha; [done|by rewrite <-Hid|done].
Qed.

(** C11. The checks in front of a mutation accept exactly the right rules: the identity may use the node group,
    the options are known, the group exists, the upstream can be used, and the layout of the organization
    stays deployable with the placement of the rule among those of the other enabled rules (for a rule that
    is not enabled: the placement is carried by the nodes of its group and sound). *)
Theorem prepareRuleMutation_exact identity ruleID input occupiesPort db :
  let org := id_OrganizationID identity in
  let p := wanted org ruleID input in
  well_named db → deployable (caps org db) (pls org db) →
  prepareRuleMutation identity ruleID input occupiesPort db = Ok (tt, db) ↔
  canUseNodeGroup identity (mi_NodeGroupID input) = true ∧ options_valid input ∧ mi_PortSegments input ≠ [] ∧
  is_Some (live nodeGroupsTable org (mi_NodeGroupID input) db) ∧
  upstream_available org (mi_Upstream input) db ∧
  carried_by (caps org db) p ∧ sound p ∧
  (occupiesPort = true → deployable (caps org db) (p :: others ruleID (pls org db))).
Proof.
  cbv zeta. set (org := id_OrganizationID identity). intros Hn Hd. unfold prepareRuleMutation, options_valid. fold org.
  rewrite reject_bind, negb_false_iff, !pure_bind, FindNodeGroupByID_bind, (shape_iff org).
  assert ((ensureUpstreamAvailable org (mi_Upstream input);;
    nodes ← nodesInGroup org (mi_NodeGroupID input);
    reject (negb (nodesCoverListenIPAndPortSegments nodes (mi_ListenIP input) (mi_Protocol input)
      (toInboundBindingPortSegments org "" (mi_PortSegments input) ""))) (coverageError input);;
    reject (negb (nodesShareSendIP nodes (mi_SendIP input))) (sendIPError input);;
    (if occupiesPort then existing ← ListEnabledInboundBindings org;
       ensureNoRuleConflicts org existing ruleID input nodes else mret tt)) db = Ok (tt, db) ↔
    upstream_available org (mi_Upstream input) db ∧
    let nodes := nodesInGroupFromSet (nodesOf org db) (mi_NodeGroupID input) in
    nodesCoverListenIPAndPortSegments nodes (mi_ListenIP input) (mi_Protocol input)
      (toInboundBindingPortSegments org "" (mi_PortSegments input) "") && nodesShareSendIP nodes (mi_SendIP input) = true ∧
    (occupiesPort = true → ensureNoRuleConflicts org (enabledRulesOf org db) ruleID input nodes db = Ok (tt, db))) as Hrest.
  { rewrite bind_ok. setoid_rewrite nodesInGroup_bind. cbv zeta. do 2 setoid_rewrite reject_bind.
    setoid_rewrite negb_false_iff. rewrite andb_true_iff. split.
    - intros ([] & s1 & E1 & E2). pose proof (upstream_reads _ _ _ _ _ E1). subst s1.
      apply ensureUpstreamAvailable_ok in E1. destruct E2 as (E2 & E3 & E4).
      split_and!; [done..|]. intros ->. exact E4.
    - intros (E1 & [E2 E3] & E4). exists tt, db. split; [by apply ensureUpstreamAvailable_ok|]. split_and!; [done..|].
      destruct occupiesPort; [by apply E4|done]. }
  assert (mi_PortSegments input ≠ [] → sound (wanted org ruleID input) →
    carried (nodesOf org db) (wantedRule org ruleID input) →
    ensureNoRuleConflicts org (enabledRulesOf org db) ruleID input
      (nodesInGroupFromSet (nodesOf org db) (mi_NodeGroupID input)) db = Ok (tt, db) ↔
    deployable (caps org db) (wanted org ruleID input :: others ruleID (pls org db))) as Hjoin.
  { intros Hne Hs Hcar. rewrite joins_layout; [|done..|by apply carried_placement|done].
    rewrite conflicts_iff by done. split.
    - intros Hall q (r & -> & Hr)%list_elem_of_fmap Hid. by apply Hall.
    - intros Hall r Hr Hid. split; [done|]. apply Hall; [|done]. apply list_elem_of_fmap. by exists r. }
  setoid_rewrite Hrest. cbv zeta. split.
  - intros (H1' & H2' & H3' & H4' & (Hne & Hs) & g & Hg & Hu & Hcov & Hconf). rewrite (wanted_carried org ruleID) in Hcov by done.
    pose proof (proj1 (carried_placement _ _) Hcov) as Hby. split_and!; [done..|by eexists|done|exact Hby|done|].
    intros Ho. apply Hjoin; [exact Hne|exact Hs|exact Hcov|]. by apply Hconf.
  - intros (H1' & (H2' & H3' & H4') & Hne & [g Hg] & Hu & Hcov & Hs & Hdep). split_and!; try done.
    exists g. split_and!; [done..| |]; apply carried_placement in Hcov; [by apply (wanted_carried org ruleID)|].
    intros Ho. apply Hjoin; [done..|by apply Hdep].
Qed.

(** ** The limit on the number of rules *)

Definition personal (owner : string) (q : QuotaRecord) : Prop := quo_Scope q = "USER" ∧ quo_SubjectUserID q = owner.
Definition lifting (q : QuotaRecord) : Prop := quo_RuleLimit q = 0 ∧ quo_TrafficLimitBytes q = 0.

(** What the quotas of an owner come to. *)
Definition summary (owner : string) (quotas : list QuotaRecord) (s : Z * bool * bool) : Prop :=
  let '(limit, set, unlimited) := s in
  0 ≤ limit ∧ (limit > 0 → set = true ∧ ∃ q, q ∈ quotas ∧ personal owner q ∧ quo_RuleLimit q = limit) ∧
  (∀ q, q ∈ quotas → personal owner q → 0 < quo_RuleLimit q → 0 < limit ≤ quo_RuleLimit q) ∧
  (set || unlimited = true ↔ ∃ q, q ∈ quotas ∧ personal owner q ∧ (0 < quo_RuleLimit q ∨ lifting q)).

Lemma exists_snoc {A} (P : A → Prop) l x : (∃ y, y ∈ l ++ [x] ∧ P y) ↔ (∃ y, y ∈ l ∧ P y) ∨ P x.
Proof. setoid_rewrite elem_of_app. setoid_rewrite list_elem_of_singleton. naive_solver. Qed.
Lemma forall_snoc {A} (P : A → Prop) l x : (∀ y, y ∈ l ++ [x] → P y) ↔ (∀ y, y ∈ l → P y) ∧ P x.
Proof. setoid_rewrite elem_of_app. setoid_rewrite list_elem_of_singleton. naive_solver. Qed.

Lemma quota_cases owner q :
  negb (String.eqb (quo_Scope q) "USER") || negb (String.eqb (quo_SubjectUserID q) owner) = true ∧ ¬ personal owner q ∨
  negb (String.eqb (quo_Scope q) "USER") || negb (String.eqb (quo_SubjectUserID q) owner) = false ∧ personal owner q.
Proof.
  unfold personal. destruct (String.eqb_spec (quo_Scope q) "USER"), (String.eqb_spec (quo_SubjectUserID q) owner);
    [right|left..]; split; try done; by intros [? ?].
Qed.

Lemma quotas_summary owner quotas : summary owner quotas (foldl (userQuotaStep owner) (0, false, false) quotas).
Proof.
  apply foldl_ind.
  { unfold summary. split_and!; [lia|lia|by intros ? ?%not_elem_of_nil|].
    split; [done|]. by intros (? & ?%not_elem_of_nil & _). }
  intros l q [[limit set] unlimited] (Hpos & Hwit & Hleast & Hset). unfold userQuotaStep.
  destruct (quota_cases owner q) as [[-> Hq]|[-> Hq]].
  { unfold summary. rewrite forall_snoc, !exists_snoc. naive_solver. }
  destruct ((quo_RuleLimit q =? 0) && (quo_TrafficLimitBytes q =? 0)) eqn:Ez.
  { apply andb_true_iff in Ez as [E1%Z.eqb_eq E2%Z.eqb_eq]. unfold summary. rewrite forall_snoc, !exists_snoc.
    split_and!; [done|naive_solver|done|intros _; lia|]. rewrite orb_true_r.
    split; [|done]. intros _. right. split; [done|]. right. by split. }
  assert (¬ lifting q) as Hnl.
  { intros [E1 E2]. by rewrite E1, E2 in Ez. }
  destruct ((0 <? quo_RuleLimit q) && ((limit =? 0) || (quo_RuleLimit q <? limit))) eqn:El;
    unfold summary; rewrite forall_snoc, !exists_snoc.
  - apply andb_true_iff in El as [E1%Z.ltb_lt E2%orb_true_iff].
    split_and!; [lia|naive_solver| |intros _; lia|].
    + intros r Hr Hp Hl. specialize (Hleast r Hr Hp Hl). destruct E2 as [?%Z.eqb_eq|?%Z.ltb_lt]; lia.
    + split; [|done]. intros _. right. split; [done|]. by left.
  - split_and!; [done|naive_solver|done| |].
    + intros _ Hl. apply andb_false_iff in El as [?%Z.ltb_ge|[?%Z.eqb_neq ?%Z.ltb_ge]%orb_false_iff]; lia.
    + rewrite Hset. split; [naive_solver|]. intros [?|[_ [Hl|?]]]; [done| |done].
      apply andb_false_iff in El as [?%Z.ltb_ge|[?%Z.eqb_neq ?%Z.ltb_ge]%orb_false_iff]; [lia|].
      apply Hset, orb_true_iff. left. apply Hwit. lia.
Qed.

Definition ruleCount (organizationID : string) (db : database) : Z := Z.of_nat (length (lives rulesTable organizationID db)).
Definition ownedCount (organizationID owner : string) (db : database) : Z :=
  Z.of_nat (length (List.filter (λ r, String.eqb (rrec_OwnerUserID r) owner) (lives rulesTable organizationID db))).
Definition quotasOf (organizationID : string) (db : database) : list QuotaRecord :=
  List.filter (λ q, String.eqb (quo_OrganizationID q) organizationID) (db_quotas db).

(** Every positive quota that applies leaves room, and the default of the
    organization does unless a quota of the owner replaces or lifts it. *)
Definition room (organizationID owner : string) (additional default_ : Z) (db : database) : Prop :=
  (∀ q, q ∈ quotasOf organizationID db → 0 < quo_RuleLimit q →
    (personal owner q → ownedCount organizationID owner db + additional ≤ quo_RuleLimit q) ∧
    (quo_Scope q = "ORGANIZATION" → ruleCount organizationID db + additional ≤ quo_RuleLimit q)) ∧
  ((∀ q, q ∈ quotasOf organizationID db → personal owner q → ¬ (0 < quo_RuleLimit q ∨ lifting q)) →
    0 < default_ → ownedCount organizationID owner db + additional ≤ default_).

Lemma organization_quotas org additional quotas db :
  each (λ quota,
      if quo_RuleLimit quota <=? 0 then mret tt
      else if String.eqb (quo_Scope quota) "ORGANIZATION" then
        orgRuleCount ← CountRulesByOrganization org;
        reject (quo_RuleLimit quota <? orgRuleCount + additional) ErrQuotaExceeded
      else mret tt) quotas db = Ok (tt, db) ↔
  ∀ q, q ∈ quotas → 0 < quo_RuleLimit q → quo_Scope q = "ORGANIZATION" → ruleCount org db + additional ≤ quo_RuleLimit q.
Proof.
  rewrite each_here by (intros q; keeps_tac). apply forall_proper. intros q.
  destruct (Z.leb_spec (quo_RuleLimit q) 0); [split; [lia|done]|].
  destruct (String.eqb_spec (quo_Scope q) "ORGANIZATION"); [|naive_solver].
  unfold CountRulesByOrganization. rewrite reads_bind, reject_ok. fold (ruleCount org db). rewrite Z.ltb_ge. naive_solver.
Qed.

Lemma elem_of_sorted_quotas org db q :
  q ∈ sort_stable (text2 quo_Scope quo_ID) (List.filter (λ q, String.eqb (quo_OrganizationID q) org) (db_quotas db))
  ↔ q ∈ quotasOf org db.
Proof. apply elem_of_sort. Qed.

Lemma seq_here {S B} (m : tx S ()) (k : () → tx S B) s r :
  keeps eq m → (m ≫= k) s = Ok r ↔ m s = Ok (tt, s) ∧ k tt s = Ok r.
Proof.
  intros Hk. split; [|intros [E1 E2]; by rewrite (bind_here _ _ _ tt)].
  destruct r as [b s']. intros ([] & s1 & E1 & E2)%bind_ok. pose proof (Hk _ _ _ E1). by subst s1.
Qed.
Lemma FindOrganizationByID_bind {B} org (f : OrganizationRecord → tx database B) db r :
  (FindOrganizationByID org ≫= f) db = Ok r ↔
  ∃ o, (db_organizations db !! org = Some o ∧ org_DeletedAt o = "") ∧ f o db = Ok r.
Proof.
  unfold FindOrganizationByID. unfold mbind at 1 2, tx_bind at 1 2. cbn [reads].
  destruct (db_organizations db !! org) as [o|]; cbn; [|naive_solver].
  destruct (String.eqb_spec (org_DeletedAt o) ""); cbn; naive_solver.
Qed.

Lemma owner_quotas org owner additional default_ quotas limit set_ unlimited db :
  summary owner quotas (limit, set_, unlimited) →
  (if 0 <? limit then
     ownerRuleCount ← CountRulesByOwner org owner;
     reject (limit <? ownerRuleCount + additional) ErrQuotaExceeded
   else if negb (set_ || unlimited) && (0 <? default_) then
     ownerRuleCount ← CountRulesByOwner org owner;
     reject (default_ <? ownerRuleCount + additional) ErrQuotaExceeded
   else mret tt) db = Ok (tt, db) ↔
  (∀ q, q ∈ quotas → 0 < quo_RuleLimit q → personal owner q → ownedCount org owner db + additional ≤ quo_RuleLimit q) ∧
  ((∀ q, q ∈ quotas → personal owner q → ¬ (0 < quo_RuleLimit q ∨ lifting q)) → 0 < default_ →
   ownedCount org owner db + additional ≤ default_).
Proof.
  intros (Hpos & Hwit & Hleast & Hset). unfold CountRulesByOwner.
  destruct (Z.ltb_spec 0 limit) as [Hl|Hl].
  - rewrite reads_bind, reject_ok, Z.ltb_ge. fold (ownedCount org owner db).
    destruct Hwit as (_ & w & Hw & Hp & <-); [lia|]. split.
    + intros [Hle _]. split; [|intros Hno; exfalso; by apply (Hno w); [..|left]].
      intros q Hq Hql Hqp. specialize (Hleast q Hq Hqp Hql). lia.
    + intros [Hall _]. split; [by apply Hall|done].
  - assert (∀ q, q ∈ quotas → 0 < quo_RuleLimit q → ¬ personal owner q) as Hnone.
    { intros q Hq Hql Hqp. specialize (Hleast q Hq Hqp Hql). lia. }
    assert (set_ || unlimited = false ↔ ∀ q, q ∈ quotas → personal owner q → ¬ (0 < quo_RuleLimit q ∨ lifting q)) as Hno.
    { rewrite <-not_true_iff_false, Hset. naive_solver. }
    destruct (set_ || unlimited); cbn [negb andb].
    { split; [intros _|done]. split; [naive_solver|]. intros Hn. by apply Hno in Hn. }
    destruct (Z.ltb_spec 0 default_); [|split; [intros _; split; [naive_solver|lia]|done]].
    rewrite reads_bind, reject_ok, Z.ltb_ge. fold (ownedCount org owner db). split; [|naive_solver].
    intros [? _]. split; [naive_solver|done].
Qed.

(** C34. The limit on rules: a call that adds rules for an owner passes when every positive quota of the owner
    leaves room among the owner's rules, every positive quota of the organization among all of its rules, and
    the default of the organization among the owner's rules, unless a quota of the owner replaces it or lifts it. *)
Theorem ensureRuleLimitAvailable_spec identity owner additional db :
  let org := id_OrganizationID identity in
  ensureRuleLimitAvailable identity owner additional db = Ok (tt, db) ↔
  additional ≤ 0 ∨ ∃ o, db_organizations db !! org = Some o ∧ org_DeletedAt o = "" ∧
    room org owner additional (org_DefaultRuleLimit o) db.
Proof.
  cbv zeta. set (org := id_OrganizationID identity). unfold ensureRuleLimitAvailable. fold org.
  destruct (Z.leb_spec additional 0); [split; [by left|done]|].
  rewrite FindOrganizationByID_bind. unfold ListQuotasByOrganization. setoid_rewrite reads_bind.
  match goal with |- context [foldl _ _ ?l] => set (quotas := l) end.
  pose proof (quotas_summary owner quotas) as Hs.
  destruct (foldl (userQuotaStep owner) (0, false, false) quotas) as [[limit set_] unlimited].
  assert (∀ o, room org owner additional (org_DefaultRuleLimit o) db ↔
    ((∀ q, q ∈ quotas → 0 < quo_RuleLimit q → personal owner q → ownedCount org owner db + additional ≤ quo_RuleLimit q) ∧
     ((∀ q, q ∈ quotas → personal owner q → ¬ (0 < quo_RuleLimit q ∨ lifting q)) → 0 < org_DefaultRuleLimit o →
      ownedCount org owner db + additional ≤ org_DefaultRuleLimit o)) ∧
    (∀ q, q ∈ quotas → 0 < quo_RuleLimit q → quo_Scope q = "ORGANIZATION" → ruleCount org db + additional ≤ quo_RuleLimit q))
    as Hroom.
  { intros o. unfold room, quotas. setoid_rewrite elem_of_sorted_quotas. naive_solver. }
  assert (∀ default_, keeps eq (if 0 <? limit then
     ownerRuleCount ← CountRulesByOwner org owner;
     reject (limit <? ownerRuleCount + additional) ErrQuotaExceeded
   else if negb (set_ || unlimited) && (0 <? default_) then
     ownerRuleCount ← CountRulesByOwner org owner;
     reject (default_ <? ownerRuleCount + additional) ErrQuotaExceeded
   else mret tt)) as Hk by (intros d; keeps_tac).
  setoid_rewrite Hroom. setoid_rewrite (λ o, seq_here _ _ _ _ (Hk (org_DefaultRuleLimit o))).
  setoid_rewrite (λ o, owner_quotas org owner additional (org_DefaultRuleLimit o) _ _ _ _ db Hs).
  setoid_rewrite organization_quotas. split; [|intros [?|?]; [lia|naive_solver]].
  intros (o & [Ho Hd] & Hr). right. by exists o.
Qed.
End checks.

(** ** Names of copies *)

(** [index] bytes are whole runes, which take [bytes] bytes when they are encoded again. *)
Inductive runes_until (source : bytes) : nat → Z → Prop :=
  | until_start : runes_until source 0 0
  | until_next index size : runes_until source index size → drop index source ≠ [] →
      runes_until source (index + rune_width (drop index source)) (size + rune_bytes (drop index source)).

Lemma runes_until_bounds source index size :
  runes_until source index size → (index ≤ length source)%nat ∧ Z.of_nat index ≤ size.
Proof.
  induction 1 as [|index size Hr [IH1 IH2] Hne]; [split; lia|].
  pose proof (rune_width_range _ Hne) as [_ Hw]. rewrite length_drop in Hw.
  pose proof (rune_bytes_width (drop index source)). split; lia.
Qed.

(** The longest prefix of whole runes that fits. *)
Definition longest_fit (source : bytes) (limit : Z) (cut : nat) : Prop :=
  ∃ size, runes_until source cut size ∧ size ≤ limit < size + rune_bytes (drop cut source) ∧ drop cut source ≠ [].

Lemma copyNameLoop_cut source limit fuel : ∀ index size,
  (length source ≤ fuel + index)%nat → runes_until source index size → size ≤ limit < Z.of_nat (length source) →
  ∃ cut, copyNameLoop fuel source index size limit = take cut source ∧ longest_fit source limit cut.
Proof.
  induction fuel as [|fuel IH]; intros index size Hf Hr Hs; pose proof (runes_until_bounds _ _ _ Hr) as [Hi Hb]; [lia|].
  cbn [copyNameLoop]. destruct (drop index source) as [|b rest] eqn:Ed.
  { apply (f_equal length) in Ed. rewrite length_drop in Ed. cbn in Ed. lia. }
  rewrite <-Ed. assert (drop index source ≠ []) as Hne by by rewrite Ed.
  destruct (Z.ltb_spec limit (size + rune_bytes (drop index source))) as [Hl|Hl].
  - exists index. split; [done|]. exists size. split_and!; [done|lia..|done].
  - apply IH; [|by constructor|lia]. pose proof (rune_width_range _ Hne). lia.
Qed.

(** C36. The name of a copy: the name of the rule with " copy" behind it when that fits into 120 bytes, otherwise
    its longest prefix of whole runes that leaves room for the suffix; it never has more than 120 bytes. *)
Theorem defaultRuleCopyName_spec name :
  ∃ cut, defaultRuleCopyName name = (string_of (take cut (bytes_of name)) ++ " copy")%string ∧
    len (defaultRuleCopyName name) ≤ 120 ∧
    (len name ≤ 115 ∧ cut = length (bytes_of name) ∨ 115 < len name ∧ longest_fit (bytes_of name) 115 cut).
Proof.
  unfold defaultRuleCopyName. change (len " copy") with 5. unfold len. rewrite <-bytes_of_length.
  destruct (Z.leb_spec (Z.of_nat (length (bytes_of name)) + 5) 120) as [Hl|Hl].
  - exists (length (bytes_of name)). rewrite firstn_all, string_of_bytes_of. split; [done|].
    rewrite <-bytes_of_length, bytes_of_app, length_app. change (length (bytes_of " copy")) with 5%nat. split; [lia|]. left. lia.
  - cbv zeta. destruct (copyNameLoop_cut (bytes_of name) (120 - 5) (length (bytes_of name)) 0 0) as (cut & -> & Hcut);
      [lia|constructor|lia|]. exists cut. split; [done|].
    destruct Hcut as (size & Hr & Hs & Hne). pose proof (runes_until_bounds _ _ _ Hr) as [_ Hb].
    rewrite <-bytes_of_length, bytes_of_app, length_app, bytes_of_string_of, length_take.
    change (length (bytes_of " copy")) with 5%nat. split; [lia|]. right. split; [lia|]. exists size. split_and!; [done|lia..|done].
Qed.

Lemma prepareRuleMutation_exact_witness :
  carried_by (caps "o1" example_database) (wanted "o1" "r1" (example_input "web" 80 90)).
Proof.
  assert (deployable (caps "o1" example_database) (pls "o1" example_database)) as Hd by apply example_consistent.
  refine (proj1 (proj2 (proj2 (proj2 (proj2 (proj2 (proj1
    (prepareRuleMutation_exact example_identity "r1" (example_input "web" 80 90) true example_database
      example_well_named Hd) _))))))). vm_compute. reflexivity.
Defined.
