(* ===== verification/Upstreams.v ===== *)
(** * Every rule has an upstream that it can use

    A live rule, enabled or not, forwards to a live and enabled target, or to
    a group that has members, all enabled and with such targets, and a
    scheduler that the service supports ([supplied]).  The rule service checks
    this when a rule is written; the target service refuses what would break
    it. *)

From S2P Require Import Prelude GoString GoInt GoSort Domain ServiceErrors Records ValidatorBase NodeCoverage ConfigCompiler RuleInput Authorizer Transaction Database RuleStore AgentStore DnsStore MonitorStore Layout Delimited StoreLayout NodeLayout DnsMarking NodePayload ControlService RuleDeployment EnrollmentRelease NodeService RuleService TargetService RuleInvariant NodeInvariant RuleChecks.
From coqutil Require Import Datatypes.RecordSetters.
Import TriangleBracketNotations.
#[local] Open Scope Z_scope.

(** ** Statements that touch neither rules nor targets *)

Record settled (db db' : database) : Prop := {
  se_targets : db_targets db' = db_targets db;
  se_rules : t_forwarding_rules (db_rules db') = t_forwarding_rules (db_rules db) }.
#[export] Instance settled_preorder : PreOrder settled.
Proof. split; [by intros db|]. intros a b c [H1 H2] [H1' H2']. split; congruence. Qed.

Ltac settled_exec := apply keeps_exec; intros ?; by split.
Lemma settled_updateRow {A} (T : table A) E org id f :
  (∀ g db, settled db (tbl_with T g db)) → keeps settled (updateRow T E org id f).
Proof. intros HT db u db' (row & _ & ->)%updateRow_ok. apply HT. Qed.
Lemma settled_updateWhen {A} (T : table A) E org id cond f :
  (∀ g db, settled db (tbl_with T g db)) → keeps settled (updateRowWhen T E org id cond f).
Proof.
  intros HT db u db'. unfold updateRowWhen. intros Hu. tx_inv. destruct (live T org id db) as [row|]; [|done].
  destruct (cond row); [|done]. apply exec_ok in Hu as ->. apply HT.
Qed.
Lemma settled_insertRow {A} (T : table A) E id row :
  (∀ g db, settled db (tbl_with T g db)) → keeps settled (insertRow T E id row).
Proof. intros HT db u db' [_ ->]%insertRow_ok. apply HT. Qed.

Section settled.
Context `{UnicodeTables, UUIDHash, Authorizer}.

Lemma settled_incrementNode E org id now : keeps settled (IncrementDesiredConfigForNode E org id now).
Proof. apply settled_updateRow. by intros g db. Qed.
Lemma settled_incrementGroup E org group now : keeps settled (IncrementDesiredConfigForNodeGroup E org group now).
Proof. settled_exec. Qed.
Lemma settled_audit E audit : keeps settled (CreateAuditLog E audit).
Proof. settled_exec. Qed.
Lemma settled_writeAudit E input : keeps settled (writeAudit E input).
Proof. apply settled_audit. Qed.
Lemma settled_upsertDeployment E keep row : keeps settled (upsertDeployment E keep row).
Proof. settled_exec. Qed.
Lemma settled_deleteDeployments E org rule : keeps settled (DeleteRuleDeployments E org rule).
Proof. settled_exec. Qed.
Lemma settled_deleteDeployment E org rule node : keeps settled (DeleteRuleDeploymentForNode E org rule node).
Proof. settled_exec. Qed.
Lemma settled_insertPending E org rule now deployments : ∀ seen i, keeps settled (insertPending E org rule now seen i deployments).
Proof.
  induction deployments as [|d l IH]; intros seen i; cbn; [apply keeps_ret, _|]. destruct (_ || _); [apply IH|].
  apply keeps_bind; [apply _|settled_exec|intros _; apply IH].
Qed.
Lemma settled_replacePending E org rule deployments now : keeps settled (ReplaceRuleDeploymentPending E org rule deployments now).
Proof. apply keeps_bind; [apply _|apply settled_deleteDeployments|intros _; apply settled_insertPending]. Qed.
Lemma settled_upsertPending E org rule deployment now : keeps settled (UpsertRuleDeploymentPending E org rule deployment now).
Proof. unfold UpsertRuleDeploymentPending. destruct (String.eqb _ _); [apply keeps_ret, _|apply settled_upsertDeployment]. Qed.
#[local] Hint Resolve settled_incrementNode settled_incrementGroup settled_writeAudit settled_upsertDeployment
  settled_deleteDeployments settled_deleteDeployment settled_replacePending settled_upsertPending : keeps.

Lemma settled_bump E org group now : keeps settled (bumpDesiredConfigForNodeGroup E org group now).
Proof. unfold bumpDesiredConfigForNodeGroup. keeps_tac. Qed.
#[local] Hint Resolve settled_bump : keeps.
Lemma settled_sync E org rule now : keeps settled (syncRuleDeploymentPending E org rule now).
Proof. unfold syncRuleDeploymentPending. keeps_tac. Qed.
#[local] Hint Resolve settled_sync : keeps.
Lemma settled_bumpRules E org rules now : keeps settled (bumpRules E org rules now).
Proof. unfold bumpRules, bumpDesiredConfigForNodeGroups. keeps_tac. Qed.
#[local] Hint Resolve settled_bumpRules : keeps.
Lemma settled_bumpTarget E org target now : keeps settled (bumpDesiredConfigForRulesUsingTarget E org target now).
Proof. unfold bumpDesiredConfigForRulesUsingTarget. keeps_tac. Qed.
Lemma settled_bumpTargetGroup E org group now : keeps settled (bumpDesiredConfigForRulesUsingTargetGroup E org group now).
Proof. unfold bumpDesiredConfigForRulesUsingTargetGroup. keeps_tac. Qed.
Lemma settled_reload identity ruleID : keeps settled (reloadRule identity ruleID).
Proof. unfold reloadRule. keeps_tac. Qed.
Lemma settled_when b m : keeps settled m → keeps settled (when b m).
Proof. intros Hm. destruct b; [done|apply keeps_ret, _]. Qed.
End settled.

#[export] Hint Resolve settled_incrementNode settled_incrementGroup settled_writeAudit settled_upsertDeployment
  settled_deleteDeployments settled_deleteDeployment settled_replacePending settled_upsertPending settled_bump settled_sync
  settled_bumpTarget settled_bumpTargetGroup settled_reload settled_when : keeps.

(** ** Upstreams that can be used *)

Section supplied.
Context `{UnicodeTables, UUIDHash, HT : HashedTexts, Authorizer, TargetGroupSchedulers}.

Definition upstreamOf (rule : RuleRecord) : RuleUpstreamInput := {|
  mup_Type := rrec_TargetType rule; mup_TargetID := rrec_TargetID rule; mup_TargetGroupID := rrec_TargetGroupID rule |}.

(** What matters of a member of a group: its target, its weight, whether it is enabled. *)
Definition memberUse (m : TargetGroupMemberRecord) : string * Z * bool := (gmem_TargetID m, gmem_Weight m, gmem_Enabled m).
Record members_usable (db : database) (org scheduler : string) (members : list (string * Z * bool)) : Prop := {
  mu_some : members ≠ [];
  mu_each id weight enabled : (id, weight, enabled) ∈ members → enabled = true ∧ live_target db org id;
  mu_weight : normalizeTargetGroupScheduler scheduler = targetGroupSchedulerLeastLoad →
    ∃ id weight enabled, (id, weight, enabled) ∈ members ∧ 0 < weight }.
Definition usesOf (db : database) (row : TargetGroupRecord) : list (string * Z * bool) :=
  map memberUse (grec_Members (loadTargetGroupMembers db row)).
Definition group_usable (db : database) (org groupID : string) : Prop :=
  ∃ row, live targetGroupsTable org groupID db = Some row ∧
    targetGroupSchedulerSupported (grec_Scheduler row) = true ∧
    members_usable db org (grec_Scheduler row) (usesOf db row).
Definition usable (db : database) (org : string) (upstream : RuleUpstreamInput) : Prop :=
  (mup_Type upstream = "TARGET" ∧ live_target db org (mup_TargetID upstream)) ∨
  (mup_Type upstream = "TARGET_GROUP" ∧ group_usable db org (mup_TargetGroupID upstream)).

(** The rows of a database, live or not, have the names they are stored under;
    the live rules have usable upstreams. *)
Record supplied (db : database) : Prop := {
  sup_targets id t : t_targets (db_targets db) !! id = Some t → trec_ID t = id;
  sup_groups id g : t_target_groups (db_targets db) !! id = Some g → grec_ID g = id;
  sup_rules id row : t_forwarding_rules (db_rules db) !! id = Some row → rrec_DeletedAt row = "" →
    usable db (rrec_OrganizationID row) (upstreamOf row) }.

Lemma available_usable org upstream db : upstream_available org upstream db → usable db org upstream.
Proof.
  intros [Ht|(Ht & row & Hl & Hs & Hne & Hm & Hw)]; [by left|right]. split; [done|]. exists row. split; [done|]. split.
  { unfold targetGroupSchedulerSupported. change (targetGroupSchedulerSupportedByOSS (normalizeTargetGroupScheduler (grec_Scheduler row)) = true) in Hs.
    by rewrite Hs. }
  unfold usesOf. split.
  - intros E%map_eq_nil. done.
  - intros id weight enabled (m & [= -> -> ->] & Hin)%list_elem_of_fmap. by apply Hm.
  - intros E. destruct (Hw E) as (m & Hin & Hpos). exists (gmem_TargetID m), (gmem_Weight m), (gmem_Enabled m).
    split; [|done]. apply list_elem_of_fmap. by exists m.
Qed.

(** An upstream stays usable while its target, its group and the targets of its members do. *)
Lemma members_usable_mono db db' org scheduler members :
  members_usable db org scheduler members →
  (∀ id weight enabled, (id, weight, enabled) ∈ members → live_target db org id → live_target db' org id) →
  members_usable db' org scheduler members.
Proof. intros [H1' H2' H3'] Ht. split; [done| |done]. intros id w e Hm. destruct (H2' _ _ _ Hm) as [He Hl]. split; [done|by eapply Ht]. Qed.
Lemma usable_same db db' org upstream : db_targets db' = db_targets db → usable db org upstream → usable db' org upstream.
Proof.
  intros Ht. assert (∀ o i, live_target db o i → live_target db' o i) as Hl.
  { intros o i. unfold live_target, live. cbn [tbl_rows targetsTable]. by rewrite Ht. }
  intros [[? ?]|(? & row & Hrow & Hs & Hm)]; [left; by split; [|apply Hl]|right]. split; [done|]. exists row.
  unfold live, usesOf, loadTargetGroupMembers in *. cbn [tbl_rows targetGroupsTable] in *. rewrite Ht. split_and!; [done..|].
  eapply members_usable_mono; [exact Hm|]. intros ? ? ? _. apply Hl.
Qed.
Lemma settled_supplied db db' : settled db db' → supplied db → supplied db'.
Proof.
  intros [Ht Hr] [Hst Hsg Hs]. split; [by rewrite Ht..|]. intros id row. rewrite Hr. intros Hrow Hd.
  eapply usable_same; [exact Ht|]. by eapply Hs.
Qed.
Lemma settled_tail {A} (m : tx database A) db a db' : keeps settled m → m db = Ok (a, db') → supplied db → supplied db'.
Proof. intros Hk E. by eapply settled_supplied, Hk. Qed.

(** The steps at the end of an operation. *)
Ltac settled_rest := keeps_rest settled_tail.

(** *** The rule service *)

(** A rule row is written, with an upstream that can be used when the row is live. *)
Lemma write_supplied id row db db' :
  supplied db → db_targets db' = db_targets db →
  t_forwarding_rules (db_rules db') = <[id := row]> (t_forwarding_rules (db_rules db)) →
  (rrec_DeletedAt row = "" → usable db (rrec_OrganizationID row) (upstreamOf row)) → supplied db'.
Proof.
  intros [Hst Hsg Hs] Ht Hr Hrow. split; [by rewrite Ht..|]. intros k r. rewrite Hr.
  intros [[<- <-]|[_ Hk]]%lookup_insert_Some Hd; (eapply usable_same; [exact Ht|]); [by apply Hrow|by eapply Hs].
Qed.

Lemma CreateRule_rows E rule b tags db u db' :
  RuleStore.CreateRule E rule b tags db = Ok (u, db') →
  db_targets db' = db_targets db ∧
  t_forwarding_rules (db_rules db') = <[rrec_ID rule := insertedRule rule b]> (t_forwarding_rules (db_rules db)).
Proof.
  unfold RuleStore.CreateRule. intros HC. tx_inv. apply upsertInboundBinding_ok in E0 as ->.
  apply insertRow_ok in E1 as [_ ->]. apply exec_ok in HC as ->. done.
Qed.
Lemma UpdateRule_rows E rule b tags db u db' :
  RuleStore.UpdateRule E rule b tags db = Ok (u, db') →
  ∃ row, live rulesTable (rrec_OrganizationID rule) (rrec_ID rule) db = Some row ∧ db_targets db' = db_targets db ∧
  t_forwarding_rules (db_rules db') = <[rrec_ID rule := updatedRule rule b row]> (t_forwarding_rules (db_rules db)).
Proof.
  unfold RuleStore.UpdateRule. intros HU. tx_inv. apply upsertInboundBinding_ok in E0 as ->.
  apply updateRow_ok in E1 as (row & Hlive & ->). apply exec_ok in HU as ->. exists row. done.
Qed.
Lemma found_usable org id db r db' :
  supplied db → FindRuleByID org id db = Ok (r, db') →
  db' = db ∧ rrec_OrganizationID r = org ∧ usable db org (upstreamOf r).
Proof.
  intros Hs (-> & row & (Hr & Ho & Hd)%findRow_some & (b & _ & ->)%loadRule_some)%FindRuleByID_ok.
  split; [done|]. split; [exact Ho|]. rewrite <-Ho. exact (sup_rules _ Hs _ _ Hr Hd).
Qed.
Lemma prepare_usable identity ruleID input occupiesPort db u db' :
  prepareRuleMutation identity ruleID input occupiesPort db = Ok (u, db') →
  db' = db ∧ usable db (id_OrganizationID identity) (mi_Upstream input).
Proof.
  unfold prepareRuleMutation. cbv zeta. intros Hp. pose proof (proj1 (prepareRuleMutation_ok _ _ _ _ _ _ _ Hp)) as ->.
  split; [done|]. tx_inv.
  match goal with X : FindNodeGroupByID _ _ _ = _ |- _ => apply FindNodeGroupByID_ok in X as [_ ->] end.
  match goal with X : ensureUpstreamAvailable _ _ _ = Ok (?u, ?s) |- _ =>
    pose proof (keeps_eq _ _ _ _ (upstream_reads _ _) X) as ->; destruct u; by apply available_usable, ensureUpstreamAvailable_ok end.
Qed.

Lemma createRule_supplied E identity input : triple supplied (createRule E identity input) (λ _, supplied).
Proof.
  intros db r db' Hdb Hr. unfold createRule in Hr. cbv zeta in Hr. tx_inv.
  apply prepare_usable in E0 as [-> Hu]. apply (keeps_eq _ _ _ _ (limit_reads _ _ _)) in E1 as ->.
  apply CreateRule_rows in E2 as [Ht Hrows].
  match type of Hrows with t_forwarding_rules (db_rules ?s) = _ => assert (supplied s) as Hs by (by eapply write_supplied) end.
  settled_rest. done.
Qed.
Lemma updateRule_supplied E identity ruleID input : triple supplied (updateRule E identity ruleID input) (λ _, supplied).
Proof.
  intros db r db' Hdb Hr. unfold updateRule in Hr. cbv zeta in Hr. tx_inv.
  apply found_usable in E0 as (-> & Ho & _); [|done]. apply prepare_usable in E2 as [-> Hu].
  assert (mi_Upstream (if mi_EnabledSet input then input else input <| mi_Enabled := rrec_Enabled a |>) = mi_Upstream input) as Eu
    by (by destruct (mi_EnabledSet input)).
  apply UpdateRule_rows in E3 as (row & (_ & Hro & _)%findRow_some & Ht & Hrows).
  match type of Hrows with t_forwarding_rules (db_rules ?s) = _ => assert (supplied s) as Hs end.
  { eapply write_supplied; [exact Hdb|exact Ht|exact Hrows|]. intros _. cbn in Hro.
    change (usable db (rrec_OrganizationID row) (mi_Upstream (if mi_EnabledSet input then input else input <| mi_Enabled := rrec_Enabled a |>))).
    rewrite Hro. change (usable db (rrec_OrganizationID a) (mi_Upstream (if mi_EnabledSet input then input else input <| mi_Enabled := rrec_Enabled a |>))).
    rewrite Ho. exact Hu. }
  settled_rest. done.
Qed.
Lemma setRuleEnabled_supplied E identity ruleID enabled db : supplied db → supplied (setRuleEnabled E identity ruleID enabled db).2.
Proof.
  intros Hdb. unfold setRuleEnabled. apply serve_keeps; [|done]. clear db Hdb. intros db r db' Hdb Hr. cbv zeta in Hr. tx_inv.
  apply found_usable in E0 as (-> & Ho & Hu); [|done].
  match goal with X : (if enabled then _ else _) _ = Ok (_, ?s) |- _ =>
    assert (s = db) as -> by (destruct enabled; [by apply prepareRuleMutation_ok in X as [-> _]|by tx_inv]); clear X end.
  apply UpdateRule_rows in E3 as (row & (_ & Hro & _)%findRow_some & Ht & Hrows).
  match type of Hrows with t_forwarding_rules (db_rules ?s) = _ => assert (supplied s) as Hs end.
  { eapply write_supplied; [exact Hdb|exact Ht|exact Hrows|]. intros _. cbn in Hro.
    change (usable db (rrec_OrganizationID row) (upstreamOf a)). rewrite Hro.
    change (usable db (rrec_OrganizationID a) (upstreamOf a)). rewrite Ho. exact Hu. }
  settled_rest. done.
Qed.
Lemma DeleteRule_supplied E identity ruleID db : supplied db → supplied (DeleteRule E identity ruleID db).2.
Proof.
  intros Hdb. unfold DeleteRule. apply serve_keeps; [|done]. clear db Hdb. intros db r db' Hdb Hr. cbv zeta in Hr. tx_inv.
  apply found_usable in E0 as (-> & Ho & Hu); [|done].
  match goal with X : RuleStore.DeleteRule _ _ _ _ _ = Ok (_, ?s) |- _ =>
    apply updateRow_ok in X as (row & (Hrow & Hro & Hd)%findRow_some & ->) end.
  match goal with X : _ (tbl_with _ _ _) = Ok (_, _) |- _ => revert X end.
  set (s := tbl_with _ _ _). assert (supplied s) as Hs.
  { eapply write_supplied; [exact Hdb|done|reflexivity|]. intros _. exact (sup_rules _ Hdb _ _ Hrow Hd). }
  intros X. settled_rest. done.
Qed.
Lemma CopyRule_supplied E identity ruleID input db : supplied db → supplied (CopyRule E identity ruleID input db).2.
Proof.
  intros Hdb. unfold CopyRule. apply serve_keeps; [|done]. clear db Hdb. intros db r db' Hdb Hr. cbv zeta in Hr. tx_inv.
  apply found_usable in E0 as (-> & Ho & Hu); [|done].
  match goal with X : prepareRuleMutation _ _ _ _ _ = _ |- _ => apply prepareRuleMutation_ok in X as [-> _] end.
  match goal with X : ensureRuleLimitAvailable _ _ _ _ = _ |- _ => apply (keeps_eq _ _ _ _ (limit_reads _ _ _)) in X as -> end.
  match goal with X : RuleStore.CreateRule _ _ _ _ _ = Ok (_, ?s) |- _ => apply CreateRule_rows in X as [Ht Hrows]; assert (supplied s) as Hs end.
  { eapply write_supplied; [exact Hdb|exact Ht|exact Hrows|]. intros _.
    change (usable db (rrec_OrganizationID a) (upstreamOf a)). rewrite Ho. exact Hu. }
  settled_rest. done.
Qed.
Lemma CreateRule_supplied E identity input db : supplied db → supplied (CreateRule E identity input db).2.
Proof.
  intros Hdb. unfold CreateRule. destruct (_ && _); [done|]. destruct (validatedInput input); [|done].
  apply serve_keeps; [|done]. apply createRule_supplied.
Qed.
Lemma UpdateRule_supplied E identity ruleID input db : supplied db → supplied (UpdateRule E identity ruleID input db).2.
Proof.
  intros Hdb. unfold UpdateRule. destruct (validatedInput input); [|done]. apply serve_keeps; [|done]. apply updateRule_supplied.
Qed.
Lemma BatchRules_supplied E identity input db : supplied db → supplied (BatchRules E identity input db).2.
Proof. apply BatchRules_keeps; intros; [by apply setRuleEnabled_supplied|by apply DeleteRule_supplied]. Qed.
End supplied.

(** ** The node service touches neither rules nor targets *)

Section nodes.
Context `{UnicodeTables, UUIDHash, Authorizer, GeoIPResolver}.

Lemma settled_createGroup E g : keeps settled (Database.CreateNodeGroup E g).
Proof. apply settled_insertRow. by intros f db. Qed.
Lemma settled_updateGroup E g : keeps settled (Database.UpdateNodeGroup E g).
Proof. apply settled_updateRow. by intros f db. Qed.
Lemma settled_deleteGroup E org id now : keeps settled (Database.DeleteNodeGroup E org id now).
Proof. apply settled_updateRow. by intros f db. Qed.
Lemma settled_deleteNode E org id now : keeps settled (Database.DeleteNode E org id now).
Proof. apply settled_updateRow. by intros f db. Qed.
Lemma settled_publish E org id addresses now : keeps settled (ReplaceManualNodeDNSPublishAddresses E org id addresses now).
Proof. settled_exec. Qed.
Lemma settled_groups E org id groups : keeps settled (replaceNodeGroups E org id groups).
Proof. settled_exec. Qed.
Lemma settled_listens E org id listens now : keeps settled (replaceNodeListenIPs E org id listens now).
Proof. settled_exec. Qed.
Lemma settled_sends E org id sends now : keeps settled (replaceNodeSendIPs E org id sends now).
Proof. settled_exec. Qed.
Lemma settled_ranges E org id ranges now : keeps settled (replaceNodePortRanges E org id ranges now).
Proof. settled_exec. Qed.
Lemma settled_insertNode E id row : keeps settled (insertRow nodesTable E id row).
Proof. apply settled_insertRow. by intros f db. Qed.
Lemma settled_writeNode E org id f : keeps settled (updateRow nodesTable E org id f).
Proof. apply settled_updateRow. by intros g db. Qed.
#[local] Hint Resolve settled_groups settled_listens settled_sends settled_ranges settled_insertNode settled_writeNode : keeps.
Lemma settled_createNode E n groups listens ranges now : keeps settled (Database.CreateNode E n groups listens ranges now).
Proof. unfold Database.CreateNode. keeps_tac. Qed.
Lemma settled_updateNode E n rg groups rl listens rp ranges now :
  keeps settled (Database.UpdateNode E n rg groups rl listens rp ranges now).
Proof. unfold Database.UpdateNode. keeps_tac. Qed.
Lemma settled_revokeCredential E org id now : keeps settled (RevokeCredential E org id now).
Proof. apply settled_updateWhen. by intros f db. Qed.
Lemma settled_decrementUses E org id now : keeps settled (DecrementNodeEnrollmentProfileUsedCount E org id now).
Proof. apply settled_updateRow. by intros f db. Qed.
Lemma settled_dnsEvaluation E record : keeps settled (UpdateDNSManagedRecordEvaluation E record).
Proof. apply settled_updateRow. by intros f db. Qed.
Lemma settled_dnsLock E org id : keeps settled (LockDNSManagedRecordEvaluation E org id).
Proof. by apply keeps_exec. Qed.
#[local] Hint Resolve settled_createGroup settled_updateGroup settled_deleteGroup settled_deleteNode settled_publish
  settled_createNode settled_updateNode settled_revokeCredential settled_decrementUses settled_dnsEvaluation
  settled_dnsLock : keeps.

Lemma settled_markRecord E org updatedAt code id : keeps settled (markRecord E org updatedAt code id).
Proof. unfold markRecord. keeps_tac. Qed.
#[local] Hint Resolve settled_markRecord : keeps.
Lemma settled_markRecords E org ids updatedAt code : keeps settled (markDNSManagedRecordsPending E org ids updatedAt code).
Proof. unfold markDNSManagedRecordsPending, lockDNSManagedRecords. keeps_tac. Qed.
Lemma reads_collect org changed records : ∀ affected seen, keeps eq (collectForRecords org changed records affected seen).
Proof.
  assert (∀ record instances affected seen, keeps eq (collectForInstances org record instances affected seen)) as Hi.
  { intros record instances. induction instances as [|i l IH]; intros affected seen; cbn; [keeps_tac|].
    apply keeps_bind; [apply _|unfold collectDNSRecordsReferencingInstance; keeps_tac|intros [? ?]; apply IH]. }
  induction records as [|r l IH]; intros affected seen; cbn; [keeps_tac|].
  apply keeps_bind; [apply _|apply Hi|intros [? ?]; apply IH].
Qed.
Lemma settled_reads {A} (m : tx database A) : keeps eq m → keeps settled m.
Proof. intros Hk db a db' E. by apply Hk in E as ->. Qed.
Lemma settled_collect org changed records affected seen : keeps settled (collectForRecords org changed records affected seen).
Proof. apply settled_reads, reads_collect. Qed.
#[local] Hint Resolve settled_markRecords settled_collect : keeps.
Lemma settled_markGroups E org groups updatedAt : keeps settled (markDNSRecordsDependingOnNodeGroupsPending E org groups updatedAt).
Proof. unfold markDNSRecordsDependingOnNodeGroupsPending. keeps_tac. Qed.
Lemma settled_membership E org node previous next now :
  keeps settled (syncRuleDeploymentsForNodeMembershipChange E org node previous next now).
Proof. unfold syncRuleDeploymentsForNodeMembershipChange. keeps_tac. Qed.
Lemma settled_configChange E org node now : keeps settled (syncRuleDeploymentsForNodeConfigChange E org node now).
Proof. unfold syncRuleDeploymentsForNodeConfigChange. keeps_tac. Qed.
#[local] Hint Resolve settled_markGroups settled_membership settled_configChange : keeps.

Lemma settled_createNodeService E identity input : keeps settled (createNode E identity input).
Proof. unfold createNode, ensureNodeGroupsExist, validateNodeSet. keeps_tac. Qed.
Lemma settled_updateNodeService E identity nodeID input : keeps settled (updateNode E identity nodeID input).
Proof. unfold updateNode, targetGroups, ensureNodeGroupsExist, validateNodeSet. keeps_tac. Qed.
Lemma settled_release E node now : keeps settled (releasePendingNodeEnrollmentForNode E node now).
Proof.
  unfold releasePendingNodeEnrollmentForNode, releaseAgentRegistrationCredentialInTx, deleteEnrolledNode, validateNodeSet. keeps_tac.
Qed.
#[local] Hint Resolve settled_release : keeps.
Lemma settled_deleteNodeService E identity nodeID : keeps settled (deleteNode E identity nodeID).
Proof. unfold deleteNode, validateNodeSet. keeps_tac. Qed.
End nodes.

#[export] Hint Resolve settled_createGroup settled_updateGroup settled_deleteGroup settled_markGroups : keeps.
