(* ===== verification/AgentInvariant.v ===== *)
(** * What agents say leaves the layouts deployable

    Connections, hellos, updates, compilations and acknowledgements of agents
    touch neither what nodes offer nor what rules want, except that a rule
    which no node can run is disabled: consistent databases stay consistent,
    and rules keep their upstreams. *)

From S2P Require Import Prelude GoString GoInt GoSort GoTime GoNet Domain Agent ServiceErrors Records ValidatorBase NodeCoverage ConfigCompiler RuleInput TrafficLedger Authorizer Transaction Database RuleStore AgentStore DnsStore MonitorStore PresenceStore Layout Delimited StoreLayout NodeLayout DnsMarking NodePayload ControlService RuleDeployment NodeConfig AgentPresence EnrollmentRelease NodeService RuleService TargetService RuleInvariant NodeInvariant RuleChecks Upstreams.
From coqutil Require Import Datatypes.RecordSetters.
Import TriangleBracketNotations.
#[local] Open Scope Z_scope.

#[export] Hint Unfold FindNodeByID ListNodesByOrganization : reads.

(** The calls that agents make, and those of the users about agents. *)
Inductive agentCall :=
  | CallCompile (E : callEnv) (organizationID nodeID : string) (version : ProtocolVersion) (known : bool)
  | CallConfigBehind (organizationID nodeID : string) (applied now : Z)
  | CallAcknowledge (E : string → callEnv) (organizationID nodeID : string) (input : nodeAck) (now : Z)
  | CallConnected (E : callEnv) (organizationID nodeID : string)
  | CallConnectedFromRemote (E : callEnv) (organizationID nodeID remoteAddr : string)
  | CallDisconnected (E : callEnv) (organizationID nodeID : string)
  | CallMonitorConnected (E : callEnv) (organizationID monitorID : string)
  | CallMonitorDisconnected (E : callEnv) (organizationID monitorID : string)
  | CallHello (E : callEnv) (organizationID nodeID : string) (input : AgentHelloInput)
  | CallUpdatePolicy (E : callEnv) (identity : InternalIdentity) (nodeID : string) (enabled : bool)
  | CallUpgrade (E : callEnv) (identity : InternalIdentity) (nodeID : string)
  | CallUpgrades (E : string → callEnv) (identity : InternalIdentity) (nodeIDs : list string)
  | CallUpdateResult (E : callEnv) (organizationID nodeID status errorMessage : string)
  | CallPendingUpdate (organizationID nodeID : string).

Section calls.
Context `{UnicodeTables, UUIDHash, TT : TimestampColumn, CD : ConfigDigest, Authorizer, GeoIPResolver, AgentRelease}.

(** The database after the call. *)
Definition agentServed (db : database) (c : agentCall) : database :=
  match c with
  | CallCompile E org id version known => (CompileNodeAgentConfigForAgentProtocol E org id version known db).2
  | CallConfigBehind org id applied now => (NodeAgentConfigBehind org id applied now db).2
  | CallAcknowledge E org id input now => (AcknowledgeNodeAgentConfigForAgentProtocol E org id input now db).2
  | CallConnected E org id => (AgentPresence.MarkNodeAgentConnected E org id db).2
  | CallConnectedFromRemote E org id remote => (MarkNodeAgentConnectedFromRemote E org id remote db).2
  | CallDisconnected E org id => (AgentPresence.MarkNodeAgentDisconnected E org id db).2
  | CallMonitorConnected E org id => (AgentPresence.MarkMonitorAgentConnected E org id db).2
  | CallMonitorDisconnected E org id => (AgentPresence.MarkMonitorAgentDisconnected E org id db).2
  | CallHello E org id input => (RecordNodeAgentHello E org id input db).2
  | CallUpdatePolicy E identity id enabled => (UpdateNodeAgentUpdatePolicy E identity id enabled db).2
  | CallUpgrade E identity id => (RequestNodeAgentUpgrade E identity id db).2
  | CallUpgrades E identity ids => (RequestNodeAgentUpgrades E identity ids db).2
  | CallUpdateResult E org id status text => (AgentPresence.RecordNodeAgentUpdateResult E org id status text db).2
  | CallPendingUpdate org id => (PendingNodeAgentUpdate org id db).2
  end.
End calls.

(** A relation of databases that statements about agents keep: they write
    rows of nodes that offer the same, or tables that hold no layout. *)
Class AgentWrites (R : database → database → Prop) := {
  aw_preorder :: PreOrder R;
  aw_node E org id f : same_offer f → keeps R (updateRow nodesTable E org id f);
  aw_node_if_any E org id f : same_offer f → keeps R (updateRowIfAny nodesTable E org id f);
  aw_monitor E org id f : keeps R (updateRow monitorsTable E org id f);
  aw_publish E f : keeps R (exec (env_refuse E) (with_publish_addresses f));
  aw_traffic E l : keeps R (exec (env_refuse E) (with_traffic_of l));
  aw_audit E input : keeps R (writeAudit E input);
  aw_deployment E keep row : keeps R (upsertDeployment E keep row);
  aw_mark {UT : UnicodeTables} E org groups now : keeps R (markDNSRecordsDependingOnNodeGroupsPending E org groups now) }.
#[export] Hint Resolve aw_node aw_node_if_any aw_monitor aw_publish aw_traffic aw_audit aw_deployment aw_mark : keeps.

Section writes.
Context `{UnicodeTables, UUIDHash, TT : TimestampColumn, CD : ConfigDigest, Authorizer, GeoIPResolver, AgentRelease}.
Context (R : database → database → Prop) `{!AgentWrites R}.

Ltac same := first [apply aw_node; by intros n|apply aw_node_if_any; by intros n|apply aw_monitor].

(** ** Statements *)

Lemma aw_connected E org id now : keeps R (PresenceStore.MarkNodeAgentConnected E org id now).
Proof. same. Qed.
Lemma aw_disconnected E org id now : keeps R (PresenceStore.MarkNodeAgentDisconnected E org id now).
Proof. same. Qed.
Lemma aw_version E org id version now : keeps R (UpdateNodeAgentVersion E org id version now).
Proof. same. Qed.
Lemma aw_policy E org id enabled now : keeps R (PresenceStore.UpdateNodeAgentUpdatePolicy E org id enabled now).
Proof. same. Qed.
Lemma aw_requested E org id target now : keeps R (MarkNodeAgentUpdateRequested E org id target now).
Proof. same. Qed.
Lemma aw_satisfied E org id target now : keeps R (MarkNodeAgentUpdateSatisfied E org id target now).
Proof. same. Qed.
Lemma aw_result E org id status text now : keeps R (PresenceStore.RecordNodeAgentUpdateResult E org id status text now).
Proof. same. Qed.
Lemma aw_monitorConnected E org id now : keeps R (PresenceStore.MarkMonitorAgentConnected E org id now).
Proof. same. Qed.
Lemma aw_monitorDisconnected E org id now : keeps R (PresenceStore.MarkMonitorAgentDisconnected E org id now).
Proof. same. Qed.
Lemma aw_upsertAddress E org id type address now : keeps R (UpsertAutoNodeDNSPublishAddress E org id type address now).
Proof. unfold UpsertAutoNodeDNSPublishAddress. keeps_tac. Qed.
Lemma aw_disableAddresses E org id now : keeps R (DisableAutoNodeDNSPublishAddresses E org id now).
Proof. apply aw_publish. Qed.
Lemma aw_assignments E org id rules : keeps R (PresenceStore.RecordNodeRuleTrafficAssignments E org id rules).
Proof. unfold PresenceStore.RecordNodeRuleTrafficAssignments. keeps_tac. Qed.
Lemma aw_ensureDesired E org id version now : keeps R (EnsureDesiredConfigVersionAtLeast E org id version now).
Proof. apply aw_node_if_any, same_offer_if; by intros n. Qed.
Lemma aw_configAck E org id ack now : keeps R (RecordNodeConfigAck E org id ack now).
Proof. apply aw_node_if_any, same_offer_if; [|by intros n]. destruct (String.eqb _ _); by intros n. Qed.
Lemma aw_applied E org node version now deployments : ∀ seen, keeps R (recordApplied E org node version now seen deployments).
Proof.
  induction deployments as [|d l IH]; intros seen; cbn; [apply keeps_ret, _|]. destruct (_ || _); [apply IH|].
  apply keeps_bind; [apply _|apply aw_deployment|intros _; apply IH].
Qed.
Lemma aw_failures E org node version failures now : keeps R (RecordRuleDeploymentFailures E org node version failures now).
Proof.
  apply keeps_each; [apply _|]. intros d. unfold recordFailure. destruct (String.eqb _ _); [apply keeps_ret, _|apply aw_deployment].
Qed.
Lemma aw_when b m : keeps R m → keeps R (when b m).
Proof. intros Hm. destruct b; [done|apply keeps_ret, _]. Qed.
#[local] Hint Resolve aw_connected aw_disconnected aw_version aw_policy aw_requested aw_satisfied aw_result aw_monitorConnected
  aw_monitorDisconnected aw_upsertAddress aw_disableAddresses aw_assignments aw_ensureDesired aw_configAck aw_applied aw_failures
  aw_when : keeps.

(** ** Operations *)

Lemma aw_observe E org id node remote now : keeps R (observeAddress E org id node remote now).
Proof. unfold observeAddress. keeps_tac. Qed.
Lemma aw_markIf changed E org node now : keeps R (markIf changed E org node now).
Proof. unfold markIf. keeps_tac. Qed.
Lemma aw_upgrade E org node target now : keeps R (requestNodeAgentUpgrade E org node target now).
Proof. unfold requestNodeAgentUpgrade. keeps_tac. Qed.
#[local] Hint Resolve aw_observe aw_markIf aw_upgrade : keeps.
Lemma aw_hello E org id input : keeps R (recordHello E org id input).
Proof. unfold recordHello. keeps_tac. Qed.
Lemma aw_updatePolicy E identity id enabled : keeps R (updatePolicy E identity id enabled).
Proof. unfold updatePolicy. keeps_tac. Qed.
Lemma aw_upgradeNode E identity now node : keeps R (upgradeNode E identity now node).
Proof. unfold upgradeNode. keeps_tac. Qed.
#[local] Hint Resolve aw_upgradeNode : keeps.
Lemma aw_upgradeNodes E identity now nodes : keeps R (upgradeNodes E identity now nodes).
Proof.
  induction nodes as [|n l IH]; cbn; [apply keeps_ret, _|]. apply keeps_bind; [apply _|keeps_tac|intros _].
  apply keeps_bind; [apply _|keeps_tac|intros payload]. apply keeps_bind; [apply _|exact IH|intros payloads]. keeps_tac.
Qed.
Lemma aw_compile E org id pv known : keeps R (compileNode E org id pv known).
Proof. unfold compileNode. keeps_tac. Qed.
Lemma aw_appliedRecords org node rules pv known resolved :
  keeps R (ruleDeploymentAppliedRecordsForNode org node rules pv known resolved).
Proof. unfold ruleDeploymentAppliedRecordsForNode. keeps_tac. Qed.
#[local] Hint Resolve aw_appliedRecords : keeps.
Lemma aw_acknowledgeApplied E org id node input text nowTime : keeps R (acknowledgeApplied E org id node input text nowTime).
Proof. unfold acknowledgeApplied, RecordRuleDeploymentApplied. keeps_tac. Qed.
End writes.

#[export] Hint Resolve aw_connected aw_disconnected aw_version aw_requested aw_satisfied aw_observe aw_markIf aw_upgradeNode
  aw_upgradeNodes : keeps.

(** ** The layouts *)

Section layouts.
Context `{UnicodeTables, UUIDHash, HT : HashedTexts, TT : TimestampColumn, CD : ConfigDigest, Authorizer, GeoIPResolver, TargetGroupSchedulers, AgentRelease}.

#[export] Instance quiet_writes : AgentWrites quiet.
Proof.
  split.
  - apply _.
  - intros. by apply quiet_updateRow.
  - intros. by apply quiet_updateRowIfAny.
  - intros. apply quiet_updateOther. intros g db. by apply quiet_same.
  - intros E f. apply keeps_exec. intros db. split; [| |intros o; by apply pls_same].
    + intros Hwn. apply (well_named_nodes db); [done..|apply Hwn|apply Hwn|apply Hwn].
    + intros o c. by rewrite !elem_of_caps.
  - intros. apply keeps_exec. intros db. by apply quiet_same.
  - apply quiet_writeAudit.
  - apply quiet_upsertDeployment.
  - intros. apply quiet_markGroups.
Qed.
#[export] Instance settled_writes : AgentWrites settled.
Proof.
  split.
  - apply _.
  - intros. by apply settled_updateRow.
  - intros E org id f _ db u db' [->|(row & _ & ->)]%updateRowIfAny_ok; [done|by split].
  - intros. by apply settled_updateRow.
  - intros. apply keeps_exec. by split.
  - intros. apply keeps_exec. by split.
  - apply settled_writeAudit.
  - apply settled_upsertDeployment.
  - intros. apply settled_markGroups.
Qed.

(** *** The rule that no node can run *)

Context {NC : NoCollision} {FS : FoldSymmetric}.

Lemma nodesInGroup_same org group db nodes db' :
  nodesInGroup org group db = Ok (nodes, db') → nodes = nodesInGroupFromSet (nodesOf org db) group ∧ db' = db.
Proof. unfold nodesInGroup, ListNodesByOrganization. intros E. tx_inv. done. Qed.

Lemma failurePolicy_consistent E org deployments now ruleID :
  triple consistent (applyFailurePolicy E org deployments now ruleID) (λ _, consistent).
Proof.
  intros db u db' Hdb Hr. unfold applyFailurePolicy in Hr. tx_inv.
  apply found_rule in E0 as (-> & Hid & Ho & Hb & Hbo); [|apply Hdb].
  destruct (_ || _); [by tx_inv|]. tx_inv.
  match goal with X : nodesInGroup _ _ _ = _ |- _ => apply nodesInGroup_same in X as [-> ->] end.
  destruct (_ || _); [by tx_inv|]. tx_inv.
  match goal with H : RuleStore.UpdateRule _ _ _ _ _ = _ |- _ =>
    apply UpdateRule_writes in H as (row & Hlive & Hw); [|apply Hdb|exact Hb|etransitivity; [exact Hbo|symmetry; exact Ho]] end.
  match type of Hw with writes_rule _ _ _ ?s => assert (consistent s) as Hs by (by eapply write_consistent) end.
  keeps_rest quiet_tail. done.
Qed.
Lemma failurePolicy_supplied E org deployments now ruleID :
  triple supplied (applyFailurePolicy E org deployments now ruleID) (λ _, supplied).
Proof.
  intros db u db' Hdb Hr. unfold applyFailurePolicy in Hr. tx_inv.
  apply found_usable in E0 as (-> & Ho & Hu); [|done].
  destruct (_ || _); [by tx_inv|]. tx_inv.
  match goal with X : nodesInGroup _ _ _ = _ |- _ => apply nodesInGroup_same in X as [-> ->] end.
  destruct (_ || _); [by tx_inv|]. tx_inv.
  match goal with X : RuleStore.UpdateRule _ _ _ _ _ = _ |- _ =>
    apply UpdateRule_rows in X as (row & (_ & Hro & _)%findRow_some & Ht & Hrows) end.
  match type of Hrows with t_forwarding_rules (db_rules ?s) = _ => assert (supplied s) as Hs end.
  { eapply write_supplied; [exact Hdb|exact Ht|exact Hrows|]. intros _. cbn in Hro.
    change (usable db (rrec_OrganizationID row) (upstreamOf a)). rewrite Hro.
    change (usable db (rrec_OrganizationID a) (upstreamOf a)). rewrite Ho. exact Hu. }
  keeps_rest settled_tail. done.
Qed.

(** A property of databases that the statements of agents and the policy keep
    holds after every acknowledgement. *)
Section acknowledge.
Context (R : database → database → Prop) `{!AgentWrites R} (P : database → Prop).
Context (kept : ∀ db db', R db db' → P db → P db').
Context (policy : ∀ E org deployments now ruleID, triple P (applyFailurePolicy E org deployments now ruleID) (λ _, P)).

Lemma triple_keeps {A} (m : tx database A) : keeps R m → triple P m (λ _, P).
Proof. intros Hk db a db' Hdb E. by eapply kept, Hdb; eapply Hk. Qed.
Lemma policies_kept E org deployments now ids : ∀ seen, triple P (applyPolicies E org deployments now seen ids) (λ _, P).
Proof.
  induction ids as [|id l IH]; intros seen; cbn; [by apply triple_keeps, keeps_ret, _|]. destruct (_ || _); [apply IH|].
  eapply triple_bind; [apply policy|intros ?; apply IH].
Qed.
Lemma acknowledge_kept E org id input applied nowTime : triple P (acknowledge E org id input applied nowTime) (λ _, P).
Proof.
  unfold acknowledge. eapply triple_bind; [apply triple_keeps; keeps_tac|intros node]. destruct applied.
  { apply triple_keeps, aw_acknowledgeApplied, _. }
  unfold acknowledgeFailed. eapply triple_bind; [apply triple_keeps, aw_configAck, _|intros ?].
  destruct (negb _); [by apply triple_keeps, keeps_ret, _|].
  eapply triple_bind; [apply triple_keeps; keeps_tac|intros rules].
  eapply triple_bind; [apply triple_keeps, aw_when, aw_failures; apply _|intros ?].
  unfold applyRuleFailurePolicies. destruct (is_nil _); [by apply triple_keeps, keeps_ret, _|].
  eapply triple_bind; [apply triple_keeps; keeps_tac|intros deployments]. apply policies_kept.
Qed.

(** *** Every report of an agent, and every request about one *)

Lemma serve_writes {A} (m : tx database A) db : keeps R m → P db → P (serve m db).2.
Proof. intros Hk. apply serve_keeps, triple_keeps, Hk. Qed.

Lemma agentServed_kept c db : P db → P (agentServed db c).
Proof.
  intros Hdb. destruct c; cbn [agentServed].
  - by apply serve_writes; [apply aw_compile, _|].
  - by apply serve_writes; [keeps_tac|].
  - unfold AcknowledgeNodeAgentConfigForAgentProtocol. destruct (_ && _); [done|].
    apply serve_keeps; [apply acknowledge_kept|done].
  - by apply serve_writes; [keeps_tac|].
  - by apply serve_writes; [keeps_tac|].
  - by apply serve_writes; [keeps_tac|].
  - by apply serve_writes; [apply aw_monitorConnected, _|].
  - by apply serve_writes; [apply aw_monitorDisconnected, _|].
  - by apply serve_writes; [apply aw_hello, _|].
  - unfold UpdateNodeAgentUpdatePolicy. destruct (negb _); [done|]. by apply serve_writes; [apply aw_updatePolicy, _|].
  - unfold RequestNodeAgentUpgrade. destruct (negb _); [done|]. by apply serve_writes; [keeps_tac|].
  - unfold RequestNodeAgentUpgrades. destruct (negb _); [done|]. by apply serve_writes; [keeps_tac|].
  - unfold AgentPresence.RecordNodeAgentUpdateResult. destruct (_ && _); [done|]. by apply serve_writes; [apply aw_result, _|].
  - by apply serve_writes; [keeps_tac|].
Qed.
End acknowledge.
End layouts.

Section agents.
Context `{UnicodeTables, UUIDHash, HT : HashedTexts, TT : TimestampColumn, CD : ConfigDigest, Authorizer, GeoIPResolver, TargetGroupSchedulers, AgentRelease}.
Context {NC : NoCollision} {FS : FoldSymmetric}.

Lemma agentServed_consistent c db : consistent db → consistent (agentServed db c).
Proof.
  apply (agentServed_kept quiet); [|apply failurePolicy_consistent]. intros d d' Hq. by apply quiet_consistent.
Qed.
Lemma agentServed_supplied c db : supplied db → supplied (agentServed db c).
Proof.
  apply (agentServed_kept settled); [|apply failurePolicy_supplied]. intros d d' Hq. by apply settled_supplied.
Qed.
End agents.
