(* ===== verification/TargetInvariant.v ===== *)
(** * What the target service keeps

    No operation on targets and target groups touches a layout, and none
    takes the upstream of a rule away: what a live rule forwards to is
    usable afterwards when it was before ([provisioned]). *)

From S2P Require Import Prelude GoString GoInt GoSort Domain ServiceErrors Records ValidatorBase NodeCoverage ConfigCompiler RuleInput Authorizer Transaction Database RuleStore MonitorStore Layout Delimited StoreLayout NodeLayout ControlService RuleDeployment RuleService NodeService TargetService RuleInvariant NodeInvariant RuleChecks Upstreams.
From coqutil Require Import Datatypes.RecordSetters.
Import TriangleBracketNotations.
#[local] Open Scope Z_scope.

(** ** Steps that leave the layouts alone *)

Section quiet.
Context `{UnicodeTables, UUIDHash, HT : HashedTexts, Authorizer, TargetGroupSchedulers}.

Ltac quiet_targets := intros; by apply quiet_same.
Lemma quiet_updateTarget E t : keeps quiet (RuleStore.UpdateTarget E t).
Proof. apply quiet_updateOther. quiet_targets. Qed.
Lemma quiet_deleteTarget E org id now : keeps quiet (RuleStore.DeleteTarget E org id now).
Proof. apply quiet_updateOther. quiet_targets. Qed.
Lemma quiet_insertOther {A} (T : table A) E id row :
  (∀ g db, quiet db (tbl_with T g db)) → keeps quiet (insertRow T E id row).
Proof. intros HT' db u db' [_ ->]%insertRow_ok. apply HT'. Qed.
Lemma quiet_createTarget E t : keeps quiet (RuleStore.CreateTarget E t).
Proof. apply quiet_insertOther. quiet_targets. Qed.
Lemma quiet_members E org id members now : keeps quiet (replaceTargetGroupMembers E org id members now).
Proof. apply keeps_exec. quiet_targets. Qed.
#[local] Hint Resolve quiet_updateTarget quiet_deleteTarget quiet_createTarget quiet_members : keeps.
Lemma quiet_createGroup E g members now : keeps quiet (RuleStore.CreateTargetGroup E g members now).
Proof. unfold RuleStore.CreateTargetGroup. apply keeps_bind; [apply _|apply quiet_insertOther; quiet_targets|intros _; keeps_tac]. Qed.
Lemma quiet_updateGroup E g members now : keeps quiet (RuleStore.UpdateTargetGroup E g members now).
Proof. unfold RuleStore.UpdateTargetGroup. apply keeps_bind; [apply _|apply quiet_updateOther; quiet_targets|intros _; keeps_tac]. Qed.
Lemma quiet_deleteGroup E org id now : keeps quiet (RuleStore.DeleteTargetGroup E org id now).
Proof. apply quiet_updateOther. quiet_targets. Qed.
Lemma quiet_bumpRules E org rules now : keeps quiet (bumpRules E org rules now).
Proof. unfold bumpRules, bumpDesiredConfigForNodeGroups. pose proof @quiet_bump. pose proof @quiet_sync. keeps_tac. Qed.
Lemma quiet_bumpTarget E org target now : keeps quiet (bumpDesiredConfigForRulesUsingTarget E org target now).
Proof. unfold bumpDesiredConfigForRulesUsingTarget. pose proof quiet_bumpRules. keeps_tac. Qed.
Lemma quiet_bumpTargetGroup E org group now : keeps quiet (bumpDesiredConfigForRulesUsingTargetGroup E org group now).
Proof. unfold bumpDesiredConfigForRulesUsingTargetGroup. pose proof quiet_bumpRules. keeps_tac. Qed.
End quiet.

#[export] Hint Resolve quiet_updateTarget quiet_deleteTarget quiet_createTarget quiet_createGroup quiet_updateGroup
  quiet_deleteGroup quiet_bumpTarget quiet_bumpTargetGroup quiet_auditEntry quiet_when : keeps.

(** ** What the checks establish *)

Section checks.
Context `{UnicodeTables, UUIDHash, HT : HashedTexts, Authorizer, TargetGroupSchedulers}.

(** The live rules of an organization. *)
Definition live_rule (db : database) (org : string) (row : RuleRecord) : Prop :=
  ∃ id, live rulesTable org id db = Some row.
Lemma rule_listed org row db :
  well_named db → live_rule db org row → ∃ r, r ∈ rulesOf org db ∧ upstreamOf r = upstreamOf row.
Proof.
  intros Hn [id Hl]. pose proof Hl as (Hr & Ho & _)%findRow_some. destruct (wn_bound _ Hn _ _ Hr) as [b Hb].
  exists (row <| rrec_Binding := loadInboundBindingPortSegments db b |> <| rrec_Tags := loadRuleTags db row |>).
  split; [|done]. apply elem_of_rulesOf. exists id, row. split; [done|]. apply loadRule_some.
  eexists. split; [|done]. unfold bindingAt. by rewrite Hb.
Qed.

(** The upstream needs a target. *)
Definition needs (db : database) (org : string) (upstream : RuleUpstreamInput) (targetID : string) : Prop :=
  (mup_Type upstream = "TARGET" ∧ mup_TargetID upstream = targetID) ∨
  (mup_Type upstream = "TARGET_GROUP" ∧ ∃ row weight enabled,
     live targetGroupsTable org (mup_TargetGroupID upstream) db = Some row ∧ (targetID, weight, enabled) ∈ usesOf db row).

Lemma usable_mono db db' org upstream :
  t_target_groups (db_targets db') = t_target_groups (db_targets db) →
  t_target_group_members (db_targets db') = t_target_group_members (db_targets db) →
  (∀ id, needs db org upstream id → live_target db org id → live_target db' org id) →
  usable db org upstream → usable db' org upstream.
Proof.
  intros Hg Hm Hl [[Et Ht]|(Et & row & Hrow & Hs & Hu)].
  - left. split; [done|]. apply Hl; [by left|done].
  - right. split; [done|]. exists row. split; [unfold live in *; cbn in *; by rewrite Hg|]. split; [done|].
    assert (usesOf db' row = usesOf db row) as -> by (unfold usesOf, loadTargetGroupMembers; by rewrite Hm).
    eapply members_usable_mono; [exact Hu|]. intros id w e Hin. apply Hl. right. split; [done|]. by exists row, w, e.
Qed.

Lemma notUsed_ok org targetID db u db' :
  well_named db → supplied db → ensureTargetNotUsedByRules org targetID db = Ok (u, db') →
  db' = db ∧ ∀ row, live_rule db org row → ¬ needs db org (upstreamOf row) targetID.
Proof.
  intros Hn Hs He. unfold ensureTargetNotUsedByRules, ListRulesByOrganization, ListTargetGroupsByOrganization in He. tx_inv.
  apply each_rejected in E0 as [-> H1']. apply each_rejected in He as [-> H2']. split; [done|].
  intros row Hrow Hneeds. destruct (rule_listed _ _ _ Hn Hrow) as (r & Hr & Eu). rewrite <-Eu in Hneeds.
  destruct Hneeds as [[Et Ei]|(Et & g & w & e & Hl & Hin)].
  - specialize (H1' r Hr). cbn in Et, Ei. by rewrite Et, Ei, !String.eqb_refl in H1'.
  - specialize (H2' r Hr). cbn in Et, Hl. rewrite Et in H2'. cbn [String.eqb Ascii.eqb] in H2'.
    apply andb_false_iff in H2' as [?|H2']; [done|]. apply bool_decide_eq_false in H2'. apply H2'. apply elem_of_list_to_set.
    pose proof Hl as (Hg & _)%findRow_some. cbn in Hg. rewrite <-(sup_groups _ Hs _ _ Hg).
    apply list_elem_of_fmap. exists (loadTargetGroupMembers db g). split; [done|]. apply elem_of_filterb. split.
    + apply list_elem_of_fmap. exists g. split; [done|]. apply elem_of_sort, elem_of_lives. by eexists.
    + unfold usesTarget. apply existsb_elem_of. apply list_elem_of_fmap in Hin as (m & [= -> -> ->] & Hin).
      exists m. split; [done|apply String.eqb_refl].
Qed.

Definition forwards (row : RuleRecord) (groupID : string) : Prop :=
  rrec_TargetType row = "TARGET_GROUP" ∧ rrec_TargetGroupID row = groupID.
Lemma forwardsToGroup_listed org groupID row db :
  well_named db → live_rule db org row → forwards row groupID → ∃ r, r ∈ rulesOf org db ∧ forwardsToGroup groupID r = true.
Proof.
  intros Hn Hrow [Et Eg]. destruct (rule_listed _ _ _ Hn Hrow) as (r & Hr & Eu). exists r. split; [done|].
  unfold forwardsToGroup. injection Eu as E1 E2 E3. by rewrite E1, E3, Et, Eg, !String.eqb_refl.
Qed.
Lemma usedByRules_ok org groupID db used db' :
  well_named db → targetGroupUsedByRules org groupID db = Ok (used, db') →
  db' = db ∧ (used = false → ∀ row, live_rule db org row → ¬ forwards row groupID).
Proof.
  intros Hn Hu. unfold targetGroupUsedByRules, ListRulesByOrganization in Hu. tx_inv. split; [done|].
  intros Hf row Hrow Hfw. destruct (forwardsToGroup_listed _ _ _ _ Hn Hrow Hfw) as (r & Hr & Er).
  apply (not_true_iff_false _) in Hf. apply Hf, existsb_elem_of. by exists r.
Qed.
Lemma groupNotUsed_ok org groupID db u db' :
  well_named db → ensureTargetGroupNotUsedByRules org groupID db = Ok (u, db') →
  db' = db ∧ ∀ row, live_rule db org row → ¬ forwards row groupID.
Proof.
  intros Hn He. unfold ensureTargetGroupNotUsedByRules, ListRulesByOrganization in He. tx_inv.
  apply each_rejected in He as [-> H1']. split; [done|]. intros row Hrow Hfw.
  destruct (forwardsToGroup_listed _ _ _ _ Hn Hrow Hfw) as (r & Hr & Er). specialize (H1' r Hr). congruence.
Qed.

Definition inputUse (i : TargetGroupMemberInput) : string * Z * bool := (tgm_TargetID i, tgm_Weight i, tgm_Enabled i).
Lemma FindTargetByID_ok org id db t db' :
  FindTargetByID org id db = Ok (t, db') → db' = db ∧ live targetsTable org id db = Some t.
Proof. unfold FindTargetByID. intros Hf. tx_inv. by apply found_ok in Hf as [? ->]. Qed.
Lemma membersAvailable_ok org (members : list TargetGroupMemberInput) db u db' :
  each (λ member, reject (negb (tgm_Enabled member)) ErrInvalidInput;;
    target ← FindTargetByID org (tgm_TargetID member);
    reject (negb (trec_Enabled target)) ErrInvalidInput) members db = Ok (u, db') →
  db' = db ∧ ∀ i, i ∈ members → tgm_Enabled i = true ∧ live_target db org (tgm_TargetID i).
Proof.
  revert u. induction members as [|i l IH]; intros u He; cbn in He; tx_inv; [by split; [|intros ? ?%not_elem_of_nil]|].
  match goal with X : FindTargetByID _ _ _ = _ |- _ => apply FindTargetByID_ok in X as [-> Ht] end.
  apply IH in He as [-> Hl]. split; [done|]. intros j [->|Hj]%elem_of_cons; [|by apply Hl].
  split; [by apply negb_false_iff|]. eexists. split; [exact Ht|by apply negb_false_iff].
Qed.
Lemma membersUsable_ok org scheduler members db u db' :
  ensureTargetGroupMembersUsable org scheduler members db = Ok (u, db') →
  db' = db ∧ members_usable db org scheduler (map inputUse members).
Proof.
  intros He. unfold ensureTargetGroupMembersUsable in He. tx_inv.
  match goal with X : each _ _ _ = Ok (_, ?s) |- _ =>
    assert (s = db ∧ ∀ i, i ∈ members → tgm_Enabled i = true ∧ live_target db org (tgm_TargetID i)) as [-> Hall]
      by exact (membersAvailable_ok _ _ _ _ _ X); clear X end.
  split; [done|]. split.
  - by destruct members.
  - intros id w e (i & [= -> -> ->] & Hi)%list_elem_of_fmap. by apply Hall.
  - intros Es. match goal with Y : _ && _ = false |- _ => apply andb_false_iff in Y as [X|X] end.
    + by apply String.eqb_neq in X.
    + apply negb_false_iff, existsb_elem_of in X as (i & Hi & Hw%Z.ltb_lt).
      exists (tgm_TargetID i), (tgm_Weight i), (tgm_Enabled i). split; [|done]. apply list_elem_of_fmap. by exists i.
Qed.
End checks.

(** ** The operations *)

Section provisioned.
Context `{UnicodeTables, UUIDHash, HT : HashedTexts, Authorizer, TargetGroupSchedulers}.

Record provisioned (db : database) : Prop := { pv_named : well_named db; pv_supplied : supplied db }.

Lemma provisioned_tail {A} (m : tx database A) db a db' :
  keeps quiet m → keeps settled m → m db = Ok (a, db') → provisioned db → provisioned db'.
Proof. intros Hq Hs E [Hn Hp]. split; [by eapply Hq|by eapply settled_supplied, Hp; eapply Hs]. Qed.
(** The steps at the end of an operation. *)
Ltac provisioned_rest :=
  repeat match goal with
  | H : ?m ?db = Ok (_, ?db') |- provisioned ?db' =>
      eapply provisioned_tail; [| |exact H|]; [solve [keeps_tac]|solve [keeps_tac]|]; clear H
  end.

(** A target is written: what a live rule needs of it, it still is. *)
Lemma write_target id t db :
  provisioned db → trec_ID t = id →
  (∀ org row, live_rule db org row → needs db org (upstreamOf row) id → live_target db org id →
     trec_OrganizationID t = org ∧ trec_DeletedAt t = "" ∧ trec_Enabled t = true) →
  provisioned (tbl_with targetsTable <[id := t]> db).
Proof.
  intros [Hn [Hst Hsg Hsr]] Hid Hkeep. split.
  { assert (quiet db (tbl_with targetsTable <[id := t]> db)) as Hq by by apply quiet_same. by apply Hq. }
  split; [|done|].
  - intros k t'. cbn. by intros [[<- <-]|[_ Hk]]%lookup_insert_Some; [|by apply Hst].
  - intros k row Hrow Hd. apply (usable_mono db); [done|done| |by eapply Hsr].
    intros i Hneeds Hl. destruct (decide (i = id)) as [->|Hne].
    + destruct (Hkeep (rrec_OrganizationID row) row) as (Ho & Hd' & He); [|done..|].
      { exists k. apply findRow_some. done. }
      exists t. split; [|done]. apply findRow_some. cbn. by rewrite lookup_insert_eq.
    + destruct Hl as (t' & Hl & He). exists t'. split; [|done]. unfold live, findRow in *. cbn in *.
      by rewrite lookup_insert_ne.
Qed.

(** A group is written, with its members: the rules that forward to it can use it. *)
Lemma write_group id g db db' :
  provisioned db → grec_ID g = id →
  quiet db db' → t_forwarding_rules (db_rules db') = t_forwarding_rules (db_rules db) →
  t_targets (db_targets db') = t_targets (db_targets db) →
  t_target_groups (db_targets db') = <[id := g]> (t_target_groups (db_targets db)) →
  (∀ row, grec_ID row ≠ id → usesOf db' row = usesOf db row) →
  (∀ org row, live_rule db org row → forwards row id → group_usable db org id → group_usable db' org id) →
  provisioned db'.
Proof.
  intros [Hn [Hst Hsg Hsr]] Hid Hq Hr Ht Hg Hother Hkeep. split; [by apply Hq|]. split; [by rewrite Ht| |].
  - intros k row. rewrite Hg. by intros [[<- <-]|[_ Hk]]%lookup_insert_Some; [|by apply Hsg].
  - intros k row. rewrite Hr. intros Hrow Hd.
    assert (∀ o i, live_target db o i → live_target db' o i) as Hl.
    { intros o i. unfold live_target, live. cbn [tbl_rows targetsTable]. by rewrite Ht. }
    destruct (Hsr k row Hrow Hd) as [[Et Hlt]|(Et & Hu)]; [left; by split; [|apply Hl]|right]. split; [done|].
    destruct (decide (mup_TargetGroupID (upstreamOf row) = id)) as [E|Hne].
    + rewrite E in *. apply (Hkeep _ row); [|by split|exact Hu]. exists k. apply findRow_some; by split_and!.
    + destruct Hu as (g' & Hlive & Hs & Hm). exists g'. pose proof Hlive as (Hg' & _)%findRow_some.
      split_and!; [|done|].
      * unfold live, findRow in *. cbn [tbl_rows targetGroupsTable] in *. by rewrite Hg, lookup_insert_ne.
      * rewrite Hother by (rewrite (Hsg _ _ Hg'); done). eapply members_usable_mono; [exact Hm|]. intros ? ? ? _. apply Hl.
Qed.

(** *** Members *)

(** What is stored for members that were asked for. *)
Lemma elem_of_stored E org id inputs now db db' g u :
  replaceTargetGroupMembers E org id (toTargetGroupMemberRecords org id inputs) now db = Ok (u, db') →
  grec_OrganizationID g = org → grec_ID g = id → ∀ x, x ∈ usesOf db' g ↔ x ∈ map inputUse inputs.
Proof.
  intros ->%exec_ok Ho Hid x. unfold usesOf, loadTargetGroupMembers. rewrite Ho, Hid.
  set (own := λ m : TargetGroupMemberRecord, String.eqb (gmem_OrganizationID m) org && String.eqb (gmem_TargetGroupID m) id).
  set (stored := imap _ (toTargetGroupMemberRecords org id inputs)).
  change (x ∈ map memberUse (sort_stable groupMemberBefore (List.filter own
    (replaceRows own stored (t_target_group_members (db_targets db))))) ↔ x ∈ map inputUse inputs).
  rewrite select_replaced.
  2:{ intros r (i & m & _ & ->)%elem_of_imap. unfold own. cbn. by rewrite !String.eqb_refl. }
  rewrite !list_elem_of_fmap. setoid_rewrite elem_of_sort. split.
  - intros (m & -> & (i & m' & (input & -> & Hin)%list_elem_of_fmap & ->)%elem_of_imap). by exists input.
  - intros (input & -> & Hin). assert (∃ m, m ∈ stored ∧ memberUse m = inputUse input) as (m & Hm & Em); [|by exists m].
    apply list_elem_of_lookup in Hin as [i Hi]. eexists. split.
    + apply list_elem_of_lookup. exists i. unfold stored. rewrite list_lookup_imap. unfold toTargetGroupMemberRecords.
      change (map ?f inputs) with (f <$> inputs). rewrite list_lookup_fmap, Hi. reflexivity.
    + reflexivity.
Qed.
Lemma members_other E org id members now db u db' g :
  replaceTargetGroupMembers E org id members now db = Ok (u, db') → grec_ID g ≠ id → usesOf db' g = usesOf db g.
Proof.
  intros ->%exec_ok Hne. unfold usesOf, loadTargetGroupMembers.
  apply (f_equal (λ l, map memberUse (sort_stable groupMemberBefore l))). apply select_other.
  - intros r [_ E1%String.eqb_eq]%andb_true_iff. apply andb_false_iff. right. apply String.eqb_neq. congruence.
  - intros r (i & m & _ & ->)%elem_of_imap. cbn. by rewrite !String.eqb_refl.
Qed.
Lemma members_usable_elem db org scheduler l l' :
  (∀ x, x ∈ l ↔ x ∈ l') → members_usable db org scheduler l → members_usable db org scheduler l'.
Proof.
  intros Hl [H1' H2' H3']. split.
  - intros ->. destruct l as [|x l]; [done|]. by apply (not_elem_of_nil x), Hl; left.
  - intros id w e Hin%Hl. by eapply H2'.
  - intros Es. destruct (H3' Es) as (id & w & e & Hin%Hl & Hw). by exists id, w, e.
Qed.

(** A group that forwards for rules is written with members that can be used. *)
Lemma UpdateTargetGroup_provisioned E g inputs now org scheduler (used : bool) db u db' :
  provisioned db → grec_OrganizationID g = org → grec_Scheduler g = scheduler →
  targetGroupSchedulerSupported scheduler = true →
  (if used then members_usable db org scheduler (map inputUse inputs)
   else ∀ row, live_rule db org row → ¬ forwards row (grec_ID g)) →
  RuleStore.UpdateTargetGroup E g (toTargetGroupMemberRecords org (grec_ID g) inputs) now db = Ok (u, db') →
  provisioned db'.
Proof.
  intros Hp <- <- Hs Hused HU. assert (quiet db db') as Hq by by eapply quiet_updateGroup.
  unfold RuleStore.UpdateTargetGroup in HU. tx_inv. apply updateRow_ok in E0 as (row & Hlive & ->).
  pose proof Hlive as (Hrow & Ho & Hd)%findRow_some. cbn in Hrow, Ho, Hd.
  set (g' := row <| grec_Name := grec_Name g |> <| grec_Description := grec_Description g |>
    <| grec_Scheduler := grec_Scheduler g |> <| grec_UpdatedAt := grec_UpdatedAt g |>) in *.
  assert (grec_ID g' = grec_ID g) as Hid by exact (sup_groups _ (pv_supplied _ Hp) _ _ Hrow).
  pose proof (elem_of_stored _ _ _ _ _ _ _ g' _ HU Ho Hid) as Hstored.
  assert (∀ k, grec_ID k ≠ grec_ID g → usesOf db' k = usesOf db k) as Hother.
  { intros k Hk. by rewrite (members_other _ _ _ _ _ _ _ _ k HU Hk). }
  apply exec_ok in HU as ->.
  eapply (write_group (grec_ID g) g'); [exact Hp|exact Hid|exact Hq|done|done|done|exact Hother|].
  intros o r Hr Hf (k & Hk & _ & _). pose proof Hk as (Hk1 & Hk2 & _)%findRow_some. cbn in Hk1, Hk2.
  assert (k = row) as -> by congruence. assert (o = grec_OrganizationID g) as -> by congruence.
  destruct used; [|by destruct (Hused _ Hr)]. exists g'. split; [|split].
  - apply findRow_some. cbn. rewrite lookup_insert_eq. done.
  - exact Hs.
  - eapply members_usable_elem; [intros x; symmetry; apply Hstored|].
    eapply members_usable_mono; [exact Hused|]. done.
Qed.

(** *** Targets *)

Lemma FindTargetGroupByID_ok org id db g db' :
  FindTargetGroupByID org id db = Ok (g, db') →
  db' = db ∧ ∃ row, live targetGroupsTable org id db = Some row ∧ g = loadTargetGroupMembers db row.
Proof.
  unfold FindTargetGroupByID. intros Hf. tx_inv. apply found_ok in Hf as [Hf ->]. split; [done|].
  apply fmap_Some in Hf as (row & Hl & ->). by exists row.
Qed.
Lemma validMembers_reads org scheduler members : keeps eq (ensureTargetGroupMembersValid org scheduler members).
Proof.
  unfold ensureTargetGroupMembersValid. generalize (∅ : gset string).
  induction members as [|m l IH]; intros seen; cbn; keeps_tac.
Qed.
Lemma healthChecks_reads org target : keeps eq (ensureTargetNotUsedByHealthChecks org target).
Proof. unfold ensureTargetNotUsedByHealthChecks. keeps_tac. Qed.

(** The members that are checked, when the group is used. *)
Lemma checkUsed_ok org scheduler used members db u db' :
  when used (ensureTargetGroupMembersUsable org scheduler members) db = Ok (u, db') →
  db' = db ∧ (used = true → members_usable db org scheduler (map inputUse members)).
Proof. destruct used; cbn [when]; intros Hw; [by apply membersUsable_ok in Hw as [-> ?]|by tx_inv]. Qed.

Lemma syncGroup_provisioned E org targetID now selected group :
  grec_OrganizationID group = org →
  triple provisioned (syncGroup E org targetID now selected group) (λ _, provisioned).
Proof.
  intros Ho db u db' Hp Hs. unfold syncGroup in Hs.
  destruct (targetGroupMembersWithTarget _ _ _) as [members changed]. destruct (negb changed); [by tx_inv|].
  cbv zeta in Hs. tx_inv. apply negb_false_iff in H3 as Hsup.
  match goal with X : ensureTargetGroupMembersValid _ _ _ _ = _ |- _ => apply (keeps_eq _ _ _ _ (validMembers_reads _ _ _)) in X as -> end.
  match goal with X : targetGroupUsedByRules _ _ _ = _ |- _ => apply usedByRules_ok in X as [-> Hnot]; [|apply Hp] end.
  match goal with X : when _ (ensureTargetGroupMembersUsable _ _ _) _ = _ |- _ => apply checkUsed_ok in X as [-> Husable] end.
  match goal with X : RuleStore.UpdateTargetGroup _ _ _ _ _ = Ok (_, ?s) |- _ =>
    apply (UpdateTargetGroup_provisioned _ _ _ _ (grec_OrganizationID group) (grec_Scheduler group) a1) in X;
      [|exact Hp|reflexivity|reflexivity|exact Hsup|] end.
  - provisioned_rest. done.
  - destruct a1; [by apply Husable|by apply Hnot].
Qed.
Lemma syncMemberships_provisioned E org targetID groupIDs now :
  triple provisioned (syncTargetGroupMemberships E org targetID groupIDs now) (λ _, provisioned).
Proof.
  intros db u db' Hp Hs. unfold syncTargetGroupMemberships, ListTargetGroupsByOrganization in Hs. tx_inv.
  apply each_rejected in E1 as [-> _]. revert Hp Hs. apply triple_each. intros g Hg. apply syncGroup_provisioned.
  apply list_elem_of_fmap in Hg as (row & -> & Hrow). apply elem_of_sort, elem_of_lives in Hrow as [id Hl].
  exact (live_owner targetGroupsTable _ _ _ _ Hl).
Qed.
Lemma when_provisioned b m : triple provisioned m (λ _, provisioned) → triple provisioned (when b m) (λ _ : (), provisioned).
Proof. intros Hm. destruct b; [done|]. intros db u db' Hp Hs. cbn [when] in Hs. by tx_inv. Qed.

(** A target is disabled only when no rule needs it. *)
Lemma UpdateTarget_provisioned E t old db u db' :
  provisioned db → live targetsTable (trec_OrganizationID t) (trec_ID t) db = Some old →
  (trec_Enabled t = false → trec_Enabled old = true →
     ∀ row, live_rule db (trec_OrganizationID t) row → ¬ needs db (trec_OrganizationID t) (upstreamOf row) (trec_ID t)) →
  RuleStore.UpdateTarget E t db = Ok (u, db') → provisioned db'.
Proof.
  intros Hp Hlive Hnot (row & Hl & ->)%updateRow_ok. assert (row = old) as -> by congruence. clear Hl.
  pose proof Hlive as (Hrow & Ho & Hd)%findRow_some. cbn [targetsTable tbl_owner tbl_deleted tbl_rows] in Hrow, Ho, Hd.
  apply write_target; [done|exact (sup_targets _ (pv_supplied _ Hp) _ _ Hrow)|].
  intros org r Hr Hneeds (t' & Hl & He). pose proof Hl as (Hrow' & Ho' & _)%findRow_some.
  cbn [targetsTable tbl_owner tbl_deleted tbl_rows] in Hrow', Ho'. assert (t' = old) as -> by congruence.
  split_and!; [exact Ho'|exact Hd|]. change (trec_Enabled t = true).
  destruct (trec_Enabled t); [done|]. rewrite <-Ho', Ho in Hr, Hneeds. by destruct (Hnot eq_refl He r).
Qed.
Lemma DeleteTarget_provisioned E org id now db u db' :
  provisioned db → (∀ row, live_rule db org row → ¬ needs db org (upstreamOf row) id) →
  RuleStore.DeleteTarget E org id now db = Ok (u, db') → provisioned db'.
Proof.
  intros Hp Hnot (row & (Hrow & Ho & Hd)%findRow_some & ->)%updateRow_ok.
  cbn [targetsTable tbl_owner tbl_deleted tbl_rows] in Hrow, Ho, Hd.
  apply write_target; [done|exact (sup_targets _ (pv_supplied _ Hp) _ _ Hrow)|].
  intros o r Hr Hneeds (t' & (Hrow' & Ho' & _)%findRow_some & _).
  cbn [targetsTable tbl_owner tbl_deleted tbl_rows] in Hrow', Ho'. assert (t' = row) as -> by congruence.
  rewrite <-Ho', Ho in Hr, Hneeds. by destruct (Hnot r).
Qed.

Lemma createTarget_provisioned E identity input : triple provisioned (createTarget E identity input) (λ _, provisioned).
Proof.
  intros db r db' Hp Hc. unfold createTarget in Hc. cbv zeta in Hc. tx_inv.
  apply insertRow_ok in E0 as [Hnew ->]. apply (when_provisioned _ _ (syncMemberships_provisioned _ _ _ _ _)) in E1.
  - provisioned_rest. done.
  - apply write_target; [done..|]. intros org row _ _ (t & (Ht & _)%findRow_some & _). congruence.
Qed.
Lemma updateTarget_provisioned E identity targetID input :
  triple provisioned (updateTarget E identity targetID input) (λ _, provisioned).
Proof.
  intros db r db' Hp Hu. unfold updateTarget in Hu. cbv zeta in Hu. tx_inv.
  apply FindTargetByID_ok in E0 as [-> Hlive]. pose proof Hlive as (Hrow & Ho & Hd)%findRow_some. cbn in Hrow, Ho, Hd.
  set (org := id_OrganizationID identity) in *. pose proof (sup_targets _ (pv_supplied _ Hp) _ _ Hrow) as Hid.
  match goal with X : when (negb (tin_Enabled input) && trec_Enabled a) _ _ = Ok (_, ?s) |- _ =>
    assert (s = db ∧ (tin_Enabled input = false → trec_Enabled a = true →
      ∀ row, live_rule db org row → ¬ needs db org (upstreamOf row) (trec_ID a))) as [-> Hnot]; [|clear X] end.
  { destruct (tin_Enabled input), (trec_Enabled a); cbn [negb andb when] in E1; tx_inv; [done..| |done].
    match goal with X : ensureTargetNotUsedByRules _ _ _ = _ |- _ => apply notUsed_ok in X as [-> Hnot]; [|apply Hp..] end.
    by apply (keeps_eq _ _ _ _ (healthChecks_reads _ _)) in E1 as ->. }
  rewrite <-Ho in Hnot.
  match goal with X : RuleStore.UpdateTarget _ _ _ = _ |- _ => eapply UpdateTarget_provisioned in X;
    [|exact Hp| |exact Hnot] end.
  2:{ change (live targetsTable (trec_OrganizationID a) (trec_ID a) db = Some a). rewrite Ho, Hid. exact Hlive. }
  match goal with X : when _ (syncTargetGroupMemberships _ _ _ _ _) ?s = _ |- _ =>
    apply (when_provisioned _ _ (syncMemberships_provisioned _ _ _ _ _)) in X; [|provisioned_rest; done] end.
  provisioned_rest. done.
Qed.
Lemma deleteTarget_provisioned E identity targetID : triple provisioned (deleteTarget E identity targetID) (λ _, provisioned).
Proof.
  intros db r db' Hp Hu. unfold deleteTarget in Hu. cbv zeta in Hu. tx_inv.
  apply FindTargetByID_ok in E0 as [-> _]. apply notUsed_ok in E1 as [-> Hnot]; [|apply Hp..].
  apply (keeps_eq _ _ _ _ (healthChecks_reads _ _)) in E2 as ->.
  match goal with X : RuleStore.DeleteTarget _ _ _ _ _ = _ |- _ => apply DeleteTarget_provisioned in X; [|exact Hp|exact Hnot] end.
  provisioned_rest. done.
Qed.

(** *** Target groups *)

Lemma CreateTargetGroup_provisioned E g inputs now db u db' :
  provisioned db → RuleStore.CreateTargetGroup E g (toTargetGroupMemberRecords (grec_OrganizationID g) (grec_ID g) inputs) now db = Ok (u, db') →
  provisioned db'.
Proof.
  intros Hp HC. assert (quiet db db') as Hq by by eapply quiet_createGroup.
  unfold RuleStore.CreateTargetGroup in HC. tx_inv. apply insertRow_ok in E0 as [Hnew ->].
  assert (∀ k, grec_ID k ≠ grec_ID g → usesOf db' k = usesOf db k) as Hother.
  { intros k Hk. by rewrite (members_other _ _ _ _ _ _ _ _ k HC Hk). }
  apply exec_ok in HC as ->.
  eapply (write_group (grec_ID g) (g <| grec_DeletedAt := "" |>)); [exact Hp|done|exact Hq|done|done|done|exact Hother|].
  intros o r _ _ (k & (Hk & _)%findRow_some & _). cbn in Hk, Hnew. congruence.
Qed.
Lemma DeleteTargetGroup_provisioned E org id now db u db' :
  provisioned db → (∀ row, live_rule db org row → ¬ forwards row id) →
  RuleStore.DeleteTargetGroup E org id now db = Ok (u, db') → provisioned db'.
Proof.
  intros Hp Hnot HD. assert (quiet db db') as Hq by by eapply quiet_deleteGroup.
  apply updateRow_ok in HD as (row & (Hrow & Ho & Hd)%findRow_some & ->).
  cbn [targetGroupsTable tbl_owner tbl_deleted tbl_rows] in Hrow, Ho, Hd.
  eapply (write_group id (row <| grec_DeletedAt := now |> <| grec_UpdatedAt := now |>));
    [exact Hp|exact (sup_groups _ (pv_supplied _ Hp) _ _ Hrow)|exact Hq|done..|].
  intros o r Hr Hf (k & (Hk & Hko & _)%findRow_some & _). cbn [targetGroupsTable tbl_owner tbl_deleted tbl_rows] in Hk, Hko.
  assert (k = row) as -> by congruence. rewrite <-Hko, Ho in Hr. by destruct (Hnot r).
Qed.

Lemma createTargetGroup_provisioned E identity input :
  triple provisioned (createTargetGroup E identity input) (λ _, provisioned).
Proof.
  intros db r db' Hp Hu. unfold createTargetGroup in Hu. cbv zeta in Hu. tx_inv.
  match goal with X : ensureTargetGroupMembersValid _ _ _ _ = _ |- _ => apply (keeps_eq _ _ _ _ (validMembers_reads _ _ _)) in X as -> end.
  match goal with X : RuleStore.CreateTargetGroup _ ?g _ _ _ = _ |- _ =>
    apply (CreateTargetGroup_provisioned _ g (targetGroupMembersWithPreservedWeights [] (tgi_Members input))) in X; [|exact Hp] end.
  provisioned_rest. done.
Qed.
Lemma updateTargetGroup_provisioned E identity targetGroupID input :
  triple provisioned (updateTargetGroup E identity targetGroupID input) (λ _, provisioned).
Proof.
  intros db r db' Hp Hu. unfold updateTargetGroup in Hu. cbv zeta in Hu. tx_inv.
  apply FindTargetGroupByID_ok in E0 as (-> & row & Hlive & ->).
  pose proof Hlive as (Hrow & Ho & Hd)%findRow_some. cbn [targetGroupsTable tbl_owner tbl_deleted tbl_rows] in Hrow, Ho, Hd.
  match goal with X : targetGroupUsedByRules _ _ _ = Ok (?b, _) |- _ => apply usedByRules_ok in X as [-> Hnot]; [|apply Hp]; rename b into used end.
  match goal with X : ensureTargetGroupMembersValid _ _ _ _ = _ |- _ => apply (keeps_eq _ _ _ _ (validMembers_reads _ _ _)) in X as -> end.
  match goal with X : when _ (ensureTargetGroupMembersUsable _ _ _) _ = _ |- _ => apply checkUsed_ok in X as [-> Husable] end.
  match goal with X : negb (targetGroupSchedulerSupported (normalizeTargetGroupScheduler _)) = false |- _ => apply negb_false_iff in X as Hsup end.
  match goal with X : RuleStore.UpdateTargetGroup _ _ _ _ _ = Ok (_, ?s) |- _ =>
    apply (UpdateTargetGroup_provisioned _ _ _ _ _ (normalizeTargetGroupScheduler (tgi_Scheduler input)) used) in X; [|exact Hp|exact Ho|reflexivity|exact Hsup|] end.
  - provisioned_rest. done.
  - destruct used; [by apply Husable|by apply Hnot].
Qed.
Lemma deleteTargetGroup_provisioned E identity targetGroupID :
  triple provisioned (deleteTargetGroup E identity targetGroupID) (λ _, provisioned).
Proof.
  intros db r db' Hp Hu. unfold deleteTargetGroup in Hu. cbv zeta in Hu. tx_inv.
  apply FindTargetGroupByID_ok in E0 as (-> & _). apply groupNotUsed_ok in E1 as [-> Hnot]; [|apply Hp].
  assert (keeps eq (ensureTargetGroupNotUsedByHealthChecks (id_OrganizationID identity) targetGroupID)) as Hk
    by (unfold ensureTargetGroupNotUsedByHealthChecks; keeps_tac).
  apply (keeps_eq _ _ _ _ Hk) in E2 as ->.
  match goal with X : RuleStore.DeleteTargetGroup _ _ _ _ _ = _ |- _ => apply DeleteTargetGroup_provisioned in X; [|exact Hp|exact Hnot] end.
  provisioned_rest. done.
Qed.
End provisioned.
