(* ===== verification/DnsOperations.v ===== *)
(** * What calls change of what DNS policies see

    The calls of the rule and target services change nothing that an
    evaluation sees ([unseen]), nor do most reports of agents; an agent that
    comes, goes or is seen at another address changes its node, and the
    records that depend on the groups of the node are marked ([renewed]). *)

From S2P Require Import Prelude GoString GoInt GoSort GoTime GoNet Domain Agent ServiceErrors Records ValidatorBase NodeCoverage ConfigCompiler RuleInput TrafficLedger Authorizer Transaction Database RuleStore AgentStore DnsStore MonitorStore PresenceStore DnsMarking DnsEvaluation NodePayload Layout Delimited StoreLayout DnsWalk DnsFreshness NodeLayout DnsInputs RulePayload ControlService RuleDeployment NodeConfig AgentPresence EnrollmentRelease NodeService RuleService TargetService RuleInvariant NodeInvariant ExampleDatabase ConfigDelivery RuleChecks Upstreams AgentInvariant TargetInvariant.
From coqutil Require Import Datatypes.RecordSetters.
Import TriangleBracketNotations.
#[local] Open Scope Z_scope.

Section operations.
Context `{UnicodeTables, UUIDHash, HT : HashedTexts, TT : TimestampColumn, CD : ConfigDigest, Authorizer, GeoIPResolver, TargetGroupSchedulers, AgentRelease}.

(** ** Calls that change nothing that is seen *)

#[local] Hint Unfold CreateAuditLog writeAudit replaceRuleTags replaceInboundBindingPortSegments upsertInboundBinding
  RuleStore.CreateRule RuleStore.UpdateRule RuleStore.DeleteRule upsertDeployment DeleteRuleDeploymentForNode
  DeleteRuleDeployments ReplaceRuleDeploymentPending UpsertRuleDeploymentPending RecordRuleDeploymentApplied recordFailure
  RecordRuleDeploymentFailures bumpDesiredConfigForNodeGroup bumpDesiredConfigForNodeGroups syncRuleDeploymentPending : reads.

Lemma unseen_insertPending E org rule now deployments : ∀ seen i, keeps unseen (insertPending E org rule now seen i deployments).
Proof.
  induction deployments as [|d l IH]; intros seen i; cbn; [apply keeps_ret, _|]. destruct (_ || _); [apply IH|].
  apply keeps_bind; [apply _|keeps_tac|intros _; apply IH].
Qed.
#[local] Hint Resolve unseen_insertPending : keeps.
Lemma unseen_syncPending E org rule now : keeps unseen (syncRuleDeploymentPending E org rule now).
Proof. keeps_tac. Qed.
Lemma unseen_prepare identity ruleID input enabled : keeps unseen (prepareRuleMutation identity ruleID input enabled).
Proof. unfold prepareRuleMutation, ensureUpstreamAvailable, ensureNoRuleConflicts. keeps_tac. Qed.
Lemma unseen_limit identity owner n : keeps unseen (ensureRuleLimitAvailable identity owner n).
Proof. unfold ensureRuleLimitAvailable. keeps_tac. Qed.
Lemma unseen_reload identity ruleID : keeps unseen (reloadRule identity ruleID).
Proof. unfold reloadRule. keeps_tac. Qed.
#[local] Hint Resolve unseen_syncPending unseen_prepare unseen_limit unseen_reload : keeps.

Lemma unseen_when b m : keeps unseen m → keeps unseen (when b m).
Proof. intros Hm. destruct b; [done|apply keeps_ret, _]. Qed.
#[local] Hint Extern 5 (keeps unseen (when _ _)) => apply unseen_when; keeps_tac : keeps.

Lemma serve_unseen {A} (m : tx database A) db : keeps unseen m → unseen db (serve m db).2.
Proof. intros Hk. apply (serve_keeps (unseen db)); [|done]. intros d a d' Hd E. etransitivity; [exact Hd|]. by eapply Hk. Qed.

Lemma unseen_createRule E identity input : keeps unseen (createRule E identity input).
Proof. unfold createRule. keeps_tac. Qed.
Lemma unseen_updateRule E identity ruleID input : keeps unseen (updateRule E identity ruleID input).
Proof. unfold updateRule. keeps_tac. Qed.
Lemma CreateRule_unseen E identity input db : unseen db (RuleService.CreateRule E identity input db).2.
Proof.
  unfold RuleService.CreateRule. destruct (_ && _); [done|]. destruct (validatedInput _); [|done]. apply serve_unseen, unseen_createRule.
Qed.
Lemma UpdateRule_unseen E identity ruleID input db : unseen db (RuleService.UpdateRule E identity ruleID input db).2.
Proof. unfold RuleService.UpdateRule. destruct (validatedInput _); [|done]. apply serve_unseen, unseen_updateRule. Qed.
Lemma DeleteRule_unseen E identity ruleID db : unseen db (RuleService.DeleteRule E identity ruleID db).2.
Proof. apply serve_unseen. keeps_tac. Qed.
Lemma setRuleEnabled_unseen E identity ruleID enabled db : unseen db (setRuleEnabled E identity ruleID enabled db).2.
Proof. apply serve_unseen. keeps_tac. Qed.
Lemma CopyRule_unseen E identity ruleID input db : unseen db (CopyRule E identity ruleID input db).2.
Proof. apply serve_unseen. keeps_tac. Qed.
Lemma BatchRules_unseen E identity input db : unseen db (BatchRules E identity input db).2.
Proof.
  apply (BatchRules_keeps (unseen db)); [| |done].
  - intros E' ruleID enabled d Hd. etransitivity; [exact Hd|apply setRuleEnabled_unseen].
  - intros E' ruleID d Hd. etransitivity; [exact Hd|apply DeleteRule_unseen].
Qed.

(** *** Targets *)

#[local] Hint Unfold RuleStore.CreateTarget RuleStore.UpdateTarget RuleStore.DeleteTarget replaceTargetGroupMembers
  RuleStore.CreateTargetGroup RuleStore.UpdateTargetGroup RuleStore.DeleteTargetGroup bumpRules
  bumpDesiredConfigForRulesUsingTarget bumpDesiredConfigForRulesUsingTargetGroup targetGroupUsedByRules syncGroup
  syncTargetGroupMemberships ensureTargetNotUsedByRules ensureTargetGroupNotUsedByRules
  ensureTargetGroupNotUsedByHealthChecks ensureTargetNotUsedByHealthChecks ensureTargetGroupMembersUsable : reads.
Lemma unseen_membersValid org scheduler members : keeps unseen (ensureTargetGroupMembersValid org scheduler members).
Proof. intros db u db' E. by apply (keeps_eq _ _ _ _ (validMembers_reads _ _ _)) in E as ->. Qed.
#[local] Hint Resolve unseen_membersValid : keeps.
Lemma CreateTarget_unseen E identity input db : unseen db (TargetService.CreateTarget E identity input db).2.
Proof. unfold TargetService.CreateTarget. destruct (negb _); [done|]. apply serve_unseen. unfold createTarget. keeps_tac. Qed.
Lemma UpdateTarget_unseen E identity id input db : unseen db (TargetService.UpdateTarget E identity id input db).2.
Proof. unfold TargetService.UpdateTarget. destruct (negb _); [done|]. apply serve_unseen. unfold updateTarget. keeps_tac. Qed.
Lemma DeleteTarget_unseen E identity id db : unseen db (TargetService.DeleteTarget E identity id db).2.
Proof. unfold TargetService.DeleteTarget. destruct (negb _); [done|]. apply serve_unseen. unfold deleteTarget. keeps_tac. Qed.
Lemma CreateTargetGroup_unseen E identity input db : unseen db (TargetService.CreateTargetGroup E identity input db).2.
Proof. unfold TargetService.CreateTargetGroup. destruct (negb _); [done|]. apply serve_unseen. unfold createTargetGroup. keeps_tac. Qed.
Lemma UpdateTargetGroup_unseen E identity id input db : unseen db (TargetService.UpdateTargetGroup E identity id input db).2.
Proof. unfold TargetService.UpdateTargetGroup. destruct (negb _); [done|]. apply serve_unseen. unfold updateTargetGroup. keeps_tac. Qed.
Lemma DeleteTargetGroup_unseen E identity id db : unseen db (TargetService.DeleteTargetGroup E identity id db).2.
Proof. unfold TargetService.DeleteTargetGroup. destruct (negb _); [done|]. apply serve_unseen. unfold deleteTargetGroup. keeps_tac. Qed.

(** *** Agents *)

Lemma unseen_version E org id version now : keeps unseen (UpdateNodeAgentVersion E org id version now).
Proof. by apply unseen_updateNode. Qed.
Lemma unseen_policy E org id enabled now : keeps unseen (PresenceStore.UpdateNodeAgentUpdatePolicy E org id enabled now).
Proof. by apply unseen_updateNode. Qed.
Lemma unseen_requested E org id target now : keeps unseen (MarkNodeAgentUpdateRequested E org id target now).
Proof. by apply unseen_updateNode. Qed.
Lemma unseen_satisfied E org id target now : keeps unseen (MarkNodeAgentUpdateSatisfied E org id target now).
Proof. by apply unseen_updateNode. Qed.
Lemma unseen_result E org id status text now : keeps unseen (PresenceStore.RecordNodeAgentUpdateResult E org id status text now).
Proof. by apply unseen_updateNode. Qed.
#[local] Hint Resolve unseen_version unseen_policy unseen_requested unseen_satisfied unseen_result : keeps.
Lemma unseen_upgrade E org node target now : keeps unseen (requestNodeAgentUpgrade E org node target now).
Proof. unfold requestNodeAgentUpgrade. keeps_tac. Qed.
#[local] Hint Resolve unseen_upgrade : keeps.
Lemma unseen_upgradeNode E identity now node : keeps unseen (upgradeNode E identity now node).
Proof. unfold upgradeNode. keeps_tac. Qed.
Lemma unseen_updatePolicy E identity id enabled : keeps unseen (updatePolicy E identity id enabled).
Proof. unfold updatePolicy. keeps_tac. Qed.
#[local] Hint Resolve unseen_upgradeNode unseen_updatePolicy : keeps.
#[local] Hint Unfold PresenceStore.MarkMonitorAgentConnected PresenceStore.MarkMonitorAgentDisconnected
  PresenceStore.RecordNodeRuleTrafficAssignments : reads.
Lemma unseen_ensureDesired E org id version now : keeps unseen (EnsureDesiredConfigVersionAtLeast E org id version now).
Proof. apply unseen_updateNodeIfAny, keepsSeen_if; by intros n. Qed.
Lemma unseen_configAck E org id ack now : keeps unseen (RecordNodeConfigAck E org id ack now).
Proof. apply unseen_updateNodeIfAny, keepsSeen_if; [|by intros n]. destruct (String.eqb _ _); by intros n. Qed.
Lemma unseen_applied E org node version now deployments : ∀ seen, keeps unseen (recordApplied E org node version now seen deployments).
Proof.
  induction deployments as [|d l IH]; intros seen; cbn; [apply keeps_ret, _|]. destruct (_ || _); [apply IH|].
  apply keeps_bind; [apply _|keeps_tac|intros _; apply IH].
Qed.
#[local] Hint Resolve unseen_ensureDesired unseen_configAck unseen_applied : keeps.
Lemma unseen_upgradeNodes E identity now nodes : keeps unseen (upgradeNodes E identity now nodes).
Proof.
  induction nodes as [|n l IH]; cbn; [apply keeps_ret, _|]. apply keeps_bind; [apply _|keeps_tac|intros _].
  apply keeps_bind; [apply _|keeps_tac|intros payload]. apply keeps_bind; [apply _|exact IH|intros payloads]. keeps_tac.
Qed.
Lemma unseen_applyPolicies E org deployments now ids : ∀ seen, keeps unseen (applyPolicies E org deployments now seen ids).
Proof.
  induction ids as [|id l IH]; intros seen; cbn; [apply keeps_ret, _|]. destruct (_ || _); [apply IH|].
  apply keeps_bind; [apply _|unfold applyFailurePolicy; keeps_tac|intros _; apply IH].
Qed.
#[local] Hint Resolve unseen_upgradeNodes unseen_applyPolicies : keeps.
Lemma unseen_acknowledge E org id input applied nowTime : keeps unseen (acknowledge E org id input applied nowTime).
Proof.
  unfold acknowledge, acknowledgeApplied, acknowledgeFailed, ruleDeploymentAppliedRecordsForNode, applyRuleFailurePolicies. keeps_tac.
Qed.

(** ** The addresses that agents are seen at *)

Lemma elem_of_addressesAt org id db p :
  p ∈ addressesAt org id db ↔
  ∃ r, r ∈ t_dns_publish_addresses (db_nodes db) ∧ atNode org id r = true ∧ ndns_Enabled r = true ∧
       p = (ndns_AddressType r, ndns_Address r).
Proof.
  unfold addressesAt, ListNodeDNSPublishAddresses. rewrite elem_of_list_to_set, elem_of_map. setoid_rewrite elem_of_filterb.
  setoid_rewrite elem_of_sort. setoid_rewrite elem_of_filterb. unfold atNode. naive_solver.
Qed.
Lemma elem_of_addresses org id db r :
  r ∈ ListNodeDNSPublishAddresses org id db ↔ r ∈ t_dns_publish_addresses (db_nodes db) ∧ atNode org id r = true.
Proof. unfold ListNodeDNSPublishAddresses. by rewrite elem_of_sort, elem_of_filterb. Qed.

(** Only the addresses of the node changed. *)
Record readdressed (org id : string) (db db' : database) : Prop := {
  ra_touches : touches org id db db';
  ra_nodes : t_nodes (db_nodes db') = t_nodes (db_nodes db);
  ra_groups : t_node_groups (db_nodes db') = t_node_groups (db_nodes db);
  ra_members : t_node_group_members (db_nodes db') = t_node_group_members (db_nodes db) }.
#[local] Instance readdressed_preorder org id : PreOrder (readdressed org id).
Proof. split; [by intros db|]. intros a b c [] []. split; [by etrans|congruence..]. Qed.

Lemma auto_at org id r : autoAddress org id r = true → atNode org id r = true.
Proof. unfold autoAddress, atNode. by intros [? _]%andb_true_iff. Qed.
Lemma readdressed_map org id (own : NodeDNSPublishAddressRecord → bool) f db :
  (∀ r, own r = true → atNode org id r = true ∧ atNode org id (f r) = true) →
  readdressed org id db (with_publish_addresses (map (λ r, if own r then f r else r)) db).
Proof.
  intros Hown. split; [|done..]. apply touches_addresses. intros o k l Hne. apply (filter_mapped own).
  - intros r ->. done.
  - intros r E. rewrite E. destruct (Hown r E). by split; eapply atNode_other.
Qed.
Lemma readdressed_seen org id type address now row db :
  atNode org id row = true → readdressed org id db (with_publish_addresses (replaceSeen org id type address now row) db).
Proof.
  intros Hrow. split; [|done..]. apply touches_addresses. intros o k l Hne. unfold replaceSeen. destruct (existsb _ l).
  - apply (filter_mapped (λ r, autoAddress org id r && String.eqb (ndns_AddressType r) type && String.eqb (ndns_Address r) address)).
    + intros r ->. done.
    + intros r E. rewrite E. apply andb_true_iff in E as [[E _]%andb_true_iff _]. apply auto_at in E.
      split; (eapply atNode_other; [|exact Hne]); exact E.
  - rewrite List.filter_app. cbn. rewrite (atNode_other org id o k row) by done. apply app_nil_r.
Qed.
Lemma readdressed_disable E org id now : keeps (readdressed org id) (DisableAutoNodeDNSPublishAddresses E org id now).
Proof.
  apply keeps_exec. intros db. apply readdressed_map. intros r [E1%auto_at _]%andb_true_iff. by split.
Qed.
Lemma readdressed_upsert E org id type address now : keeps (readdressed org id) (UpsertAutoNodeDNSPublishAddress E org id type address now).
Proof.
  apply keeps_bind; [apply _| |intros _]; apply keeps_exec; intros db.
  - apply readdressed_map. intros r [[[E1%auto_at _]%andb_true_iff _]%andb_true_iff _]%andb_true_iff. by split.
  - apply readdressed_seen. unfold atNode, ofNode. cbn. by rewrite !String.eqb_refl.
Qed.

(** An address that was seen before and no other of its type. *)
Lemma upsert_same E org id node type address now db u db' :
  node_DNSPublishAddresses node = ListNodeDNSPublishAddresses org id db →
  nodeHasEnabledDNSPublishAddress node type address "AUTO" = true →
  nodeHasOtherEnabledAutoDNSPublishAddress node type address = false →
  UpsertAutoNodeDNSPublishAddress E org id type address now db = Ok (u, db') → addressesAt org id db' = addressesAt org id db.
Proof.
  unfold nodeHasEnabledDNSPublishAddress, nodeHasOtherEnabledAutoDNSPublishAddress. intros -> (r0 & Hr0 & E0)%existsb_elem_of Hother Hu.
  rewrite existsb_false in Hother. apply elem_of_addresses in Hr0 as [Hr0 At0].
  apply andb_true_iff in E0 as [[[En0 Et0%String.eqb_eq]%andb_true_iff Ea0%String.eqb_eq]%andb_true_iff Es0]. cbn in Es0.
  unfold UpsertAutoNodeDNSPublishAddress in Hu. tx_inv.
  match goal with X : exec _ _ db = Ok _ |- _ => apply exec_ok in X as -> end. apply exec_ok in Hu as ->.
  apply set_eq. intros p. rewrite !elem_of_addressesAt.
  set (l := t_dns_publish_addresses (db_nodes db)) in *.
  match goal with |- context [with_publish_addresses (replaceSeen ?a ?b ?c ?d ?e ?row) (with_publish_addresses ?f db)] =>
    change (t_dns_publish_addresses (db_nodes (with_publish_addresses (replaceSeen a b c d e row) (with_publish_addresses f db))))
      with (replaceSeen a b c d e row (f l)); assert (f l = l) as -> end.
  { rewrite <-(map_id l) at 2. apply map_ext_in. intros r Hr%list_elem_of_In. destruct (_ && _) eqn:Ec; [|done].
    apply andb_true_iff in Ec as [[[Eauto Et]%andb_true_iff Ea]%andb_true_iff En].
    enough (false = true) by done. rewrite <-(Hother r); [|apply elem_of_addresses; split; [done|by apply auto_at]].
    apply andb_true_iff in Eauto as [_ Es]. by rewrite En, Es, Et, Ea. }
  unfold replaceSeen. rewrite (proj2 (existsb_elem_of _ _)).
  2:{ exists r0. split; [done|]. unfold autoAddress. unfold atNode in At0. by rewrite At0, Es0, Et0, Ea0, !String.eqb_refl. }
  setoid_rewrite elem_of_map. split.
  - intros (r' & (r & -> & Hr) & At & En & ->). destruct (_ && _) eqn:Ec; [|by exists r].
    apply andb_true_iff in Ec as [[_ Et%String.eqb_eq]%andb_true_iff Ea%String.eqb_eq]. exists r0.
    split_and!; [done..|]. rewrite Et0, Ea0, <-Et, <-Ea. reflexivity.
  - intros (r & Hr & At & En & ->). eexists. split; [by exists r|]. destruct (_ && _); by split_and!.
Qed.
Lemma observed E org id node remote now db changed db' :
  node_DNSPublishAddresses node = ListNodeDNSPublishAddresses org id db →
  observeAddress E org id node remote now db = Ok (changed, db') →
  readdressed org id db db' ∧ (changed = false → addressesAt org id db' = addressesAt org id db).
Proof.
  intros Hn. unfold observeAddress. destruct (publicRemoteIP remote) as [ip|].
  - intros Hr. tx_inv. match goal with X : UpsertAutoNodeDNSPublishAddress _ _ _ _ _ _ _ = _ |- _ => rename X into E0 end.
    split; [by eapply readdressed_upsert|]. intros [Eh%negb_false_iff Eo]%orb_false_iff. by eapply upsert_same.
  - destruct (nodeHasEnabledAutoDNSPublishAddress node); intros Hr; tx_inv; [|done]. split; [|done]. by eapply readdressed_disable.
Qed.

(** ** Agents that come and go *)

Lemma well_named_keyed db : well_named db → keyed db.
Proof. intros Hn id n. apply Hn. Qed.

(** A change of one node, and marking if it can be seen. *)
Lemma markIf_renewed E org nid node changed now db db1 ids db2 :
  keyed db → touches org nid db db1 →
  groupsAt org nid db = list_to_set (node_GroupIDs node) → groupsAt org nid db1 = groupsAt org nid db →
  (changed = false → dnsInputs org db1 !! nid = dnsInputs org db !! nid) →
  markIf changed E org node now db1 = Ok (ids, db2) → renewed db db2.
Proof.
  intros Hk Ht Hg Hg1 Hsame Hr. unfold markIf in Hr. destruct changed.
  - eapply touched_marked; [done|exact Ht| | |exact Hr]; apply within_at; [done|done|by eapply to_keyed|congruence].
  - tx_inv. by eapply unseen_renewed, touched_same; auto.
Qed.

(** The row of a node whose agent reports, with the status it gets. *)
Record reports (org nid status : string) (row : NodeRecord) (db db' : database) : Prop := {
  rp_touches : touches org nid db db';
  rp_groups : t_node_groups (db_nodes db') = t_node_groups (db_nodes db);
  rp_members : t_node_group_members (db_nodes db') = t_node_group_members (db_nodes db);
  rp_addresses : t_dns_publish_addresses (db_nodes db') = t_dns_publish_addresses (db_nodes db);
  rp_before : live nodesTable org nid db = Some row;
  rp_after : ∃ row', live nodesTable org nid db' = Some row' ∧ upperStatus row' = status }.

Lemma groupsAt_same org id db db' :
  t_node_groups (db_nodes db') = t_node_groups (db_nodes db) →
  t_node_group_members (db_nodes db') = t_node_group_members (db_nodes db) → groupsAt org id db' = groupsAt org id db.
Proof. intros Hg Hm. unfold groupsAt, listNodeGroupIDs, live. cbn [tbl_rows nodeGroupsTable]. by rewrite Hg, Hm. Qed.
Lemma reports_update E org nid status f db u db' :
  (∀ n, node_ID (f n) = node_ID n ∧ node_OrganizationID (f n) = node_OrganizationID n) →
  (∀ n, node_DeletedAt (f n) = node_DeletedAt n ∧ upperStatus (f n) = status) →
  keyed db → updateRow nodesTable E org nid f db = Ok (u, db') → ∃ row, reports org nid status row db db'.
Proof.
  intros Hf Hs Hk Hu. destruct (touches_updateRow _ _ _ _ _ _ _ Hf Hk Hu) as (Ht & row & Hl & ->). exists row. split; [done..|].
  exists (f row). rewrite (updated_live org nid f) by done. destruct (Hs row) as [-> ?].
  apply findRow_some in Hl as (_ & _ & Hd). cbn in Hd. by rewrite Hd.
Qed.
Lemma connected_reports E org nid now db u db' :
  keyed db → PresenceStore.MarkNodeAgentConnected E org nid now db = Ok (u, db') → ∃ row, reports org nid "ONLINE" row db db'.
Proof. intros Hk. by apply reports_update; [..|done]. Qed.
Lemma disconnected_reports E org nid now db u db' :
  keyed db → PresenceStore.MarkNodeAgentDisconnected E org nid now db = Ok (u, db') → ∃ row, reports org nid "OFFLINE" row db db'.
Proof. intros Hk. by apply reports_update; [..|done]. Qed.

(** The agent reports, perhaps from an address, and what depends on its node is marked. *)
Lemma report_renewed E org nid status row changed now db db1 db2 ids db3 :
  keyed db → reports org nid status row db db1 → readdressed org nid db1 db2 →
  (changed = false → addressesAt org nid db2 = addressesAt org nid db1) →
  markIf (negb (hasStatus status (loadNodeDetails db row)) || changed) E org (loadNodeDetails db row) now db2 = Ok (ids, db3) →
  renewed db db3.
Proof.
  intros Hk [Ht Hg Hm Ha Hl (row' & Hl' & Hs)] [Ht2 Hn2 Hg2 Hm2] Hsame Hr. assert (keyed db1) as Hk1 by (by eapply to_keyed).
  assert (touches org nid db db2) as Ht' by (by etransitivity). assert (keyed db2) as Hk2 by (by eapply to_keyed).
  assert (groupsAt org nid db2 = groupsAt org nid db) as Hg'.
  { transitivity (groupsAt org nid db1); by apply groupsAt_same. }
  pose proof (live_owner nodesTable _ _ _ _ Hl) as Ho. cbn in Ho. apply findRow_some in Hl as Hl0. destruct Hl0 as (Hrow & _ & _).
  pose proof (Hk _ _ Hrow) as Hid.
  eapply markIf_renewed; [exact Hk|exact Ht'| |exact Hg'| |exact Hr].
  - unfold groupsAt. by rewrite <-Ho, <-Hid.
  - intros [Hst%negb_false_iff Hc]%orb_false_iff. rewrite !inputs_at by done.
    assert (live nodesTable org nid db2 = Some row') as -> by (unfold live; cbn [tbl_rows nodesTable]; rewrite Hn2; exact Hl').
    rewrite Hl. cbn. unfold inputAt. rewrite Hg', Hs. apply String.eqb_eq in Hst. change (upperStatus row = status) in Hst.
    rewrite Hst, (Hsame Hc). unfold addressesAt, ListNodeDNSPublishAddresses. by rewrite Ha.
Qed.

(** Nothing is observed by a call that is told no address. *)
Lemma readdressed_refl org nid db : readdressed org nid db db.
Proof. reflexivity. Qed.

Lemma serve_renewed {A} (m : tx database A) db :
  (∀ a db', m db = Ok (a, db') → renewed db db') → renewed db (serve m db).2.
Proof. intros Hm. unfold serve, WithinTx. destruct (m db) as [[a s]|]; cbn; [by eapply Hm|done]. Qed.

Lemma Connected_renewed E org id db : keyed db → renewed db (AgentPresence.MarkNodeAgentConnected E org id db).2.
Proof.
  intros Hk. apply serve_renewed. intros ids db' Hr. tx_inv. cbv zeta in Hr. tx_inv.
  match goal with X : FindNodeByID _ _ _ = _ |- _ => apply FindNodeByID_ok in X as (-> & row & Hl & ->) end.
  match goal with X : PresenceStore.MarkNodeAgentConnected _ _ _ _ _ = _ |- _ =>
    apply connected_reports in X as (row' & Hrep); [|done] end.
  pose proof (rp_before _ _ _ _ _ _ Hrep) as Hl'. rewrite Hl in Hl'. apply (inj Some) in Hl' as <-.
  eapply (report_renewed E org id "ONLINE" row false); [exact Hk|exact Hrep|apply readdressed_refl|done|].
  rewrite orb_false_r. exact Hr.
Qed.
Lemma Disconnected_renewed E org id db : keyed db → renewed db (AgentPresence.MarkNodeAgentDisconnected E org id db).2.
Proof.
  intros Hk. apply serve_renewed. intros ids db' Hr. tx_inv. cbv zeta in Hr. tx_inv.
  match goal with X : FindNodeByID _ _ _ = _ |- _ => apply FindNodeByID_ok in X as (-> & row & Hl & ->) end.
  match goal with X : PresenceStore.MarkNodeAgentDisconnected _ _ _ _ _ = _ |- _ =>
    apply disconnected_reports in X as (row' & Hrep); [|done] end.
  pose proof (rp_before _ _ _ _ _ _ Hrep) as Hl'. rewrite Hl in Hl'. apply (inj Some) in Hl' as <-.
  eapply (report_renewed E org id "OFFLINE" row false); [exact Hk|exact Hrep|apply readdressed_refl|done|].
  rewrite orb_false_r. exact Hr.
Qed.

(** The part that connections and hellos share. *)
Lemma seen_renewed E org id remote now db node db1 u db2 changed db3 ids db4 :
  keyed db → FindNodeByID org id db = Ok (node, db1) →
  PresenceStore.MarkNodeAgentConnected E org id now db1 = Ok (u, db2) →
  observeAddress E org id node remote now db2 = Ok (changed, db3) →
  markIf (negb (hasStatus "ONLINE" node) || changed) E org node now db3 = Ok (ids, db4) → renewed db db4.
Proof.
  intros Hk (-> & row & Hl & ->)%FindNodeByID_ok HC Hobs Hr. apply connected_reports in HC as (row' & Hrep); [|done].
  pose proof (rp_before _ _ _ _ _ _ Hrep) as Hl'. rewrite Hl in Hl'. apply (inj Some) in Hl' as <-.
  assert (node_DNSPublishAddresses (loadNodeDetails db row) = ListNodeDNSPublishAddresses org id db2) as Hn.
  { cbn [loadNodeDetails]. pose proof (live_owner nodesTable _ _ _ _ Hl) as Ho. cbn in Ho.
    apply findRow_some in Hl as (Hrow & _). rewrite <-(Hk _ _ Hrow), <-Ho.
    change (ListNodeDNSPublishAddresses (node_OrganizationID row) (node_ID row) db =
            ListNodeDNSPublishAddresses (node_OrganizationID row) (node_ID row) db2).
    unfold ListNodeDNSPublishAddresses. by rewrite (rp_addresses _ _ _ _ _ _ Hrep). }
  destruct (observed E org id _ _ _ _ _ _ Hn Hobs) as [Hra Hsame]. by eapply report_renewed.
Qed.
Lemma ConnectedFromRemote_renewed E org id remote db : keyed db → renewed db (MarkNodeAgentConnectedFromRemote E org id remote db).2.
Proof. intros Hk. apply serve_renewed. intros ids db' Hr. cbv zeta in Hr. tx_inv. by eapply seen_renewed. Qed.
Lemma Hello_renewed E org id input db : keyed db → renewed db (RecordNodeAgentHello E org id input db).2.
Proof.
  intros Hk. apply serve_renewed. intros payload db' Hr. unfold recordHello in Hr. cbv zeta in Hr. tx_inv.
  keeps_rest unseen_tail. by eapply seen_renewed.
Qed.

Lemma agentServed_renewed c db : keyed db → renewed db (agentServed db c).
Proof.
  intros Hk. destruct c; cbn [agentServed].
  - apply unseen_renewed, serve_unseen. unfold compileNode. keeps_tac.
  - apply unseen_renewed, serve_unseen. keeps_tac.
  - apply unseen_renewed. unfold AcknowledgeNodeAgentConfigForAgentProtocol. destruct (_ && _); [done|]. apply serve_unseen, unseen_acknowledge.
  - by apply Connected_renewed.
  - by apply ConnectedFromRemote_renewed.
  - by apply Disconnected_renewed.
  - apply unseen_renewed, serve_unseen. keeps_tac.
  - apply unseen_renewed, serve_unseen. keeps_tac.
  - by apply Hello_renewed.
  - apply unseen_renewed. unfold UpdateNodeAgentUpdatePolicy. destruct (negb _); [done|]. apply serve_unseen, unseen_updatePolicy.
  - apply unseen_renewed. unfold RequestNodeAgentUpgrade. destruct (negb _); [done|]. apply serve_unseen. keeps_tac.
  - apply unseen_renewed. unfold RequestNodeAgentUpgrades. destruct (negb _); [done|]. apply serve_unseen. keeps_tac.
  - apply unseen_renewed. unfold AgentPresence.RecordNodeAgentUpdateResult. destruct (_ && _); [done|]. apply serve_unseen, unseen_result.
  - apply unseen_renewed, serve_unseen. keeps_tac.
Qed.
End operations.
