(* ===== verification/ControlPlane.v ===== *)
(** * The control plane as it is served

    A history is a sequence of calls to the rule, node and target services and
    of what agents report, each with the identity that makes it, its input and
    the environment it runs in.  Whatever the history, the layouts stay deployable: each enabled
    rule is carried by all nodes of its group, and no two enabled rules want
    the same traffic of a node; and every live rule keeps an upstream that it
    can use. *)

From S2P Require Import Prelude GoString GoInt GoSort GoTime GoNet Domain Agent ServiceErrors Records ValidatorBase NodeCoverage ConfigCompiler RuleInput TrafficLedger Authorizer Transaction Database RuleStore AgentStore DnsStore MonitorStore PresenceStore NodePayload Layout Delimited StoreLayout RulePayload ControlService RuleDeployment NodeConfig AgentPresence EnrollmentRelease NodeService RuleService TargetService RuleInvariant NodeInvariant ExampleDatabase ConfigDelivery RuleChecks Upstreams AgentInvariant TargetInvariant.
#[local] Open Scope Z_scope.

Section control_plane.
Context `{UnicodeTables, UUIDHash, HT : HashedTexts, TT : TimestampColumn, CD : ConfigDigest, Authorizer, GeoIPResolver, TargetGroupSchedulers, AgentRelease}.

Inductive call :=
  | CallCreateRule (E : callEnv) (identity : InternalIdentity) (input : RuleMutationInput)
  | CallGetRule (identity : InternalIdentity) (ruleID : string)
  | CallListRules (identity : InternalIdentity)
  | CallUpdateRule (E : callEnv) (identity : InternalIdentity) (ruleID : string) (input : RuleMutationInput)
  | CallDeleteRule (E : callEnv) (identity : InternalIdentity) (ruleID : string)
  | CallEnableRule (E : callEnv) (identity : InternalIdentity) (ruleID : string)
  | CallDisableRule (E : callEnv) (identity : InternalIdentity) (ruleID : string)
  | CallCopyRule (E : callEnv) (identity : InternalIdentity) (ruleID : string) (input : RuleCopyInput)
  | CallBatchRules (E : string → callEnv) (identity : InternalIdentity) (input : RuleBatchInput)
  | CallCreateNodeGroup (E : callEnv) (identity : InternalIdentity) (input : GroupMutationInput)
  | CallUpdateNodeGroup (E : callEnv) (identity : InternalIdentity) (nodeGroupID : string) (input : GroupMutationInput)
  | CallDeleteNodeGroup (E : callEnv) (identity : InternalIdentity) (nodeGroupID : string)
  | CallCreateNode (E : callEnv) (identity : InternalIdentity) (input : NodeMutationInput)
  | CallUpdateNode (E : callEnv) (identity : InternalIdentity) (nodeID : string) (input : NodeMutationInput)
  | CallDeleteNode (E : callEnv) (identity : InternalIdentity) (nodeID : string)
  | CallCreateTarget (E : callEnv) (identity : InternalIdentity) (input : TargetMutationInput)
  | CallUpdateTarget (E : callEnv) (identity : InternalIdentity) (targetID : string) (input : TargetMutationInput)
  | CallDeleteTarget (E : callEnv) (identity : InternalIdentity) (targetID : string)
  | CallCreateTargetGroup (E : callEnv) (identity : InternalIdentity) (input : TargetGroupMutationInput)
  | CallUpdateTargetGroup (E : callEnv) (identity : InternalIdentity) (targetGroupID : string) (input : TargetGroupMutationInput)
  | CallDeleteTargetGroup (E : callEnv) (identity : InternalIdentity) (targetGroupID : string)
  | CallAgent (c : agentCall).

(** The database after the call. *)
Definition served (db : database) (c : call) : database :=
  match c with
  | CallCreateRule E identity input => (CreateRule E identity input db).2
  | CallGetRule identity ruleID => (GetRule identity ruleID db).2
  | CallListRules identity => (ListRules identity db).2
  | CallUpdateRule E identity ruleID input => (UpdateRule E identity ruleID input db).2
  | CallDeleteRule E identity ruleID => (DeleteRule E identity ruleID db).2
  | CallEnableRule E identity ruleID => (EnableRule E identity ruleID db).2
  | CallDisableRule E identity ruleID => (DisableRule E identity ruleID db).2
  | CallCopyRule E identity ruleID input => (CopyRule E identity ruleID input db).2
  | CallBatchRules E identity input => (BatchRules E identity input db).2
  | CallCreateNodeGroup E identity input => (CreateNodeGroup E identity input db).2
  | CallUpdateNodeGroup E identity id input => (UpdateNodeGroup E identity id input db).2
  | CallDeleteNodeGroup E identity id => (DeleteNodeGroup E identity id db).2
  | CallCreateNode E identity input => (CreateNode E identity input db).2
  | CallUpdateNode E identity id input => (UpdateNode E identity id input db).2
  | CallDeleteNode E identity id => (DeleteNode E identity id db).2
  | CallCreateTarget E identity input => (CreateTarget E identity input db).2
  | CallUpdateTarget E identity id input => (UpdateTarget E identity id input db).2
  | CallDeleteTarget E identity id => (DeleteTarget E identity id db).2
  | CallCreateTargetGroup E identity input => (CreateTargetGroup E identity input db).2
  | CallUpdateTargetGroup E identity id input => (UpdateTargetGroup E identity id input db).2
  | CallDeleteTargetGroup E identity id => (DeleteTargetGroup E identity id db).2
  | CallAgent c => agentServed db c
  end.

(** What is asked of the environment: new identifiers are not empty (and those
    of node groups hold no bar), the clock answers a time, and the texts that
    are hashed are among those that do not collide. *)
Definition sane (c : call) : Prop :=
  match c with
  | CallCreateRule E identity input => env_newID E ≠ "" ∧ hashes identity input
  | CallUpdateRule E identity ruleID input => hashes identity input
  | CallCopyRule E identity ruleID input => env_newID E ≠ ""
  | CallCreateNodeGroup E identity input => lacks bar (env_newID E)
  | CallDeleteNode E identity nodeID => env_now E ≠ ""
  | _ => True
  end.

Lemma serve_reads {A} (m : tx database A) db : keeps eq m → (serve m db).2 = db.
Proof. intros Hk. symmetry. apply (serve_keeps (eq db)); [|done]. intros d a d' -> E. by eapply Hk. Qed.
Lemma serve_quiet {A} (m : tx database A) db : keeps quiet m → consistent db → consistent (serve m db).2.
Proof. intros Hk. apply serve_keeps. intros d a d' Hd E. by eapply quiet_tail. Qed.
Lemma serve_settled {A} (m : tx database A) db : keeps settled m → supplied db → supplied (serve m db).2.
Proof. intros Hk. apply serve_keeps. intros d a d' Hd E. by eapply settled_tail. Qed.
Lemma serve_provisioned {A} (m : tx database A) db :
  triple provisioned m (λ _, provisioned) → well_named db → supplied db → supplied (serve m db).2.
Proof.
  intros Hk Hn Hs. apply (serve_keeps provisioned m db Hk). by split.
Qed.

Lemma GetRule_reads identity ruleID db : (GetRule identity ruleID db).2 = db.
Proof. apply serve_reads. keeps_tac. Qed.
Lemma ListRules_reads identity db : (ListRules identity db).2 = db.
Proof.
  unfold ListRules. destruct (negb _); [done|]. apply serve_reads. cbv zeta.
  apply keeps_bind; [apply _|keeps_tac|intros rules]. apply keeps_bind; [apply _|keeps_tac|intros deployments].
  induction rules as [|rule l IH]; cbn [foldr]; [keeps_tac|]. destruct (negb _); [done|].
  apply keeps_bind; [apply _|keeps_tac|intros nodes]. apply keeps_bind; [apply _|exact IH|intros payloads]. keeps_tac.
Qed.

(** *** The target service and the layouts *)

Lemma quiet_membersValid org scheduler members : keeps quiet (ensureTargetGroupMembersValid org scheduler members).
Proof. intros db u db' E. by apply (keeps_eq _ _ _ _ (validMembers_reads _ _ _)) in E as ->. Qed.
Lemma quiet_membersUsable org scheduler members : keeps quiet (ensureTargetGroupMembersUsable org scheduler members).
Proof. unfold ensureTargetGroupMembersUsable. keeps_tac. Qed.
#[local] Hint Resolve quiet_membersValid quiet_membersUsable : keeps.
Lemma quiet_syncMemberships E org target groups now : keeps quiet (syncTargetGroupMemberships E org target groups now).
Proof.
  unfold syncTargetGroupMemberships, syncGroup, targetGroupUsedByRules. keeps_tac.
Qed.
Lemma quiet_targetChecks org target :
  keeps quiet (ensureTargetNotUsedByRules org target;; ensureTargetNotUsedByHealthChecks org target).
Proof. unfold ensureTargetNotUsedByRules, ensureTargetNotUsedByHealthChecks. keeps_tac. Qed.
#[local] Hint Resolve quiet_syncMemberships quiet_targetChecks : keeps.
Lemma quiet_createTargetService E identity input : keeps quiet (createTarget E identity input).
Proof. unfold createTarget. keeps_tac. Qed.
Lemma quiet_updateTargetService E identity id input : keeps quiet (updateTarget E identity id input).
Proof. unfold updateTarget. keeps_tac. Qed.
Lemma quiet_deleteTargetService E identity id : keeps quiet (deleteTarget E identity id).
Proof. unfold deleteTarget, ensureTargetNotUsedByRules, ensureTargetNotUsedByHealthChecks. keeps_tac. Qed.
Lemma quiet_createGroupService E identity input : keeps quiet (createTargetGroup E identity input).
Proof. unfold createTargetGroup. keeps_tac. Qed.
Lemma quiet_updateGroupService E identity id input : keeps quiet (updateTargetGroup E identity id input).
Proof. unfold updateTargetGroup, targetGroupUsedByRules. keeps_tac. Qed.
Lemma quiet_deleteGroupService E identity id : keeps quiet (deleteTargetGroup E identity id).
Proof.
  unfold deleteTargetGroup, ensureTargetGroupNotUsedByRules, ensureTargetGroupNotUsedByHealthChecks. keeps_tac.
Qed.

(** *** Every call *)

Context {NC : NoCollision} {FS : FoldSymmetric}.

Lemma served_consistent c db : sane c → consistent db → consistent (served db c).
Proof.
  intros Hs Hdb. destruct c; cbn [sane served] in *.
  - destruct Hs. by apply CreateRule_consistent.
  - by rewrite GetRule_reads.
  - by rewrite ListRules_reads.
  - by apply UpdateRule_consistent.
  - by apply DeleteRule_consistent.
  - by apply setRuleEnabled_consistent.
  - by apply setRuleEnabled_consistent.
  - by apply CopyRule_consistent.
  - by apply BatchRules_consistent.
  - by apply CreateNodeGroup_consistent.
  - by apply UpdateNodeGroup_consistent.
  - by apply DeleteNodeGroup_consistent.
  - by apply CreateNode_consistent.
  - by apply UpdateNode_consistent.
  - by apply DeleteNode_consistent.
  - unfold CreateTarget. destruct (negb _); [done|]. by apply serve_quiet; [apply quiet_createTargetService|].
  - unfold UpdateTarget. destruct (negb _); [done|]. by apply serve_quiet; [apply quiet_updateTargetService|].
  - unfold DeleteTarget. destruct (negb _); [done|]. by apply serve_quiet; [apply quiet_deleteTargetService|].
  - unfold CreateTargetGroup. destruct (negb _); [done|]. by apply serve_quiet; [apply quiet_createGroupService|].
  - unfold UpdateTargetGroup. destruct (negb _); [done|]. by apply serve_quiet; [apply quiet_updateGroupService|].
  - unfold DeleteTargetGroup. destruct (negb _); [done|]. by apply serve_quiet; [apply quiet_deleteGroupService|].
  - by apply agentServed_consistent.
Qed.

Lemma served_supplied c db : well_named db → supplied db → supplied (served db c).
Proof.
  intros Hn Hs. destruct c; cbn [served].
  - by apply CreateRule_supplied.
  - by rewrite GetRule_reads.
  - by rewrite ListRules_reads.
  - by apply UpdateRule_supplied.
  - by apply DeleteRule_supplied.
  - by apply setRuleEnabled_supplied.
  - by apply setRuleEnabled_supplied.
  - by apply CopyRule_supplied.
  - by apply BatchRules_supplied.
  - unfold CreateNodeGroup. destruct (negb _); [done|]. apply serve_settled; [|done]. keeps_tac.
  - unfold UpdateNodeGroup. destruct (negb _); [done|]. apply serve_settled; [|done]. keeps_tac.
  - unfold DeleteNodeGroup. destruct (negb _); [done|]. apply serve_settled; [|done].
    unfold ensureNoRulesForNodeGroup, ensureNoNodesForNodeGroup, ensureNoDNSInstancesForNodeGroup,
      ensureNoNodeEnrollmentProfilesForNodeGroup. keeps_tac.
  - unfold CreateNode. destruct (negb _); [done|]. destruct (dataplaneInput _ _ _); [|done].
    destruct (_ && _); [done|]. destruct (ensureCanManageNodeGroups _ _); [|done].
    by apply serve_settled; [apply settled_createNodeService|].
  - unfold UpdateNode. destruct (negb _); [done|]. destruct (dataplaneInput _ _ _); [|done].
    by apply serve_settled; [apply settled_updateNodeService|].
  - unfold DeleteNode. destruct (negb _); [done|]. by apply serve_settled; [apply settled_deleteNodeService|].
  - unfold CreateTarget. destruct (negb _); [done|]. by apply serve_provisioned; [apply createTarget_provisioned|..].
  - unfold UpdateTarget. destruct (negb _); [done|]. by apply serve_provisioned; [apply updateTarget_provisioned|..].
  - unfold DeleteTarget. destruct (negb _); [done|]. by apply serve_provisioned; [apply deleteTarget_provisioned|..].
  - unfold CreateTargetGroup. destruct (negb _); [done|]. by apply serve_provisioned; [apply createTargetGroup_provisioned|..].
  - unfold UpdateTargetGroup. destruct (negb _); [done|]. by apply serve_provisioned; [apply updateTargetGroup_provisioned|..].
  - unfold DeleteTargetGroup. destruct (negb _); [done|]. by apply serve_provisioned; [apply deleteTargetGroup_provisioned|..].
  - by apply agentServed_supplied.
Qed.

Lemma served_all calls db :
  Forall sane calls → consistent db → supplied db → consistent (foldl served db calls) ∧ supplied (foldl served db calls).
Proof.
  intros Hc. revert db. induction Hc as [|c l Hc Hl IH]; intros db Hdb Hs; cbn; [done|].
  apply IH; [by apply served_consistent|]. by apply served_supplied; [apply Hdb|].
Qed.

(** C6. Whatever calls of the rule, node and target services are served and whatever agents report, by whatever
    identities, in whatever order and with whatever the database refuses, the layouts stay deployable: no two
    enabled rules ever want the same traffic of a node, and each is carried by all nodes of its group. *)
Theorem rule_service_invariant calls db :
  Forall sane calls → consistent db → consistent (foldl served db calls).
Proof.
  intros Hc. revert db. induction Hc as [|c l Hc Hl IH]; intros db Hdb; cbn; [done|].
  by apply IH, served_consistent.
Qed.

End control_plane.

#[export] Instance example_geoip : GeoIPResolver := None.
#[export] Instance example_schedulers : TargetGroupSchedulers := None.
#[export] Instance example_release : AgentRelease := {| agentReleaseVersion := "1.2.0"; buildVersion := "dev" |}.
Import DeliveryExamples.

Lemma example_supplied : supplied example_database.
Proof.
  split.
  - intros id t Ht. apply (singleton_key _ _ _ _ _ eq_refl) in Ht as [<- <-]. reflexivity.
  - intros id g Hg. discriminate Hg.
  - intros id r Hr. discriminate Hr.
Qed.

(** An update of a node that leaves it one port for each rule. *)
Definition example_narrowing : NodeMutationInput := {|
  nin_Name := ""; nin_NameProvided := false; nin_GroupIDs := []; nin_GroupIDsProvided := false; nin_ListenIPs := [];
  nin_ListenIPsProvided := false; nin_SendIPs := []; nin_SendIPsProvided := false; nin_PortRanges := [];
  nin_PortRangesProvided := false; nin_MaxRulePorts := 1; nin_MaxRulePortsProvided := true;
  nin_DNSPublishAddresses := []; nin_DNSPublishAddressesProvided := false; nin_PublicDescription := "";
  nin_PublicDescriptionProvided := false; nin_DataplaneMode := ""; nin_DataplaneModeProvided := false;
  nin_DataplaneConflictPolicy := ""; nin_DataplaneConflictPolicyProvided := false |}.
Definition example_disabled_target : TargetMutationInput := {|
  tin_Name := "web"; tin_Host := "10.0.0.1"; tin_Port := 80; tin_Enabled := false; tin_TargetGroupIDs := [];
  tin_TargetGroupIDsProvided := false |}.

(** A second rule that wants ports of the first is refused, and so is what would leave the rules without their
    node or their target. *)
Definition example_calls : list call := [
  CallCreateRule (example_env "r1") example_identity (example_input "web" 80 90);
  CallCreateRule (example_env "r2") example_identity (example_input "clash" 85 86);
  CallCreateRule (example_env "r3") example_identity (example_input "next" 91 96);
  CallAgent (CallHello (example_env "") "o1" "n1"
    {| hello_Version := "1.1.0"; hello_Commit := ""; hello_BuildTime := ""; hello_RemoteAddr := "198.51.100.7:4711" |});
  CallAgent (CallCompile (example_env "") "o1" "n1" CurrentProtocolVersion true);
  CallAgent (CallAcknowledge example_env "o1" "n1" (report "FAILED" 2 [inUse ["r3"]]) 1735689600000000000);
  CallUpdateNode (example_env "") example_identity "n1" example_narrowing;
  CallDeleteNode (example_env "") example_identity "n1";
  CallUpdateTarget (example_env "") example_identity "t1" example_disabled_target;
  CallDeleteTarget (example_env "") example_identity "t1";
  CallDisableRule (example_env "") example_identity "r1";
  CallUpdateRule (example_env "") example_identity "r3" (example_input "next" 85 86)].
Lemma example_calls_sane : Forall sane example_calls.
Proof. repeat constructor; done. Qed.
Lemma rule_service_invariant_witness :
  map pl_ID (pls "o1" (foldl served example_database example_calls)) = ["r3"] ∧
  consistent (foldl served example_database example_calls).
Proof.
  split; [vm_compute; reflexivity|].
  apply (rule_service_invariant example_calls); [exact example_calls_sane|exact example_consistent].
Defined.
