(* ===== verification/DnsHistory.v ===== *)
(** * DNS policies follow the nodes: every call

    The operations on node groups and nodes mark the records that depend on
    the groups of the node, before and after.  Whatever the history of the
    control plane, a managed record that is live afterwards is pending, or as
    it was before with the same evaluation. *)

From S2P Require Import Prelude GoString GoFloat GoJson GoInt GoSort GoTime GoNet Domain Agent ServiceErrors Records ValidatorBase NodeCoverage ConfigCompiler RuleInput TrafficLedger Authorizer Transaction Database RuleStore AgentStore DnsStore MonitorStore PresenceStore DnsMarking DnsEvaluation NodePayload Layout Delimited StoreLayout DnsWalk DnsFreshness NodeLayout RulePayload ControlService DnsInputs RuleDeployment NodeConfig AgentPresence EnrollmentRelease NodeService RuleService TargetService RuleInvariant NodeInvariant ExampleDatabase ConfigDelivery RuleChecks Upstreams AgentInvariant TargetInvariant ControlPlane DnsOperations.
From coqutil Require Import Datatypes.RecordSetters.
Import TriangleBracketNotations.
#[local] Open Scope Z_scope.

Section history.
Context `{UnicodeTables, UUIDHash, HT : HashedTexts, TT : TimestampColumn, CD : ConfigDigest, Authorizer, GeoIPResolver, TargetGroupSchedulers, AgentRelease}.

#[local] Hint Unfold CreateAuditLog writeAudit upsertDeployment DeleteRuleDeploymentForNode UpsertRuleDeploymentPending : reads.
#[local] Hint Extern 5 (keeps unseen (when _ _)) => apply unseen_when; keeps_tac : keeps.

(** ** Node groups *)

Lemma unseen_groups f db :
  (∀ org k n, live nodesTable org k db = Some n →
     listNodeGroupIDs org (node_ID n) (with_node_groups f db) = listNodeGroupIDs org (node_ID n) db) →
  unseen db (with_node_groups f db).
Proof.
  intros Hf. apply unseen_inputs; [done| |].
  - intros id. by destruct (t_nodes (db_nodes db) !! id) eqn:E; cbn; rewrite E; constructor.
  - intros org id row Hl. split; [|done]. unfold groupsAt. by rewrite (Hf org id row).
Qed.
Lemma CreateNodeGroup_renewed E identity input db : well_named db → renewed db (NodeService.CreateNodeGroup E identity input db).2.
Proof.
  intros Hwn. unfold NodeService.CreateNodeGroup. destruct (negb _); [done|]. cbv zeta. apply serve_renewed. intros p db' Hr. tx_inv.
  keeps_rest unseen_tail. apply unseen_renewed.
  match goal with X : Database.CreateNodeGroup _ _ _ = _ |- _ => apply insertRow_ok in X as [Hnew ->] end.
  apply (unseen_groups (<[_ := _]>)). intros org k n _. by apply groups_with_new.
Qed.
Lemma UpdateNodeGroup_renewed E identity id input db : renewed db (NodeService.UpdateNodeGroup E identity id input db).2.
Proof.
  unfold NodeService.UpdateNodeGroup. destruct (negb _); [done|]. apply serve_renewed. intros p db' Hr. cbv zeta in Hr. tx_inv.
  apply FindNodeGroupByID_ok in E0 as [Hg ->]. keeps_rest unseen_tail. apply unseen_renewed.
  match goal with X : Database.UpdateNodeGroup _ _ _ = _ |- _ => apply updateRow_ok in X as (row & (Hrow & Ho & Hd)%findRow_some & ->) end.
  apply (unseen_groups (<[_ := _]>)). intros o k n. eapply groups_with_written; [exact Hrow|exact Ho|exact Hd|exact Ho|left; exact Hd].
Qed.
Lemma DeleteNodeGroup_renewed E identity id db : renewed db (NodeService.DeleteNodeGroup E identity id db).2.
Proof.
  unfold NodeService.DeleteNodeGroup. destruct (negb _); [done|]. apply serve_renewed. intros p db' Hr. cbv zeta in Hr. tx_inv.
  eapply unseen_tail; [|exact Hr|]; [keeps_tac|]. apply FindNodeGroupByID_ok in E0 as [_ ->].
  assert (keeps eq (ensureNoRulesForNodeGroup (id_OrganizationID identity) id)) as Hrules by (unfold ensureNoRulesForNodeGroup; keeps_tac).
  assert (keeps eq (ensureNoDNSInstancesForNodeGroup (id_OrganizationID identity) id)) as Hdns by (unfold ensureNoDNSInstancesForNodeGroup; keeps_tac).
  assert (keeps eq (ensureNoNodeEnrollmentProfilesForNodeGroup (id_OrganizationID identity) id)) as Hprof
    by (unfold ensureNoNodeEnrollmentProfilesForNodeGroup; keeps_tac).
  apply (keeps_eq _ _ _ _ Hrules) in E1 as ->. apply noNodesForGroup_ok in E2 as [-> Hnodes].
  apply (keeps_eq _ _ _ _ Hdns) in E3 as ->. apply (keeps_eq _ _ _ _ Hprof) in E4 as ->.
  apply updateRow_ok in E5 as (row & (Hrow & Ho & Hd)%findRow_some & ->). apply unseen_renewed.
  apply (unseen_groups (<[_ := _]>)). intros o k n. eapply groups_with_written; [exact Hrow|exact Ho|exact Hd|exact Ho|right].
  intros k' n' Hn. assert (loadNodeDetails db n' ∈ nodesOf (id_OrganizationID identity) db) as Hin
    by (apply elem_of_nodesOf; by exists k', n').
  apply Hnodes in Hin. pose proof (live_owner nodesTable _ _ _ _ Hn) as Ho'. cbn in Ho'. cbn in Hin. by rewrite Ho' in Hin.
Qed.

(** ** Nodes *)

Lemma touches_wrote row node db db' :
  db_dns db' = db_dns db → t_dns_publish_addresses (db_nodes db') = t_dns_publish_addresses (db_nodes db) →
  wrote_node row node db db' → touches (node_OrganizationID row) (node_ID row) db db'.
Proof.
  intros Hdns Haddr [_ _ Hn Hown Hg _ (Hid & Hd & _) [_ Hg2] _ _ _]. apply touches_intro; [done| |].
  - intros Hk k n. rewrite Hn. intros [[<- <-]|[_ Hr]]%lookup_insert_Some; [done|by apply Hk].
  - intros o k Hne. assert (live nodesTable o k db' = live nodesTable o k db) as El.
    { rewrite <-(live_elsewhere o k (node_ID row) row db) by done. unfold live. cbn [tbl_rows nodesTable]. by rewrite Hn. }
    split; [done|]. intros [r Hr]. destruct (decide (k = node_ID row)) as [->|Hk].
    + destruct Hne as [Hno|]; [|done]. apply findRow_some in Hr as (Hr & Ho & _). cbn in Hr, Ho.
      destruct Hno. rewrite <-Ho. by apply Hown.
    + unfold sameParts, groupsAt, addressesAt, ListNodeDNSPublishAddresses. by rewrite Hg2, Haddr.
Qed.
Lemma readdressed_manual E org id addresses now : keeps (readdressed org id) (ReplaceManualNodeDNSPublishAddresses E org id addresses now).
Proof.
  apply keeps_exec. intros db. split; [|done..]. apply touches_addresses. intros o k l Hne. apply select_other.
  - intros r [Ha _]%andb_true_iff. by eapply atNode_other.
  - intros r (i & x & _ & ->)%elem_of_imap. unfold manualAddress, ofNode. cbn. by rewrite !String.eqb_refl.
Qed.

Lemma unseen_incrementNode E org id now : keeps unseen (IncrementDesiredConfigForNode E org id now).
Proof. by apply unseen_updateNode. Qed.
#[local] Hint Resolve unseen_incrementNode : keeps.
Lemma unseen_membership E org node previous next now :
  keeps unseen (syncRuleDeploymentsForNodeMembershipChange E org node previous next now).
Proof. unfold syncRuleDeploymentsForNodeMembershipChange. keeps_tac. Qed.
Lemma unseen_configChange E org node now : keeps unseen (syncRuleDeploymentsForNodeConfigChange E org node now).
Proof. unfold syncRuleDeploymentsForNodeConfigChange. keeps_tac. Qed.
#[local] Hint Resolve unseen_membership unseen_configChange : keeps.

(** What writing a node leaves alone. *)
Definition leaves (db db' : database) : Prop :=
  db_dns db' = db_dns db ∧ t_dns_publish_addresses (db_nodes db') = t_dns_publish_addresses (db_nodes db).
Lemma CreateNode_leaves E node groups listens ranges now db u db' :
  Database.CreateNode E node groups listens ranges now db = Ok (u, db') → leaves db db'.
Proof.
  intros HC. unfold Database.CreateNode in HC. tx_inv. apply insertRow_ok in E0 as [_ ->].
  repeat match goal with X : _ = Ok (_, _) |- _ => apply exec_ok in X end. by subst.
Qed.
Lemma UpdateNode_leaves E node rg groups rl listens rp ranges now db u db' :
  Database.UpdateNode E node rg groups rl listens rp ranges now db = Ok (u, db') → leaves db db'.
Proof.
  intros HU. unfold Database.UpdateNode in HU. tx_inv. apply updateRow_ok in E0 as (row & _ & ->).
  apply when_groups in E1 as (fg & -> & _). apply when_listens in E2 as (fl & gl & -> & _). apply exec_ok in E3 as ->.
  by apply when_ranges in HU as (fr & gr & -> & _).
Qed.

Lemma readdressed_groups org id o k db db' : readdressed org id db db' → groupsAt o k db' = groupsAt o k db.
Proof. intros [_ _ Hg Hm]. by apply groupsAt_same. Qed.

Lemma createNode_renewed E identity input db r db' :
  well_named db → createNode E identity input db = Ok (r, db') → renewed db db'.
Proof.
  intros Hwn Hr. assert (keyed db) as Hk by (by apply well_named_keyed). unfold createNode in Hr. cbv zeta in Hr. tx_inv.
  keeps_rest unseen_tail. apply groupsExist_ok in E0 as [-> Hg]. unfold ListNodesByOrganization in E1. tx_inv.
  match goal with X : validateNodeSet _ _ _ = _ |- _ => apply validateNodeSet_ok in X as [-> _] end.
  set (node := newNode identity (env_newID E) input (env_now E)) in *.
  match goal with X : Database.CreateNode _ _ _ _ _ _ _ = Ok (_, ?s) |- _ =>
    destruct (CreateNode_leaves _ _ _ _ _ _ _ _ _ X) as [Hd Ha]; apply (CreateNode_wrote E node) in X as [Hw Hnew]; [|done|exact Hg] end.
  pose proof (touches_wrote _ _ _ _ Hd Ha Hw) as Ht. destruct Hw as [_ _ _ _ _ _ _ [Hhere _] _ _ _].
  match goal with X : ReplaceManualNodeDNSPublishAddresses _ _ _ _ _ ?s = _ |- _ => apply readdressed_manual in X; rename X into Hra end.
  match goal with X : markDNSRecordsDependingOnNodeGroupsPending _ _ _ _ ?s = _ |- _ => rename X into Hmark end.
  change (node_OrganizationID (insertedNode node)) with (id_OrganizationID identity) in *. change (node_ID (insertedNode node)) with (node_ID node) in *.
  assert (touches (id_OrganizationID identity) (node_ID node) db s3) as Ht' by (etransitivity; [exact Ht|apply Hra]).
  eapply touched_marked; [exact Hk|exact Ht'| | |exact Hmark].
  - rewrite inputs_at by done. unfold live, findRow. cbn [tbl_rows nodesTable]. by rewrite Hnew.
  - apply within_at; [by eapply to_keyed|]. by rewrite (readdressed_groups _ _ _ _ _ _ Hra).
Qed.
Lemma CreateNode_renewed E identity input db : well_named db → renewed db (NodeService.CreateNode E identity input db).2.
Proof.
  intros Hwn. unfold NodeService.CreateNode. destruct (negb _); [done|]. destruct (dataplaneInput _ _ _); [|done].
  destruct (_ && _); [done|]. destruct (ensureCanManageNodeGroups _ _); [|done].
  apply serve_renewed. intros r db'. by apply createNode_renewed.
Qed.

Lemma sameStringSet_elements l k : sameStringSet l k = true → ∀ x, x ∈ l ↔ x ∈ k.
Proof.
  unfold sameStringSet. intros E%bool_decide_eq_true x. by rewrite <-(elem_of_sort String.ltb x l), E, elem_of_sort.
Qed.

(** A node that was updated: what is seen of it is the same, or what depends
    on its groups, before and after, is marked. *)
Lemma updated_renewed E org nid (provided regrouped : bool) previous target node addresses now db db1 u db2 ids db3 row row' :
  keyed db → live nodesTable org nid db = Some row → previous = listNodeGroupIDs org nid db →
  wrote_node row' node db db1 → node_OrganizationID row' = org → node_ID row' = nid → upperStatus row' = upperStatus row →
  node_GroupIDs node = target → leaves db db1 →
  when provided (ReplaceManualNodeDNSPublishAddresses E org nid addresses now) db1 = Ok (u, db2) →
  (regrouped = false → ∀ g, g ∈ previous ↔ g ∈ target) →
  (if provided || regrouped
   then markDNSRecordsDependingOnNodeGroupsPending E org (mergeStringSets previous target) now else mret []) db2 = Ok (ids, db3) →
  renewed db db3.
Proof.
  intros Hk Hl Hprev Hw Ho Hid Hs Htarget [Hd Ha] Hra Hsame Hr.
  pose proof (touches_wrote _ _ _ _ Hd Ha Hw) as Ht. rewrite Ho, Hid in Ht.
  pose proof (wg_here _ _ _ _ _ (wn_part_groups _ _ _ _ Hw)) as Hhere. rewrite Ho, Hid, Htarget in Hhere.
  assert (readdressed org nid db1 db2 ∧ (provided = false → db2 = db1)) as [Hra' Hno].
  { destruct provided; cbn in Hra; [split; [by eapply readdressed_manual|done]|]. by apply ret_ok in Hra as [_ ->]. }
  assert (touches org nid db db2) as Ht2 by (etransitivity; [exact Ht|apply Hra']).
  assert (keyed db2) as Hk2 by (by eapply to_keyed).
  assert (groupsAt org nid db2 = list_to_set target) as Hg2 by (by rewrite (readdressed_groups _ _ _ _ _ _ Hra')).
  destruct (provided || regrouped) eqn:Eb.
  - eapply touched_marked; [exact Hk|exact Ht2| | |exact Hr]; apply within_sub; try done.
    + unfold groupsAt. rewrite <-Hprev. intros g. rewrite !elem_of_list_to_set, elem_of_mergeStringSets. by left.
    + rewrite Hg2. intros g. rewrite !elem_of_list_to_set, elem_of_mergeStringSets. by right.
  - apply orb_false_iff in Eb as [-> ->]. apply ret_ok in Hr as [_ ->]. rewrite (Hno eq_refl) in *. eapply unseen_renewed, touched_same; [done..|].
    rewrite !inputs_at, Hl by done.
    assert (live nodesTable org nid db1 = Some row') as ->.
    { unfold live, findRow. cbn [tbl_rows tbl_owner tbl_deleted nodesTable].
      rewrite (wn_row _ _ _ _ Hw), <-Hid, lookup_insert_eq. cbn. destruct (wn_identity _ _ _ _ Hw) as (_ & -> & _).
      by rewrite Ho, String.eqb_refl. }
    cbn. unfold inputAt. rewrite Hs, Hg2. unfold addressesAt, ListNodeDNSPublishAddresses. rewrite Ha. do 3 f_equal.
    unfold groupsAt. rewrite <-Hprev. apply set_eq. intros g. rewrite !elem_of_list_to_set. symmetry. by apply Hsame.
Qed.

Lemma updateNode_renewed E identity nodeID input db r db' :
  well_named db → updateNode E identity nodeID input db = Ok (r, db') → renewed db db'.
Proof.
  intros Hwn Hr. assert (keyed db) as Hk by (by apply well_named_keyed). unfold updateNode in Hr. cbv zeta in Hr. tx_inv.
  keeps_rest unseen_tail.
  apply FindNodeByID_ok in E0 as (-> & row & Hlive & ->). apply targetGroups_ok in E2 as [-> Hg].
  pose proof (live_owner nodesTable _ _ _ _ Hlive) as Ho. cbn in Ho.
  unfold ListNodesByOrganization in E3. tx_inv. apply validateNodeSet_ok in E4 as [-> _].
  pose proof Hlive as (Hrow & _ & _)%findRow_some. pose proof (Hk _ _ Hrow) as Hid.
  set (node := changedNode (loadNodeDetails db row) input _) in *.
  match goal with X : Database.UpdateNode _ _ _ _ _ _ _ _ _ _ = Ok (_, ?s) |- _ =>
    rename X into Hup; pose proof (UpdateNode_leaves _ _ _ _ _ _ _ _ _ _ _ _ Hup) as Hleaves end.
  match type of Hup with Database.UpdateNode _ ?n _ ?g _ _ _ _ _ _ = _ => change g with (node_GroupIDs n) in Hup end.
  apply (UpdateNode_wrote E (node <| node_UpdatedAt := env_now E |>)) in Hup as (old & Hold & Hw);
    [|done| |cbn; by destruct (nin_ListenIPsProvided input)|cbn; by destruct (nin_PortRangesProvided input)].
  2:{ rewrite <-Ho in Hg. change (node_GroupIDs (loadNodeDetails db row)) with (listNodeGroupIDs (node_OrganizationID row) (node_ID row) db) in Hg.
      by destruct (nin_GroupIDsProvided input); exact Hg. }
  pose proof Hold as (Hold' & _)%findRow_some. change (t_nodes (db_nodes db) !! node_ID row = Some old) in Hold'.
  rewrite Hid in Hold'. cbn in Hrow. rewrite Hrow in Hold'. apply (inj Some) in Hold' as <-.
  match goal with X : when _ (ReplaceManualNodeDNSPublishAddresses _ _ _ _ _) _ = _ |- _ => rename X into Hra end.
  match goal with X : (if _ || _ then _ else _) _ = Ok _ |- _ => rename X into Hmark end.
  change (node_ID (node <| node_UpdatedAt := env_now E |>)) with (node_ID row) in Hra. rewrite Hid in Hra.
  change (node_GroupIDs (loadNodeDetails db row)) with (listNodeGroupIDs (node_OrganizationID row) (node_ID row) db) in *.
  rewrite Ho, Hid in *.
  eapply (updated_renewed E _ nodeID (nin_DNSPublishAddressesProvided input)); [exact Hk|exact Hlive|reflexivity|exact Hw|exact Ho|exact Hid
    |reflexivity|reflexivity|exact Hleaves|exact Hra| |exact Hmark].
  intros Hsame. destruct (nin_GroupIDsProvided input).
  - apply negb_false_iff in Hsame. change (node_GroupIDs (node <| node_UpdatedAt := env_now E |>)) with a1. by apply sameStringSet_elements.
  - change (node_GroupIDs (node <| node_UpdatedAt := env_now E |>)) with a1. by rewrite Hg.
Qed.
Lemma UpdateNode_renewed E identity nodeID input db : well_named db → renewed db (NodeService.UpdateNode E identity nodeID input db).2.
Proof.
  intros Hwn. unfold NodeService.UpdateNode. destruct (negb _); [done|]. destruct (dataplaneInput _ _ _); [|done].
  apply serve_renewed. intros r db'. by apply updateNode_renewed.
Qed.

Context {FS : FoldSymmetric}.

Lemma unseen_revokeCredential E org id now : keeps unseen (RevokeCredential E org id now).
Proof. unfold RevokeCredential. keeps_tac. Qed.
Lemma unseen_decrement E org id now : keeps unseen (DecrementNodeEnrollmentProfileUsedCount E org id now).
Proof. unfold DecrementNodeEnrollmentProfileUsedCount. keeps_tac. Qed.
#[local] Hint Resolve unseen_revokeCredential unseen_decrement : keeps.

(** A node that is gone, and what depended on its groups. *)
Lemma deleted_renewed E org nid groups deletedAt db u db1 ids db2 :
  keyed db → deletedAt ≠ "" → within (list_to_set groups) (dnsInputs org db !! nid) →
  Database.DeleteNode E org nid deletedAt db = Ok (u, db1) →
  markDNSRecordsDependingOnNodeGroupsPending E org groups deletedAt db1 = Ok (ids, db2) → renewed db db2.
Proof.
  intros Hk Hne Hw HD Hr.
  assert (∀ n : NodeRecord, let f n := n <| node_DeletedAt := deletedAt |> <| node_UpdatedAt := deletedAt |> in
    node_ID (f n) = node_ID n ∧ node_OrganizationID (f n) = node_OrganizationID n) as Hf by done.
  destruct (touches_updateRow _ _ _ _ _ _ _ Hf Hk HD) as (Ht & row & Hl & ->).
  eapply touched_marked; [exact Hk|exact Ht|exact Hw| |exact Hr]. rewrite inputs_at by (by eapply to_keyed).
  rewrite (updated_live org nid _ row db Hf Hl).
  change (node_DeletedAt (row <| node_DeletedAt := deletedAt |> <| node_UpdatedAt := deletedAt |>)) with deletedAt.
  destruct (String.eqb_spec deletedAt "") as [|_]; done.
Qed.

Lemma found_within org nid row db :
  keyed db → live nodesTable org nid db = Some row →
  within (list_to_set (node_GroupIDs (loadNodeDetails db row))) (dnsInputs org db !! nid).
Proof.
  intros Hk Hl. apply within_at; [done|]. pose proof (live_owner nodesTable _ _ _ _ Hl) as Ho. cbn in Ho.
  apply findRow_some in Hl as (Hrow & _). unfold groupsAt. by rewrite <-Ho, <-(Hk _ _ Hrow).
Qed.
Lemma deleteEnrolledNode_renewed E org id now db ids db' :
  keyed db → now ≠ "" → deleteEnrolledNode E org id now db = Ok (ids, db') → renewed db db'.
Proof.
  intros Hk Hnow Hr. unfold deleteEnrolledNode in Hr. tx_inv. apply attempt_find in E0 as [-> Hnode].
  destruct a as [n|]; tx_inv; [|done]. destruct (Hnode n eq_refl) as (row & Hl & ->).
  unfold ListNodesByOrganization in E0. tx_inv. apply validateNodeSet_ok in E1 as [-> _].
  apply attempt_ok in E2 as [(u & _ & E2)|(_ & -> & _)].
  { eapply deleted_renewed; [exact Hk|exact Hnow| |exact E2|exact Hr]. by apply found_within. }
  eapply touched_marked; [exact Hk|reflexivity| | |exact Hr]; by apply found_within.
Qed.

Lemma release_renewed E auth now db ids (released : bool) db' :
  well_named db → now ≠ "" → releaseAgentRegistrationCredentialInTx E auth now db = Ok ((ids, released), db') →
  renewed db db' ∧ (released = false → unseen db db').
Proof.
  intros Hwn Hnow Hr. unfold releaseAgentRegistrationCredentialInTx in Hr. cbv zeta in Hr. tx_inv.
  assert (quiet db s) as Hs by (eapply (keeps_attempt quiet); [apply quiet_revokeCredential|exact E0]).
  assert (unseen db s) as Hu by (eapply (keeps_attempt unseen); [apply unseen_revokeCredential|exact E0]).
  assert (keyed s) as Hk by (apply well_named_keyed; by eapply q_named).
  destruct (String.eqb (auth_EnrollmentProfileID auth) "").
  { tx_inv. by split; [apply unseen_renewed|]. }
  tx_inv.
  assert (renewed s s0 ∧ (a = None → s0 = s)) as [Hc Hn].
  { destruct (isSome a && _) eqn:Ea.
    - apply andb_true_iff in Ea as [Ea _]. split; [|by intros ->]. by eapply deleteEnrolledNode_renewed.
    - by tx_inv. }
  assert (unseen s0 db' ∧ released = isSome a) as [Hq ->].
  { assert (unseen s0 s1) as H01 by (eapply (keeps_attempt unseen); [|exact E2]; keeps_tac).
    destruct a1 as [profile|]; tx_inv; [|by simplify_eq].
    split; [|by simplify_eq]. etransitivity; [exact H01|].
    assert (∀ b : bool, keeps unseen (if b then attempt (DecrementNodeEnrollmentProfileUsedCount E (auth_OrganizationID auth)
      (auth_EnrollmentProfileID auth) now);; mret tt else mret tt)) as Hk' by (intros b; keeps_tac).
    by eapply Hk'. }
  split.
  - etransitivity; [by apply unseen_renewed|]. etransitivity; [exact Hc|by apply unseen_renewed].
  - intros Ha. destruct a; [done|]. rewrite (Hn eq_refl) in Hq. by etransitivity.
Qed.
Lemma releasePending_renewed E node now db ids (released : bool) db' :
  well_named db → now ≠ "" → releasePendingNodeEnrollmentForNode E node now db = Ok ((ids, released), db') →
  renewed db db' ∧ (released = false → unseen db db').
Proof.
  intros Hwn Hnow Hr. unfold releasePendingNodeEnrollmentForNode in Hr. destruct (String.eqb _ ""); tx_inv; [done|].
  unfold ListPendingCredentialsByEnrollmentProfile in E0. tx_inv.
  destruct (List.find _ _); [by eapply release_renewed|by tx_inv].
Qed.

Lemma deleteNode_renewed E identity nodeID db ids db' :
  env_now E ≠ "" → well_named db → deleteNode E identity nodeID db = Ok (ids, db') → renewed db db'.
Proof.
  intros Hnow Hwn Hr. assert (keyed db) as Hk by (by apply well_named_keyed). unfold deleteNode in Hr. cbv zeta in Hr. tx_inv.
  apply FindNodeByID_ok in E0 as (-> & row & Hlive & ->).
  unfold ListNodesByOrganization in E2. tx_inv. apply validateNodeSet_ok in E3 as [-> _].
  match goal with X : releasePendingNodeEnrollmentForNode _ _ _ _ = Ok (?p, ?s) |- _ =>
    destruct p as [dns released]; pose proof (releasePending_ok _ _ _ _ _ _ _ Hnow X) as [_ Hquiet];
    apply releasePending_renewed in X as [Hren Hun]; [|done|done] end.
  destruct released; tx_inv; [keeps_rest unseen_tail; done|].
  specialize (Hun eq_refl). specialize (Hquiet eq_refl). keeps_rest unseen_tail.
  etransitivity; [exact Hren|].
  match goal with X : Database.DeleteNode _ _ _ _ _ = Ok _, Y : markDNSRecordsDependingOnNodeGroupsPending _ _ _ _ _ = Ok _ |- _ =>
    eapply deleted_renewed; [|exact Hnow| |exact X|exact Y] end.
  - apply well_named_keyed. by eapply q_named.
  - rewrite (un_inputs _ _ Hun). by apply found_within.
Qed.
Lemma DeleteNode_renewed E identity nodeID db : env_now E ≠ "" → well_named db → renewed db (NodeService.DeleteNode E identity nodeID db).2.
Proof.
  intros Hnow Hwn. unfold NodeService.DeleteNode. destruct (negb _); [done|]. apply serve_renewed. intros ids db'. by apply deleteNode_renewed.
Qed.

(** ** Every call *)

Context {NC : NoCollision}.

Lemma served_renewed c db : sane c → well_named db → renewed db (served db c).
Proof.
  intros Hs Hwn. destruct c; cbn [sane served] in *.
  - apply unseen_renewed, CreateRule_unseen.
  - by rewrite GetRule_reads.
  - by rewrite ListRules_reads.
  - apply unseen_renewed, UpdateRule_unseen.
  - apply unseen_renewed, DeleteRule_unseen.
  - apply unseen_renewed, setRuleEnabled_unseen.
  - apply unseen_renewed, setRuleEnabled_unseen.
  - apply unseen_renewed, CopyRule_unseen.
  - apply unseen_renewed, BatchRules_unseen.
  - by apply CreateNodeGroup_renewed.
  - apply UpdateNodeGroup_renewed.
  - apply DeleteNodeGroup_renewed.
  - by apply CreateNode_renewed.
  - by apply UpdateNode_renewed.
  - by apply DeleteNode_renewed.
  - apply unseen_renewed, CreateTarget_unseen.
  - apply unseen_renewed, UpdateTarget_unseen.
  - apply unseen_renewed, DeleteTarget_unseen.
  - apply unseen_renewed, CreateTargetGroup_unseen.
  - apply unseen_renewed, UpdateTargetGroup_unseen.
  - apply unseen_renewed, DeleteTargetGroup_unseen.
  - by apply agentServed_renewed, well_named_keyed.
Qed.
Lemma history_renewed calls db : Forall sane calls → consistent db → renewed db (foldl served db calls).
Proof.
  intros Hc. revert db. induction Hc as [|c l Hc Hl IH]; intros db Hdb; cbn; [done|].
  etransitivity; [by apply served_renewed, Hdb|]. by apply IH, served_consistent.
Qed.

(** C14. Whatever calls of the rule, node and target services are served and whatever agents report, a managed DNS record
    that is live afterwards is asked to be evaluated again, or is being deleted, or it is the row that it was and
    its evaluation, with the instance that is active, the values and the diagnostics, is what it was: a change of
    nodes never leaves an outdated record unmarked. *)
Theorem dns_policies_follow_nodes calls db org id row :
  Forall sane calls → consistent db → dns_named db →
  live dnsRecordsTable org id (foldl served db calls) = Some row →
  isPending row ∨
  (live dnsRecordsTable org id db = Some row ∧ evaluation org row (foldl served db calls) = evaluation org row db).
Proof. intros Hc Hdb Hn Hl. by eapply (history_renewed calls db). Qed.
End history.

(** ** A disconnection

    A record answers an address as long as a node of a group is online, another
    record uses its output, and a third does not depend on nodes of the group. *)
Module HistoryExamples.
Import DeliveryExamples.
Definition example_instance (id record : string) (groups : list string) (condition : option jsonValue) (action : dnsPolicyAction)
    : DNSInstanceRecord := {|
  inst_ID := id; inst_OrganizationID := "o1"; inst_ManagedRecordID := record; inst_Name := id; inst_Priority := 10;
  inst_Enabled := true; inst_NodeGroupIDsJSON := groups; inst_AnswerCount := -1; inst_ConditionJSON := condition;
  inst_ActionJSON := Ok action; inst_NotificationChannelIDsJSON := []; inst_LastOutputValuesJSON := [];
  inst_LastStatus := ""; inst_LastDiagnosticsJSON := []; inst_LastEvaluatedAt := ""; inst_CreatedAt := "";
  inst_UpdatedAt := ""; inst_DeletedAt := "" |}.
Definition example_record (id : string) : DNSManagedRecordRecord := {|
  drec_ID := id; drec_OrganizationID := "o1"; drec_DNSCredentialID := "c1"; drec_CredentialZoneID := ""; drec_ZoneID := "z1";
  drec_ZoneName := "example.net"; drec_RecordHost := id; drec_RecordName := id ++ ".example.net"; drec_RecordType := "A";
  drec_TTL := 60; drec_Proxied := false; drec_ActiveInstanceID := ""; drec_LastAppliedValuesJSON := ["192.0.2.1"];
  drec_ProviderRetirementsJSON := "[]"; drec_LastEvaluationStatus := "APPLIED"; drec_LastEvaluationError := "";
  drec_LastDiagnosticsJSON := []; drec_LastEvaluatedAt := ""; drec_LastAppliedAt := ""; drec_CreatedAt := "";
  drec_UpdatedAt := ""; drec_DeletedAt := ""; drec_Instances := [] |}.
Definition whileOnline : jsonValue := JObject [("metric", JString "online_node_count"); ("comparator", JString ">");
  ("value", JNumber (f64_of_Z 0))]%string.
Definition static : dnsPolicyAction :=
  {| act_Type := "SET_STATIC_A"; act_Values := ["192.0.2.1"]; act_Value := ""; act_InstanceID := "" |}.
Definition dns_database : database := with_dns (λ _, {|
  t_dns_managed_records := {["www" := example_record "www"; "alias" := example_record "alias"; "other" := example_record "other"]};
  t_dns_instances := {[
    "i1" := example_instance "i1" "www" ["g1"] (Some whileOnline) static;
    "i2" := example_instance "i2" "alias" ["g2"] (Some (JObject []))
      {| act_Type := "USE_INSTANCE_OUTPUT"; act_Values := []; act_Value := ""; act_InstanceID := "i1" |};
    "i3" := example_instance "i3" "other" ["g2"] (Some (JObject [])) static]} |}) example_database.

Lemma dns_database_consistent : consistent dns_database.
Proof. apply (quiet_consistent example_database); [by apply quiet_same|exact example_consistent]. Qed.
Lemma dns_database_named : dns_named dns_database.
Proof.
  split; cbn [db_dns dns_database with_dns t_dns_instances t_dns_managed_records].
  - intros id i. rewrite !lookup_insert_Some, lookup_singleton_Some. naive_solver.
  - intros id r. rewrite !lookup_insert_Some, lookup_singleton_Some. naive_solver.
Qed.

Definition disconnection : list call := [CallAgent (CallDisconnected (example_env "") "o1" "n1")].
Lemma dns_policies_follow_nodes_witness :
  map (λ id, drec_LastEvaluationStatus <$> live dnsRecordsTable "o1" id (foldl served dns_database disconnection))
    ["www"; "alias"; "other"] = [Some "PENDING"; Some "PENDING"; Some "APPLIED"] ∧
  ∃ row, live dnsRecordsTable "o1" "other" (foldl served dns_database disconnection) = Some row ∧
  (isPending row ∨ (live dnsRecordsTable "o1" "other" dns_database = Some row ∧
    evaluation "o1" row (foldl served dns_database disconnection) = evaluation "o1" row dns_database)).
Proof.
  split; [vm_compute; reflexivity|].
  destruct (live dnsRecordsTable "o1" "other" (foldl served dns_database disconnection)) as [row|] eqn:E.
  - exists row. split; [reflexivity|]. apply (dns_policies_follow_nodes disconnection dns_database "o1" "other" row);
      [repeat constructor|exact dns_database_consistent|exact dns_database_named|exact E].
  - exfalso. vm_compute in E. discriminate E.
Defined.
End HistoryExamples.
